(** * GTFS-RT poller: a shallow embedding of [poll_to_postgres.py]

    The development follows the ingestion entry point of the poller:
    feed classification, the dimension resolver ([DimLookup]) with its CSV
    fallback, the three writers, the poll cycle ([run_iteration]) with its
    failure tracking, and the maintenance gates of the polling loop
    ([main]).

    Conventions of the embedding.
    - Python dictionaries and sets are stdpp's [gmap] and [gset]; a
      dictionary whose insertion order is observable is an association
      list updated in place ([dict_set]).
    - Identifiers (trip, route, stop, entity, alert ids, URLs) are strings,
      held as the bytes of their UTF-8 encoding; [option string] is a
      value that may be [None].  Python truthiness of such a value is
      [truthy].
    - Instants are integers (epoch seconds), calendar days are integers
      (day ordinals), a time of day is a number of seconds after midnight.
    - A database table is a finite map from its primary key to the
      remaining columns.  The connection keeps the committed database and
      the working copy of the open transaction.  A statement acts as it
      does when the database accepts it; that the database refuses a
      statement of a cycle, for a reason that is not the primary key, is
      the error of the stage that the cycle takes from its environment
      ([cy_db_fault]).
    - Floating point payload (latitude, longitude) and the vehicle's own
      timestamp are copied through by the writers and take no part in any
      decision; the row records of the embedding leave them out. *)

From stdpp Require Import gmap strings list fin_maps sorting.
From Stdlib Require Import ZArith Ascii String.

Local Open Scope string_scope.
Local Open Scope Z_scope.

(** ** Python-level helpers *)

(** Truthiness of an [str | None] value: [None] and the empty string are
    falsy. *)
Definition truthy (o : option string) : bool :=
  match o with
  | None => false
  | Some s => negb (String.eqb s "")
  end.

(** ASCII lower-casing, as [str.lower] acts on the characters of a URL. *)
Definition ascii_lower (c : ascii) : ascii :=
  let n := nat_of_ascii c in
  if (Nat.leb 65 n && Nat.leb n 90)%bool then ascii_of_nat (n + 32) else c.

Fixpoint lower (s : string) : string :=
  match s with
  | EmptyString => EmptyString
  | String c rest => String (ascii_lower c) (lower rest)
  end.

Fixpoint starts_with (needle hay : string) : bool :=
  match needle, hay with
  | EmptyString, _ => true
  | String a n', String b h' => Ascii.eqb a b && starts_with n' h'
  | String _ _, EmptyString => false
  end.

(** [needle in hay] on strings. *)
Fixpoint contains (needle hay : string) : bool :=
  starts_with needle hay
  || match hay with
     | EmptyString => false
     | String _ rest => contains needle rest
     end.

(** A dictionary that remembers insertion order: assigning to an existing
    key replaces the value where it stands, a new key goes to the end. *)
Fixpoint dict_set {K V : Type} `{EqDecision K}
    (k : K) (v : V) (d : list (K * V)) : list (K * V) :=
  match d with
  | [] => [(k, v)]
  | (k', v') :: rest =>
      if decide (k = k') then (k, v) :: rest else (k', v') :: dict_set k v rest
  end.

Definition dict_values {K V : Type} (d : list (K * V)) : list V := d.*2.

(** ** Decoded feed messages *)

Inductive FeedType := VEHICLE_POSITIONS | TRIP_UPDATES | ALERTS.

#[global] Instance FeedType_eq_dec : EqDecision FeedType.
Proof. solve_decision. Defined.

Definition FeedType_to_nat (t : FeedType) : nat :=
  match t with VEHICLE_POSITIONS => 0 | TRIP_UPDATES => 1 | ALERTS => 2 end.

Definition FeedType_of_nat (n : nat) : option FeedType :=
  match n with
  | O => Some VEHICLE_POSITIONS
  | S O => Some TRIP_UPDATES
  | S (S O) => Some ALERTS
  | _ => None
  end.

#[global] Program Instance FeedType_countable : Countable FeedType :=
  inj_countable FeedType_to_nat FeedType_of_nat _.
Next Obligation. by intros []. Qed.

(** The [value] of the enumeration, which is what the cursor table stores. *)
Definition FeedType_value (t : FeedType) : string :=
  match t with
  | VEHICLE_POSITIONS => "vehicle_positions"
  | TRIP_UPDATES => "trip_updates"
  | ALERTS => "alerts"
  end.

(** [FeedType(text)]: [None] stands for the [ValueError]. *)
Definition FeedType_of_value (s : string) : option FeedType :=
  if String.eqb s "vehicle_positions" then Some VEHICLE_POSITIONS
  else if String.eqb s "trip_updates" then Some TRIP_UPDATES
  else if String.eqb s "alerts" then Some ALERTS
  else None.

Record VehiclePayload := {
  vp_vehicle_id : option string;      (* vehicle.vehicle.id *)
  vp_vehicle_label : option string;   (* vehicle.vehicle.label *)
  vp_trip_id : option string;         (* vehicle.trip.trip_id *)
  vp_stop_id : option string;         (* vehicle.stop_id *)
  vp_current_status : option string   (* vehicle.current_status *)
}.

Record StopTimeUpdate := {
  stu_stop_id : option string;
  stu_arrival_time : option Z;
  stu_arrival_delay : option Z;
  stu_departure_time : option Z;
  stu_departure_delay : option Z;
  stu_schedule_relationship : option string
}.

Record TripUpdatePayload := {
  tu_trip_id : option string;
  tu_schedule_relationship : option string;
  tu_stop_time_update : list StopTimeUpdate
}.

Record Translation := {
  tr_language : option string;
  tr_text : option string
}.

Record ActivePeriod := {
  ap_start : option Z;
  ap_end : option Z
}.

Record InformedEntity := {
  ie_route_id : option string;
  ie_stop_id : option string;
  ie_trip_id : option string
}.

Record AlertPayload := {
  al_translations : list Translation;
  al_active_period : list ActivePeriod;
  al_effect : option string;
  al_cause : option string;
  al_informed_entity : list InformedEntity
}.

(** One entity of a feed message; [HasField] is [is_Some] of the payload. *)
Record FeedEntity := {
  fe_id : string;
  fe_vehicle : option VehiclePayload;
  fe_trip_update : option TripUpdatePayload;
  fe_alert : option AlertPayload
}.

(** The header timestamp of the wire format is an unsigned integer that
    reads 0 when it was not set. *)
Record FeedMessage := {
  msg_header_timestamp : Z;
  msg_entity : list FeedEntity
}.

Record FeedEnvelope := {
  env_url : string;
  env_feed_type : FeedType;
  env_message : FeedMessage;
  env_header_timestamp : option Z
}.

(** ** FeedClassifier *)

Definition classify_by_url (url : string) : option FeedType :=
  let url_lower := lower url in
  if contains "vehicle" url_lower then Some VEHICLE_POSITIONS
  else if contains "trip" url_lower then Some TRIP_UPDATES
  else if contains "alert" url_lower then Some ALERTS
  else None.

(** The entity loop of [classify_feed]; [None] means the loop ran to its
    end without returning. *)
Fixpoint classify_entities (entities : list FeedEntity) : option FeedType :=
  match entities with
  | [] => None
  | entity :: rest =>
      if bool_decide (is_Some (fe_vehicle entity)) then Some VEHICLE_POSITIONS
      else if bool_decide (is_Some (fe_trip_update entity)) then Some TRIP_UPDATES
      else if bool_decide (is_Some (fe_alert entity)) then Some ALERTS
      else classify_entities rest
  end.

(** [classify_feed]; [None] is the [ValueError] "Unable to classify feed
    type". *)
Definition classify_feed (url : string) (message : FeedMessage) : option FeedType :=
  match classify_entities (msg_entity message) with
  | Some t => Some t
  | None => classify_by_url url
  end.

(** The decision order in the words of the specification: any vehicle
    payload, else any trip update, else any alert, else the URL. *)
Definition classify_feed_any_entity (url : string) (message : FeedMessage)
    : option FeedType :=
  if existsb (fun e => bool_decide (is_Some (fe_vehicle e))) (msg_entity message)
  then Some VEHICLE_POSITIONS
  else if existsb (fun e => bool_decide (is_Some (fe_trip_update e))) (msg_entity message)
  then Some TRIP_UPDATES
  else if existsb (fun e => bool_decide (is_Some (fe_alert e))) (msg_entity message)
  then Some ALERTS
  else classify_by_url url.

(** [fetch_single_feed] after the download: [None] is an exception of the
    classifier. A header timestamp of 0 is normalised to [None]. *)
Definition fetch_single_feed (url : string) (message : FeedMessage)
    : option FeedEnvelope :=
  let header_timestamp :=
    if Z.eqb (msg_header_timestamp message) 0 then None
    else Some (msg_header_timestamp message) in
  match classify_feed url message with
  | None => None
  | Some feed_type =>
      Some {| env_url := url;
              env_feed_type := feed_type;
              env_message := message;
              env_header_timestamp := header_timestamp |}
  end.

(** [_header_is_stale] *)
Definition _header_is_stale (header previous : option Z) : bool :=
  match header, previous with
  | Some h, Some p => Z.leb h p
  | _, _ => false
  end.

(** ** Sorting, as [sorted] and [list.sort] do it

    A stable insertion sort: an element goes after the elements that do not
    compare greater, so elements with equal keys keep their order. *)
Fixpoint insert_sorted {A : Type} (lt : A → A → bool) (x : A) (l : list A) : list A :=
  match l with
  | [] => [x]
  | y :: rest => if lt x y then x :: y :: rest else y :: insert_sorted lt x rest
  end.

Definition sorted_by {A : Type} (lt : A → A → bool) (l : list A) : list A :=
  foldl (fun acc x => insert_sorted lt x acc) [] l.

(** ** Reference data (read only for the poller) *)

Record StopTimeEntry := {
  stop_sequence : Z;
  stop_id : string;
  arrival_seconds : option Z;
  departure_seconds : option Z
}.

Definition entry_lt (a b : StopTimeEntry) : bool :=
  Z.ltb (stop_sequence a) (stop_sequence b).

(** The dimension tables.  [dim_trips] maps a trip to its (nullable) route;
    a row of [dim_stop_times] is a trip id with its timetable entry. *)
Record StaticData := {
  dim_routes : gset string;
  dim_trips : gmap string (option string);
  dim_stops : gset string;
  dim_stop_times : list (string * StopTimeEntry)
}.

(** [SELECT ... FROM dim_stop_times WHERE trip_id = %s ORDER BY stop_sequence] *)
Definition select_stop_times (sd : StaticData) (trip_id : string) : list StopTimeEntry :=
  sorted_by entry_lt
    (snd <$> filter (fun row => row.1 = trip_id) (dim_stop_times sd)).

(** A row of the fallback CSV after its fields were read: the stop sequence
    is [None] when the cell is empty or is no integer, times are already
    converted by [_time_to_seconds]. *)
Record CsvRow := {
  csv_trip_id : option string;
  csv_stop_sequence : option Z;
  csv_stop_id : option string;
  csv_arrival_seconds : option Z;
  csv_departure_seconds : option Z
}.

(** The CSV file: [None] when the path does not exist. *)
Definition CsvFile := option (list CsvRow).

Record StopTimesCsvFallback := {
  fb_cache : gmap string (list StopTimeEntry);
  fb_misses : gset string
}.

Definition StopTimesCsvFallback_init : StopTimesCsvFallback :=
  {| fb_cache := ∅; fb_misses := ∅ |}.

(** The row loop of [StopTimesCsvFallback.get_profile]. *)
Fixpoint csv_profile_rows (trip_id : string) (rows : list CsvRow) : list StopTimeEntry :=
  match rows with
  | [] => []
  | row :: rest =>
      if bool_decide (csv_trip_id row = Some trip_id) then
        match csv_stop_sequence row, csv_stop_id row with
        | Some seq, Some sid =>
            if String.eqb sid "" then csv_profile_rows trip_id rest
            else {| stop_sequence := seq;
                    stop_id := sid;
                    arrival_seconds := csv_arrival_seconds row;
                    departure_seconds := csv_departure_seconds row |}
                 :: csv_profile_rows trip_id rest
        | _, _ => csv_profile_rows trip_id rest
        end
      else csv_profile_rows trip_id rest
  end.

Definition fallback_get_profile (file : CsvFile) (trip_id : string)
    (fb : StopTimesCsvFallback) : list StopTimeEntry * StopTimesCsvFallback :=
  match fb_cache fb !! trip_id with
  | Some profile => (profile, fb)
  | None =>
      if bool_decide (trip_id ∈ fb_misses fb) then ([], fb)
      else
        match file with
        | None =>
            ([], {| fb_cache := fb_cache fb; fb_misses := {[trip_id]} ∪ fb_misses fb |})
        | Some rows =>
            let profile := csv_profile_rows trip_id rows in
            match profile with
            | [] =>
                ([], {| fb_cache := fb_cache fb;
                        fb_misses := {[trip_id]} ∪ fb_misses fb |})
            | _ :: _ =>
                let profile := sorted_by entry_lt profile in
                (profile, {| fb_cache := <[trip_id := profile]> (fb_cache fb);
                             fb_misses := fb_misses fb |})
            end
        end
  end.

(** ** DimensionResolver ([DimLookup]) *)

Record DimLookup := {
  _trip_routes : gmap string (option string);
  _trip_profiles : gmap string (list StopTimeEntry);
  _trip_exists : gmap string bool;
  _route_exists : gmap string bool;
  _stop_exists : gmap string bool;
  _stop_times_fallback : option StopTimesCsvFallback;
  missing_trip : gset string;
  missing_route : gset string;
  missing_stop : gset string
}.

(** What the resolver reads: the dimension tables, and the CSV file when a
    fallback path was configured. *)
Record Reference := {
  ref_static : StaticData;
  ref_csv : CsvFile
}.

(** [DimLookup(conn, stop_times_csv=...)]; the flag tells whether a CSV path
    was given. *)
Definition DimLookup_init (with_csv : bool) : DimLookup :=
  {| _trip_routes := ∅; _trip_profiles := ∅; _trip_exists := ∅;
     _route_exists := ∅; _stop_exists := ∅;
     _stop_times_fallback := if with_csv then Some StopTimesCsvFallback_init else None;
     missing_trip := ∅; missing_route := ∅; missing_stop := ∅ |}.

Definition with_trip_routes (m : gmap string (option string)) (lk : DimLookup) :=
  {| _trip_routes := m; _trip_profiles := _trip_profiles lk;
     _trip_exists := _trip_exists lk; _route_exists := _route_exists lk;
     _stop_exists := _stop_exists lk;
     _stop_times_fallback := _stop_times_fallback lk;
     missing_trip := missing_trip lk; missing_route := missing_route lk;
     missing_stop := missing_stop lk |}.

Definition with_trip_profiles (m : gmap string (list StopTimeEntry)) (lk : DimLookup) :=
  {| _trip_routes := _trip_routes lk; _trip_profiles := m;
     _trip_exists := _trip_exists lk; _route_exists := _route_exists lk;
     _stop_exists := _stop_exists lk;
     _stop_times_fallback := _stop_times_fallback lk;
     missing_trip := missing_trip lk; missing_route := missing_route lk;
     missing_stop := missing_stop lk |}.

Definition with_trip_exists (m : gmap string bool) (lk : DimLookup) :=
  {| _trip_routes := _trip_routes lk; _trip_profiles := _trip_profiles lk;
     _trip_exists := m; _route_exists := _route_exists lk;
     _stop_exists := _stop_exists lk;
     _stop_times_fallback := _stop_times_fallback lk;
     missing_trip := missing_trip lk; missing_route := missing_route lk;
     missing_stop := missing_stop lk |}.

Definition with_route_exists (m : gmap string bool) (lk : DimLookup) :=
  {| _trip_routes := _trip_routes lk; _trip_profiles := _trip_profiles lk;
     _trip_exists := _trip_exists lk; _route_exists := m;
     _stop_exists := _stop_exists lk;
     _stop_times_fallback := _stop_times_fallback lk;
     missing_trip := missing_trip lk; missing_route := missing_route lk;
     missing_stop := missing_stop lk |}.

Definition with_stop_exists (m : gmap string bool) (lk : DimLookup) :=
  {| _trip_routes := _trip_routes lk; _trip_profiles := _trip_profiles lk;
     _trip_exists := _trip_exists lk; _route_exists := _route_exists lk;
     _stop_exists := m;
     _stop_times_fallback := _stop_times_fallback lk;
     missing_trip := missing_trip lk; missing_route := missing_route lk;
     missing_stop := missing_stop lk |}.

Definition with_fallback (fb : option StopTimesCsvFallback) (lk : DimLookup) :=
  {| _trip_routes := _trip_routes lk; _trip_profiles := _trip_profiles lk;
     _trip_exists := _trip_exists lk; _route_exists := _route_exists lk;
     _stop_exists := _stop_exists lk;
     _stop_times_fallback := fb;
     missing_trip := missing_trip lk; missing_route := missing_route lk;
     missing_stop := missing_stop lk |}.

Definition add_missing_trip (k : string) (lk : DimLookup) :=
  {| _trip_routes := _trip_routes lk; _trip_profiles := _trip_profiles lk;
     _trip_exists := _trip_exists lk; _route_exists := _route_exists lk;
     _stop_exists := _stop_exists lk;
     _stop_times_fallback := _stop_times_fallback lk;
     missing_trip := {[k]} ∪ missing_trip lk; missing_route := missing_route lk;
     missing_stop := missing_stop lk |}.

Definition add_missing_route (k : string) (lk : DimLookup) :=
  {| _trip_routes := _trip_routes lk; _trip_profiles := _trip_profiles lk;
     _trip_exists := _trip_exists lk; _route_exists := _route_exists lk;
     _stop_exists := _stop_exists lk;
     _stop_times_fallback := _stop_times_fallback lk;
     missing_trip := missing_trip lk; missing_route := {[k]} ∪ missing_route lk;
     missing_stop := missing_stop lk |}.

Definition add_missing_stop (k : string) (lk : DimLookup) :=
  {| _trip_routes := _trip_routes lk; _trip_profiles := _trip_profiles lk;
     _trip_exists := _trip_exists lk; _route_exists := _route_exists lk;
     _stop_exists := _stop_exists lk;
     _stop_times_fallback := _stop_times_fallback lk;
     missing_trip := missing_trip lk; missing_route := missing_route lk;
     missing_stop := {[k]} ∪ missing_stop lk |}.

Definition clear_missing (lk : DimLookup) :=
  {| _trip_routes := _trip_routes lk; _trip_profiles := _trip_profiles lk;
     _trip_exists := _trip_exists lk; _route_exists := _route_exists lk;
     _stop_exists := _stop_exists lk;
     _stop_times_fallback := _stop_times_fallback lk;
     missing_trip := ∅; missing_route := ∅; missing_stop := ∅ |}.

Section Resolver.
Variable rf : Reference.

Definition ensure_trip (trip_id : option string) (lk : DimLookup) : bool * DimLookup :=
  match trip_id with
  | None => (false, lk)
  | Some t =>
      if String.eqb t "" then (false, lk)
      else match _trip_exists lk !! t with
           | Some known => (known, lk)
           | None =>
               let exists_ := bool_decide (is_Some (dim_trips (ref_static rf) !! t)) in
               let lk := if exists_ then lk else add_missing_trip t lk in
               (exists_, with_trip_exists (<[t := exists_]> (_trip_exists lk)) lk)
           end
  end.

Definition get_route_for_trip (trip_id : option string) (lk : DimLookup)
    : option string * DimLookup :=
  match trip_id with
  | None => (None, lk)
  | Some t =>
      if String.eqb t "" then (None, lk)
      else match _trip_routes lk !! t with
           | Some known => (known, lk)
           | None =>
               match mjoin (dim_trips (ref_static rf) !! t) with
               | None =>
                   let lk := add_missing_trip t lk in
                   (None, with_trip_routes (<[t := None]> (_trip_routes lk)) lk)
               | Some route_id =>
                   let lk :=
                     if String.eqb route_id ""
                     then add_missing_route ("(from trip " +:+ t +:+ ")") lk
                     else lk in
                   (Some route_id,
                    with_trip_routes (<[t := Some route_id]> (_trip_routes lk)) lk)
               end
           end
  end.

Definition _load_trip_profile (trip_id : string) (lk : DimLookup)
    : list StopTimeEntry * DimLookup :=
  match _trip_profiles lk !! trip_id with
  | Some profile => (profile, lk)
  | None =>
      let rows := select_stop_times (ref_static rf) trip_id in
      let '(profile, lk) :=
        match rows with
        | _ :: _ => (rows, lk)
        | [] =>
            match _stop_times_fallback lk with
            | Some fb =>
                let '(profile, fb) := fallback_get_profile (ref_csv rf) trip_id fb in
                let lk := with_fallback (Some fb) lk in
                match profile with
                | [] => ([], add_missing_trip trip_id lk)
                | _ :: _ => (profile, lk)
                end
            | None => ([], add_missing_trip trip_id lk)
            end
        end in
      (profile, with_trip_profiles (<[trip_id := profile]> (_trip_profiles lk)) lk)
  end.

(** The search loop of [get_stop_context]: the first entry of the profile
    with the given stop, with its index. *)
Fixpoint find_stop (stop : string) (index : nat) (profile : list StopTimeEntry)
    : option (nat * StopTimeEntry) :=
  match profile with
  | [] => None
  | entry :: rest =>
      if String.eqb (stop_id entry) stop then Some (index, entry)
      else find_stop stop (S index) rest
  end.

Definition get_stop_context (trip_id stop : option string) (lk : DimLookup)
    : option (nat * StopTimeEntry) * DimLookup :=
  if negb (truthy trip_id) || negb (truthy stop) then (None, lk)
  else match trip_id, stop with
       | Some t, Some s =>
           let '(profile, lk) := _load_trip_profile t lk in
           match profile with
           | [] => (None, lk)
           | _ :: _ =>
               match find_stop s 0 profile with
               | Some ctx => (Some ctx, lk)
               | None => (None, add_missing_stop s lk)
               end
           end
       | _, _ => (None, lk)
       end.

Definition get_adjacent_stop (trip_id : option string) (current_index : Z)
    (forward : bool) (lk : DimLookup) : option StopTimeEntry * DimLookup :=
  match trip_id with
  | None => (None, lk)
  | Some t =>
      let '(profile, lk) := _load_trip_profile t lk in
      match profile with
      | [] => (None, lk)
      | _ :: _ =>
          let next_index := current_index + (if forward then 1 else -1) in
          if (0 <=? next_index) && (next_index <? Z.of_nat (List.length profile))
          then (profile !! Z.to_nat next_index, lk)
          else (None, lk)
      end
  end.

Definition ensure_route (route_id : option string) (lk : DimLookup) : bool * DimLookup :=
  match route_id with
  | None => (false, lk)
  | Some r =>
      if String.eqb r "" then (false, lk)
      else match _route_exists lk !! r with
           | Some known => (known, lk)
           | None =>
               let exists_ := bool_decide (r ∈ dim_routes (ref_static rf)) in
               let lk := if exists_ then lk else add_missing_route r lk in
               (exists_, with_route_exists (<[r := exists_]> (_route_exists lk)) lk)
           end
  end.

Definition ensure_stop (stop : option string) (lk : DimLookup) : bool * DimLookup :=
  match stop with
  | None => (false, lk)
  | Some s =>
      if String.eqb s "" then (false, lk)
      else match _stop_exists lk !! s with
           | Some known => (known, lk)
           | None =>
               let exists_ := bool_decide (s ∈ dim_stops (ref_static rf)) in
               let lk := if exists_ then lk else add_missing_stop s lk in
               (exists_, with_stop_exists (<[s := exists_]> (_stop_exists lk)) lk)
           end
  end.
End Resolver.

(** One warning of [report_missing]: the category, the sample (at most ten
    keys, sorted) and how many more keys there are beyond the sample. *)
Record MissingLine := {
  ml_key : string;
  ml_sample : list string;
  ml_more : option nat
}.

Definition missing_line (key : string) (values : gset string) : list MissingLine :=
  if bool_decide (values = ∅) then []
  else
    let sample := take 10 (sorted_by String.ltb (elements values)) in
    let more := if Nat.leb (size values) 10 then None else Some (size values - 10)%nat in
    [ {| ml_key := key; ml_sample := sample; ml_more := more |} ].

Definition report_missing (lk : DimLookup) : list MissingLine * DimLookup :=
  ((missing_line "trip" (missing_trip lk)
    ++ missing_line "route" (missing_route lk)
    ++ missing_line "stop" (missing_stop lk))%list,
   clear_missing lk).

(** ** Output storage *)

(** The instants that [datetime.fromtimestamp] can give: those of the years
    1 to 9999, from 0001-01-01T00:00:00Z to 9999-12-31T23:59:59Z in epoch
    seconds. *)
Definition datetime_in_range (t : Z) : bool :=
  (-62135596800 <=? t) && (t <=? 253402300799).

(** The instants that fit the [time_t] of a 64-bit platform but that its C
    library cannot break down, the year being beyond the [int] of
    [struct tm] (glibc on Linux).  For these [datetime.fromtimestamp]
    raises [OSError], which [_epoch_to_datetime] does not catch. *)
Definition gmtime_overflows (t : Z) : bool :=
  ((67768036191676800 <=? t) && (t <? 2 ^ 63))
  || ((- 2 ^ 63 <=? t) && (t <? -67768040609740800)).

(** [_epoch_to_datetime] at an integer argument (the header timestamps):
    [None] and 0 give [None], and so does an instant outside the years 1 to
    9999, for which [datetime.fromtimestamp] raises the [ValueError] or
    [OverflowError] that the function catches.  Instants stay epoch
    seconds.  At an instant of [gmtime_overflows] the call does not return:
    the [OSError] leaves the cycle at the stage of the call, as an error of
    the database does, and the value given here is not used. *)
Definition _epoch_to_datetime (value : option Z) : option Z :=
  match value with
  | Some 0 => None
  | Some t => if datetime_in_range t then Some t else None
  | None => None
  end.

(** [_epoch_to_datetime] at a 64-bit field of a decoded payload, which
    [MessageToDict] renders as decimal text: the text of 0 is not among the
    values the function gives up on, so only an absent field and an instant
    outside the years 1 to 9999 give [None]. *)
Definition _epoch_to_datetime_field (value : option Z) : option Z :=
  match value with
  | Some t => if datetime_in_range t then Some t else None
  | None => None
  end.

Record SnapshotRow := {
  polled_at_utc : Z;
  vehicle_feed_timestamp_utc : option Z;
  trip_feed_timestamp_utc : option Z;
  alert_feed_timestamp_utc : option Z
}.

Record CursorRow := {
  last_header_timestamp : option Z;
  last_snapshot_id : option Z
}.

Record VehiclePositionRecord := {
  snapshot_id : Z;
  entity_id : string;
  vehicle_id : option string;
  vehicle_label : option string;
  trip_id : option string;
  route_id : option string;
  current_stop_id : option string;
  previous_stop_id : option string;
  next_stop_id : option string;
  next_stop_sequence : option Z;
  status : option string
}.

Record TripDelaySnapshot := {
  arrival_delay_seconds : option Z;
  departure_delay_seconds : option Z;
  schedule_relationship : option string;
  predicted_arrival_utc : option Z;
  predicted_departure_utc : option Z
}.

(** A row of [rt_rodalies_vehicle_positions]: the position record, the five
    delay columns and the header time of the trip-update feed. *)
Record RodaliesPositionRow := {
  rp_record : VehiclePositionRecord;
  rp_delay : TripDelaySnapshot;
  rp_trip_update_timestamp_utc : option Z
}.

Record RodaliesHistoryRow := {
  rh_row : RodaliesPositionRow;
  rh_polled_at_utc : Z
}.

Record RodaliesCurrentRow := {
  rc_row : RodaliesPositionRow;
  rc_polled_at_utc : Z;
  rc_updated_at : Z
}.

Record TripDelayRow := {
  td_stop_sequence : option Z;
  td_scheduled_arrival_seconds : option Z;
  td_scheduled_departure_seconds : option Z;
  td_predicted_arrival_utc : option Z;
  td_predicted_departure_utc : option Z;
  td_arrival_delay_seconds : option Z;
  td_departure_delay_seconds : option Z;
  td_schedule_relationship : option string
}.

Record AlertRow := {
  ar_message : option string;
  ar_effect : option string;
  ar_cause : option string;
  ar_active_start_utc : option Z;
  ar_active_end_utc : option Z;
  ar_created_at_utc : option Z
}.

(** The four vehicle tables, by primary key: (snapshot, entity),
    (snapshot, entity), vehicle key, (vehicle key, snapshot). *)
Record VehicleTables := {
  rt_vehicle_positions : gmap (Z * string) VehiclePositionRecord;
  rt_rodalies_vehicle_positions : gmap (Z * string) RodaliesPositionRow;
  rt_rodalies_vehicle_current : gmap string RodaliesCurrentRow;
  rt_rodalies_vehicle_history : gmap (string * Z) RodaliesHistoryRow
}.

(** The alert table, keyed by (snapshot, alert, language), and its child
    tables, keyed by (snapshot, alert, affected entity or period index). *)
Record AlertTables := {
  rt_alerts : gmap (Z * string * string) AlertRow;
  rt_alert_routes : gmap (Z * string * string) ();
  rt_alert_stops : gmap (Z * string * string) ();
  rt_alert_trips : gmap (Z * string * string) ();
  rt_alert_active_periods : gmap (Z * string * nat) (option Z * option Z)
}.

Record Database := {
  rt_snapshots : gmap Z SnapshotRow;
  rt_feed_cursors : gmap string CursorRow;
  rt_trip_delays : gmap (Z * string * string) TripDelayRow;
  db_vehicles : VehicleTables;
  db_alerts : AlertTables
}.

Definition with_snapshots (t : gmap Z SnapshotRow) (db : Database) : Database :=
  {| rt_snapshots := t; rt_feed_cursors := rt_feed_cursors db;
     rt_trip_delays := rt_trip_delays db; db_vehicles := db_vehicles db;
     db_alerts := db_alerts db |}.

Definition with_feed_cursors (t : gmap string CursorRow) (db : Database) : Database :=
  {| rt_snapshots := rt_snapshots db; rt_feed_cursors := t;
     rt_trip_delays := rt_trip_delays db; db_vehicles := db_vehicles db;
     db_alerts := db_alerts db |}.

Definition with_trip_delays (t : gmap (Z * string * string) TripDelayRow)
    (db : Database) : Database :=
  {| rt_snapshots := rt_snapshots db; rt_feed_cursors := rt_feed_cursors db;
     rt_trip_delays := t; db_vehicles := db_vehicles db;
     db_alerts := db_alerts db |}.

Definition with_vehicles (t : VehicleTables) (db : Database) : Database :=
  {| rt_snapshots := rt_snapshots db; rt_feed_cursors := rt_feed_cursors db;
     rt_trip_delays := rt_trip_delays db; db_vehicles := t;
     db_alerts := db_alerts db |}.

Definition with_alerts (t : AlertTables) (db : Database) : Database :=
  {| rt_snapshots := rt_snapshots db; rt_feed_cursors := rt_feed_cursors db;
     rt_trip_delays := rt_trip_delays db; db_vehicles := db_vehicles db;
     db_alerts := t |}.

(** *** SQL statements on one table

    Foreign keys are not checked by the embedding: every row the writers
    insert references the snapshot inserted before it in the same
    transaction, and dimension keys that passed the resolver. *)
Section Statements.
Context {K V : Type} `{Countable K}.

(** [INSERT] without a conflict clause: a present key is a
    unique-violation error ([None]). *)
Definition insert_row (k : K) (v : V) (t : gmap K V) : option (gmap K V) :=
  match t !! k with
  | Some _ => None
  | None => Some (<[k := v]> t)
  end.

(** [INSERT ... ON CONFLICT DO NOTHING] *)
Definition insert_do_nothing (k : K) (v : V) (t : gmap K V) : gmap K V :=
  match t !! k with
  | Some _ => t
  | None => <[k := v]> t
  end.

(** [INSERT ... ON CONFLICT (key) DO UPDATE SET] every column *)
Definition insert_do_update (k : K) (v : V) (t : gmap K V) : gmap K V :=
  <[k := v]> t.

(** [execute_batch] of the three kinds of insert. *)
Fixpoint batch_insert (rows : list (K * V)) (t : gmap K V) : option (gmap K V) :=
  match rows with
  | [] => Some t
  | (k, v) :: rest =>
      match insert_row k v t with
      | None => None
      | Some t' => batch_insert rest t'
      end
  end.

Definition batch_do_nothing (rows : list (K * V)) (t : gmap K V) : gmap K V :=
  foldl (fun t row => insert_do_nothing row.1 row.2 t) t rows.

Definition batch_do_update (rows : list (K * V)) (t : gmap K V) : gmap K V :=
  foldl (fun t row => insert_do_update row.1 row.2 t) t rows.
End Statements.

(** *** The connection: committed data and the open transaction *)
Record Connection := {
  committed : Database;
  working : Database
}.

Definition connect (db : Database) : Connection :=
  {| committed := db; working := db |}.

Definition rollback (conn : Connection) : Connection :=
  {| committed := committed conn; working := committed conn |}.

Definition commit (conn : Connection) : Connection :=
  {| committed := working conn; working := working conn |}.

(** Closing discards the open transaction; what remains is the committed
    database. *)
Definition close (conn : Connection) : Database := committed conn.

Definition in_transaction (f : Database → Database) (conn : Connection) : Connection :=
  {| committed := committed conn; working := f (working conn) |}.

(** ** CursorStore *)

(** One row of the [SELECT] in [load_feed_cursors]: rows whose kind is not a
    [FeedType] or whose timestamp is null are skipped. *)
Definition cursor_of_row (row : string * CursorRow) : option (FeedType * Z) :=
  match FeedType_of_value row.1, last_header_timestamp row.2 with
  | Some feed_type, Some header => Some (feed_type, header)
  | _, _ => None
  end.

Definition load_feed_cursors (db : Database) : gmap FeedType Z :=
  list_to_map (omap cursor_of_row (map_to_list (rt_feed_cursors db))).

(** [update_feed_cursor], as the statement acts when the database accepts
    it.  The column of the header is a [BIGINT]: for a header beyond it
    the statement is refused, an error of the database at the stage
    [UpdateCursors]. *)
Definition update_feed_cursor (feed_type : FeedType) (header_timestamp : option Z)
    (snapshot : Z) (db : Database) : Database :=
  match header_timestamp with
  | None => db
  | Some header =>
      with_feed_cursors
        (insert_do_update (FeedType_value feed_type)
           {| last_header_timestamp := Some header;
              last_snapshot_id := Some snapshot |}
           (rt_feed_cursors db))
        db
  end.

(** [existing.header_timestamp or -1] *)
Definition timestamp_or_minus_one (h : option Z) : Z :=
  match h with
  | Some 0 | None => -1
  | Some t => t
  end.

Definition index_envelopes (envelopes : list FeedEnvelope) : gmap FeedType FeedEnvelope :=
  foldl
    (fun indexed envelope =>
       match indexed !! env_feed_type envelope with
       | Some existing =>
           if timestamp_or_minus_one (env_header_timestamp existing)
              <? timestamp_or_minus_one (env_header_timestamp envelope)
           then <[env_feed_type envelope := envelope]> indexed
           else indexed
       | None => <[env_feed_type envelope := envelope]> indexed
       end)
    ∅ envelopes.

Definition indexed_header (indexed : gmap FeedType FeedEnvelope) (t : FeedType)
    : option Z :=
  match indexed !! t with
  | Some envelope => env_header_timestamp envelope
  | None => None
  end.

(** [insert_snapshot]; the identifier drawn by [uuid4] is an argument. *)
Definition insert_snapshot (snapshot : Z) (polled_at : Z)
    (indexed : gmap FeedType FeedEnvelope) (db : Database) : option Database :=
  let row :=
    {| polled_at_utc := polled_at;
       vehicle_feed_timestamp_utc :=
         _epoch_to_datetime (indexed_header indexed VEHICLE_POSITIONS);
       trip_feed_timestamp_utc :=
         _epoch_to_datetime (indexed_header indexed TRIP_UPDATES);
       alert_feed_timestamp_utc :=
         _epoch_to_datetime (indexed_header indexed ALERTS) |} in
  match insert_row snapshot row (rt_snapshots db) with
  | None => None
  | Some t => Some (with_snapshots t db)
  end.

(** ** VehiclePositionWriter *)

Section Writers.
Variable rf : Reference.

(** The body of the entity loop of [extract_vehicle_position_rows] for an
    entity that has a vehicle payload and an id. *)
Definition vehicle_record (snapshot : Z) (entity : FeedEntity)
    (vehicle : VehiclePayload) (lk : DimLookup)
    : VehiclePositionRecord * DimLookup :=
  let raw_trip_id := vp_trip_id vehicle in
  let '(trip_valid, lk) := ensure_trip rf raw_trip_id lk in
  let trip := if trip_valid then raw_trip_id else None in
  let '(route, lk) :=
    if trip_valid then get_route_for_trip rf raw_trip_id lk else (None, lk) in
  let '(route, lk) :=
    if truthy route then
      let '(ok, lk) := ensure_route rf route lk in
      (if ok then route else None, lk)
    else (route, lk) in
  let '(stop_ok, lk) := ensure_stop rf (vp_stop_id vehicle) lk in
  let current_stop := if stop_ok then vp_stop_id vehicle else None in
  let '(context, lk) :=
    if truthy current_stop && truthy raw_trip_id
    then get_stop_context rf raw_trip_id current_stop lk
    else (None, lk) in
  let '(previous_stop, next_stop, next_sequence, lk) :=
    match context with
    | None => (None, None, None, lk)
    | Some (index, _) =>
        let '(prev_entry, lk) :=
          get_adjacent_stop rf raw_trip_id (Z.of_nat index) false lk in
        let '(next_entry, lk) :=
          get_adjacent_stop rf raw_trip_id (Z.of_nat index) true lk in
        let '(previous_stop, lk) :=
          match prev_entry with
          | Some e =>
              let '(ok, lk) := ensure_stop rf (Some (stop_id e)) lk in
              (if ok then Some (stop_id e) else None, lk)
          | None => (None, lk)
          end in
        let '(next_stop, next_sequence, lk) :=
          match next_entry with
          | Some e =>
              let '(ok, lk) := ensure_stop rf (Some (stop_id e)) lk in
              if ok then (Some (stop_id e), Some (stop_sequence e), lk)
              else (None, None, lk)
          | None => (None, None, lk)
          end in
        (previous_stop, next_stop, next_sequence, lk)
    end in
  ({| snapshot_id := snapshot;
      entity_id := fe_id entity;
      vehicle_id := vp_vehicle_id vehicle;
      vehicle_label := vp_vehicle_label vehicle;
      trip_id := trip;
      route_id := route;
      current_stop_id := current_stop;
      previous_stop_id := previous_stop;
      next_stop_id := next_stop;
      next_stop_sequence := next_sequence;
      status := vp_current_status vehicle |}, lk).

Definition extract_step (snapshot : Z)
    (acc : list (string * VehiclePositionRecord) * DimLookup) (entity : FeedEntity)
    : list (string * VehiclePositionRecord) * DimLookup :=
  match fe_vehicle entity with
  | None => acc
  | Some vehicle =>
      if String.eqb (fe_id entity) "" then acc
      else
        let '(record, lk) := vehicle_record snapshot entity vehicle acc.2 in
        (dict_set (fe_id entity) record acc.1, lk)
  end.

Definition extract_vehicle_position_rows (snapshot : Z) (envelope : FeedEnvelope)
    (lk : DimLookup) : list VehiclePositionRecord * DimLookup :=
  let '(records_by_entity, lk) :=
    foldl (extract_step snapshot) ([], lk) (msg_entity (env_message envelope)) in
  (dict_values records_by_entity, lk).

(** Text is held as the bytes of its UTF-8 encoding.  The white space that
    [str.strip] removes is that of [str.isspace]: the characters U+0009 to
    U+000D and U+001C to U+0020, of one byte each; U+0085 and U+00A0, of
    two bytes; and U+1680, U+2000 to U+200A, U+2028, U+2029, U+202F, U+205F
    and U+3000, of three bytes. *)
Definition is_space (c : ascii) : bool :=
  let n := nat_of_ascii c in
  (Nat.leb 9 n && Nat.leb n 13) || (Nat.leb 28 n && Nat.leb n 32).

Definition is_space2 (c d : ascii) : bool :=
  let d := nat_of_ascii d in
  Nat.eqb (nat_of_ascii c) 194 && (Nat.eqb d 133 || Nat.eqb d 160).

Definition is_space3 (c d e : ascii) : bool :=
  let c := nat_of_ascii c in
  let d := nat_of_ascii d in
  let e := nat_of_ascii e in
  (Nat.eqb c 225 && Nat.eqb d 154 && Nat.eqb e 128)
  || (Nat.eqb c 226 && Nat.eqb d 128
      && ((Nat.leb 128 e && Nat.leb e 138)
          || Nat.eqb e 168 || Nat.eqb e 169 || Nat.eqb e 175))
  || (Nat.eqb c 226 && Nat.eqb d 129 && Nat.eqb e 159)
  || (Nat.eqb c 227 && Nat.eqb d 128 && Nat.eqb e 128).

(** [str.lstrip()] *)
Fixpoint lstrip (s : string) : string :=
  match s with
  | EmptyString => EmptyString
  | String c rest =>
      if is_space c then lstrip rest
      else
        match rest with
        | EmptyString => s
        | String d rest2 =>
            if is_space2 c d then lstrip rest2
            else
              match rest2 with
              | EmptyString => s
              | String e rest3 => if is_space3 c d e then lstrip rest3 else s
              end
        end
  end.

(** [label.strip().upper().startswith("R")] *)
Definition is_rodalies_label (label : option string) : bool :=
  match label with
  | None => false
  | Some l =>
      match lstrip l with
      | String c _ => Ascii.eqb c "R"%char || Ascii.eqb c "r"%char
      | EmptyString => false
      end
  end.

Definition _vehicle_key (vehicle : option string) (entity : string) : string :=
  if truthy vehicle then default "" vehicle else "entity:" +:+ entity.

Definition no_delay : TripDelaySnapshot :=
  {| arrival_delay_seconds := None; departure_delay_seconds := None;
     schedule_relationship := None; predicted_arrival_utc := None;
     predicted_departure_utc := None |}.

Definition rodalies_row (delay_lookup : gmap (string * string) TripDelaySnapshot)
    (trip_update_timestamp : option Z) (record : VehiclePositionRecord)
    : RodaliesPositionRow :=
  let delay :=
    if truthy (trip_id record) && truthy (current_stop_id record)
    then delay_lookup !! (default "" (trip_id record),
                          default "" (current_stop_id record))
    else None in
  {| rp_record := record;
     rp_delay := default no_delay delay;
     rp_trip_update_timestamp_utc := trip_update_timestamp |}.

(** The two [DELETE ... WHERE polled_at_utc < cutoff] statements. *)
Definition prune_vehicles (cutoff : Z) (t : VehicleTables) : VehicleTables :=
  {| rt_vehicle_positions := rt_vehicle_positions t;
     rt_rodalies_vehicle_positions := rt_rodalies_vehicle_positions t;
     rt_rodalies_vehicle_current :=
       filter (fun kv => ¬ (rc_polled_at_utc kv.2 < cutoff))
              (rt_rodalies_vehicle_current t);
     rt_rodalies_vehicle_history :=
       filter (fun kv => ¬ (rh_polled_at_utc kv.2 < cutoff))
              (rt_rodalies_vehicle_history t) |}.

(** The statements of [store_vehicle_positions] on the vehicle tables, each
    an [INSERT ... ON CONFLICT] on the primary key, as they act when the
    database accepts them.  The unique index of the current table on
    [vehicle_id] is not part of the embedding: a statement that it refuses
    (two keys with the same vehicle id, which the empty id allows) is an
    error of the database at the stage [StoreVehiclePositions]. *)
Definition write_vehicle_tables (snapshot polled_at updated_at : Z)
    (history_retention : option Z)
    (delay_lookup : gmap (string * string) TripDelaySnapshot)
    (trip_update_timestamp : option Z)
    (records : list VehiclePositionRecord) (t : VehicleTables) : VehicleTables :=
  let rodalies_records :=
    List.filter (fun r => is_rodalies_label (vehicle_label r)) records in
  let rodalies_rows :=
    rodalies_row delay_lookup trip_update_timestamp <$> rodalies_records in
  let key (row : RodaliesPositionRow) :=
    _vehicle_key (vehicle_id (rp_record row)) (entity_id (rp_record row)) in
  let t :=
    {| rt_vehicle_positions :=
         batch_do_nothing ((fun r => ((snapshot, entity_id r), r)) <$> records)
                          (rt_vehicle_positions t);
       rt_rodalies_vehicle_positions :=
         batch_do_nothing
           ((fun row => ((snapshot, entity_id (rp_record row)), row)) <$> rodalies_rows)
           (rt_rodalies_vehicle_positions t);
       rt_rodalies_vehicle_current :=
         batch_do_update
           ((fun row => (key row, {| rc_row := row; rc_polled_at_utc := polled_at;
                                     rc_updated_at := updated_at |}))
              <$> rodalies_rows)
           (rt_rodalies_vehicle_current t);
       rt_rodalies_vehicle_history :=
         batch_do_nothing
           ((fun row => ((key row, snapshot),
                         {| rh_row := row; rh_polled_at_utc := polled_at |}))
              <$> rodalies_rows)
           (rt_rodalies_vehicle_history t) |} in
  match history_retention with
  | Some retention => prune_vehicles (polled_at - retention) t
  | None => t
  end.

Definition store_vehicle_positions (snapshot polled_at updated_at : Z)
    (envelope : FeedEnvelope) (lk : DimLookup) (history_retention : option Z)
    (delay_lookup : gmap (string * string) TripDelaySnapshot)
    (trip_update_timestamp : option Z) (db : Database)
    : nat * DimLookup * Database :=
  let '(records, lk) := extract_vehicle_position_rows snapshot envelope lk in
  match records with
  | [] => (O, lk, db)
  | _ :: _ =>
      (List.length records, lk,
       with_vehicles
         (write_vehicle_tables snapshot polled_at updated_at history_retention
            delay_lookup trip_update_timestamp records (db_vehicles db))
         db)
  end.

(** ** TripDelayWriter *)

Definition stop_update_step (snapshot : Z) (trip : TripUpdatePayload)
    (acc : list ((string * string) * TripDelayRow)
           * gmap (string * string) TripDelaySnapshot * DimLookup)
    (stop_update : StopTimeUpdate)
    : list ((string * string) * TripDelayRow)
      * gmap (string * string) TripDelaySnapshot * DimLookup :=
  let '(rows_by_key, delay_lookup, lk) := acc in
  let '(stop_ok, lk) := ensure_stop rf (stu_stop_id stop_update) lk in
  if negb stop_ok then (rows_by_key, delay_lookup, lk)
  else
    let '(context, lk) :=
      get_stop_context rf (tu_trip_id trip) (stu_stop_id stop_update) lk in
    let entry := snd <$> context in
    let predicted_arrival := _epoch_to_datetime_field (stu_arrival_time stop_update) in
    let predicted_departure :=
      _epoch_to_datetime_field (stu_departure_time stop_update) in
    let relationship :=
      if truthy (stu_schedule_relationship stop_update)
      then stu_schedule_relationship stop_update
      else tu_schedule_relationship trip in
    let key := (default "" (tu_trip_id trip), default "" (stu_stop_id stop_update)) in
    (dict_set key
       {| td_stop_sequence := stop_sequence <$> entry;
          td_scheduled_arrival_seconds := entry ≫= arrival_seconds;
          td_scheduled_departure_seconds := entry ≫= departure_seconds;
          td_predicted_arrival_utc := predicted_arrival;
          td_predicted_departure_utc := predicted_departure;
          td_arrival_delay_seconds := stu_arrival_delay stop_update;
          td_departure_delay_seconds := stu_departure_delay stop_update;
          td_schedule_relationship := relationship |}
       rows_by_key,
     <[key := {| arrival_delay_seconds := stu_arrival_delay stop_update;
                 departure_delay_seconds := stu_departure_delay stop_update;
                 schedule_relationship := relationship;
                 predicted_arrival_utc := predicted_arrival;
                 predicted_departure_utc := predicted_departure |}]> delay_lookup,
     lk).

Definition trip_update_step (snapshot : Z)
    (acc : list ((string * string) * TripDelayRow)
           * gmap (string * string) TripDelaySnapshot * DimLookup)
    (entity : FeedEntity)
    : list ((string * string) * TripDelayRow)
      * gmap (string * string) TripDelaySnapshot * DimLookup :=
  match fe_trip_update entity with
  | None => acc
  | Some trip =>
      let '(rows_by_key, delay_lookup, lk) := acc in
      let '(trip_ok, lk) := ensure_trip rf (tu_trip_id trip) lk in
      if negb trip_ok then (rows_by_key, delay_lookup, lk)
      else foldl (stop_update_step snapshot trip) (rows_by_key, delay_lookup, lk)
                 (tu_stop_time_update trip)
  end.

(** [store_trip_delays]: [None] is a database error of the plain
    [INSERT]. *)
Definition store_trip_delays (snapshot : Z) (envelope : FeedEnvelope)
    (lk : DimLookup) (db : Database)
    : option (nat * gmap (string * string) TripDelaySnapshot * DimLookup * Database) :=
  let '(rows_by_key, delay_lookup, lk) :=
    foldl (trip_update_step snapshot) ([], ∅, lk)
          (msg_entity (env_message envelope)) in
  match rows_by_key with
  | [] => Some (O, ∅, lk, db)
  | _ :: _ =>
      match batch_insert
              ((fun kv => ((snapshot, kv.1.1, kv.1.2), kv.2)) <$> rows_by_key)
              (rt_trip_delays db) with
      | None => None
      | Some t => Some (List.length rows_by_key, delay_lookup, lk, with_trip_delays t db)
      end
  end.
End Writers.

(** ** AlertWriter *)

Section AlertWriter.
Variable rf : Reference.

(** What the entity loop of [store_alerts] accumulates. *)
Record AlertBatch := {
  base_rows : list ((string * string) * AlertRow);
  route_rows : gset (string * string);
  stop_rows : gset (string * string);
  trip_rows : gset (string * string);
  period_rows : list ((string * nat) * (option Z * option Z))
}.

Definition AlertBatch_empty : AlertBatch :=
  {| base_rows := []; route_rows := ∅; stop_rows := ∅; trip_rows := ∅;
     period_rows := [] |}.

(** [min(..., default=d)] and [max(..., default=d)] over the instants that
    are present. *)
Definition min_default (values : list (option Z)) (d : option Z) : option Z :=
  match omap id values with
  | [] => d
  | x :: rest => Some (foldl Z.min x rest)
  end.

Definition max_default (values : list (option Z)) (d : option Z) : option Z :=
  match omap id values with
  | [] => d
  | x :: rest => Some (foldl Z.max x rest)
  end.

Definition informed_step (alert_id : string)
    (acc : AlertBatch * DimLookup) (informed : InformedEntity)
    : AlertBatch * DimLookup :=
  let '(batch, lk) := acc in
  let '(route_ok, lk) := ensure_route rf (ie_route_id informed) lk in
  let '(stop_ok, lk) := ensure_stop rf (ie_stop_id informed) lk in
  let '(trip_ok, lk) := ensure_trip rf (ie_trip_id informed) lk in
  ({| base_rows := base_rows batch;
      route_rows :=
        if route_ok
        then {[ (alert_id, default "" (ie_route_id informed)) ]} ∪ route_rows batch
        else route_rows batch;
      stop_rows :=
        if stop_ok
        then {[ (alert_id, default "" (ie_stop_id informed)) ]} ∪ stop_rows batch
        else stop_rows batch;
      trip_rows :=
        if trip_ok
        then {[ (alert_id, default "" (ie_trip_id informed)) ]} ∪ trip_rows batch
        else trip_rows batch;
      period_rows := period_rows batch |}, lk).

Definition alert_step (header_dt : option Z)
    (acc : AlertBatch * DimLookup) (entity : FeedEntity) : AlertBatch * DimLookup :=
  match fe_alert entity with
  | None => acc
  | Some alert =>
      if String.eqb (fe_id entity) "" then acc
      else
        let alert_id := fe_id entity in
        let '(batch, lk) := acc in
        let translations :=
          match al_translations alert with
          | [] => [ {| tr_language := Some "und"; tr_text := None |} ]
          | ts => ts
          end in
        let active_periods := al_active_period alert in
        let period_starts :=
          (fun p => _epoch_to_datetime_field (ap_start p)) <$> active_periods in
        let period_ends :=
          (fun p => _epoch_to_datetime_field (ap_end p)) <$> active_periods in
        let aggregate_start := min_default period_starts header_dt in
        let aggregate_end := max_default period_ends None in
        let new_periods :=
          imap (fun period_index p =>
                  ((alert_id, period_index),
                   (_epoch_to_datetime_field (ap_start p),
                    _epoch_to_datetime_field (ap_end p))))
               active_periods in
        let base :=
          foldl (fun rows translation =>
                   let language :=
                     if truthy (tr_language translation)
                     then default "und" (tr_language translation) else "und" in
                   dict_set (alert_id, language)
                     {| ar_message := tr_text translation;
                        ar_effect := al_effect alert;
                        ar_cause := al_cause alert;
                        ar_active_start_utc := aggregate_start;
                        ar_active_end_utc := aggregate_end;
                        ar_created_at_utc := header_dt |}
                     rows)
                (base_rows batch) translations in
        foldl (informed_step alert_id)
              ({| base_rows := base;
                  route_rows := route_rows batch;
                  stop_rows := stop_rows batch;
                  trip_rows := trip_rows batch;
                  period_rows := (period_rows batch ++ new_periods)%list |}, lk)
              (al_informed_entity alert)
  end.

Definition collect_alerts (envelope : FeedEnvelope) (lk : DimLookup)
    : AlertBatch * DimLookup :=
  foldl (alert_step (_epoch_to_datetime (env_header_timestamp envelope)))
        (AlertBatch_empty, lk) (msg_entity (env_message envelope)).

(** The child-row statements of [store_alerts]: each one an
    [INSERT ... ON CONFLICT DO NOTHING], run only for a non-empty batch. *)
Definition child_key_rows (snapshot : Z) (rows : gset (string * string))
    : list ((Z * string * string) * ()) :=
  (fun r => ((snapshot, r.1, r.2), ())) <$> elements rows.

Definition period_key_rows (snapshot : Z)
    (rows : list ((string * nat) * (option Z * option Z)))
    : list ((Z * string * nat) * (option Z * option Z)) :=
  (fun r => ((snapshot, r.1.1, r.1.2), r.2)) <$> rows.

Definition insert_alert_children (snapshot : Z) (batch : AlertBatch)
    (t : AlertTables) : AlertTables :=
  {| rt_alerts := rt_alerts t;
     rt_alert_routes :=
       batch_do_nothing (child_key_rows snapshot (route_rows batch)) (rt_alert_routes t);
     rt_alert_stops :=
       batch_do_nothing (child_key_rows snapshot (stop_rows batch)) (rt_alert_stops t);
     rt_alert_trips :=
       batch_do_nothing (child_key_rows snapshot (trip_rows batch)) (rt_alert_trips t);
     rt_alert_active_periods :=
       batch_do_nothing (period_key_rows snapshot (period_rows batch))
                        (rt_alert_active_periods t) |}.

(** The parent rows: a plain [INSERT]. *)
Definition insert_alert_parents (snapshot : Z) (batch : AlertBatch)
    (t : AlertTables) : option AlertTables :=
  match batch_insert
          ((fun kv => ((snapshot, kv.1.1, kv.1.2), kv.2)) <$> base_rows batch)
          (rt_alerts t) with
  | None => None
  | Some parents =>
      Some {| rt_alerts := parents;
              rt_alert_routes := rt_alert_routes t;
              rt_alert_stops := rt_alert_stops t;
              rt_alert_trips := rt_alert_trips t;
              rt_alert_active_periods := rt_alert_active_periods t |}
  end.

(** The number of distinct alert ids among the parent rows. *)
Definition distinct_alert_ids (rows : list ((string * string) * AlertRow)) : nat :=
  size (list_to_set ((fun kv => kv.1.1) <$> rows) : gset string).

(** [store_alerts]: [None] is a database error of the plain [INSERT]. *)
Definition store_alerts (snapshot : Z) (envelope : FeedEnvelope) (lk : DimLookup)
    (db : Database) : option (nat * DimLookup * Database) :=
  let '(batch, lk) := collect_alerts envelope lk in
  match base_rows batch with
  | [] => Some (O, lk, db)
  | _ :: _ =>
      match insert_alert_parents snapshot batch (db_alerts db) with
      | None => None
      | Some t =>
          Some (distinct_alert_ids (base_rows batch), lk,
                with_alerts (insert_alert_children snapshot batch t) db)
      end
  end.
End AlertWriter.

(** ** FailureTracker *)

(** The per-URL dictionary [{"count": ..., "alert_sent": ...}]. *)
Record FailureState := {
  count : nat;
  alert_sent : bool
}.

(** A call of [send_failure_notification], which hands the alert to the
    notification sink.  Whether the sink delivers it (webhook configured,
    HTTP success) is only logged and changes nothing in the tracker. *)
Record FailureAlert := {
  fa_feed_url : string;
  fa_failure_count : nat;
  fa_threshold : Z
}.

(** [failure_state.setdefault(url, {"count": 0, "alert_sent": False})] *)
Definition failure_entry (url : string) (failure_state : gmap string FailureState)
    : FailureState :=
  default {| count := 0%nat; alert_sent := false |} (failure_state !! url).

(** The [except] branch of the fetch loop, on the tracker. *)
Definition record_failure (failure_threshold : Z) (url : string)
    (failure_state : gmap string FailureState)
    : gmap string FailureState * list FailureAlert :=
  let state := failure_entry url failure_state in
  let state := {| count := S (count state); alert_sent := alert_sent state |} in
  if (0 <? failure_threshold) && (failure_threshold <=? Z.of_nat (count state))
     && negb (alert_sent state)
  then (<[url := {| count := count state; alert_sent := true |}]> failure_state,
        [ {| fa_feed_url := url; fa_failure_count := count state;
             fa_threshold := failure_threshold |} ])
  else (<[url := state]> failure_state, []).

(** The [else] branch of the fetch loop, on the tracker. *)
Definition record_success (url : string) (failure_state : gmap string FailureState)
    : gmap string FailureState :=
  let state := failure_entry url failure_state in
  if negb (Nat.eqb (count state) 0) || alert_sent state
  then <[url := {| count := 0%nat; alert_sent := false |}]> failure_state
  else <[url := state]> failure_state.

(** The failure times of the daily report: day, then URL, then the set of
    ["%H:%M"] strings. *)
Definition record_failure_time (url : string) (clock : Z * string)
    (failure_history : gmap Z (gmap string (gset string)))
    : gmap Z (gmap string (gset string)) :=
  let feed_failures := default ∅ (failure_history !! clock.1) in
  let times := default ∅ (feed_failures !! url) in
  <[clock.1 := <[url := {[clock.2]} ∪ times]> feed_failures]> failure_history.

(** ** SnapshotCoordinator *)

(** One configured URL in one cycle: what the download returned ([None] for
    an exception of the fetcher) and the Madrid date and time read when a
    failure is recorded. *)
Record Poll := {
  poll_url : string;
  poll_fetched : option FeedMessage;
  poll_clock : Z * string
}.

(** Where the database can raise in a cycle. *)
Inductive Stage :=
  | LoadCursors | InsertSnapshot | StoreTripDelays | StoreAlerts
  | StoreVehiclePositions | UpdateCursors | Commit.

(** What a cycle takes from its environment: the polls, the identifier and
    the instants it draws, and the stages at which the database raises an
    error of its own (connection lost, constraint of the schema, value out
    of the range of a column). *)
Record Cycle := {
  cy_polls : list Poll;
  cy_snapshot_id : Z;
  cy_polled_at : Z;
  cy_updated_at : Z;
  cy_db_fault : Stage → bool
}.

Record FetchState := {
  envelopes : list FeedEnvelope;
  ft_conn : Connection;
  ft_failure_state : gmap string FailureState;
  ft_failure_history : gmap Z (gmap string (gset string));
  ft_alerts : list FailureAlert
}.

(** One round of the fetch loop of [run_iteration]. *)
Definition fetch_step (failure_threshold : Z) (st : FetchState) (poll : Poll)
    : FetchState :=
  match poll_fetched poll ≫= fetch_single_feed (poll_url poll) with
  | None =>
      let '(failure_state, alerts) :=
        record_failure failure_threshold (poll_url poll) (ft_failure_state st) in
      {| envelopes := envelopes st;
         ft_conn := rollback (ft_conn st);
         ft_failure_state := failure_state;
         ft_failure_history :=
           record_failure_time (poll_url poll) (poll_clock poll) (ft_failure_history st);
         ft_alerts := (ft_alerts st ++ alerts)%list |}
  | Some envelope =>
      {| envelopes := (envelopes st ++ [envelope])%list;
         ft_conn := ft_conn st;
         ft_failure_state := record_success (poll_url poll) (ft_failure_state st);
         ft_failure_history := ft_failure_history st;
         ft_alerts := ft_alerts st |}
  end.

Definition fetch_all (failure_threshold : Z) (conn : Connection)
    (failure_state : gmap string FailureState)
    (failure_history : gmap Z (gmap string (gset string)))
    (polls : list Poll) : FetchState :=
  foldl (fetch_step failure_threshold)
        {| envelopes := []; ft_conn := conn; ft_failure_state := failure_state;
           ft_failure_history := failure_history; ft_alerts := [] |}
        polls.

(** Statements of the open transaction: the working database goes in, the
    working database and the result, or no result after an exception, come
    out. *)
Definition Tx (A : Type) : Type := Database → Database * option A.

Definition tx_ret {A : Type} (a : A) : Tx A := fun db => (db, Some a).

Definition tx_bind {A B : Type} (m : Tx A) (f : A → Tx B) : Tx B :=
  fun db =>
    match m db with
    | (db', Some a) => f a db'
    | (db', None) => (db', None)
    end.

Notation "x <-- m ;; k" := (tx_bind m (fun x => k))
  (at level 100, m at next level, right associativity).

(** A stage that the database fails, or that runs [f] on the working
    database. *)
Definition stage {A : Type} (fault : bool) (f : Database → option (A * Database))
    : Tx A :=
  fun db =>
    if fault then (db, None)
    else match f db with
         | Some (a, db') => (db', Some a)
         | None => (db, None)
         end.

(** [indexed[feed_type]]: a [KeyError] when the kind is absent. *)
Definition indexed_get (indexed : gmap FeedType FeedEnvelope) (t : FeedType)
    : Tx FeedEnvelope :=
  fun db => (db, indexed !! t).

(** The cursor loop at the end of the write phase.  The three statements
    touch three different rows, so the order of the dictionary does not
    show in the result. *)
Definition update_feed_cursors (indexed : gmap FeedType FeedEnvelope) (snapshot : Z)
    (db : Database) : Database :=
  foldl (fun db t =>
           match indexed !! t with
           | Some envelope =>
               update_feed_cursor t (env_header_timestamp envelope) snapshot db
           | None => db
           end)
        db [VEHICLE_POSITIONS; TRIP_UPDATES; ALERTS].

(** What the final log line of a cycle reports, with the warnings of the
    resolver. *)
Record StoredCounts := {
  vehicle_count : nat;
  delay_count : nat;
  alert_count : nat;
  missing_report : list MissingLine
}.

(** The write phase of [run_iteration], up to the commit. *)
Definition write_snapshot (rf : Reference) (cy : Cycle)
    (indexed : gmap FeedType FeedEnvelope) (stop_times_csv : bool)
    (vehicle_history_retention : option Z) : Tx StoredCounts :=
  let fault := cy_db_fault cy in
  let snapshot := cy_snapshot_id cy in
  let lookup := DimLookup_init stop_times_csv in
  _ <-- stage (fault InsertSnapshot)
          (fun db => pair () <$> insert_snapshot snapshot (cy_polled_at cy) indexed db) ;;
  trip_updates <-- indexed_get indexed TRIP_UPDATES ;;
  delays <-- stage (fault StoreTripDelays)
               (store_trip_delays rf snapshot trip_updates lookup) ;;
  let '(delay_count, delay_lookup, lookup) := delays in
  alerts <-- indexed_get indexed ALERTS ;;
  stored <-- stage (fault StoreAlerts)
               (store_alerts rf snapshot alerts lookup) ;;
  let '(alert_count, lookup) := stored in
  let trip_feed_timestamp := _epoch_to_datetime (indexed_header indexed TRIP_UPDATES) in
  vehicles <-- indexed_get indexed VEHICLE_POSITIONS ;;
  positions <-- stage (fault StoreVehiclePositions)
                  (fun db =>
                     Some (store_vehicle_positions rf snapshot (cy_polled_at cy)
                             (cy_updated_at cy) vehicles lookup
                             vehicle_history_retention delay_lookup
                             trip_feed_timestamp db)) ;;
  let '(vehicle_count, lookup) := positions in
  _ <-- stage (fault UpdateCursors)
          (fun db => Some ((), update_feed_cursors indexed snapshot db)) ;;
  let '(missing, _) := report_missing lookup in
  _ <-- stage (fault Commit) (fun db => Some ((), db)) ;;
  tx_ret {| vehicle_count := vehicle_count; delay_count := delay_count;
            alert_count := alert_count; missing_report := missing |}.

(** How a call of [run_iteration] ends: it returns a boolean, or an
    exception leaves it. *)
Inductive Outcome := Returned (success : bool) | Raised.

Record IterationResult := {
  it_outcome : Outcome;
  it_conn : Connection;
  it_failure_state : gmap string FailureState;
  it_failure_history : gmap Z (gmap string (gset string));
  it_alerts : list FailureAlert;
  it_stored : option StoredCounts
}.

Definition run_iteration (rf : Reference) (cy : Cycle) (conn : Connection)
    (dry_run : bool) (failure_state : gmap string FailureState)
    (failure_history : gmap Z (gmap string (gset string)))
    (failure_threshold : Z) (stop_times_csv : bool)
    (vehicle_history_retention : option Z) : IterationResult :=
  let fetched := fetch_all failure_threshold conn failure_state failure_history
                           (cy_polls cy) in
  let finish outcome conn stored :=
    {| it_outcome := outcome; it_conn := conn;
       it_failure_state := ft_failure_state fetched;
       it_failure_history := ft_failure_history fetched;
       it_alerts := ft_alerts fetched;
       it_stored := stored |} in
  let conn := ft_conn fetched in
  let feed_types : gset FeedType := list_to_set (env_feed_type <$> envelopes fetched) in
  if negb (Nat.eqb (size feed_types) 3) then finish (Returned false) (rollback conn) None
  else if cy_db_fault cy LoadCursors then finish Raised conn None
  else
    let cursors := load_feed_cursors (working conn) in
    if forallb (fun envelope =>
                  _header_is_stale (env_header_timestamp envelope)
                                   (cursors !! env_feed_type envelope))
               (envelopes fetched)
    then finish (Returned false) (rollback conn) None
    else
      let indexed := index_envelopes (envelopes fetched) in
      if dry_run then finish (Returned true) (rollback conn) None
      else
        match write_snapshot rf cy indexed stop_times_csv vehicle_history_retention
                (working conn) with
        | (db, Some stored) =>
            finish (Returned true)
                   (commit {| committed := committed conn; working := db |})
                   (Some stored)
        | (db, None) =>
            finish Raised {| committed := committed conn; working := db |} None
        end.

(** ** MaintenanceScheduler and the polling loop ([main]) *)

(** The settings [main] derives from the command line and the environment.
    Times of day are seconds after midnight (Madrid); the archive interval
    is the whole-day part of [archive_interval_delta], which is what adding
    it to a date uses. *)
Record Settings := {
  dry_run : bool;
  once : bool;
  interval_value : bool;     (* an interval between polls is configured *)
  align_interval : bool;     (* an aligned cadence is configured *)
  auto_refresh_static : bool;
  static_refresh_time : Z;
  initial_static_refresh : bool;
  auto_archive_snapshots : bool;
  archive_time : Z;
  archive_interval_delta : Z;
  initial_archive_snapshots : bool;
  failure_threshold : Z;
  stop_times_path : bool;
  vehicle_history_retention : option Z;
  webhook_url : bool;
  webhook_report : bool
}.

Record ArchiveState := {
  last_archive_date : option Z;
  last_attempt_date : option Z;
  next_archive_date : option Z
}.

Record MainState := {
  ms_conn : Connection;
  last_refresh_date : option Z;
  archive_state : ArchiveState;
  failure_state : gmap string FailureState;
  failure_history : gmap Z (gmap string (gset string));
  last_sent_date : option Z;
  startup_notified : bool;
  first_cycle : bool
}.

(** What happened in the loop, in order. *)
Inductive Event :=
  | RefreshRun (day : Z) (ok : bool)
  | ArchiveRun (day : Z) (ok : bool)
  | FailureAlertSent (alert : FailureAlert)
  | StartupNotice
  | DailyReport (day : Z).

(** How a round of the loop ends: the loop goes on, it breaks, the process
    exits through [SystemExit], or an exception leaves [main]. *)
Inductive Control := Next | Break | Exit | Uncaught.

(** What one round of the loop reads from outside: the reference data, the
    Madrid clock (day, seconds after midnight) at each gate, the exit status
    of the maintenance subprocesses and the database they leave behind, the
    poll cycle, and whether the webhook posts succeeded. *)
Record Tick := {
  tk_reference : Reference;
  tk_refresh_clock : Z * Z;
  tk_refresh_ok : bool;
  tk_archive_clock : Z * Z;
  tk_archive_ok : bool;
  tk_maintained : Database;
  tk_cycle : Cycle;
  tk_startup_posted : bool;
  tk_report_clock : Z * Z;
  tk_report_posted : bool
}.

(** The gate of the scheduled static refresh. *)
Definition refresh_due (cfg : Settings) (last_refresh : option Z) (now : Z * Z) : bool :=
  auto_refresh_static cfg && negb (dry_run cfg)
  && (static_refresh_time cfg <=? now.2)
  && negb (bool_decide (last_refresh = Some now.1)).

(** The gate of the scheduled snapshot archive. *)
Definition archive_due (cfg : Settings) (st : ArchiveState) (now : Z * Z) : bool :=
  auto_archive_snapshots cfg && negb (dry_run cfg)
  && (archive_time cfg <=? now.2)
  && negb (bool_decide (last_archive_date st = Some now.1))
  && negb (bool_decide (last_attempt_date st = Some now.1))
  && match next_archive_date st with
     | None => true
     | Some next => next <=? now.1
     end.

(** The archive state after a scheduled run. *)
Definition archive_ran (cfg : Settings) (st : ArchiveState) (today : Z) (ok : bool)
    : ArchiveState :=
  if ok then
    {| last_archive_date := Some today;
       last_attempt_date := Some today;
       next_archive_date := Some (today + archive_interval_delta cfg) |}
  else
    {| last_archive_date := last_archive_date st;
       last_attempt_date := Some today;
       next_archive_date :=
         match next_archive_date st with
         | None => Some (today + archive_interval_delta cfg)
         | Some next => Some next
         end |}.

(** The archive state [main] starts from: the latest archive date recorded
    in the database and the day of the start. *)
Definition archive_state_init (cfg : Settings) (latest_archive_date : option Z)
    (today_madrid : Z) : ArchiveState :=
  let next :=
    match latest_archive_date with
    | Some latest => latest + archive_interval_delta cfg
    | None => today_madrid + archive_interval_delta cfg
    end in
  {| last_archive_date := latest_archive_date;
     last_attempt_date := None;
     next_archive_date := if auto_archive_snapshots cfg then Some next else None |}.

(** The refresh at startup: [None] is the [SystemExit] after a failed
    refresh, otherwise the recorded last refresh date. *)
Definition startup_refresh (cfg : Settings) (now : Z * Z) (ok : bool)
    : option (option Z) :=
  if initial_static_refresh cfg && negb (dry_run cfg) then
    if ok then Some (if static_refresh_time cfg <=? now.2 then Some now.1 else None)
    else None
  else Some None.

(** The archive run at startup. *)
Definition startup_archive (cfg : Settings) (st : ArchiveState) (today_madrid : Z)
    (now : Z * Z) (ok : bool) : ArchiveState :=
  if auto_archive_snapshots cfg && negb (dry_run cfg) && initial_archive_snapshots cfg
  then
    if ok && (archive_time cfg <=? now.2) then
      {| last_archive_date := Some now.1;
         last_attempt_date := Some now.1;
         next_archive_date := Some (now.1 + archive_interval_delta cfg) |}
    else
      {| last_archive_date := last_archive_date st;
         last_attempt_date := Some now.1;
         next_archive_date := Some today_madrid |}
  else st.

(** [maybe_send_daily_report] on its state; days count from 1970-01-01, and
    00:05 is second 300 of the day. *)
Definition maybe_send_daily_report (cfg : Settings) (now : Z * Z) (posted : bool)
    (st : MainState) : MainState * list Event :=
  let with_report last_sent history :=
    {| ms_conn := ms_conn st;
       last_refresh_date := last_refresh_date st;
       archive_state := archive_state st;
       failure_state := failure_state st;
       failure_history := history;
       last_sent_date := last_sent;
       startup_notified := startup_notified st;
       first_cycle := first_cycle st |} in
  if bool_decide (last_sent_date st = Some now.1) then (st, [])
  else if now.2 <? 300 then (st, [])
  else if negb (webhook_report cfg) then (with_report (Some now.1) (failure_history st), [])
  else
    let report_date := now.1 - 1 in
    if report_date <? 0 then (with_report (Some now.1) (failure_history st), [])
    else if posted
         then (with_report (Some now.1) (delete report_date (failure_history st)),
               [DailyReport report_date])
         else (st, []).

(** One round of the [while True] loop of [main]. *)
Definition loop_body (cfg : Settings) (tk : Tick) (st : MainState)
    : MainState * Control * list Event :=
  if negb (align_interval cfg) && negb (first_cycle st) && negb (interval_value cfg)
  then (st, Break, [])
  else if refresh_due cfg (last_refresh_date st) (tk_refresh_clock tk) then
    let today := (tk_refresh_clock tk).1 in
    if tk_refresh_ok tk then
      ({| ms_conn := connect (tk_maintained tk);
          last_refresh_date := Some today;
          archive_state := archive_state st;
          failure_state := ∅;
          failure_history := ∅;
          last_sent_date := last_sent_date st;
          startup_notified := startup_notified st;
          first_cycle := first_cycle st |}, Next, [RefreshRun today true])
    else
      ({| ms_conn := connect (tk_maintained tk);
          last_refresh_date := last_refresh_date st;
          archive_state := archive_state st;
          failure_state := failure_state st;
          failure_history := failure_history st;
          last_sent_date := last_sent_date st;
          startup_notified := startup_notified st;
          first_cycle := first_cycle st |}, Exit, [RefreshRun today false])
  else if archive_due cfg (archive_state st) (tk_archive_clock tk) then
    let today := (tk_archive_clock tk).1 in
    ({| ms_conn := connect (tk_maintained tk);
        last_refresh_date := last_refresh_date st;
        archive_state := archive_ran cfg (archive_state st) today (tk_archive_ok tk);
        failure_state := failure_state st;
        failure_history := failure_history st;
        last_sent_date := last_sent_date st;
        startup_notified := startup_notified st;
        first_cycle := first_cycle st |}, Next, [ArchiveRun today (tk_archive_ok tk)])
  else
    let result :=
      run_iteration (tk_reference tk) (tk_cycle tk) (ms_conn st) (dry_run cfg)
        (failure_state st) (failure_history st) (failure_threshold cfg)
        (stop_times_path cfg) (vehicle_history_retention cfg) in
    let alerts := FailureAlertSent <$> it_alerts result in
    match it_outcome result with
    | Raised =>
        ({| ms_conn := connect (close (it_conn result));
            last_refresh_date := last_refresh_date st;
            archive_state := archive_state st;
            failure_state := it_failure_state result;
            failure_history := it_failure_history result;
            last_sent_date := last_sent_date st;
            startup_notified := startup_notified st;
            first_cycle := first_cycle st |}, Uncaught, alerts)
    | Returned success =>
        let notify :=
          negb (startup_notified st) && negb (dry_run cfg) && webhook_url cfg && success in
        let st1 :=
          {| ms_conn := it_conn result;
             last_refresh_date := last_refresh_date st;
             archive_state := archive_state st;
             failure_state := it_failure_state result;
             failure_history := it_failure_history result;
             last_sent_date := last_sent_date st;
             startup_notified :=
               if notify && tk_startup_posted tk then true else startup_notified st;
             first_cycle := first_cycle st |} in
        let '(st2, reports) :=
          maybe_send_daily_report cfg (tk_report_clock tk) (tk_report_posted tk) st1 in
        let st3 :=
          {| ms_conn := ms_conn st2;
             last_refresh_date := last_refresh_date st2;
             archive_state := archive_state st2;
             failure_state := failure_state st2;
             failure_history := failure_history st2;
             last_sent_date := last_sent_date st2;
             startup_notified := startup_notified st2;
             first_cycle := false |} in
        let events :=
          (alerts ++ (if notify && tk_startup_posted tk then [StartupNotice] else [])
           ++ reports)%list in
        if once cfg || dry_run cfg then (st3, Break, events)
        else if negb (align_interval cfg) && negb (interval_value cfg)
        then (st3, Break, events)
        else (st3, Next, events)
    end.

(** The loop over the rounds the environment provides; when the loop is
    left, the [finally] clause closes the connection. *)
Fixpoint polling_loop (cfg : Settings) (ticks : list Tick) (st : MainState)
    : MainState * Control * list Event :=
  match ticks with
  | [] => (st, Next, [])
  | tk :: rest =>
      let '(st', control, events) := loop_body cfg tk st in
      match control with
      | Next =>
          let '(st'', control', events') := polling_loop cfg rest st' in
          (st'', control', (events ++ events')%list)
      | _ => (st', control, events)
      end
  end.

(** The number of rounds of the loop that were started. *)
Fixpoint rounds_run (cfg : Settings) (ticks : list Tick) (st : MainState) : nat :=
  match ticks with
  | [] => O
  | tk :: rest =>
      match loop_body cfg tk st with
      | (st', Next, _) => S (rounds_run cfg rest st')
      | _ => 1%nat
      end
  end.

(** * Notions used in the statements *)

(** ** FeedClassifier *)

Definition has_payload (entity : FeedEntity) : bool :=
  bool_decide (is_Some (fe_vehicle entity))
  || bool_decide (is_Some (fe_trip_update entity))
  || bool_decide (is_Some (fe_alert entity)).

(** The kind of an entity that carries a payload: vehicle before trip
    update before alert. *)
Definition entity_kind (entity : FeedEntity) : FeedType :=
  if bool_decide (is_Some (fe_vehicle entity)) then VEHICLE_POSITIONS
  else if bool_decide (is_Some (fe_trip_update entity)) then TRIP_UPDATES
  else ALERTS.

Definition substring (needle hay : string) : Prop :=
  ∃ before after, hay = before +:+ needle +:+ after.

Definition no_vehicle : VehiclePayload :=
  {| vp_vehicle_id := None; vp_vehicle_label := None; vp_trip_id := None;
     vp_stop_id := None; vp_current_status := None |}.

Definition no_alert : AlertPayload :=
  {| al_translations := []; al_active_period := []; al_effect := None;
     al_cause := None; al_informed_entity := [] |}.

Definition vehicle_entity (id : string) (vehicle : VehiclePayload) : FeedEntity :=
  {| fe_id := id; fe_vehicle := Some vehicle; fe_trip_update := None;
     fe_alert := None |}.

Definition trip_update_entity (id : string) (update : TripUpdatePayload) : FeedEntity :=
  {| fe_id := id; fe_vehicle := None; fe_trip_update := Some update;
     fe_alert := None |}.

Definition alert_entity (id : string) (alert : AlertPayload) : FeedEntity :=
  {| fe_id := id; fe_vehicle := None; fe_trip_update := None;
     fe_alert := Some alert |}.

(** A feed whose first entity is an alert and whose second entity is a
    vehicle position. *)
Definition mixed_message : FeedMessage :=
  {| msg_header_timestamp := 100;
     msg_entity := [alert_entity "a1" no_alert; vehicle_entity "v1" no_vehicle] |}.

(** ** FailureTracker *)

(** The tracker over a sequence of fetch outcomes, each a URL with whether
    its fetch succeeded, as the fetch loop feeds them to it cycle after
    cycle. *)
Definition track_step (failure_threshold : Z)
    (acc : gmap string FailureState * list FailureAlert) (outcome : string * bool)
    : gmap string FailureState * list FailureAlert :=
  if outcome.2 then (record_success outcome.1 acc.1, acc.2)
  else
    let '(failure_state, alerts) := record_failure failure_threshold outcome.1 acc.1 in
    (failure_state, (acc.2 ++ alerts)%list).

Definition track (failure_threshold : Z) (outcomes : list (string * bool))
    (failure_state : gmap string FailureState)
    : gmap string FailureState * list FailureAlert :=
  foldl (track_step failure_threshold) (failure_state, []) outcomes.

Definition poll_outcome (poll : Poll) : string * bool :=
  (poll_url poll,
   bool_decide (is_Some (poll_fetched poll ≫= fetch_single_feed (poll_url poll)))).

Definition alerts_for (url : string) (alerts : list FailureAlert) : list FailureAlert :=
  List.filter (fun alert => bool_decide (fa_feed_url alert = url)) alerts.

Definition failures_of (url : string) (outcomes : list (string * bool)) : nat :=
  List.length (List.filter (fun o => bool_decide (o.1 = url) && negb o.2) outcomes).

Definition streak_reset : FailureState := {| count := 0%nat; alert_sent := false |}.

(** The threshold is set (positive) and [n] consecutive failures reach it. *)
Definition reached (failure_threshold : Z) (n : nat) : bool :=
  (0 <? failure_threshold) && (failure_threshold <=? Z.of_nat n).

(** ** DimensionResolver *)

(** The timetable of a trip in the CSV file, sorted by stop sequence. *)
Definition csv_timetable (file : CsvFile) (trip : string) : list StopTimeEntry :=
  match file with
  | Some rows => sorted_by entry_lt (csv_profile_rows trip rows)
  | None => []
  end.

(** The timetable of a trip: the rows of the reference storage, and when
    it has none, the rows of the CSV fallback, if one is configured. *)
Definition timetable (rf : Reference) (with_csv : bool) (trip : string)
    : list StopTimeEntry :=
  match select_stop_times (ref_static rf) trip with
  | [] => if with_csv then csv_timetable (ref_csv rf) trip else []
  | rows => rows
  end.

Definition has_fallback (lk : DimLookup) : bool :=
  bool_decide (is_Some (_stop_times_fallback lk)).

(** The caches of a resolver agree with the reference data they were
    filled from. *)
Record coherent (rf : Reference) (lk : DimLookup) : Prop := {
  coh_profiles :
    ∀ trip profile, _trip_profiles lk !! trip = Some profile →
      profile = timetable rf (has_fallback lk) trip;
  coh_stops :
    ∀ stop known, _stop_exists lk !! stop = Some known →
      known = bool_decide (stop ∈ dim_stops (ref_static rf));
  coh_fallback_cache :
    ∀ fb trip profile, _stop_times_fallback lk = Some fb →
      fb_cache fb !! trip = Some profile → profile = csv_timetable (ref_csv rf) trip;
  coh_fallback_misses :
    ∀ fb trip, _stop_times_fallback lk = Some fb →
      trip ∈ fb_misses fb → csv_timetable (ref_csv rf) trip = []
}.

(** Every trip whose timetable was looked up and found empty is in the
    missing-trip set. *)
Definition missing_recorded (rf : Reference) (lk : DimLookup) : Prop :=
  ∀ trip, is_Some (_trip_profiles lk !! trip) →
    timetable rf (has_fallback lk) trip = [] → trip ∈ missing_trip lk.

(** The stop exists in the stop table (and is a non-empty id). *)
Definition known_stop (rf : Reference) (stop : option string) : bool :=
  match stop with
  | Some s => negb (String.eqb s "") && bool_decide (s ∈ dim_stops (ref_static rf))
  | None => false
  end.

(** The entry next to a position of a timetable. *)
Definition neighbour (profile : list StopTimeEntry) (index : nat) (forward : bool)
    : option StopTimeEntry :=
  if forward then profile !! S index
  else match index with
       | O => None
       | S before => profile !! before
       end.

(** The neighbour, when its stop passes the existence check. *)
Definition known_neighbour (rf : Reference) (profile : list StopTimeEntry)
    (index : nat) (forward : bool) : option StopTimeEntry :=
  match neighbour profile index forward with
  | Some entry => if known_stop rf (Some (stop_id entry)) then Some entry else None
  | None => None
  end.

(** Where the current stop of a vehicle stands in the timetable of its
    trip: the index of the first entry with that stop, and the timetable.
    There is none when the trip id is absent or empty, the stop is not a
    known stop, or the timetable has no entry for the stop. *)
Definition stop_position (rf : Reference) (with_csv : bool) (vehicle : VehiclePayload)
    : option (nat * list StopTimeEntry) :=
  match vp_trip_id vehicle, vp_stop_id vehicle with
  | Some trip, Some stop =>
      if truthy (Some trip) && known_stop rf (Some stop)
      then (fun found => (found.1, timetable rf with_csv trip))
             <$> find_stop stop 0 (timetable rf with_csv trip)
      else None
  | _, _ => None
  end.

Definition by_sequence (a b : StopTimeEntry) : Prop :=
  stop_sequence a ≤ stop_sequence b.

(** The reference data of the examples: trip T1 is in no dimension table;
    the CSV fallback has its stops 43000, 51003 and 51100 at sequences 8,
    9 and 10. *)
Definition csv_row (trip : string) (sequence : Z) (stop : string) : CsvRow :=
  {| csv_trip_id := Some trip; csv_stop_sequence := Some sequence;
     csv_stop_id := Some stop; csv_arrival_seconds := None;
     csv_departure_seconds := None |}.

Definition sample_csv : CsvFile :=
  Some [csv_row "T1" 10 "51100"; csv_row "T1" 8 "43000"; csv_row "T2" 1 "70000";
        csv_row "T1" 9 "51003"].

Definition sample_reference (stops : gset string) : Reference :=
  {| ref_static := {| dim_routes := ∅; dim_trips := ∅; dim_stops := stops;
                      dim_stop_times := [] |};
     ref_csv := sample_csv |}.

Definition sample_vehicle : VehiclePayload :=
  {| vp_vehicle_id := Some "447"; vp_vehicle_label := Some "R2-447";
     vp_trip_id := Some "T1"; vp_stop_id := Some "51003";
     vp_current_status := Some "IN_TRANSIT_TO" |}.

(** What a call on the resolver may change: the fallback stays configured
    or not, cached timetables stay cached, the missing-trip set only grows,
    and the caches stay coherent and the empty timetables recorded. *)
Record evolves (rf : Reference) (lk lk' : DimLookup) : Prop := {
  ev_fallback : has_fallback lk' = has_fallback lk;
  ev_cached :
    ∀ trip, is_Some (_trip_profiles lk !! trip) → is_Some (_trip_profiles lk' !! trip);
  ev_missing : missing_trip lk ⊆ missing_trip lk';
  ev_coherent : coherent rf lk → coherent rf lk';
  ev_recorded : coherent rf lk → missing_recorded rf lk → missing_recorded rf lk'
}.



(** ** VehiclePositionWriter *)

(** The previous and next stop of a record are the neighbours of the
    current stop in the timetable, each emitted when its stop passes the
    existence check; without a position in a timetable they are absent. *)
Definition adjacent_stops (rf : Reference) (with_csv : bool)
    (vehicle : VehiclePayload) (record : VehiclePositionRecord) : Prop :=
  match stop_position rf with_csv vehicle with
  | Some (index, profile) =>
      previous_stop_id record = stop_id <$> known_neighbour rf profile index false
      ∧ next_stop_id record = stop_id <$> known_neighbour rf profile index true
      ∧ next_stop_sequence record
        = stop_sequence <$> known_neighbour rf profile index true
  | None =>
      previous_stop_id record = None ∧ next_stop_id record = None
      ∧ next_stop_sequence record = None
  end.

(** The same with the neighbours taken as they stand in the timetable,
    which is how the claim reads. *)
Definition adjacent_stops_unchecked (rf : Reference) (with_csv : bool)
    (vehicle : VehiclePayload) (record : VehiclePositionRecord) : Prop :=
  match stop_position rf with_csv vehicle with
  | Some (index, profile) =>
      previous_stop_id record = stop_id <$> neighbour profile index false
      ∧ next_stop_id record = stop_id <$> neighbour profile index true
  | None => previous_stop_id record = None ∧ next_stop_id record = None
  end.

Definition sample_vehicle_feed : FeedEnvelope :=
  {| env_url := "https://example.com/vehicle_positions.pb";
     env_feed_type := VEHICLE_POSITIONS;
     env_message :=
       {| msg_header_timestamp := 0;
          msg_entity := [vehicle_entity "e1" sample_vehicle] |};
     env_header_timestamp := None |}.

(** ** SnapshotCoordinator *)

(** No transaction is open: the working copy is the committed database. *)
Definition clean (conn : Connection) : Prop := working conn = committed conn.

(** Every feed kind has an envelope. *)
Definition all_kinds_fetched (envs : list FeedEnvelope) : Prop :=
  ∀ kind, ∃ envelope, envelope ∈ envs ∧ env_feed_type envelope = kind.

(** The cursor value stored for a kind, if there is a row with one. *)
Definition stored_cursor (db : Database) (kind : FeedType) : option Z :=
  rt_feed_cursors db !! FeedType_value kind ≫= last_header_timestamp.

(** The header of the envelope is strictly greater than the stored cursor
    of its kind. *)
Definition strictly_newer (db : Database) (envelope : FeedEnvelope) : Prop :=
  ∃ header cursor,
    env_header_timestamp envelope = Some header
    ∧ stored_cursor db (env_feed_type envelope) = Some cursor
    ∧ cursor < header.

(** The envelope has no header timestamp, or its kind has no stored
    cursor. *)
Definition unknown_freshness (db : Database) (envelope : FeedEnvelope) : Prop :=
  env_header_timestamp envelope = None
  ∨ stored_cursor db (env_feed_type envelope) = None.

(** The envelope is not stale. *)
Definition not_stale (db : Database) (envelope : FeedEnvelope) : Prop :=
  unknown_freshness db envelope ∨ strictly_newer db envelope.

(** The header of the envelope is at most the stored cursor of its kind. *)
Definition unchanged (db : Database) (envelope : FeedEnvelope) : Prop :=
  ∃ header cursor,
    env_header_timestamp envelope = Some header
    ∧ stored_cursor db (env_feed_type envelope) = Some cursor
    ∧ header ≤ cursor.

(** A snapshot row is in the committed database after the cycle that was
    not there before. *)
Definition snapshot_created (before after : Connection) : Prop :=
  ∃ snapshot, rt_snapshots (committed before) !! snapshot = None
              ∧ is_Some (rt_snapshots (committed after) !! snapshot).

(** The envelopes of a cycle. *)
Definition cycle_envelopes (cy : Cycle) : list FeedEnvelope :=
  omap (fun poll => poll_fetched poll ≫= fetch_single_feed (poll_url poll)) (cy_polls cy).

Definition no_fault : Stage → bool := fun _ => false.

(** *** The cycles of the examples *)

Definition sample_trip_update : TripUpdatePayload :=
  {| tu_trip_id := Some "T1"; tu_schedule_relationship := None;
     tu_stop_time_update :=
       [ {| stu_stop_id := Some "51003"; stu_arrival_time := Some 1700000300;
            stu_arrival_delay := Some 120; stu_departure_time := None;
            stu_departure_delay := None; stu_schedule_relationship := None |} ] |}.

Definition sample_alert : AlertPayload :=
  {| al_translations := [ {| tr_language := Some "es"; tr_text := Some "Retrasos" |} ];
     al_active_period := [ {| ap_start := Some 1700000000; ap_end := None |} ];
     al_effect := Some "SIGNIFICANT_DELAYS"; al_cause := None;
     al_informed_entity :=
       [ {| ie_route_id := Some "R2"; ie_stop_id := Some "51003"; ie_trip_id := None |} ] |}.

Definition sample_static : Reference :=
  {| ref_static :=
       {| dim_routes := {["R2"]};
          dim_trips := {["T1" := Some "R2"]};
          dim_stops := {["43000"; "51003"; "51100"]};
          dim_stop_times := [] |};
     ref_csv := sample_csv |}.

(** Three feeds with the given header timestamps. *)
Definition sample_polls (vehicle_header trip_header alert_header : Z) : list Poll :=
  [ {| poll_url := "https://example.com/vehicle_positions.pb";
       poll_fetched :=
         Some {| msg_header_timestamp := vehicle_header;
                 msg_entity := [vehicle_entity "e1" sample_vehicle] |};
       poll_clock := (19000, "10:00") |};
    {| poll_url := "https://example.com/trip_updates.pb";
       poll_fetched :=
         Some {| msg_header_timestamp := trip_header;
                 msg_entity := [trip_update_entity "u1" sample_trip_update] |};
       poll_clock := (19000, "10:00") |};
    {| poll_url := "https://example.com/alerts.pb";
       poll_fetched :=
         Some {| msg_header_timestamp := alert_header;
                 msg_entity := [alert_entity "a1" sample_alert] |};
       poll_clock := (19000, "10:00") |} ].

Definition sample_cycle (vehicle_header trip_header alert_header : Z)
    (fault : Stage → bool) : Cycle :=
  {| cy_polls := sample_polls vehicle_header trip_header alert_header;
     cy_snapshot_id := 8;
     cy_polled_at := 1700000400;
     cy_updated_at := 1700000401;
     cy_db_fault := fault |}.

Definition empty_database : Database :=
  {| rt_snapshots := ∅; rt_feed_cursors := ∅; rt_trip_delays := ∅;
     db_vehicles :=
       {| rt_vehicle_positions := ∅; rt_rodalies_vehicle_positions := ∅;
          rt_rodalies_vehicle_current := ∅; rt_rodalies_vehicle_history := ∅ |};
     db_alerts :=
       {| rt_alerts := ∅; rt_alert_routes := ∅; rt_alert_stops := ∅;
          rt_alert_trips := ∅; rt_alert_active_periods := ∅ |} |}.

Definition cursor_row (header snapshot : Z) : CursorRow :=
  {| last_header_timestamp := Some header; last_snapshot_id := Some snapshot |}.

(** A database after snapshot 7, with the cursors at 100, 40 and 75. *)
Definition sample_database : Database :=
  with_feed_cursors
    {[ "vehicle_positions" := cursor_row 100 7;
       "trip_updates" := cursor_row 40 7;
       "alerts" := cursor_row 75 7 ]}
    (with_snapshots
       {[ 7 := {| polled_at_utc := 1700000100;
                  vehicle_feed_timestamp_utc := Some 100;
                  trip_feed_timestamp_utc := Some 40;
                  alert_feed_timestamp_utc := Some 75 |} ]}
       empty_database).

Definition sample_run (dry : bool) (cy : Cycle) : IterationResult :=
  run_iteration sample_static cy (connect sample_database) dry ∅ ∅ 3 true (Some 86400).

(** ** The polling loop *)

(** The gate of a maintenance task in the words of the specification: the
    time of day has passed the threshold, today differs from the last
    attempt date and from the last success date, and the minimum interval
    has elapsed since the last success. *)
Definition gate_as_specified (threshold interval : Z)
    (last_attempt last_success : option Z) (now : Z * Z) : Prop :=
  threshold ≤ now.2
  ∧ last_attempt ≠ Some now.1
  ∧ last_success ≠ Some now.1
  ∧ ∀ day, last_success = Some day → day + interval ≤ now.1.

(** The loop does not stop at its top: a cadence is configured or this is
    the first round. *)
Definition keeps_polling (cfg : Settings) (st : MainState) : Prop :=
  align_interval cfg || first_cycle st || interval_value cfg = true.

Definition fault_at_trip_delays (stage : Stage) : bool :=
  match stage with
  | StoreTripDelays => true
  | _ => false
  end.

(** Polling every interval, no maintenance tasks. *)
Definition sample_settings : Settings :=
  {| dry_run := false; once := false; interval_value := true;
     align_interval := false;
     auto_refresh_static := false; static_refresh_time := 36000;
     initial_static_refresh := false;
     auto_archive_snapshots := false; archive_time := 7200;
     archive_interval_delta := 1; initial_archive_snapshots := false;
     failure_threshold := 3; stop_times_path := true;
     vehicle_history_retention := Some 86400;
     webhook_url := true; webhook_report := false |}.

(** Daily refresh at 10:00 and archive at 02:00 with a minimum interval of
    seven days, both also run at startup. *)
Definition maintenance_settings : Settings :=
  {| dry_run := false; once := false; interval_value := true;
     align_interval := false;
     auto_refresh_static := true; static_refresh_time := 36000;
     initial_static_refresh := true;
     auto_archive_snapshots := true; archive_time := 7200;
     archive_interval_delta := 7; initial_archive_snapshots := true;
     failure_threshold := 3; stop_times_path := true;
     vehicle_history_retention := Some 86400;
     webhook_url := true; webhook_report := false |}.

Definition sample_tick (cy : Cycle) : Tick :=
  {| tk_reference := sample_static;
     tk_refresh_clock := (19000, 36000); tk_refresh_ok := true;
     tk_archive_clock := (19000, 36000); tk_archive_ok := true;
     tk_maintained := sample_database;
     tk_cycle := cy;
     tk_startup_posted := true;
     tk_report_clock := (19000, 36010); tk_report_posted := true |}.

Definition sample_state : MainState :=
  {| ms_conn := connect sample_database;
     last_refresh_date := None;
     archive_state :=
       {| last_archive_date := None; last_attempt_date := None;
          next_archive_date := None |};
     failure_state := ∅;
     failure_history := ∅;
     last_sent_date := Some 19000;
     startup_notified := false;
     first_cycle := true |}.

(** * Further parts of the poller *)

(** ** Feed list ([poll_gtfs.resolve_feeds]) *)

(** [str.rstrip()]: what is left of the text once the white space at its
    end is gone. *)
Fixpoint rstrip (s : string) : string :=
  match s with
  | EmptyString => EmptyString
  | String c rest =>
      match rstrip rest with
      | EmptyString => if is_space c then EmptyString else String c EmptyString
      | String d EmptyString =>
          if is_space2 c d then EmptyString else String c (String d EmptyString)
      | String d (String e EmptyString) =>
          if is_space3 c d e then EmptyString
          else String c (String d (String e EmptyString))
      | kept => String c kept
      end
  end.

(** [str.strip()] *)
Definition strip (s : string) : string := rstrip (lstrip s).

(** [str.split(sep)] for a separator of one character. *)
Fixpoint split_on (sep : ascii) (s : string) : list string :=
  match s with
  | EmptyString => [EmptyString]
  | String c rest =>
      if Ascii.eqb c sep then EmptyString :: split_on sep rest
      else match split_on sep rest with
           | first :: others => String c first :: others
           | [] => [String c EmptyString]
           end
  end.

(** The parts of a list of raw values that are not blank, stripped. *)
Definition stripped_parts (parts : list string) : list string :=
  strip <$> List.filter (fun part => negb (String.eqb (strip part) "")) parts.

(** The loop that drops repeated feeds: the feeds seen so far and the
    feeds kept, in order. *)
Definition dedupe_step (acc : gset string * list string) (feed : string)
    : gset string * list string :=
  if bool_decide (feed ∈ acc.1) then acc
  else ({[feed]} ∪ acc.1, (acc.2 ++ [feed])%list).

Definition dedupe (feeds : list string) : list string :=
  (foldl dedupe_step (∅, []) feeds).2.

(** [resolve_feeds]: the value of the environment variable (the empty
    string when it is not set) and the feeds of the command line, if
    any. *)
Definition resolve_feeds (env_value : string) (cli_feeds : option (list string))
    : list string :=
  let from_env :=
    if String.eqb env_value "" then []
    else stripped_parts (split_on ","%char env_value) in
  let from_cli :=
    match cli_feeds with
    | Some feeds =>
        stripped_parts (List.filter (fun feed => negb (String.eqb feed "")) feeds)
    | None => []
    end in
  dedupe (from_env ++ from_cli)%list.

(** ** [load_failure_threshold]

    The argument is what [_to_int] makes of the environment variable:
    [None] when the variable is not set or is no integer. *)
Definition load_failure_threshold (value : option Z) (default : Z) : Z :=
  match value with
  | None => default
  | Some v => Z.max v 0
  end.

(** * Notions used in the further statements *)

(** Every row of a table keyed by snapshot belongs to a snapshot of the
    snapshot table. *)
Definition snapshot_of_entity (key : Z * string) : Z := key.1.
Definition snapshot_of_triple {A : Type} (key : Z * string * A) : Z := key.1.1.

Record references_hold (db : Database) : Prop := {
  ref_trip_delays :
    ∀ key, is_Some (rt_trip_delays db !! key) →
      is_Some (rt_snapshots db !! snapshot_of_triple key);
  ref_alerts :
    ∀ key, is_Some (rt_alerts (db_alerts db) !! key) →
      is_Some (rt_snapshots db !! snapshot_of_triple key);
  ref_alert_routes :
    ∀ key, is_Some (rt_alert_routes (db_alerts db) !! key) →
      is_Some (rt_snapshots db !! snapshot_of_triple key);
  ref_alert_stops :
    ∀ key, is_Some (rt_alert_stops (db_alerts db) !! key) →
      is_Some (rt_snapshots db !! snapshot_of_triple key);
  ref_alert_trips :
    ∀ key, is_Some (rt_alert_trips (db_alerts db) !! key) →
      is_Some (rt_snapshots db !! snapshot_of_triple key);
  ref_alert_periods :
    ∀ key, is_Some (rt_alert_active_periods (db_alerts db) !! key) →
      is_Some (rt_snapshots db !! snapshot_of_triple key);
  ref_positions :
    ∀ key, is_Some (rt_vehicle_positions (db_vehicles db) !! key) →
      is_Some (rt_snapshots db !! snapshot_of_entity key);
  ref_rodalies_positions :
    ∀ key, is_Some (rt_rodalies_vehicle_positions (db_vehicles db) !! key) →
      is_Some (rt_snapshots db !! snapshot_of_entity key);
  ref_history :
    ∀ key, is_Some (rt_rodalies_vehicle_history (db_vehicles db) !! key) →
      is_Some (rt_snapshots db !! key.2)
}.

(** Every fetched feed carries a header timestamp, which is positive. *)
Definition headers_present (envs : list FeedEnvelope) : Prop :=
  ∀ envelope, envelope ∈ envs →
    ∃ header, env_header_timestamp envelope = Some header ∧ 0 < header.

(** The trip and route existence caches of a resolver agree with the
    dimension tables. *)
Record resolved (rf : Reference) (lk : DimLookup) : Prop := {
  res_trips :
    ∀ trip known, _trip_exists lk !! trip = Some known →
      known = bool_decide (is_Some (dim_trips (ref_static rf) !! trip));
  res_routes :
    ∀ route known, _route_exists lk !! route = Some known →
      known = bool_decide (route ∈ dim_routes (ref_static rf))
}.

(** The references of a vehicle record exist in the dimension tables: the
    trip, the route (unless it is the empty id, which the writer passes
    on unchecked), and the three stops. *)
Definition linked (rf : Reference) (record : VehiclePositionRecord) : Prop :=
  (∀ trip, trip_id record = Some trip →
     trip ≠ "" ∧ is_Some (dim_trips (ref_static rf) !! trip))
  ∧ (∀ route, route_id record = Some route →
       route = "" ∨ route ∈ dim_routes (ref_static rf))
  ∧ (∀ stop, current_stop_id record = Some stop →
       stop ≠ "" ∧ stop ∈ dim_stops (ref_static rf))
  ∧ (∀ stop, previous_stop_id record = Some stop →
       stop ≠ "" ∧ stop ∈ dim_stops (ref_static rf))
  ∧ (∀ stop, next_stop_id record = Some stop →
       stop ≠ "" ∧ stop ∈ dim_stops (ref_static rf)).

(** The snapshot recorded with the cursor of a kind. *)
Definition cursor_snapshot (db : Database) (kind : FeedType) : option Z :=
  rt_feed_cursors db !! FeedType_value kind ≫= last_snapshot_id.

(** The row that [insert_snapshot] writes. *)
Definition snapshot_row (cy : Cycle) (indexed : gmap FeedType FeedEnvelope)
    : SnapshotRow :=
  {| polled_at_utc := cy_polled_at cy;
     vehicle_feed_timestamp_utc :=
       _epoch_to_datetime (indexed_header indexed VEHICLE_POSITIONS);
     trip_feed_timestamp_utc :=
       _epoch_to_datetime (indexed_header indexed TRIP_UPDATES);
     alert_feed_timestamp_utc :=
       _epoch_to_datetime (indexed_header indexed ALERTS) |}.

(** The rows of every snapshot other than [snapshot] are in [db'] as they
    are in [db]; in the history table, which is pruned, the rows of other
    snapshots that remain are as they were. *)
Record other_snapshots_kept (snapshot : Z) (db db' : Database) : Prop := {
  kept_snapshots :
    ∀ other, other ≠ snapshot → rt_snapshots db' !! other = rt_snapshots db !! other;
  kept_trip_delays :
    ∀ key, snapshot_of_triple key ≠ snapshot →
      rt_trip_delays db' !! key = rt_trip_delays db !! key;
  kept_alerts :
    ∀ key, snapshot_of_triple key ≠ snapshot →
      rt_alerts (db_alerts db') !! key = rt_alerts (db_alerts db) !! key;
  kept_alert_routes :
    ∀ key, snapshot_of_triple key ≠ snapshot →
      rt_alert_routes (db_alerts db') !! key = rt_alert_routes (db_alerts db) !! key;
  kept_alert_stops :
    ∀ key, snapshot_of_triple key ≠ snapshot →
      rt_alert_stops (db_alerts db') !! key = rt_alert_stops (db_alerts db) !! key;
  kept_alert_trips :
    ∀ key, snapshot_of_triple key ≠ snapshot →
      rt_alert_trips (db_alerts db') !! key = rt_alert_trips (db_alerts db) !! key;
  kept_alert_periods :
    ∀ key, snapshot_of_triple key ≠ snapshot →
      rt_alert_active_periods (db_alerts db') !! key
      = rt_alert_active_periods (db_alerts db) !! key;
  kept_positions :
    ∀ key, snapshot_of_entity key ≠ snapshot →
      rt_vehicle_positions (db_vehicles db') !! key
      = rt_vehicle_positions (db_vehicles db) !! key;
  kept_rodalies_positions :
    ∀ key, snapshot_of_entity key ≠ snapshot →
      rt_rodalies_vehicle_positions (db_vehicles db') !! key
      = rt_rodalies_vehicle_positions (db_vehicles db) !! key;
  kept_history :
    ∀ key, key.2 ≠ snapshot →
      is_Some (rt_rodalies_vehicle_history (db_vehicles db') !! key) →
      rt_rodalies_vehicle_history (db_vehicles db') !! key
      = rt_rodalies_vehicle_history (db_vehicles db) !! key
}.

(** Two resolver states with the same trip and route existence caches. *)
Definition same_existence (lk lk' : DimLookup) : Prop :=
  _trip_exists lk' = _trip_exists lk ∧ _route_exists lk' = _route_exists lk.

(** After an archive run that succeeded on some day, every later archive
    run of the event list is at least [interval] days after it. *)
Fixpoint archives_spaced (interval : Z) (events : list Event) : Prop :=
  match events with
  | [] => True
  | ArchiveRun day true :: rest =>
      (∀ later ok, ArchiveRun later ok ∈ rest → day + interval ≤ later)
      ∧ archives_spaced interval rest
  | _ :: rest => archives_spaced interval rest
  end.

(** An event that a dry run can produce: a failure alert or a daily
    report. *)
Definition report_event (event : Event) : Prop :=
  (∃ alert, event = FailureAlertSent alert) ∨ (∃ day, event = DailyReport day).

(** The settings of the examples, as a dry run. *)
Definition dry_settings : Settings :=
  {| dry_run := true; once := false; interval_value := true;
     align_interval := false;
     auto_refresh_static := true; static_refresh_time := 36000;
     initial_static_refresh := true;
     auto_archive_snapshots := true; archive_time := 7200;
     archive_interval_delta := 7; initial_archive_snapshots := true;
     failure_threshold := 3; stop_times_path := true;
     vehicle_history_retention := Some 86400;
     webhook_url := true; webhook_report := false |}.

(** The feeds that go into the loop of [resolve_feeds]. *)
Definition candidate_feeds (env_value : string) (cli_feeds : option (list string))
    (feed : string) : Prop :=
  (env_value ≠ "" ∧ ∃ part, part ∈ split_on ","%char env_value ∧ strip part = feed)
  ∨ (∃ given raw, cli_feeds = Some given ∧ raw ∈ given ∧ strip raw = feed).

(** The delay that a row of the trip-delay table records. *)
Definition delay_of_row (row : TripDelayRow) : TripDelaySnapshot :=
  {| arrival_delay_seconds := td_arrival_delay_seconds row;
     departure_delay_seconds := td_departure_delay_seconds row;
     schedule_relationship := td_schedule_relationship row;
     predicted_arrival_utc := td_predicted_arrival_utc row;
     predicted_departure_utc := td_predicted_departure_utc row |}.

(** The first entry for a stop in the timetable of a trip. *)
Definition scheduled_entry (rf : Reference) (with_csv : bool) (key : string * string)
    : option StopTimeEntry :=
  snd <$> find_stop key.2 0 (timetable rf with_csv key.1).

(** A row of trip delays for a (trip, stop) pair: the trip and the stop
    exist, the delay lookup has the delay of the row under the pair, and
    the scheduled fields are those of the first timetable entry of the stop
    (absent when the timetable has none). *)
Definition trip_delay_row_ok (rf : Reference) (with_csv : bool)
    (delays : gmap (string * string) TripDelaySnapshot)
    (key : string * string) (row : TripDelayRow) : Prop :=
  key.1 ≠ "" ∧ is_Some (dim_trips (ref_static rf) !! key.1)
  ∧ key.2 ≠ "" ∧ key.2 ∈ dim_stops (ref_static rf)
  ∧ delays !! key = Some (delay_of_row row)
  ∧ td_stop_sequence row = stop_sequence <$> scheduled_entry rf with_csv key
  ∧ td_scheduled_arrival_seconds row = scheduled_entry rf with_csv key ≫= arrival_seconds
  ∧ td_scheduled_departure_seconds row
    = scheduled_entry rf with_csv key ≫= departure_seconds.

(** What the entity loop of [store_trip_delays] keeps true of its rows and
    its delay lookup. *)
Definition delay_rows_ok (rf : Reference) (with_csv : bool)
    (rows : list ((string * string) * TripDelayRow))
    (delays : gmap (string * string) TripDelaySnapshot) : Prop :=
  NoDup rows.*1
  ∧ (∀ key row, (key, row) ∈ rows → trip_delay_row_ok rf with_csv delays key row)
  ∧ (∀ key, is_Some (delays !! key) → key ∈ rows.*1)
  ∧ size delays = List.length rows.

(** A resolver state that agrees with the reference data. *)
Definition lookup_ok (rf : Reference) (with_csv : bool) (lk : DimLookup) : Prop :=
  coherent rf lk ∧ resolved rf lk ∧ has_fallback lk = with_csv.

Definition sample_trip_feed : FeedEnvelope :=
  {| env_url := "https://example.com/trip_updates.pb";
     env_feed_type := TRIP_UPDATES;
     env_message :=
       {| msg_header_timestamp := 50;
          msg_entity := [trip_update_entity "u1" sample_trip_update] |};
     env_header_timestamp := Some 50 |}.

Definition sample_alert_feed : FeedEnvelope :=
  {| env_url := "https://example.com/alerts.pb";
     env_feed_type := ALERTS;
     env_message :=
       {| msg_header_timestamp := 80;
          msg_entity := [alert_entity "a1" sample_alert] |};
     env_header_timestamp := Some 80 |}.

(** The alert has a parent row among the rows of a batch, or in the alert
    table under a snapshot. *)
Definition parent_of (rows : list ((string * string) * AlertRow)) (alert : string)
    : Prop :=
  ∃ language, (alert, language) ∈ rows.*1.

Definition alert_parent (db : Database) (snapshot : Z) (alert : string) : Prop :=
  ∃ language, is_Some (rt_alerts (db_alerts db) !! (snapshot, alert, language)).

(** What the entity loop of [store_alerts] keeps true of its batch: the
    routes, stops and trips of the child rows exist, and every child row
    and period row belongs to an alert that has a parent row. *)
Definition alert_batch_ok (rf : Reference) (batch : AlertBatch) : Prop :=
  (∀ alert route, (alert, route) ∈ route_rows batch →
     route ≠ "" ∧ route ∈ dim_routes (ref_static rf)
     ∧ parent_of (base_rows batch) alert)
  ∧ (∀ alert stop, (alert, stop) ∈ stop_rows batch →
       stop ≠ "" ∧ stop ∈ dim_stops (ref_static rf)
       ∧ parent_of (base_rows batch) alert)
  ∧ (∀ alert trip, (alert, trip) ∈ trip_rows batch →
       trip ≠ "" ∧ is_Some (dim_trips (ref_static rf) !! trip)
       ∧ parent_of (base_rows batch) alert)
  ∧ (∀ alert index period, ((alert, index), period) ∈ period_rows batch →
       parent_of (base_rows batch) alert).

(** A failure time is recorded in the failure history under a day and a
    URL. *)
Definition recorded (history : gmap Z (gmap string (gset string)))
    (day : Z) (url time : string) : Prop :=
  ∃ by_url times,
    history !! day = Some by_url ∧ by_url !! url = Some times ∧ time ∈ times.

(** The fetch of a poll failed: the download or the classification. *)
Definition fetch_failed (poll : Poll) : Prop :=
  poll_fetched poll ≫= fetch_single_feed (poll_url poll) = None.

(** The values that a [BIGINT] column holds.  PostgreSQL refuses a
    statement that writes another integer to one. *)
Definition bigint_range (value : Z) : bool :=
  (- 2 ^ 63 <=? value) && (value <? 2 ^ 63).

(** The two instants of an active period can be converted: none is one
    that [datetime.fromtimestamp] raises [OSError] for. *)
Definition period_converts (period : ActivePeriod) : Prop :=
  (∀ t, ap_start period = Some t → gmtime_overflows t = false)
  ∧ (∀ t, ap_end period = Some t → gmtime_overflows t = false).

(** The languages under which [store_alerts] keys the rows of an alert:
    those of its translations, ["und"] for a translation without one and
    for an alert without translations. *)
Definition alert_language (translation : Translation) : string :=
  if truthy (tr_language translation)
  then default "und" (tr_language translation) else "und".

Definition alert_languages (alert : AlertPayload) : list string :=
  match al_translations alert with
  | [] => ["und"]
  | translations => alert_language <$> translations
  end.

(** ** What the write phase asks the resolver *)




(** *** Cycles of the examples *)




(** A cycle in which the alerts feed cannot be fetched, four times over. *)
Definition failing_poll : Poll :=
  {| poll_url := "https://example.com/alerts.pb"; poll_fetched := None;
     poll_clock := (19000, "10:00") |}.

Definition failing_cycle : Cycle :=
  {| cy_polls :=
       [ failing_poll;
         {| poll_url := "https://example.com/trip_updates.pb";
            poll_fetched :=
              Some {| msg_header_timestamp := 50;
                      msg_entity := [trip_update_entity "u1" sample_trip_update] |};
            poll_clock := (19000, "10:00") |};
         failing_poll; failing_poll; failing_poll ];
     cy_snapshot_id := 8;
     cy_polled_at := 1700000400;
     cy_updated_at := 1700000401;
     cy_db_fault := no_fault |}.

(** *** The report, as the claim reads *)



(** * Properties *)

(** ** Strings *)

Lemma starts_with_spec (needle hay : string) :
  starts_with needle hay = true ↔ ∃ after, hay = needle +:+ after.
Proof.
  revert hay. induction needle as [|a needle IH]; intros hay; simpl.
  - split; [intros _; by exists hay | done].
  - destruct hay as [|b hay].
    + split; [done | intros [after Hafter]; discriminate].
    + rewrite andb_true_iff, Ascii.eqb_eq, IH. split.
      * intros [-> [after ->]]. by exists after.
      * intros [after Hafter]. injection Hafter as -> ->. split; [done | by exists after].
Qed.

Lemma contains_spec (needle hay : string) :
  contains needle hay = true ↔ substring needle hay.
Proof.
  unfold substring. induction hay as [|b hay IH].
  - simpl. rewrite orb_false_r, starts_with_spec. split.
    + intros [after Hafter]. by exists "", after.
    + intros [[|c before] [after Hafter]]; [by exists after | discriminate].
  - cbn [contains]. rewrite orb_true_iff, starts_with_spec, IH. split.
    + intros [[after Hafter] | (before & after & Hafter)].
      * by exists "", after.
      * exists (String b before), after. simpl. by rewrite Hafter.
    + intros [[|c before] [after Hafter]].
      * left. by exists after.
      * right. simpl in Hafter. injection Hafter as -> ->. by exists before, after.
Qed.

(** ** FeedClassifier *)

Lemma classify_entities_find (entities : list FeedEntity) :
  classify_entities entities = entity_kind <$> List.find has_payload entities.
Proof.
  induction entities as [|entity rest IH]; [done |].
  destruct entity as [id [v|] [t|] [a|]]; cbn; try done.
Qed.

(** C3, as the code has it: the first entity, in message order, that
    carries any payload decides the kind (vehicle position before trip
    update before alert within that entity); when no entity carries a
    payload, the lower-cased URL is searched for "vehicle", then "trip",
    then "alert", and when none occurs the classification fails. *)
Theorem classify_feed_first_payload (url : string) (message : FeedMessage) :
  classify_feed url message =
    match List.find has_payload (msg_entity message) with
    | Some entity => Some (entity_kind entity)
    | None => classify_by_url url
    end
  ∧ (classify_by_url url = Some VEHICLE_POSITIONS ↔ substring "vehicle" (lower url))
  ∧ (classify_by_url url = Some TRIP_UPDATES ↔
       ¬ substring "vehicle" (lower url) ∧ substring "trip" (lower url))
  ∧ (classify_by_url url = Some ALERTS ↔
       ¬ substring "vehicle" (lower url) ∧ ¬ substring "trip" (lower url)
       ∧ substring "alert" (lower url))
  ∧ (classify_by_url url = None ↔
       ¬ substring "vehicle" (lower url) ∧ ¬ substring "trip" (lower url)
       ∧ ¬ substring "alert" (lower url)).
Proof.
  split.
  { unfold classify_feed. rewrite classify_entities_find.
    by destruct (List.find has_payload (msg_entity message)). }
  rewrite <- !contains_spec. unfold classify_by_url.
  destruct (contains "vehicle" (lower url)), (contains "trip" (lower url)),
    (contains "alert" (lower url)); intuition congruence.
Qed.

(** On a feed whose payload-carrying entities are all of one kind, which
    is what an upstream feed is, the first such entity decides as any of
    them would. *)
Lemma classify_feed_uniform (url : string) (message : FeedMessage) (kind : FeedType) :
  (∀ entity, entity ∈ msg_entity message → has_payload entity = true →
     entity_kind entity = kind) →
  classify_feed url message = classify_feed_any_entity url message.
Proof.
  unfold classify_feed, classify_feed_any_entity.
  induction (msg_entity message) as [|entity rest IH]; intros Hkind; [done |].
  assert (∀ e, e ∈ rest → has_payload e = true → entity_kind e = kind) as Hrest.
  { intros e He. apply Hkind. by apply elem_of_cons; right. }
  specialize (IH Hrest).
  pose proof (Hkind entity ltac:(by apply elem_of_cons; left)) as Hfirst.
  assert (∀ e, e ∈ rest → is_Some (fe_vehicle e) → kind = VEHICLE_POSITIONS) as Hv.
  { intros e He Hsome. rewrite <- (Hrest e He); unfold has_payload, entity_kind;
      by rewrite bool_decide_eq_true_2. }
  assert (∀ e, e ∈ rest → is_Some (fe_trip_update e) → kind ≠ ALERTS) as Ht.
  { intros e He Hsome. rewrite <- (Hrest e He); unfold has_payload, entity_kind.
    - rewrite (bool_decide_eq_true_2 (is_Some (fe_trip_update e))) by done.
      by destruct (bool_decide (is_Some (fe_vehicle e))).
    - rewrite (bool_decide_eq_true_2 (is_Some (fe_trip_update e))) by done.
      by rewrite orb_true_r. }
  cbn [classify_entities existsb].
  unfold has_payload, entity_kind in Hfirst.
  destruct (bool_decide (is_Some (fe_vehicle entity))) eqn:Hev; [done |].
  cbn [orb] in *.
  destruct (existsb (λ e, bool_decide (is_Some (fe_vehicle e))) rest) eqn:Hxv.
  - apply existsb_exists in Hxv as (e & He%list_elem_of_In & Hsome%bool_decide_eq_true).
    pose proof (Hv e He Hsome) as ->.
    destruct (bool_decide (is_Some (fe_trip_update entity))); [by specialize (Hfirst eq_refl) |].
    destruct (bool_decide (is_Some (fe_alert entity))); [by specialize (Hfirst eq_refl) |].
    done.
  - destruct (bool_decide (is_Some (fe_trip_update entity))) eqn:Het; [done |].
    cbn [orb] in *.
    destruct (existsb (λ e, bool_decide (is_Some (fe_trip_update e))) rest) eqn:Hxt.
    + apply existsb_exists in Hxt as (e & He%list_elem_of_In & Hsome%bool_decide_eq_true).
      pose proof (Ht e He Hsome) as Hne.
      destruct (bool_decide (is_Some (fe_alert entity)));
        [by specialize (Hfirst eq_refl) | done].
    + by destruct (bool_decide (is_Some (fe_alert entity))).
Qed.

(** C3, the claim as stated fails: a vehicle payload further down the
    message does not make the feed a vehicle-positions feed when an earlier
    entity carries an alert. *)
Lemma classify_feed_not_any_entity :
  (∃ entity, entity ∈ msg_entity mixed_message ∧ is_Some (fe_vehicle entity))
  ∧ classify_feed "https://example.com/feed.pb" mixed_message = Some ALERTS
  ∧ classify_feed_any_entity "https://example.com/feed.pb" mixed_message
    = Some VEHICLE_POSITIONS.
Proof.
  split; [|done].
  exists (vehicle_entity "v1" no_vehicle). split; [|by eexists].
  unfold mixed_message; simpl. set_solver.
Qed.

(** ** SQL statements *)

Section StatementFacts.
Context {K V : Type} `{Countable K}.

Lemma insert_do_nothing_union (k : K) (v : V) (t : gmap K V) :
  insert_do_nothing k v t = t ∪ {[k := v]}.
Proof.
  unfold insert_do_nothing. apply map_eq. intros j.
  rewrite lookup_union. destruct (t !! k) as [w|] eqn:Hk.
  - destruct (decide (k = j)) as [<-|Hne].
    + by rewrite Hk, lookup_singleton_eq.
    + rewrite lookup_singleton_ne by done. by destruct (t !! j).
  - destruct (decide (k = j)) as [<-|Hne].
    + by rewrite lookup_insert_eq, Hk, lookup_singleton_eq.
    + rewrite lookup_insert_ne, lookup_singleton_ne by done. by destruct (t !! j).
Qed.

Lemma batch_do_nothing_union (rows : list (K * V)) (t : gmap K V) :
  batch_do_nothing rows t = t ∪ list_to_map rows.
Proof.
  unfold batch_do_nothing. revert t.
  induction rows as [|[k v] rows IH]; intros t; simpl.
  - by rewrite (right_id_L ∅ (∪)).
  - rewrite IH, insert_do_nothing_union, <- (assoc_L (∪)).
    by rewrite <- insert_union_singleton_l.
Qed.

Lemma batch_do_nothing_idemp (rows : list (K * V)) (t : gmap K V) :
  batch_do_nothing rows (batch_do_nothing rows t) = batch_do_nothing rows t.
Proof.
  rewrite !batch_do_nothing_union, <- (assoc_L (∪)).
  by rewrite (idemp_L (∪) (list_to_map rows : gmap K V)).
Qed.

Lemma insert_do_nothing_present (k : K) (v : V) (t : gmap K V) :
  is_Some (t !! k) → insert_do_nothing k v t = t.
Proof. intros [w Hw]. unfold insert_do_nothing. by rewrite Hw. Qed.

Lemma insert_row_present (k : K) (v : V) (t : gmap K V) :
  is_Some (t !! k) → insert_row k v t = None.
Proof. intros [w Hw]. unfold insert_row. by rewrite Hw. Qed.

Lemma insert_do_nothing_again (k : K) (v w : V) (t : gmap K V) :
  insert_do_nothing k w (insert_do_nothing k v t) = insert_do_nothing k v t.
Proof.
  apply insert_do_nothing_present. unfold insert_do_nothing.
  destruct (t !! k) as [u|] eqn:Hk; [by rewrite Hk | by rewrite lookup_insert_eq].
Qed.

Lemma batch_do_nothing_lookup_Some (rows : list (K * V)) (t : gmap K V) (k : K) (v : V) :
  t !! k = Some v → batch_do_nothing rows t !! k = Some v.
Proof.
  intros Hk. rewrite batch_do_nothing_union. by apply lookup_union_Some_l.
Qed.

Lemma batch_insert_Some (rows : list (K * V)) (t t' : gmap K V) :
  batch_insert rows t = Some t' → t ⊆ t'.
Proof.
  revert t. induction rows as [|[k v] rows IH]; intros t; simpl.
  - by intros [= ->].
  - unfold insert_row. destruct (t !! k) eqn:Hk; [done |].
    intros Hrest. etrans; [|by apply IH]. by apply insert_subseteq.
Qed.
End StatementFacts.

(** ** AlertWriter *)

(** C7: the child-row statements of the alert writer are idempotent.  Each
    is an [INSERT ... ON CONFLICT DO NOTHING]: an insert for a key that is
    already in the table returns the table as it is (where the plain
    [INSERT] would raise), and running the whole batch of child rows again
    on the tables it produced changes nothing, so no row is added twice. *)
Theorem alert_children_idempotent (snapshot : Z) (batch : AlertBatch) (t : AlertTables) :
  insert_alert_children snapshot batch (insert_alert_children snapshot batch t)
  = insert_alert_children snapshot batch t
  ∧ (∀ key, is_Some (rt_alert_routes t !! key) →
       insert_do_nothing key () (rt_alert_routes t) = rt_alert_routes t
       ∧ insert_row key () (rt_alert_routes t) = None)
  ∧ (∀ key, is_Some (rt_alert_stops t !! key) →
       insert_do_nothing key () (rt_alert_stops t) = rt_alert_stops t)
  ∧ (∀ key, is_Some (rt_alert_trips t !! key) →
       insert_do_nothing key () (rt_alert_trips t) = rt_alert_trips t)
  ∧ (∀ key period, is_Some (rt_alert_active_periods t !! key) →
       insert_do_nothing key period (rt_alert_active_periods t)
       = rt_alert_active_periods t).
Proof.
  split.
  { unfold insert_alert_children; simpl. by rewrite !batch_do_nothing_idemp. }
  repeat split; intros; auto using insert_do_nothing_present, insert_row_present.
Qed.

(** ** FailureTracker *)

Lemma failure_entry_insert (url : string) (s : FailureState)
    (failure_state : gmap string FailureState) :
  failure_entry url (<[url := s]> failure_state) = s.
Proof. unfold failure_entry. by rewrite lookup_insert_eq. Qed.

Lemma failure_entry_insert_ne (url other : string) (s : FailureState)
    (failure_state : gmap string FailureState) :
  other ≠ url →
  failure_entry url (<[other := s]> failure_state) = failure_entry url failure_state.
Proof. intros Hne. unfold failure_entry. by rewrite lookup_insert_ne. Qed.

Lemma record_failure_other (failure_threshold : Z) (url other : string)
    (failure_state : gmap string FailureState) :
  other ≠ url →
  failure_entry url (record_failure failure_threshold other failure_state).1
  = failure_entry url failure_state
  ∧ alerts_for url (record_failure failure_threshold other failure_state).2 = [].
Proof.
  intros Hne. unfold record_failure. cbn [count alert_sent].
  destruct (_ && _ && _); cbn [fst snd alerts_for List.filter fa_feed_url].
  - rewrite failure_entry_insert_ne by done. by rewrite bool_decide_eq_false_2.
  - by rewrite failure_entry_insert_ne.
Qed.

Lemma record_success_other (url other : string)
    (failure_state : gmap string FailureState) :
  other ≠ url →
  failure_entry url (record_success other failure_state)
  = failure_entry url failure_state.
Proof.
  intros Hne. unfold record_success.
  destruct (_ || _); by rewrite failure_entry_insert_ne.
Qed.

Lemma record_success_resets (url : string) (failure_state : gmap string FailureState) :
  failure_entry url (record_success url failure_state) = streak_reset.
Proof.
  unfold record_success.
  destruct (failure_entry url failure_state) as [[|n] []] eqn:Hs; cbn;
    by rewrite failure_entry_insert.
Qed.

Lemma record_failure_counts (failure_threshold : Z) (url : string)
    (failure_state : gmap string FailureState) :
  count (failure_entry url (record_failure failure_threshold url failure_state).1)
  = S (count (failure_entry url failure_state)).
Proof.
  unfold record_failure. cbn [count alert_sent].
  destruct (_ && _ && _); cbn [fst]; by rewrite failure_entry_insert.
Qed.

Lemma alerts_for_app (url : string) (xs ys : list FailureAlert) :
  alerts_for url (xs ++ ys) = (alerts_for url xs ++ alerts_for url ys)%list.
Proof. unfold alerts_for. apply List.filter_app. Qed.

Lemma track_snoc (failure_threshold : Z) (outcomes : list (string * bool))
    (outcome : string * bool) (failure_state : gmap string FailureState) :
  track failure_threshold (outcomes ++ [outcome]) failure_state
  = track_step failure_threshold (track failure_threshold outcomes failure_state) outcome.
Proof. unfold track. by rewrite foldl_app. Qed.

Lemma failures_of_snoc (url : string) (outcomes : list (string * bool))
    (outcome : string * bool) :
  failures_of url (outcomes ++ [outcome])
  = (failures_of url outcomes
     + if bool_decide (outcome.1 = url) && negb outcome.2 then 1 else 0)%nat.
Proof.
  unfold failures_of. rewrite List.filter_app, List.length_app. simpl.
  by destruct (_ && _).
Qed.

Lemma record_failure_streak (failure_threshold : Z) (url : string) (k : nat)
    (failure_state : gmap string FailureState) :
  failure_entry url failure_state
  = {| count := k; alert_sent := reached failure_threshold k |} →
  failure_entry url (record_failure failure_threshold url failure_state).1
  = {| count := S k; alert_sent := reached failure_threshold (S k) |}
  ∧ (record_failure failure_threshold url failure_state).2
    = if reached failure_threshold (S k) && negb (reached failure_threshold k)
      then [ {| fa_feed_url := url; fa_failure_count := Z.to_nat failure_threshold;
                fa_threshold := failure_threshold |} ]
      else [].
Proof.
  intros Hentry. unfold record_failure. rewrite Hentry. cbn [count alert_sent].
  unfold reached.
  destruct (Z.ltb_spec 0 failure_threshold) as [Hpos|Hpos]; cbn [andb negb].
  - destruct (Z.leb_spec failure_threshold (Z.of_nat k)) as [Hk|Hk]; cbn [andb negb].
    + destruct (Z.leb_spec failure_threshold (Z.of_nat (S k))); [|lia].
      cbn [andb fst snd]. by rewrite failure_entry_insert.
    + destruct (Z.leb_spec failure_threshold (Z.of_nat (S k))) as [HSk|HSk];
        cbn [andb fst snd]; rewrite failure_entry_insert; [|done].
      split; [done |]. replace (Z.to_nat failure_threshold) with (S k) by lia. done.
  - cbn [fst snd]. by rewrite failure_entry_insert.
Qed.

Lemma reached_0 (failure_threshold : Z) : reached failure_threshold 0 = false.
Proof.
  unfold reached. destruct (Z.ltb_spec 0 failure_threshold); [|done].
  destruct (Z.leb_spec failure_threshold (Z.of_nat 0)); [lia | done].
Qed.

Lemma reached_mono (failure_threshold : Z) (k : nat) :
  reached failure_threshold k = true → reached failure_threshold (S k) = true.
Proof. unfold reached. rewrite !andb_true_iff, !Z.ltb_lt, !Z.leb_le. lia. Qed.

Lemma reached_le (failure_threshold : Z) (k n : nat) :
  (k ≤ n)%nat → reached failure_threshold k = true → reached failure_threshold n = true.
Proof. unfold reached. rewrite !andb_true_iff, !Z.ltb_lt, !Z.leb_le. lia. Qed.

(** The state of one URL along a streak: after a sequence of outcomes in
    which this URL only failed, starting from an entry that counts [k]
    failures and is marked as alerted if [k] reached the threshold. *)
Lemma track_streak (failure_threshold : Z) (url : string) (k : nat)
    (outcomes : list (string * bool)) (failure_state : gmap string FailureState) :
  failure_entry url failure_state
  = {| count := k; alert_sent := reached failure_threshold k |} →
  (∀ outcome, outcome ∈ outcomes → outcome.1 = url → outcome.2 = false) →
  let result := track failure_threshold outcomes failure_state in
  let n := (k + failures_of url outcomes)%nat in
  failure_entry url result.1 = {| count := n; alert_sent := reached failure_threshold n |}
  ∧ alerts_for url result.2
    = if reached failure_threshold n && negb (reached failure_threshold k)
      then [ {| fa_feed_url := url; fa_failure_count := Z.to_nat failure_threshold;
                fa_threshold := failure_threshold |} ]
      else [].
Proof.
  intros Hstart. induction outcomes as [|[other ok] outcomes IH] using rev_ind;
    intros Honly; cbn zeta.
  - cbn. rewrite Nat.add_0_r, Hstart. by rewrite andb_negb_r.
  - rewrite track_snoc, failures_of_snoc. cbn [fst snd].
    destruct IH as [IHs IHa].
    { intros o Ho. apply Honly. set_solver. }
    set (before := track failure_threshold outcomes failure_state) in *.
    set (n := (k + failures_of url outcomes)%nat) in *.
    unfold track_step. cbn [fst snd].
    destruct (decide (other = url)) as [->|Hne].
    + assert (ok = false) as -> by (apply (Honly (url, ok)); [set_solver | done]).
      rewrite bool_decide_eq_true_2 by done. cbn [negb andb].
      replace (k + (failures_of url outcomes + 1))%nat with (S n) by lia.
      destruct (record_failure_streak failure_threshold url n before.1 IHs)
        as [Hs Ha].
      destruct (record_failure failure_threshold url before.1) as [fs' alerts'].
      cbn [fst snd] in *. split; [done |].
      rewrite alerts_for_app, IHa, Ha.
      destruct (reached failure_threshold k) eqn:Hk.
      * rewrite (reached_le failure_threshold k n) by (done || lia).
        rewrite (reached_le failure_threshold k (S n)) by (done || lia). done.
      * rewrite !andb_true_r.
        destruct (reached failure_threshold n) eqn:Hn.
        -- by rewrite (reached_mono _ _ Hn).
        -- cbn [negb]. rewrite andb_true_r.
           destruct (reached failure_threshold (S n)); [|done].
           cbn. by rewrite bool_decide_eq_true_2.
    + rewrite bool_decide_eq_false_2 by done. cbn [andb].
      replace (k + (failures_of url outcomes + 0))%nat with n by lia.
      destruct ok.
      * cbn [fst snd]. by rewrite record_success_other.
      * destruct (record_failure_other failure_threshold url other before.1 Hne)
          as [Hs Ha].
        destruct (record_failure failure_threshold other before.1) as [fs' alerts'].
        cbn [fst snd] in *. rewrite Hs, alerts_for_app, Ha, app_nil_r. done.
Qed.

(** The fetch loop drives the tracker with the outcomes of its polls. *)
Lemma fetch_all_track (failure_threshold : Z) (conn : Connection)
    (failure_state : gmap string FailureState)
    (failure_history : gmap Z (gmap string (gset string))) (polls : list Poll) :
  let fetched := fetch_all failure_threshold conn failure_state failure_history polls in
  (ft_failure_state fetched, ft_alerts fetched)
  = track failure_threshold (poll_outcome <$> polls) failure_state.
Proof.
  unfold fetch_all, track. cbn zeta.
  set (st := {| envelopes := []; ft_conn := conn; ft_failure_state := failure_state;
                ft_failure_history := failure_history; ft_alerts := [] |}).
  change (failure_state, []) with (ft_failure_state st, ft_alerts st).
  generalize st. clear st.
  induction polls as [|poll polls IH]; intros st; [done |].
  cbn [foldl fmap list_fmap]. rewrite IH. f_equal.
  unfold fetch_step, track_step, poll_outcome. cbn [fst snd].
  destruct (poll_fetched poll ≫= fetch_single_feed (poll_url poll)) as [envelope|].
  - rewrite bool_decide_eq_true_2 by by eexists. done.
  - rewrite bool_decide_eq_false_2 by by intros [? ?].
    by destruct (record_failure failure_threshold (poll_url poll) (ft_failure_state st)).
Qed.

(** What a cycle leaves of the tracker is what the tracker makes of the
    outcomes of its polls. *)
Lemma run_iteration_track (rf : Reference) (cy : Cycle) (conn : Connection)
    (dry : bool) (failure_state : gmap string FailureState)
    (failure_history : gmap Z (gmap string (gset string)))
    (failure_threshold : Z) (stop_times_csv : bool) (retention : option Z) :
  let result := run_iteration rf cy conn dry failure_state failure_history
                  failure_threshold stop_times_csv retention in
  (it_failure_state result, it_alerts result)
  = track failure_threshold (poll_outcome <$> cy_polls cy) failure_state.
Proof.
  cbn zeta.
  rewrite <- (fetch_all_track failure_threshold conn failure_state failure_history
                (cy_polls cy)).
  unfold run_iteration. by repeat case_match.
Qed.

Lemma track_from (failure_threshold : Z) (outcomes : list (string * bool))
    (failure_state : gmap string FailureState) (alerts : list FailureAlert) :
  foldl (track_step failure_threshold) (failure_state, alerts) outcomes
  = ((track failure_threshold outcomes failure_state).1,
     (alerts ++ (track failure_threshold outcomes failure_state).2)%list).
Proof.
  induction outcomes as [|outcome outcomes IH] using rev_ind.
  { cbn. by rewrite app_nil_r. }
  rewrite track_snoc, foldl_app. cbn [foldl]. rewrite IH.
  unfold track_step. cbn [fst snd]. destruct (outcome.2); [done |].
  destruct (record_failure _ _ _) as [fs' alerts']. cbn [fst snd].
  by rewrite app_assoc.
Qed.

Lemma track_app (failure_threshold : Z) (before after : list (string * bool))
    (failure_state : gmap string FailureState) :
  track failure_threshold (before ++ after) failure_state
  = ((track failure_threshold after
        (track failure_threshold before failure_state).1).1,
     ((track failure_threshold before failure_state).2
      ++ (track failure_threshold after
            (track failure_threshold before failure_state).1).2)%list).
Proof.
  unfold track at 1. rewrite foldl_app.
  fold (track failure_threshold before failure_state).
  destruct (track failure_threshold before failure_state) as [fs1 alerts1].
  apply track_from.
Qed.

(** The outcomes of other URLs leave the entry of a URL alone and send
    nothing for it. *)
Lemma track_other (failure_threshold : Z) (url : string)
    (outcomes : list (string * bool)) (failure_state : gmap string FailureState) :
  (∀ outcome, outcome ∈ outcomes → outcome.1 ≠ url) →
  failure_entry url (track failure_threshold outcomes failure_state).1
  = failure_entry url failure_state
  ∧ alerts_for url (track failure_threshold outcomes failure_state).2 = [].
Proof.
  induction outcomes as [|[other ok] outcomes IH] using rev_ind; intros Hother.
  { done. }
  destruct IH as [IHs IHa]. { intros o Ho. apply Hother. set_solver. }
  assert (other ≠ url) as Hne by (apply (Hother (other, ok)); set_solver).
  rewrite track_snoc. unfold track_step. cbn [fst snd]. destruct ok.
  - cbn [fst snd]. by rewrite record_success_other.
  - destruct (record_failure_other failure_threshold url other
                (track failure_threshold outcomes failure_state).1 Hne) as [Hs Ha].
    destruct (record_failure failure_threshold other _) as [fs' alerts'].
    cbn [fst snd] in *. by rewrite Hs, alerts_for_app, IHa, Ha.
Qed.

Lemma failed_outcome (poll : Poll) :
  fetch_failed poll ↔ (poll_outcome poll).2 = false.
Proof.
  unfold fetch_failed, poll_outcome. cbn [snd]. split.
  - intros ->. apply bool_decide_eq_false_2. by intros [? ?].
  - intros Hnone%bool_decide_eq_false. by apply eq_None_not_Some.
Qed.

(** C8: the failure tracker along a streak, as the fetch loop of a cycle
    drives it.  Take a feed URL whose entry counts [k] consecutive
    failures and is marked as alerted exactly if [k] has reached a positive
    threshold (the reset entry, and the absent one, with [k = 0]); in a
    cycle in which every fetch of the URL fails, whatever the other URLs
    do, the counter grows by one for each failed fetch of the URL; one
    alert is dispatched for the URL (a call of [send_failure_notification]
    with the counter equal to the threshold) if the counter reaches the
    threshold in this cycle, and none if it had reached it before or does
    not reach it; the entry is marked as alerted from then on, so the next
    cycles of the streak, which start from the entry this one leaves,
    dispatch nothing.  And in any cycle, from any entry, a fetch of the URL
    that succeeds resets the entry to zero and not alerted, which it stays
    until the URL is fetched again; a cycle whose one fetch of the URL
    succeeds sends no alert for it. *)
Theorem failure_streak_alerts_once (rf : Reference) (cy : Cycle) (conn : Connection)
    (dry : bool) (failure_state : gmap string FailureState)
    (failure_history : gmap Z (gmap string (gset string)))
    (failure_threshold : Z) (stop_times_csv : bool) (retention : option Z)
    (url : string) (k : nat) :
  failure_entry url failure_state
  = {| count := k; alert_sent := reached failure_threshold k |} →
  (∀ poll, poll ∈ cy_polls cy → poll_url poll = url → fetch_failed poll) →
  let result := run_iteration rf cy conn dry failure_state failure_history
                  failure_threshold stop_times_csv retention in
  let n := (k + failures_of url (poll_outcome <$> cy_polls cy))%nat in
  failure_entry url (it_failure_state result)
  = {| count := n; alert_sent := reached failure_threshold n |}
  ∧ alerts_for url (it_alerts result)
    = (if reached failure_threshold n && negb (reached failure_threshold k)
       then [ {| fa_feed_url := url; fa_failure_count := Z.to_nat failure_threshold;
                 fa_threshold := failure_threshold |} ]
       else [])
  ∧ (reached failure_threshold k = true → alerts_for url (it_alerts result) = [])
  ∧ (∀ (next : Cycle) (conn' : Connection) (dry' : bool)
       (state : gmap string FailureState)
       (history : gmap Z (gmap string (gset string)))
       (before after : list Poll) (poll : Poll),
       cy_polls next = (before ++ poll :: after)%list →
       poll_url poll = url → ¬ fetch_failed poll →
       (∀ other, other ∈ after → poll_url other ≠ url) →
       let later := run_iteration rf next conn' dry' state history failure_threshold
                      stop_times_csv retention in
       failure_entry url (it_failure_state later) = streak_reset
       ∧ ((∀ other, other ∈ before → poll_url other ≠ url) →
          alerts_for url (it_alerts later) = [])).
Proof.
  intros Hstart Honly result n.
  pose proof (run_iteration_track rf cy conn dry failure_state failure_history
                failure_threshold stop_times_csv retention) as Htrack.
  cbn zeta in Htrack. fold result in Htrack.
  destruct (track_streak failure_threshold url k (poll_outcome <$> cy_polls cy)
              failure_state Hstart) as [Hs Ha].
  { intros outcome (poll & -> & Hin)%list_elem_of_fmap Hurl.
    apply failed_outcome. by apply Honly. }
  rewrite <- Htrack in Hs, Ha. cbn [fst snd] in Hs, Ha. fold n in Hs, Ha.
  split; [done |]. split; [done |]. split.
  { intros Hk. rewrite Ha, Hk. by rewrite andb_false_r. }
  intros next conn' dry' state history before after poll Hpolls Hurl Hok Hafter later.
  pose proof (run_iteration_track rf next conn' dry' state history
                failure_threshold stop_times_csv retention) as Hlater.
  cbn zeta in Hlater. fold later in Hlater.
  assert (it_failure_state later
          = (track failure_threshold (poll_outcome <$> cy_polls next) state).1)
    as Hstate by (by rewrite <- Hlater).
  assert (it_alerts later
          = (track failure_threshold (poll_outcome <$> cy_polls next) state).2)
    as Hsent by (by rewrite <- Hlater).
  rewrite Hstate, Hsent, Hpolls, fmap_app, fmap_cons.
  change (poll_outcome poll :: (poll_outcome <$> after))
    with ([poll_outcome poll] ++ (poll_outcome <$> after))%list.
  rewrite !track_app. cbn [fst snd].
  set (first := track failure_threshold (poll_outcome <$> before) state).
  assert ((poll_outcome poll).2 = true) as Hsucceeded.
  { destruct ((poll_outcome poll).2) eqn:Hout; [done |].
    by apply failed_outcome in Hout. }
  assert (track failure_threshold [poll_outcome poll] first.1
          = (record_success url first.1, [])) as Hone.
  { unfold track. cbn [foldl]. unfold track_step. cbn [fst snd].
    rewrite Hsucceeded. unfold poll_outcome. cbn [fst]. by rewrite Hurl. }
  rewrite Hone. cbn [fst snd].
  destruct (track_other failure_threshold url (poll_outcome <$> after)
              (record_success url first.1)) as [Hs' Ha'].
  { intros outcome (other & -> & Hin)%list_elem_of_fmap. by apply Hafter. }
  split.
  - rewrite Hs'. apply record_success_resets.
  - intros Hbefore.
    destruct (track_other failure_threshold url (poll_outcome <$> before) state)
      as [_ Hb].
    { intros outcome (other & -> & Hin)%list_elem_of_fmap. by apply Hbefore. }
    fold first in Hb. by rewrite !alerts_for_app, Hb, Ha'.
Qed.

Lemma failure_streak_alerts_once_witness :
  failure_entry "https://example.com/alerts.pb" ∅
  = {| count := 0; alert_sent := reached 3 0 |}
  ∧ (∀ poll, poll ∈ cy_polls failing_cycle →
       poll_url poll = "https://example.com/alerts.pb" → fetch_failed poll)
  ∧ failure_entry "https://example.com/alerts.pb"
      (it_failure_state
         (run_iteration sample_static failing_cycle (connect sample_database) false ∅ ∅
            3 true (Some 86400)))
    = {| count := 4; alert_sent := true |}
  ∧ alerts_for "https://example.com/alerts.pb"
      (it_alerts
         (run_iteration sample_static failing_cycle (connect sample_database) false ∅ ∅
            3 true (Some 86400)))
    = [ {| fa_feed_url := "https://example.com/alerts.pb"; fa_failure_count := 3;
           fa_threshold := 3 |} ].
Proof.
  assert (failure_entry "https://example.com/alerts.pb" ∅
          = {| count := 0; alert_sent := reached 3 0 |}) as Hstart by reflexivity.
  assert (∀ poll, poll ∈ cy_polls failing_cycle →
            poll_url poll = "https://example.com/alerts.pb" → fetch_failed poll)
    as Honly.
  { intros poll Hin. apply list_elem_of_In in Hin. cbn in Hin.
    destruct Hin as [<-|[<-|[<-|[<-|[<-|[]]]]]]; cbn; (reflexivity || congruence). }
  split; [exact Hstart |]. split; [exact Honly |].
  destruct (failure_streak_alerts_once sample_static failing_cycle
              (connect sample_database) false ∅ ∅ 3 true (Some 86400)
              "https://example.com/alerts.pb" 0 Hstart Honly)
    as (Hentry & Halerts & _).
  split; [exact Hentry | exact Halerts].
Defined.

(** ** Sorting *)

Lemma insert_sorted_perm {A : Type} (lt : A → A → bool) (x : A) (l : list A) :
  insert_sorted lt x l ≡ₚ x :: l.
Proof.
  induction l as [|y l IH]; simpl; [done |].
  destruct (lt x y); [done |]. rewrite IH. apply Permutation_swap.
Qed.

Lemma sorted_by_perm {A : Type} (lt : A → A → bool) (l : list A) :
  sorted_by lt l ≡ₚ l.
Proof.
  unfold sorted_by.
  assert (∀ acc, foldl (λ acc x, insert_sorted lt x acc) acc l ≡ₚ (acc ++ l)%list) as Hgen.
  { induction l as [|x l IH]; intros acc; simpl.
    - by rewrite app_nil_r.
    - rewrite IH, insert_sorted_perm. simpl. apply Permutation_middle. }
  apply Hgen.
Qed.

Lemma sorted_by_nil {A : Type} (lt : A → A → bool) (l : list A) :
  sorted_by lt l = [] ↔ l = [].
Proof.
  split; [|by intros ->].
  intros Hnil. apply Permutation_nil_r. by rewrite <- Hnil, sorted_by_perm.
Qed.

Lemma insert_sorted_by_sequence (x : StopTimeEntry) (l : list StopTimeEntry) :
  Sorted by_sequence l → Sorted by_sequence (insert_sorted entry_lt x l).
Proof.
  induction 1 as [|y l Hsorted IH Hhd]; simpl.
  - by repeat constructor.
  - unfold entry_lt at 1. destruct (Z.ltb_spec (stop_sequence x) (stop_sequence y)).
    + constructor; [by constructor |]. constructor. unfold by_sequence. lia.
    + constructor; [done |].
      destruct Hhd as [|z l Hyz]; simpl.
      * constructor. unfold by_sequence. lia.
      * unfold entry_lt. destruct (Z.ltb_spec (stop_sequence x) (stop_sequence z));
          constructor; unfold by_sequence in *; lia.
Qed.

Lemma sorted_by_sequence (l : list StopTimeEntry) :
  Sorted by_sequence (sorted_by entry_lt l).
Proof.
  unfold sorted_by.
  assert (∀ acc, Sorted by_sequence acc →
            Sorted by_sequence (foldl (λ acc x, insert_sorted entry_lt x acc) acc l))
    as Hgen.
  { induction l as [|x l IH]; intros acc Hacc; simpl; [done |].
    by apply IH, insert_sorted_by_sequence. }
  apply Hgen. constructor.
Qed.

Lemma timetable_sorted (rf : Reference) (with_csv : bool) (trip : string) :
  Sorted by_sequence (timetable rf with_csv trip).
Proof.
  unfold timetable.
  destruct (select_stop_times (ref_static rf) trip) as [|e rows] eqn:Hrows.
  - destruct with_csv; [|constructor]. unfold csv_timetable.
    destruct (ref_csv rf); [apply sorted_by_sequence | constructor].
  - rewrite <- Hrows. apply sorted_by_sequence.
Qed.

(** ** DimensionResolver *)

Lemma evolves_refl (rf : Reference) (lk : DimLookup) : evolves rf lk lk.
Proof. by split. Qed.

Lemma evolves_trans (rf : Reference) (lk1 lk2 lk3 : DimLookup) :
  evolves rf lk1 lk2 → evolves rf lk2 lk3 → evolves rf lk1 lk3.
Proof.
  intros [F1 C1 M1 H1 R1] [F2 C2 M2 H2 R2]. split.
  - by rewrite F2.
  - auto.
  - by etrans.
  - auto.
  - auto.
Qed.

(** A change that leaves the timetable caches and the fallback alone and
    does not shrink the missing-trip set. *)
Lemma evolves_frame (rf : Reference) (lk lk' : DimLookup) :
  _trip_profiles lk' = _trip_profiles lk →
  _stop_times_fallback lk' = _stop_times_fallback lk →
  missing_trip lk ⊆ missing_trip lk' →
  (coherent rf lk →
   ∀ stop known, _stop_exists lk' !! stop = Some known →
     known = bool_decide (stop ∈ dim_stops (ref_static rf))) →
  evolves rf lk lk'.
Proof.
  intros Hp Hf Hm Hs.
  assert (has_fallback lk' = has_fallback lk) as Hfb by (unfold has_fallback; by rewrite Hf).
  split; [done | by rewrite Hp | done | |].
  - intros Hcoh. destruct Hcoh as [P S C M]. split.
    + rewrite Hp, Hfb. apply P.
    + apply Hs. by split.
    + rewrite Hf. apply C.
    + rewrite Hf. apply M.
  - intros _ Hrec trip. rewrite Hp, Hfb. intros Hc Ht. apply Hm. by apply Hrec.
Qed.

Lemma ensure_trip_evolves (rf : Reference) (trip : option string) (lk : DimLookup) :
  evolves rf lk (ensure_trip rf trip lk).2.
Proof.
  unfold ensure_trip. destruct trip as [t|]; [|apply evolves_refl].
  destruct (String.eqb t ""); [apply evolves_refl |].
  destruct (_trip_exists lk !! t); [apply evolves_refl |].
  cbn [snd]. destruct (bool_decide _);
    apply evolves_frame; cbn; try done; try set_solver; by intros [].
Qed.

Lemma get_route_for_trip_evolves (rf : Reference) (trip : option string) (lk : DimLookup) :
  evolves rf lk (get_route_for_trip rf trip lk).2.
Proof.
  unfold get_route_for_trip. destruct trip as [t|]; [|apply evolves_refl].
  destruct (String.eqb t ""); [apply evolves_refl |].
  destruct (_trip_routes lk !! t); [apply evolves_refl |].
  destruct (mjoin _) as [route|]; cbn [snd].
  - destruct (String.eqb route "");
      apply evolves_frame; cbn; try done; by intros [].
  - apply evolves_frame; cbn; try done; try set_solver; by intros [].
Qed.

Lemma ensure_route_evolves (rf : Reference) (route : option string) (lk : DimLookup) :
  evolves rf lk (ensure_route rf route lk).2.
Proof.
  unfold ensure_route. destruct route as [r|]; [|apply evolves_refl].
  destruct (String.eqb r ""); [apply evolves_refl |].
  destruct (_route_exists lk !! r); [apply evolves_refl |].
  cbn [snd]. destruct (bool_decide _);
    apply evolves_frame; cbn; try done; by intros [].
Qed.

Lemma ensure_stop_spec (rf : Reference) (stop : option string) (lk : DimLookup) :
  evolves rf lk (ensure_stop rf stop lk).2
  ∧ (coherent rf lk → (ensure_stop rf stop lk).1 = known_stop rf stop).
Proof.
  unfold ensure_stop, known_stop. destruct stop as [s|]; [|split; [apply evolves_refl | done]].
  destruct (String.eqb s ""); [split; [apply evolves_refl | done] |].
  destruct (_stop_exists lk !! s) as [known|] eqn:Hs.
  - split; [apply evolves_refl |]. intros [_ S _ _]. cbn. by apply S.
  - cbn [fst snd negb andb]. split; [|done].
    destruct (bool_decide (s ∈ dim_stops (ref_static rf))) eqn:Hin;
      apply evolves_frame; cbn; try done; intros [_ S _ _] stop known;
      (destruct (decide (s = stop)) as [<-|Hne];
       [rewrite lookup_insert_eq; by intros [= <-]
       |rewrite lookup_insert_ne by done; apply S]).
Qed.

Lemma fallback_get_profile_spec (file : CsvFile) (trip : string)
    (fb : StopTimesCsvFallback) :
  (∀ t p, fb_cache fb !! t = Some p → p = csv_timetable file t) →
  (∀ t, t ∈ fb_misses fb → csv_timetable file t = []) →
  (fallback_get_profile file trip fb).1 = csv_timetable file trip
  ∧ (∀ t p, fb_cache (fallback_get_profile file trip fb).2 !! t = Some p →
       p = csv_timetable file t)
  ∧ (∀ t, t ∈ fb_misses (fallback_get_profile file trip fb).2 →
       csv_timetable file t = []).
Proof.
  intros Hcache Hmiss. unfold fallback_get_profile.
  destruct (fb_cache fb !! trip) as [p|] eqn:Hp.
  { cbn. repeat split; [by apply Hcache | done | done]. }
  case_bool_decide as Hin.
  { cbn. repeat split; [symmetry; by apply Hmiss | done | done]. }
  destruct file as [rows|]; cbn [csv_timetable] in *.
  - destruct (csv_profile_rows trip rows) as [|e rest] eqn:Hrows.
    + cbn. repeat split; [done |].
      intros t [->%elem_of_singleton | Ht]%elem_of_union; [by rewrite Hrows | auto].
    + cbn [fst snd fb_cache fb_misses]. repeat split; [| done].
      intros t p. destruct (decide (trip = t)) as [<-|Hne].
      * rewrite lookup_insert_eq. intros [= <-]. by rewrite Hrows.
      * rewrite lookup_insert_ne by done. apply Hcache.
  - cbn. repeat split; done.
Qed.

Lemma timetable_rows (rf : Reference) (with_csv : bool) (trip : string)
    (e : StopTimeEntry) (rows : list StopTimeEntry) :
  select_stop_times (ref_static rf) trip = e :: rows →
  timetable rf with_csv trip = e :: rows.
Proof. intros Hrows. unfold timetable. by rewrite Hrows. Qed.

Lemma timetable_no_rows (rf : Reference) (with_csv : bool) (trip : string) :
  select_stop_times (ref_static rf) trip = [] →
  timetable rf with_csv trip = if with_csv then csv_timetable (ref_csv rf) trip else [].
Proof. intros Hrows. unfold timetable. by rewrite Hrows. Qed.

(** Storing a timetable in the cache of a resolver whose other caches are
    coherent. *)
Lemma cache_profile_evolves (rf : Reference) (trip : string)
    (profile : list StopTimeEntry) (lk lk' : DimLookup) :
  has_fallback lk' = has_fallback lk →
  missing_trip lk ⊆ missing_trip lk' →
  _stop_exists lk' = _stop_exists lk →
  _trip_profiles lk' = _trip_profiles lk →
  (coherent rf lk → ∀ fb t p, _stop_times_fallback lk' = Some fb →
     fb_cache fb !! t = Some p → p = csv_timetable (ref_csv rf) t) →
  (coherent rf lk → ∀ fb t, _stop_times_fallback lk' = Some fb →
     t ∈ fb_misses fb → csv_timetable (ref_csv rf) t = []) →
  (coherent rf lk → profile = timetable rf (has_fallback lk) trip) →
  (coherent rf lk → profile = [] → trip ∈ missing_trip lk') →
  evolves rf lk (with_trip_profiles (<[trip := profile]> (_trip_profiles lk')) lk').
Proof.
  intros Hfb Hm Hs Hp Hc Hx Hval Hrec.
  assert (has_fallback (with_trip_profiles (<[trip := profile]> (_trip_profiles lk')) lk')
          = has_fallback lk) as Hfb2 by done.
  split; [done | | done | |].
  - intros t Ht. cbn. rewrite Hp.
    destruct (decide (trip = t)) as [<-|Hne];
      [by rewrite lookup_insert_eq | by rewrite lookup_insert_ne].
  - intros Hcoh. pose proof Hcoh as [P S C M]. split.
    + intros t p. rewrite Hfb2. cbn. rewrite Hp.
      destruct (decide (trip = t)) as [<-|Hne].
      * rewrite lookup_insert_eq. intros [= <-]. by apply Hval.
      * rewrite lookup_insert_ne by done. apply P.
    + cbn. rewrite Hs. apply S.
    + cbn. by apply Hc.
    + cbn. by apply Hx.
  - intros Hcoh Hrecorded t. rewrite Hfb2. cbn. rewrite Hp.
    destruct (decide (trip = t)) as [<-|Hne].
    + intros _ Ht. apply Hrec; [done |]. by rewrite Hval.
    + rewrite lookup_insert_ne by done. intros Hcached Ht. apply Hm.
      by apply Hrecorded.
Qed.

Lemma load_trip_profile_spec (rf : Reference) (trip : string) (lk : DimLookup) :
  evolves rf lk (_load_trip_profile rf trip lk).2
  ∧ is_Some (_trip_profiles (_load_trip_profile rf trip lk).2 !! trip)
  ∧ (coherent rf lk →
     (_load_trip_profile rf trip lk).1 = timetable rf (has_fallback lk) trip).
Proof.
  unfold _load_trip_profile.
  destruct (_trip_profiles lk !! trip) as [p|] eqn:Hp.
  { cbn. split; [apply evolves_refl |]. split; [by rewrite Hp |].
    intros [P _ _ _]. by apply P. }
  destruct (select_stop_times (ref_static rf) trip) as [|e rows] eqn:Hrows.
  - pose proof (timetable_no_rows rf (has_fallback lk) trip Hrows) as Htt.
    destruct (_stop_times_fallback lk) as [fb|] eqn:Hfb.
    + assert (has_fallback lk = true) as Hhas.
      { unfold has_fallback. rewrite Hfb. by apply bool_decide_eq_true_2. }
      rewrite Hhas in Htt.
      destruct (fallback_get_profile (ref_csv rf) trip fb) as [profile fb2] eqn:Hget.
      assert (coherent rf lk →
              profile = csv_timetable (ref_csv rf) trip
              ∧ (∀ t p, fb_cache fb2 !! t = Some p → p = csv_timetable (ref_csv rf) t)
              ∧ (∀ t, t ∈ fb_misses fb2 → csv_timetable (ref_csv rf) t = []))
        as Hspec.
      { intros [_ _ C M].
        pose proof (fallback_get_profile_spec (ref_csv rf) trip fb
                      (λ t p, C fb t p Hfb) (λ t, M fb t Hfb)) as Hs.
        by rewrite Hget in Hs. }
      assert (∀ lk2, lk2 = with_fallback (Some fb2) lk ∨
                     lk2 = add_missing_trip trip (with_fallback (Some fb2) lk) →
                (coherent rf lk → profile = [] → trip ∈ missing_trip lk2) →
                evolves rf lk
                  (with_trip_profiles (<[trip := profile]> (_trip_profiles lk2)) lk2))
        as Hev.
      { intros lk2 Hlk2 Hrec.
        apply cache_profile_evolves.
        - destruct Hlk2 as [-> | ->]; unfold has_fallback; cbn; rewrite Hfb;
            by rewrite !bool_decide_eq_true_2.
        - destruct Hlk2 as [-> | ->]; cbn; [done | apply union_subseteq_r].
        - by destruct Hlk2 as [-> | ->].
        - by destruct Hlk2 as [-> | ->].
        - intros Hcoh fb0 t p Hfb0. destruct (Hspec Hcoh) as (_ & Hc2 & _).
          assert (fb0 = fb2) as ->
            by (destruct Hlk2 as [-> | ->]; cbn in Hfb0; congruence).
          apply Hc2.
        - intros Hcoh fb0 t Hfb0. destruct (Hspec Hcoh) as (_ & _ & Hm2).
          assert (fb0 = fb2) as ->
            by (destruct Hlk2 as [-> | ->]; cbn in Hfb0; congruence).
          apply Hm2.
        - intros Hcoh. rewrite Hhas, Htt. by destruct (Hspec Hcoh) as [? _].
        - done. }
      destruct profile as [|e rest]; cbn [fst snd].
      * split; [apply Hev; [by right | intros _ _; cbn; by apply elem_of_union_l, elem_of_singleton] |].
        split; [cbn; by rewrite lookup_insert_eq |].
        intros Hcoh. rewrite Hhas, Htt. by destruct (Hspec Hcoh) as [? _].
      * split; [apply Hev; [by left | done] |].
        split; [cbn; by rewrite lookup_insert_eq |].
        intros Hcoh. rewrite Hhas, Htt. by destruct (Hspec Hcoh) as [? _].
    + assert (has_fallback lk = false) as Hhas.
      { unfold has_fallback. rewrite Hfb. by apply bool_decide_eq_false_2, is_Some_None. }
      rewrite Hhas in Htt. cbn [fst snd].
      split; [|split; [cbn; by rewrite lookup_insert_eq | by rewrite Hhas, Htt]].
      apply cache_profile_evolves.
      * done.
      * cbn. apply union_subseteq_r.
      * done.
      * done.
      * intros _ fb t p. cbn. by rewrite Hfb.
      * intros _ fb t. cbn. by rewrite Hfb.
      * intros _. by rewrite Hhas, Htt.
      * intros _ _. cbn. by apply elem_of_union_l, elem_of_singleton.
  - pose proof (timetable_rows rf (has_fallback lk) trip e rows Hrows) as Htt.
    cbn [fst snd].
    split; [|split; [cbn; by rewrite lookup_insert_eq | by rewrite Htt]].
    apply cache_profile_evolves.
    + done.
    + done.
    + done.
    + done.
    + intros [_ _ C _]. apply C.
    + intros [_ _ _ M]. apply M.
    + intros _. by rewrite Htt.
    + intros _ [=].
Qed.

Lemma add_missing_stop_evolves (rf : Reference) (stop : string) (lk : DimLookup) :
  evolves rf lk (add_missing_stop stop lk).
Proof. apply evolves_frame; cbn; try done. by intros []. Qed.


Lemma get_stop_context_spec (rf : Reference) (trip stop : option string)
    (lk : DimLookup) :
  evolves rf lk (get_stop_context rf trip stop lk).2
  ∧ (∀ t, trip = Some t → truthy trip && truthy stop = true →
       is_Some (_trip_profiles (get_stop_context rf trip stop lk).2 !! t))
  ∧ (coherent rf lk → ∀ t s, trip = Some t → stop = Some s →
       truthy trip && truthy stop = true →
       (get_stop_context rf trip stop lk).1
       = find_stop s 0 (timetable rf (has_fallback lk) t)).
Proof.
  unfold get_stop_context.
  destruct (truthy trip) eqn:Htrip; cbn [negb orb andb];
    [|split; [apply evolves_refl | split; [by intros | by intros]]].
  destruct (truthy stop) eqn:Hstop; cbn [negb orb andb];
    [|split; [apply evolves_refl | split; [by intros | by intros]]].
  destruct trip as [t|]; [|done]. destruct stop as [s|]; [|done].
  destruct (load_trip_profile_spec rf t lk) as (Hev & Hcached & Hval).
  destruct (_load_trip_profile rf t lk) as [profile lk1]. cbn [fst snd] in *.
  assert (evolves rf lk (add_missing_stop s lk1)) as Hev2
    by (eapply evolves_trans; [done | apply add_missing_stop_evolves]).
  split; [|split].
  - destruct profile as [|e rest]; [done |].
    by destruct (find_stop s 0 (e :: rest)).
  - intros ? [= <-] _. destruct profile as [|e rest]; [done |].
    by destruct (find_stop s 0 (e :: rest)).
  - intros Hcoh ? ? [= <-] [= <-] _. rewrite <- (Hval Hcoh).
    destruct profile as [|e rest]; [done |].
    by destruct (find_stop s 0 (e :: rest)).
Qed.

Lemma get_adjacent_stop_spec (rf : Reference) (trip : option string) (index : Z)
    (forward : bool) (lk : DimLookup) :
  evolves rf lk (get_adjacent_stop rf trip index forward lk).2
  ∧ (∀ t, trip = Some t →
       is_Some (_trip_profiles (get_adjacent_stop rf trip index forward lk).2 !! t))
  ∧ (coherent rf lk → ∀ t i, trip = Some t → index = Z.of_nat i →
       (get_adjacent_stop rf trip index forward lk).1
       = neighbour (timetable rf (has_fallback lk) t) i forward).
Proof.
  unfold get_adjacent_stop. destruct trip as [t|];
    [|split; [apply evolves_refl | split; [by intros | by intros]]].
  destruct (load_trip_profile_spec rf t lk) as (Hev & Hcached & Hval).
  destruct (_load_trip_profile rf t lk) as [profile lk1]. cbn [fst snd] in *.
  split; [|split].
  - destruct profile as [|e rest]; [done |]. by destruct (_ && _).
  - intros ? [= <-]. destruct profile as [|e rest]; [done |]. by destruct (_ && _).
  - intros Hcoh ? i [= <-] ->. rewrite <- (Hval Hcoh). unfold neighbour.
    destruct profile as [|e rest].
    { destruct forward; [done | by destruct i]. }
    destruct forward.
    + replace (Z.of_nat i + 1) with (Z.of_nat (S i)) by lia.
      destruct (Z.leb_spec 0 (Z.of_nat (S i))); [|lia]. cbn [andb].
      rewrite Nat2Z.id.
      destruct (Z.ltb_spec (Z.of_nat (S i)) (Z.of_nat (List.length (e :: rest))));
        cbn [fst]; [done |].
      symmetry. apply lookup_ge_None. lia.
    + destruct i as [|i].
      * done.
      * replace (Z.of_nat (S i) + -1) with (Z.of_nat i) by lia.
        destruct (Z.leb_spec 0 (Z.of_nat i)); [|lia]. cbn [andb].
        rewrite Nat2Z.id.
        destruct (Z.ltb_spec (Z.of_nat i) (Z.of_nat (List.length (e :: rest))));
          cbn [fst]; [done |].
        symmetry. apply lookup_ge_None. lia.
Qed.

Lemma DimLookup_init_coherent (rf : Reference) (with_csv : bool) :
  coherent rf (DimLookup_init with_csv) ∧ missing_recorded rf (DimLookup_init with_csv)
  ∧ has_fallback (DimLookup_init with_csv) = with_csv.
Proof.
  split; [|split].
  - split; cbn; try done.
    + destruct with_csv; cbn; [|done]. by intros ? ? ? [= <-].
    + destruct with_csv; cbn; [|done]. intros ? ? [= <-]. set_solver.
  - intros trip [p Hp]. done.
  - by destruct with_csv.
Qed.







(** ** VehiclePositionWriter *)

Lemma evolves_step (rf : Reference) (lk lk' : DimLookup) :
  evolves rf lk lk' → coherent rf lk →
  coherent rf lk' ∧ has_fallback lk' = has_fallback lk.
Proof. intros E Hcoh. split; [by apply (ev_coherent _ _ _ E) | apply E]. Qed.

(** The stop the writer emits for a neighbour entry. *)
Lemma emit_neighbour_spec (rf : Reference) (found : option StopTimeEntry)
    (lk : DimLookup) :
  coherent rf lk →
  let result :=
    match found with
    | Some e =>
        let '(ok, lk) := ensure_stop rf (Some (stop_id e)) lk in
        (if ok then Some e else None, lk)
    | None => (None, lk)
    end in
  evolves rf lk result.2
  ∧ result.1 = match found with
               | Some e => if known_stop rf (Some (stop_id e)) then Some e else None
               | None => None
               end.
Proof.
  intros Hcoh. destruct found as [e|]; cbn zeta; [|split; [apply evolves_refl | done]].
  destruct (ensure_stop_spec rf (Some (stop_id e)) lk) as [E Hval].
  rewrite <- (Hval Hcoh).
  by destruct (ensure_stop rf (Some (stop_id e)) lk) as [ok lk1].
Qed.

(** What the entity loop computes for one vehicle, in terms of the
    reference data. *)
Lemma vehicle_record_spec (rf : Reference) (snapshot : Z) (entity : FeedEntity)
    (vehicle : VehiclePayload) (lk : DimLookup) :
  coherent rf lk →
  ∀ result, vehicle_record rf snapshot entity vehicle lk = result →
  evolves rf lk result.2
  ∧ current_stop_id result.1
    = (if known_stop rf (vp_stop_id vehicle) then vp_stop_id vehicle else None)
  ∧ match stop_position rf (has_fallback lk) vehicle with
    | Some (index, profile) =>
        previous_stop_id result.1 = stop_id <$> known_neighbour rf profile index false
        ∧ next_stop_id result.1 = stop_id <$> known_neighbour rf profile index true
        ∧ next_stop_sequence result.1
          = stop_sequence <$> known_neighbour rf profile index true
    | None =>
        previous_stop_id result.1 = None ∧ next_stop_id result.1 = None
        ∧ next_stop_sequence result.1 = None
    end.
Proof.
  intros Hcoh result. unfold vehicle_record.
  (* trip *)
  pose proof (ensure_trip_evolves rf (vp_trip_id vehicle) lk) as E1.
  destruct (ensure_trip rf (vp_trip_id vehicle) lk) as [trip_valid lk1].
  cbn [snd] in E1.
  (* route of the trip *)
  assert (evolves rf lk1
            (if trip_valid then get_route_for_trip rf (vp_trip_id vehicle) lk1
             else (None, lk1)).2) as E2.
  { destruct trip_valid; [apply get_route_for_trip_evolves | apply evolves_refl]. }
  destruct (if trip_valid then get_route_for_trip rf (vp_trip_id vehicle) lk1
            else (None, lk1)) as [route lk2].
  cbn [snd] in E2.
  (* route exists *)
  assert (evolves rf lk2
            (if truthy route
             then let '(ok, lk0) := ensure_route rf route lk2 in
                  (if ok then route else None, lk0)
             else (route, lk2)).2) as E3.
  { destruct (truthy route); [|apply evolves_refl].
    pose proof (ensure_route_evolves rf route lk2).
    by destruct (ensure_route rf route lk2). }
  destruct (if truthy route
            then let '(ok, lk0) := ensure_route rf route lk2 in
                 (if ok then route else None, lk0)
            else (route, lk2)) as [route3 lk3].
  cbn [snd] in E3.
  pose proof (evolves_trans _ _ _ _ (evolves_trans _ _ _ _ E1 E2) E3) as E03.
  destruct (evolves_step _ _ _ E03 Hcoh) as [Hcoh3 Hfb3].
  (* current stop *)
  destruct (ensure_stop_spec rf (vp_stop_id vehicle) lk3) as [E4 Hstop].
  specialize (Hstop Hcoh3).
  destruct (ensure_stop rf (vp_stop_id vehicle) lk3) as [stop_ok lk4].
  cbn [fst snd] in E4, Hstop. subst stop_ok.
  pose proof (evolves_trans _ _ _ _ E03 E4) as E04.
  destruct (evolves_step _ _ _ E04 Hcoh) as [Hcoh4 Hfb4].
  (* position in the timetable *)
  unfold stop_position.
  destruct (vp_stop_id vehicle) as [s|] eqn:Hs; cycle 1.
  { cbn. intros <-. cbn. split; [done |]. split; [done |].
    by destruct (vp_trip_id vehicle). }
  destruct (known_stop rf (Some s)) eqn:Hknown; cycle 1.
  { cbn. intros <-. cbn. split; [done |]. split; [done |].
    destruct (vp_trip_id vehicle); [by rewrite andb_false_r | done]. }
  assert (truthy (Some s) = true) as Hts.
  { unfold known_stop in Hknown. by apply andb_true_iff in Hknown as [? _]. }
  rewrite Hts. cbn [andb].
  destruct (vp_trip_id vehicle) as [t|] eqn:Ht; cycle 1.
  { cbn. intros <-. by cbn. }
  destruct (truthy (Some t)) eqn:Htt; cycle 1.
  { cbn. intros <-. by cbn. }
  cbn [andb].
  destruct (get_stop_context_spec rf (Some t) (Some s) lk4) as (E5 & _ & Hctx).
  specialize (Hctx Hcoh4 t s eq_refl eq_refl).
  rewrite Htt, Hts in Hctx. specialize (Hctx eq_refl). rewrite Hfb4 in Hctx.
  destruct (get_stop_context rf (Some t) (Some s) lk4) as [context lk5].
  cbn [fst snd] in E5, Hctx. subst context.
  pose proof (evolves_trans _ _ _ _ E04 E5) as E05.
  destruct (evolves_step _ _ _ E05 Hcoh) as [Hcoh5 Hfb5].
  set (profile := timetable rf (has_fallback lk) t) in *.
  destruct (find_stop s 0 profile) as [[index entry]|]; cycle 1.
  { cbn. intros <-. by cbn. }
  cbn [fmap option_fmap option_map fst].
  (* neighbours *)
  destruct (get_adjacent_stop_spec rf (Some t) (Z.of_nat index) false lk5)
    as (E6 & _ & Hprev).
  specialize (Hprev Hcoh5 t index eq_refl eq_refl). rewrite Hfb5 in Hprev.
  destruct (get_adjacent_stop rf (Some t) (Z.of_nat index) false lk5)
    as [prev_entry lk6].
  cbn [fst snd] in E6, Hprev. fold profile in Hprev. subst prev_entry.
  pose proof (evolves_trans _ _ _ _ E05 E6) as E06.
  destruct (evolves_step _ _ _ E06 Hcoh) as [Hcoh6 Hfb6].
  destruct (get_adjacent_stop_spec rf (Some t) (Z.of_nat index) true lk6)
    as (E7 & _ & Hnext).
  specialize (Hnext Hcoh6 t index eq_refl eq_refl). rewrite Hfb6 in Hnext.
  destruct (get_adjacent_stop rf (Some t) (Z.of_nat index) true lk6)
    as [next_entry lk7].
  cbn [fst snd] in E7, Hnext. fold profile in Hnext. subst next_entry.
  pose proof (evolves_trans _ _ _ _ E06 E7) as E07.
  destruct (evolves_step _ _ _ E07 Hcoh) as [Hcoh7 Hfb7].
  unfold known_neighbour.
  (* the previous stop must exist *)
  destruct (neighbour profile index false) as [before|].
  - destruct (ensure_stop_spec rf (Some (stop_id before)) lk7) as [E8 Hb].
    specialize (Hb Hcoh7).
    destruct (ensure_stop rf (Some (stop_id before)) lk7) as [ok8 lk8].
    cbn [fst snd] in E8, Hb. subst ok8.
    pose proof (evolves_trans _ _ _ _ E07 E8) as E08.
    destruct (evolves_step _ _ _ E08 Hcoh) as [Hcoh8 Hfb8].
    destruct (neighbour profile index true) as [after|].
    + destruct (ensure_stop_spec rf (Some (stop_id after)) lk8) as [E9 Ha].
      specialize (Ha Hcoh8).
      destruct (ensure_stop rf (Some (stop_id after)) lk8) as [ok9 lk9].
      cbn [fst snd] in E9, Ha. subst ok9.
      pose proof (evolves_trans _ _ _ _ E08 E9) as E09.
      intros <-.
      destruct (known_stop rf (Some (stop_id before))),
        (known_stop rf (Some (stop_id after))); by cbn.
    + intros <-.
      destruct (known_stop rf (Some (stop_id before))); by cbn.
  - destruct (neighbour profile index true) as [after|].
    + destruct (ensure_stop_spec rf (Some (stop_id after)) lk7) as [E9 Ha].
      specialize (Ha Hcoh7).
      destruct (ensure_stop rf (Some (stop_id after)) lk7) as [ok9 lk9].
      cbn [fst snd] in E9, Ha. subst ok9.
      pose proof (evolves_trans _ _ _ _ E07 E9) as E09.
      intros <-.
      destruct (known_stop rf (Some (stop_id after))); by cbn.
    + intros <-. by cbn.
Qed.

Lemma dict_set_elem_of {K V : Type} `{EqDecision K} (k : K) (v : V)
    (d : list (K * V)) (x : K * V) :
  x ∈ dict_set k v d → x = (k, v) ∨ x ∈ d.
Proof.
  induction d as [|[k' v'] d IH]; simpl.
  - intros ->%list_elem_of_singleton. by left.
  - destruct (decide (k = k')) as [->|Hne].
    + intros [->|Hin]%elem_of_cons; [by left | right; by apply elem_of_cons; right].
    + intros [->|Hin]%elem_of_cons; [right; by apply elem_of_cons; left |].
      destruct (IH Hin) as [->|Hd]; [by left | right; by apply elem_of_cons; right].
Qed.

Lemma extract_fold_spec (rf : Reference) (snapshot : Z) (all : list FeedEntity)
    (lk0 : DimLookup) (entities : list FeedEntity)
    (acc : list (string * VehiclePositionRecord) * DimLookup) :
  coherent rf lk0 →
  let emitted (record : VehiclePositionRecord) :=
    ∃ entity vehicle, entity ∈ all ∧ fe_vehicle entity = Some vehicle
      ∧ entity_id record = fe_id entity
      ∧ adjacent_stops rf (has_fallback lk0) vehicle record in
  (∀ entity, entity ∈ entities → entity ∈ all) →
  evolves rf lk0 acc.2 →
  (∀ kr, kr ∈ acc.1 → emitted kr.2) →
  evolves rf lk0 (foldl (extract_step rf snapshot) acc entities).2
  ∧ ∀ kr, kr ∈ (foldl (extract_step rf snapshot) acc entities).1 → emitted kr.2.
Proof.
  intros Hcoh emitted. revert acc.
  induction entities as [|entity entities IH]; intros acc Hall Hev Hacc; [done |].
  cbn [foldl]. apply IH.
  - intros e He. apply Hall. by apply elem_of_cons; right.
  - unfold extract_step. destruct (fe_vehicle entity) as [vehicle|]; [|done].
    destruct (String.eqb (fe_id entity) ""); [done |].
    destruct (evolves_step _ _ _ Hev Hcoh) as [Hcoh1 Hfb1].
    destruct (vehicle_record_spec rf snapshot entity vehicle acc.2 Hcoh1 _ eq_refl)
      as (E & _ & _).
    destruct (vehicle_record rf snapshot entity vehicle acc.2) as [record lk1].
    cbn [snd] in *. by eapply evolves_trans.
  - unfold extract_step. destruct (fe_vehicle entity) as [vehicle|] eqn:Hv; [|done].
    destruct (String.eqb (fe_id entity) ""); [done |].
    destruct (evolves_step _ _ _ Hev Hcoh) as [Hcoh1 Hfb1].
    destruct (vehicle_record_spec rf snapshot entity vehicle acc.2 Hcoh1 _ eq_refl)
      as (E & _ & Hadj).
    assert (entity_id (vehicle_record rf snapshot entity vehicle acc.2).1
            = fe_id entity) as Hid.
    { unfold vehicle_record.
      repeat match goal with
             | |- context [let '(_, _) := ?e in _] => destruct e
             end; try done. }
    destruct (vehicle_record rf snapshot entity vehicle acc.2) as [record lk1].
    cbn [fst snd] in *. intros kr [->|Hin]%dict_set_elem_of; [|by apply Hacc].
    exists entity, vehicle. rewrite Hfb1 in Hadj.
    repeat split; try done. apply Hall. by apply elem_of_cons; left.
Qed.

(** C5, as the code has it: every record the vehicle writer extracts comes
    from an entity with a vehicle payload, and its previous and next stop
    are the neighbours of the first entry for the current stop in the
    trip's timetable (the reference rows or the CSV fallback, sorted by
    stop sequence), each emitted only when its own stop passes the stop
    existence check and absent otherwise; the next stop sequence is that of
    the emitted next stop.  When the current stop has no position in a
    timetable (no trip id, unknown stop, no timetable, stop not in it) all
    three are absent.  The extraction is a total function: nothing is
    raised. *)
Theorem extract_adjacent_stops (rf : Reference) (snapshot : Z)
    (envelope : FeedEnvelope) (lk : DimLookup) :
  coherent rf lk →
  (∀ trip, Sorted by_sequence (timetable rf (has_fallback lk) trip))
  ∧ ∀ record, record ∈ (extract_vehicle_position_rows rf snapshot envelope lk).1 →
      ∃ entity vehicle,
        entity ∈ msg_entity (env_message envelope)
        ∧ fe_vehicle entity = Some vehicle
        ∧ entity_id record = fe_id entity
        ∧ adjacent_stops rf (has_fallback lk) vehicle record.
Proof.
  intros Hcoh. split; [intros trip; apply timetable_sorted |].
  intros record. unfold extract_vehicle_position_rows.
  destruct (extract_fold_spec rf snapshot (msg_entity (env_message envelope)) lk
              (msg_entity (env_message envelope)) ([], lk) Hcoh)
    as [_ Hrows]; [done | apply evolves_refl | by intros ? ?%elem_of_nil |].
  destruct (foldl (extract_step rf snapshot) ([], lk)
              (msg_entity (env_message envelope))) as [records lk1].
  cbn [fst snd] in *. unfold dict_values.
  intros [[k r] [-> Hin]]%list_elem_of_fmap. by apply (Hrows (k, r)).
Qed.

Lemma extract_adjacent_stops_witness :
  coherent (sample_reference {["43000"; "51003"; "51100"]}) (DimLookup_init true)
  ∧ ∃ record,
      (extract_vehicle_position_rows
         (sample_reference {["43000"; "51003"; "51100"]}) 1 sample_vehicle_feed
         (DimLookup_init true)).1 = [record]
      ∧ previous_stop_id record = Some "43000"
      ∧ next_stop_id record = Some "51100"
      ∧ next_stop_sequence record = Some 10
      ∧ ∃ entity vehicle,
          entity ∈ msg_entity (env_message sample_vehicle_feed)
          ∧ fe_vehicle entity = Some vehicle
          ∧ entity_id record = fe_id entity
          ∧ adjacent_stops (sample_reference {["43000"; "51003"; "51100"]})
              (has_fallback (DimLookup_init true)) vehicle record.
Proof.
  pose proof (DimLookup_init_coherent
                (sample_reference {["43000"; "51003"; "51100"]}) true) as [Hcoh _].
  split; [exact Hcoh |].
  eexists. split; [vm_compute; reflexivity |].
  split; [reflexivity |]. split; [reflexivity |]. split; [reflexivity |].
  apply (extract_adjacent_stops (sample_reference {["43000"; "51003"; "51100"]}) 1
           sample_vehicle_feed (DimLookup_init true) Hcoh).
  vm_compute. left.
Defined.

(** C5, the claim as stated fails: the fallback timetable of trip T1 has
    stop 43000 right before stop 51003 and stop 51100 right after it, but
    when the stop table knows only 51003 the record has neither. *)
Lemma adjacent_stop_dropped_when_unknown :
  let rf := sample_reference {["51003"]} in
  let record := (vehicle_record rf 1 (vehicle_entity "e1" sample_vehicle)
                   sample_vehicle (DimLookup_init true)).1 in
  (stop_id <$> neighbour (timetable rf true "T1") 1 false = Some "43000")
  ∧ (stop_id <$> neighbour (timetable rf true "T1") 1 true = Some "51100")
  ∧ current_stop_id record = Some "51003"
  ∧ previous_stop_id record = None
  ∧ next_stop_id record = None
  ∧ ¬ adjacent_stops_unchecked rf true sample_vehicle record.
Proof.
  cbn zeta. repeat split; try (vm_compute; reflexivity).
  vm_compute. intros [? _]. discriminate.
Qed.

(** ** SnapshotCoordinator *)

Example sample_run_outcome :
  it_outcome (sample_run false (sample_cycle 100 50 75 no_fault)) = Returned true
  ∧ it_outcome (sample_run false (sample_cycle 100 40 75 no_fault)) = Returned false.
Proof. split; vm_compute; reflexivity. Qed.

Lemma rollback_clean (conn : Connection) : clean conn → rollback conn = conn.
Proof. destruct conn as [c w]. unfold clean, rollback. cbn. by intros ->. Qed.

Lemma fetch_all_conn (failure_threshold : Z) (conn : Connection)
    (failure_state : gmap string FailureState)
    (failure_history : gmap Z (gmap string (gset string))) (polls : list Poll) :
  clean conn →
  ft_conn (fetch_all failure_threshold conn failure_state failure_history polls) = conn.
Proof.
  intros Hclean. unfold fetch_all.
  set (st := {| envelopes := []; ft_conn := conn; ft_failure_state := failure_state;
                ft_failure_history := failure_history; ft_alerts := [] |}).
  assert (ft_conn st = conn) as Hst by done.
  revert Hst. generalize st. clear st.
  induction polls as [|poll polls IH]; intros st Hst; [done |].
  cbn [foldl]. apply IH. unfold fetch_step.
  destruct (poll_fetched poll ≫= fetch_single_feed (poll_url poll)); [done |].
  destruct (record_failure _ _ _). cbn. rewrite Hst. by apply rollback_clean.
Qed.

Lemma fetch_all_envelopes (failure_threshold : Z) (conn : Connection)
    (failure_state : gmap string FailureState)
    (failure_history : gmap Z (gmap string (gset string))) (cy : Cycle) :
  envelopes (fetch_all failure_threshold conn failure_state failure_history (cy_polls cy))
  = cycle_envelopes cy.
Proof.
  unfold fetch_all, cycle_envelopes.
  set (st := {| envelopes := []; ft_conn := conn; ft_failure_state := failure_state;
                ft_failure_history := failure_history; ft_alerts := [] |}).
  change (omap _ (cy_polls cy)) with
    (envelopes st
       ++ omap (λ poll, poll_fetched poll ≫= fetch_single_feed (poll_url poll))
            (cy_polls cy))%list.
  generalize st. clear st.
  induction (cy_polls cy) as [|poll polls IH]; intros st; cbn [foldl omap list_omap].
  - by rewrite app_nil_r.
  - rewrite IH. unfold fetch_step.
    destruct (poll_fetched poll ≫= fetch_single_feed (poll_url poll)) as [e|].
    + cbn [envelopes]. by rewrite <- app_assoc.
    + by destruct (record_failure _ _ _).
Qed.

Lemma kinds_cases (kinds : gset FeedType) :
  kinds = (if bool_decide (VEHICLE_POSITIONS ∈ kinds) then {[VEHICLE_POSITIONS]} else ∅)
          ∪ (if bool_decide (TRIP_UPDATES ∈ kinds) then {[TRIP_UPDATES]} else ∅)
          ∪ (if bool_decide (ALERTS ∈ kinds) then {[ALERTS]} else ∅).
Proof.
  apply set_eq. intros kind.
  rewrite !elem_of_union.
  destruct kind; repeat case_bool_decide;
    rewrite ?elem_of_singleton, ?elem_of_empty; intuition congruence.
Qed.

Lemma all_kinds_size (envs : list FeedEnvelope) :
  size (list_to_set (env_feed_type <$> envs) : gset FeedType) = 3%nat
  ↔ all_kinds_fetched envs.
Proof.
  set (kinds := list_to_set (env_feed_type <$> envs) : gset FeedType).
  assert (∀ kind, kind ∈ kinds ↔ ∃ envelope, envelope ∈ envs ∧ env_feed_type envelope = kind)
    as Hin.
  { intros kind. unfold kinds. rewrite elem_of_list_to_set, list_elem_of_fmap.
    split; intros (e & H1 & H2); exists e; by split. }
  unfold all_kinds_fetched. split.
  - intros Hsize kind. apply Hin. rewrite (kinds_cases kinds) in Hsize.
    destruct kind; repeat case_bool_decide; try done; by vm_compute in Hsize.
  - intros Hall. rewrite (kinds_cases kinds).
    rewrite !bool_decide_eq_true_2 by (apply Hin, Hall). by vm_compute.
Qed.

Lemma FeedType_of_value_inv (text : string) (kind : FeedType) :
  FeedType_of_value text = Some kind ↔ text = FeedType_value kind.
Proof.
  unfold FeedType_of_value. split.
  - destruct (String.eqb_spec text "vehicle_positions") as [->|];
      [by intros [= <-] |].
    destruct (String.eqb_spec text "trip_updates") as [->|]; [by intros [= <-] |].
    destruct (String.eqb_spec text "alerts") as [->|]; [by intros [= <-] | done].
  - intros ->. by destruct kind.
Qed.

Lemma cursor_of_row_Some (row : string * CursorRow) (kind : FeedType) (header : Z) :
  cursor_of_row row = Some (kind, header)
  ↔ row.1 = FeedType_value kind ∧ last_header_timestamp row.2 = Some header.
Proof.
  unfold cursor_of_row. split.
  - destruct (FeedType_of_value row.1) as [k|] eqn:Hk; [|done].
    destruct (last_header_timestamp row.2) as [h|]; [|done].
    intros [= <- <-]. by apply FeedType_of_value_inv in Hk.
  - intros [Hk ->]. apply FeedType_of_value_inv in Hk. by rewrite Hk.
Qed.

Lemma cursor_rows_NoDup (rows : list (string * CursorRow)) :
  NoDup rows.*1 → NoDup (omap cursor_of_row rows).*1.
Proof.
  induction rows as [|row rows IH]; [intros _; apply NoDup_nil_2 |].
  cbn [omap list_omap fmap list_fmap]. intros [Hnotin Hnodup]%NoDup_cons.
  destruct (cursor_of_row row) as [[kind header]|] eqn:Hrow; [|by apply IH].
  cbn [fmap list_fmap]. apply NoDup_cons. split; [|by apply IH].
  intros [[kind2 header2] [Hk Hin]]%list_elem_of_fmap. cbn in Hk. subst kind2.
  apply list_elem_of_omap in Hin as (row2 & Hin2 & Hrow2).
  apply cursor_of_row_Some in Hrow as [Hk1 _].
  apply cursor_of_row_Some in Hrow2 as [Hk2 _].
  apply Hnotin, list_elem_of_fmap. exists row2. split; [congruence | done].
Qed.

(** The cursors the coordinator loads are the stored cursor values. *)
Lemma load_feed_cursors_lookup (db : Database) (kind : FeedType) :
  load_feed_cursors db !! kind = stored_cursor db kind.
Proof.
  unfold load_feed_cursors, stored_cursor.
  apply option_eq. intros header.
  rewrite <- elem_of_list_to_map
    by apply cursor_rows_NoDup, NoDup_fst_map_to_list.
  rewrite list_elem_of_omap. split.
  - intros ([text row] & Hin & [Hk Hh]%cursor_of_row_Some).
    apply elem_of_map_to_list in Hin. cbn in *. subst text. by rewrite Hin.
  - destruct (rt_feed_cursors db !! FeedType_value kind) as [row|] eqn:Hrow; [|done].
    cbn. intros Hh. exists (FeedType_value kind, row).
    split; [by apply elem_of_map_to_list | by apply cursor_of_row_Some].
Qed.

Lemma header_is_stale_unchanged (db : Database) (envelope : FeedEnvelope) :
  _header_is_stale (env_header_timestamp envelope)
                   (load_feed_cursors db !! env_feed_type envelope) = true
  ↔ unchanged db envelope.
Proof.
  rewrite load_feed_cursors_lookup. unfold _header_is_stale, unchanged.
  destruct (env_header_timestamp envelope) as [h|],
    (stored_cursor db (env_feed_type envelope)) as [c|]; split; try done.
  - intros Hle%Z.leb_le. by exists h, c.
  - intros (? & ? & [= <-] & [= <-] & Hle). by apply Z.leb_le.
  - by intros (? & ? & ? & [=] & _).
  - by intros (? & ? & [=] & _).
  - by intros (? & ? & [=] & _).
Qed.

Lemma not_stale_iff (db : Database) (envelope : FeedEnvelope) :
  not_stale db envelope ↔ ¬ unchanged db envelope.
Proof.
  unfold not_stale, unknown_freshness, strictly_newer, unchanged.
  destruct (env_header_timestamp envelope) as [h|],
    (stored_cursor db (env_feed_type envelope)) as [c|]; split.
  - intros [[[=]|[=]]|(? & ? & [= <-] & [= <-] & Hlt)] (? & ? & [= <-] & [= <-] & Hle).
    lia.
  - intros Hnot. right. exists h, c. repeat split; try done.
    destruct (Z.lt_ge_cases c h) as [|Hge]; [done |].
    destruct Hnot. exists h, c. repeat split. lia.
  - intros _ (? & ? & _ & [=] & _).
  - intros _. left. by right.
  - intros _ (? & ? & [=] & _).
  - intros _. left. by left.
  - intros _ (? & ? & [=] & _).
  - intros _. left. by left.
Qed.

Lemma all_stale_iff (db : Database) (envs : list FeedEnvelope) :
  forallb (λ envelope,
             _header_is_stale (env_header_timestamp envelope)
                              (load_feed_cursors db !! env_feed_type envelope)) envs
  = true
  ↔ ∀ envelope, envelope ∈ envs → unchanged db envelope.
Proof.
  rewrite List.forallb_forall. split.
  - intros Hall e He. apply header_is_stale_unchanged, Hall. by apply list_elem_of_In.
  - intros Hall e He. apply header_is_stale_unchanged, Hall. by apply list_elem_of_In.
Qed.

Lemma tx_bind_Some {A B : Type} (m : Tx A) (f : A → Tx B) (db db' : Database) (b : B) :
  tx_bind m f db = (db', Some b) →
  ∃ a db1, m db = (db1, Some a) ∧ f a db1 = (db', Some b).
Proof.
  unfold tx_bind. destruct (m db) as [db1 [a|]]; [|done]. intros Hf. by exists a, db1.
Qed.

Lemma stage_Some {A : Type} (fault : bool) (f : Database → option (A * Database))
    (db db' : Database) (a : A) :
  stage fault f db = (db', Some a) → fault = false ∧ f db = Some (a, db').
Proof.
  unfold stage. destruct fault; [done |].
  destruct (f db) as [[a1 db1]|]; [|done]. by intros [= <- <-].
Qed.

Lemma indexed_get_Some (indexed : gmap FeedType FeedEnvelope) (kind : FeedType)
    (db db' : Database) (envelope : FeedEnvelope) :
  indexed_get indexed kind db = (db', Some envelope) →
  db' = db ∧ indexed !! kind = Some envelope.
Proof. unfold indexed_get. by intros [= <- ->]. Qed.

(** The writers leave the snapshot table and the cursor table alone. *)
Lemma store_trip_delays_frame (rf : Reference) (snapshot : Z) (envelope : FeedEnvelope)
    (lk : DimLookup) (db db' : Database)
    (r : nat * gmap (string * string) TripDelaySnapshot * DimLookup) :
  store_trip_delays rf snapshot envelope lk db = Some (r, db') →
  rt_snapshots db' = rt_snapshots db ∧ rt_feed_cursors db' = rt_feed_cursors db.
Proof.
  unfold store_trip_delays.
  destruct (foldl _ _ _) as [[rows delays] lk1].
  destruct rows as [|row rows]; [by intros [= <- <-] |].
  destruct (batch_insert _ _) as [t|]; [|done]. by intros [= <- <-].
Qed.

Lemma store_alerts_frame (rf : Reference) (snapshot : Z) (envelope : FeedEnvelope)
    (lk : DimLookup) (db db' : Database) (r : nat * DimLookup) :
  store_alerts rf snapshot envelope lk db = Some (r, db') →
  rt_snapshots db' = rt_snapshots db ∧ rt_feed_cursors db' = rt_feed_cursors db.
Proof.
  unfold store_alerts. destruct (collect_alerts rf envelope lk) as [batch lk1].
  destruct (base_rows batch) as [|row rows]; [by intros [= <- <-] |].
  destruct (insert_alert_parents _ _ _) as [t|]; [|done]. by intros [= <- <-].
Qed.

Lemma store_vehicle_positions_frame (rf : Reference) (snapshot polled_at updated_at : Z)
    (envelope : FeedEnvelope) (lk : DimLookup) (retention : option Z)
    (delays : gmap (string * string) TripDelaySnapshot) (stamp : option Z)
    (db : Database) :
  let db' := (store_vehicle_positions rf snapshot polled_at updated_at envelope lk
                retention delays stamp db).2 in
  rt_snapshots db' = rt_snapshots db ∧ rt_feed_cursors db' = rt_feed_cursors db.
Proof.
  unfold store_vehicle_positions.
  destruct (extract_vehicle_position_rows rf snapshot envelope lk) as [records lk1].
  by destruct records.
Qed.

Lemma update_feed_cursor_snapshots (kind : FeedType) (header : option Z) (snapshot : Z)
    (db : Database) :
  rt_snapshots (update_feed_cursor kind header snapshot db) = rt_snapshots db.
Proof. unfold update_feed_cursor. by destruct header. Qed.

Lemma update_feed_cursors_snapshots (indexed : gmap FeedType FeedEnvelope)
    (snapshot : Z) (db : Database) :
  rt_snapshots (update_feed_cursors indexed snapshot db) = rt_snapshots db.
Proof.
  unfold update_feed_cursors. cbn [foldl].
  repeat (destruct (indexed !! _); rewrite ?update_feed_cursor_snapshots); done.
Qed.

Lemma insert_snapshot_Some (snapshot polled_at : Z)
    (indexed : gmap FeedType FeedEnvelope) (db db' : Database) :
  insert_snapshot snapshot polled_at indexed db = Some db' →
  rt_snapshots db !! snapshot = None
  ∧ is_Some (rt_snapshots db' !! snapshot)
  ∧ rt_feed_cursors db' = rt_feed_cursors db.
Proof.
  unfold insert_snapshot, insert_row.
  destruct (rt_snapshots db !! snapshot) eqn:Hs; [done |].
  intros [= <-]. cbn. by rewrite lookup_insert_eq.
Qed.

(** A write phase that returns has inserted the snapshot row of the
    cycle, which was not there before. *)
Lemma write_snapshot_Some (rf : Reference) (cy : Cycle)
    (indexed : gmap FeedType FeedEnvelope) (stop_times_csv : bool)
    (retention : option Z) (db db' : Database) (stored : StoredCounts) :
  write_snapshot rf cy indexed stop_times_csv retention db = (db', Some stored) →
  rt_snapshots db !! cy_snapshot_id cy = None
  ∧ is_Some (rt_snapshots db' !! cy_snapshot_id cy)
  ∧ (∀ stage, cy_db_fault cy stage = true → stage = LoadCursors).
Proof.
  unfold write_snapshot.
  intros (? & db1 & [F1 H1]%stage_Some & H)%tx_bind_Some.
  apply tx_bind_Some in H as (trip_updates & ? & [-> _]%indexed_get_Some & H).
  apply tx_bind_Some in H as ([[n1 delays] lk1] & db2 & [F2 H2]%stage_Some & H).
  apply tx_bind_Some in H as (alerts & ? & [-> _]%indexed_get_Some & H).
  apply tx_bind_Some in H as ([n2 lk2] & db3 & [F3 H3]%stage_Some & H).
  apply tx_bind_Some in H as (vehicles & ? & [-> _]%indexed_get_Some & H).
  apply tx_bind_Some in H as ([n3 lk3] & db4 & [F4 H4]%stage_Some & H).
  apply tx_bind_Some in H as (? & db5 & [F5 H5]%stage_Some & H).
  destruct (report_missing lk3) as [missing lk4].
  apply tx_bind_Some in H as (? & db6 & [F6 H6]%stage_Some & H).
  unfold tx_ret in H.
  assert (db' = update_feed_cursors indexed (cy_snapshot_id cy) db4) as ->
    by congruence.
  destruct (insert_snapshot _ _ _ db) as [dbs|] eqn:Hins; [|done].
  cbn in H1. injection H1 as <-.
  apply insert_snapshot_Some in Hins as (Hnew & Hin & _).
  apply store_trip_delays_frame in H2 as [S2 _].
  apply store_alerts_frame in H3 as [S3 _].
  assert (rt_snapshots db4 = rt_snapshots db3) as S4.
  { injection H4 as Hres.
    pose proof (store_vehicle_positions_frame rf (cy_snapshot_id cy) (cy_polled_at cy)
                  (cy_updated_at cy) vehicles lk2 retention delays
                  (_epoch_to_datetime (indexed_header indexed TRIP_UPDATES)) db3)
      as [S _].
    by rewrite Hres in S. }
  split; [done |]. split.
  - rewrite update_feed_cursors_snapshots, S4, S3, S2. congruence.
  - intros []; congruence.
Qed.

Lemma forallb_false {A : Type} (f : A → bool) (l : list A) :
  forallb f l = false → ∃ x, x ∈ l ∧ f x = false.
Proof.
  induction l as [|x l IH]; cbn; [done |].
  destruct (f x) eqn:Hx; cbn.
  - intros (y & Hy & Hfy)%IH. exists y. split; [by apply elem_of_cons; right | done].
  - intros _. exists x. split; [by apply elem_of_cons; left | done].
Qed.

(** The ways a cycle can go, for a connection without an open
    transaction. *)
Lemma run_iteration_cases (rf : Reference) (cy : Cycle) (conn : Connection)
    (dry : bool) (failure_state : gmap string FailureState)
    (failure_history : gmap Z (gmap string (gset string)))
    (failure_threshold : Z) (stop_times_csv : bool) (retention : option Z) :
  clean conn →
  let result := run_iteration rf cy conn dry failure_state failure_history
                  failure_threshold stop_times_csv retention in
  let envs := cycle_envelopes cy in
  (¬ all_kinds_fetched envs
   ∧ it_outcome result = Returned false ∧ it_conn result = conn)
  ∨ (all_kinds_fetched envs ∧ cy_db_fault cy LoadCursors = true
     ∧ it_outcome result = Raised ∧ it_conn result = conn)
  ∨ (all_kinds_fetched envs ∧ cy_db_fault cy LoadCursors = false
     ∧ (∀ envelope, envelope ∈ envs → unchanged (committed conn) envelope)
     ∧ it_outcome result = Returned false ∧ it_conn result = conn)
  ∨ (all_kinds_fetched envs ∧ cy_db_fault cy LoadCursors = false
     ∧ (∃ envelope, envelope ∈ envs ∧ not_stale (committed conn) envelope)
     ∧ ((dry = true ∧ it_outcome result = Returned true ∧ it_conn result = conn)
        ∨ (dry = false
           ∧ ∃ db stored,
               write_snapshot rf cy (index_envelopes envs) stop_times_csv retention
                 (committed conn) = (db, Some stored)
               ∧ it_outcome result = Returned true
               ∧ it_conn result = connect db)
        ∨ (dry = false
           ∧ ∃ db,
               write_snapshot rf cy (index_envelopes envs) stop_times_csv retention
                 (committed conn) = (db, None)
               ∧ it_outcome result = Raised
               ∧ it_conn result = {| committed := committed conn; working := db |}))).
Proof.
  intros Hclean. cbn zeta. unfold run_iteration.
  rewrite fetch_all_envelopes, (fetch_all_conn _ _ _ _ _ Hclean).
  rewrite (rollback_clean conn Hclean), Hclean.
  set (envs := cycle_envelopes cy).
  destruct (Nat.eqb_spec (size (list_to_set (env_feed_type <$> envs) : gset FeedType)) 3)
    as [Hsize|Hsize]; cbn [negb].
  2: { left. by rewrite <- all_kinds_size. }
  apply all_kinds_size in Hsize. right.
  destruct (cy_db_fault cy LoadCursors) eqn:Hfault; [by left |].
  right.
  destruct (forallb _ envs) eqn:Hstale.
  { left. pose proof (proj1 (all_stale_iff (committed conn) envs) Hstale). done. }
  right. split; [done |]. split; [done |]. split.
  { apply forallb_false in Hstale as (e & He & Hst). exists e. split; [done |].
    apply not_stale_iff. intros Hu%header_is_stale_unchanged. congruence. }
  destruct dry; [by left |]. right.
  destruct (write_snapshot rf cy (index_envelopes envs) stop_times_csv retention
              (committed conn)) as [db [stored|]].
  - left. split; [done |]. by exists db, stored.
  - right. split; [done |]. by exists db.
Qed.

Lemma snapshot_created_same (conn : Connection) : ¬ snapshot_created conn conn.
Proof. intros (s & Hnone & [row Hrow]). congruence. Qed.

Lemma snapshot_created_committed (before after : Connection) :
  committed after = committed before → ¬ snapshot_created before after.
Proof. intros Heq (s & Hnone & [row Hrow]). rewrite Heq in Hrow. congruence. Qed.

Lemma unchanged_not_stale (db : Database) (envs : list FeedEnvelope) :
  (∀ envelope, envelope ∈ envs → unchanged db envelope) →
  ¬ ∃ envelope, envelope ∈ envs ∧ not_stale db envelope.
Proof. intros Hall (e & He & Hfresh). apply not_stale_iff in Hfresh. auto. Qed.

(** C1, as the code has it: in a cycle that is not a dry run and that no
    database error interrupts, a snapshot row is created if and only if
    all three feed kinds were fetched and classified and at least one
    fetched feed is not stale, where a feed is not stale when its header
    timestamp is absent, or its kind has no stored cursor value, or its
    header timestamp is strictly greater than the stored cursor value. *)
Theorem snapshot_iff_complete_and_not_stale (rf : Reference) (cy : Cycle)
    (conn : Connection) (failure_state : gmap string FailureState)
    (failure_history : gmap Z (gmap string (gset string)))
    (failure_threshold : Z) (stop_times_csv : bool) (retention : option Z) :
  clean conn →
  let result := run_iteration rf cy conn false failure_state failure_history
                  failure_threshold stop_times_csv retention in
  it_outcome result ≠ Raised →
  (snapshot_created conn (it_conn result)
   ↔ all_kinds_fetched (cycle_envelopes cy)
     ∧ ∃ envelope, envelope ∈ cycle_envelopes cy
                   ∧ not_stale (committed conn) envelope).
Proof.
  intros Hclean result Hraised.
  destruct (run_iteration_cases rf cy conn false failure_state failure_history
              failure_threshold stop_times_csv retention Hclean)
    as [(Hkinds & Hout & Hconn)
       |[(Hkinds & Hfault & Hout & Hconn)
        |[(Hkinds & Hfault & Hstale & Hout & Hconn)
         |(Hkinds & Hfault & Hfresh & Hrest)]]];
    fold result in Hout, Hconn || fold result in Hrest.
  - rewrite Hconn. split; [by intros ?%snapshot_created_same | by intros [? _]].
  - done.
  - rewrite Hconn. split; [by intros ?%snapshot_created_same |].
    intros [_ Hfresh]. by apply unchanged_not_stale in Hstale.
  - destruct Hrest as [(? & _)|[(_ & db & stored & Hwrite & Hout & Hconn)
                               |(_ & db & Hwrite & Hout & Hconn)]];
      [done | | done].
    split; [done |]. intros _. rewrite Hconn.
    apply write_snapshot_Some in Hwrite as (Hnew & Hin & _).
    by exists (cy_snapshot_id cy).
Qed.

Lemma snapshot_iff_complete_and_not_stale_witness :
  clean (connect sample_database)
  ∧ it_outcome (sample_run false (sample_cycle 100 50 75 no_fault)) ≠ Raised
  ∧ (snapshot_created (connect sample_database)
       (it_conn (sample_run false (sample_cycle 100 50 75 no_fault)))
     ↔ all_kinds_fetched (cycle_envelopes (sample_cycle 100 50 75 no_fault))
       ∧ ∃ envelope, envelope ∈ cycle_envelopes (sample_cycle 100 50 75 no_fault)
                     ∧ not_stale (committed (connect sample_database)) envelope).
Proof.
  assert (clean (connect sample_database)) as Hclean by reflexivity.
  assert (it_outcome (sample_run false (sample_cycle 100 50 75 no_fault)) ≠ Raised)
    as Hout by (vm_compute; discriminate).
  split; [exact Hclean |]. split; [exact Hout |].
  exact (snapshot_iff_complete_and_not_stale sample_static
           (sample_cycle 100 50 75 no_fault) (connect sample_database) ∅ ∅ 3 true
           (Some 86400) Hclean Hout).
Defined.

(** C1, the claim as stated fails: with the cursors at 100, 40 and 75, a
    cycle whose vehicle feed carries no header timestamp and whose other
    two headers equal their cursors writes snapshot 8, although no fetched
    feed has a header timestamp strictly greater than its stored cursor. *)
Lemma snapshot_without_newer_header :
  let cy := sample_cycle 0 40 75 no_fault in
  let result := sample_run false cy in
  all_kinds_fetched (cycle_envelopes cy)
  ∧ it_outcome result = Returned true
  ∧ snapshot_created (connect sample_database) (it_conn result)
  ∧ ¬ ∃ envelope, envelope ∈ cycle_envelopes cy
                  ∧ strictly_newer sample_database envelope.
Proof.
  cbn zeta. split; [apply all_kinds_size; vm_compute; reflexivity |].
  split; [vm_compute; reflexivity |]. split.
  - exists 8. split; [vm_compute; reflexivity |]. vm_compute. by eexists.
  - intros (e & He & h & c & Hh & Hc & Hlt).
    apply list_elem_of_In in He. vm_compute in He.
    destruct He as [<-|[<-|[<-|[]]]]; vm_compute in Hh, Hc; simplify_eq; lia.
Qed.





(** C10, as the code has it: a feed without a header timestamp (the wire
    value 0 is normalised to none), or of a kind without a stored cursor
    value (no row, or a row without a timestamp), is never stale; a cycle
    in which all three kinds were fetched and one feed is such a feed
    passes the staleness check (it does not return as skipped), and it
    writes a snapshot when it is not a dry run and no database error
    interrupts it; in a dry run the connection is left as it was. *)
Theorem unknown_freshness_passes (rf : Reference) (cy : Cycle)
    (conn : Connection) (dry : bool) (failure_state : gmap string FailureState)
    (failure_history : gmap Z (gmap string (gset string)))
    (failure_threshold : Z) (stop_times_csv : bool) (retention : option Z) :
  clean conn →
  all_kinds_fetched (cycle_envelopes cy) →
  (∃ envelope, envelope ∈ cycle_envelopes cy
               ∧ unknown_freshness (committed conn) envelope) →
  let result := run_iteration rf cy conn dry failure_state failure_history
                  failure_threshold stop_times_csv retention in
  (∀ previous, _header_is_stale None previous = false)
  ∧ (∀ header, _header_is_stale header None = false)
  ∧ (∀ url message envelope, fetch_single_feed url message = Some envelope →
       msg_header_timestamp message = 0 → env_header_timestamp envelope = None)
  ∧ (∀ db kind, stored_cursor db kind = None → load_feed_cursors db !! kind = None)
  ∧ it_outcome result ≠ Returned false
  ∧ (dry = false → it_outcome result ≠ Raised →
     snapshot_created conn (it_conn result))
  ∧ (dry = true → it_conn result = conn).
Proof.
  intros Hclean Hkinds (e & He & Hunknown) result.
  split; [done |]. split; [by intros [] |]. split.
  { intros url message envelope. unfold fetch_single_feed.
    destruct (classify_feed url message); [|done]. intros [= <-] ->. done. }
  split; [intros db kind; by rewrite load_feed_cursors_lookup |].
  assert (∃ envelope, envelope ∈ cycle_envelopes cy
                      ∧ not_stale (committed conn) envelope) as Hfresh.
  { exists e. split; [done | by left]. }
  destruct (run_iteration_cases rf cy conn dry failure_state failure_history
              failure_threshold stop_times_csv retention Hclean)
    as [(Hnot & _)
       |[(_ & Hfault & Hout & Hconn)
        |[(_ & Hfault & Hstale & _)
         |(_ & Hfault & _ & Hrest)]]];
    fold result in Hout, Hconn || fold result in Hrest || idtac.
  - done.
  - rewrite Hout, Hconn. split; [done |]. split; [done | done].
  - by apply unchanged_not_stale in Hstale.
  - destruct Hrest as [(-> & Hout & Hconn)
                      |[(-> & db & stored & Hwrite & Hout & Hconn)
                       |(-> & db & Hwrite & Hout & Hconn)]];
      rewrite Hout, Hconn; (split; [done |]); (split; [|done]).
    + done.
    + intros _ _. apply write_snapshot_Some in Hwrite as (Hnew & Hin & _).
      by exists (cy_snapshot_id cy).
    + done.
Qed.

Lemma sample_unknown_freshness :
  ∃ envelope, envelope ∈ cycle_envelopes (sample_cycle 0 40 75 no_fault)
              ∧ unknown_freshness (committed (connect sample_database)) envelope.
Proof.
  eexists. split; [apply list_elem_of_In; vm_compute; left; reflexivity |].
  left. reflexivity.
Defined.

Lemma unknown_freshness_passes_witness :
  clean (connect sample_database)
  ∧ all_kinds_fetched (cycle_envelopes (sample_cycle 0 40 75 no_fault))
  ∧ it_outcome (sample_run false (sample_cycle 0 40 75 no_fault)) ≠ Returned false
  ∧ snapshot_created (connect sample_database)
      (it_conn (sample_run false (sample_cycle 0 40 75 no_fault))).
Proof.
  assert (clean (connect sample_database)) as Hclean by reflexivity.
  assert (all_kinds_fetched (cycle_envelopes (sample_cycle 0 40 75 no_fault)))
    as Hkinds by (apply all_kinds_size; vm_compute; reflexivity).
  split; [exact Hclean |]. split; [exact Hkinds |].
  destruct (unknown_freshness_passes sample_static (sample_cycle 0 40 75 no_fault)
              (connect sample_database) false ∅ ∅ 3 true (Some 86400) Hclean Hkinds
              sample_unknown_freshness) as (_ & _ & _ & _ & Hout & Hsnap & _).
  split; [exact Hout |]. apply Hsnap; [reflexivity |]. vm_compute. discriminate.
Defined.

(** C10, the claim as stated fails: in a dry run the same cycle (vehicle
    feed without a header timestamp, all three kinds fetched) passes the
    staleness check and returns success, but writes no snapshot. *)
Lemma dry_run_writes_no_snapshot :
  let cy := sample_cycle 0 40 75 no_fault in
  let result := sample_run true cy in
  all_kinds_fetched (cycle_envelopes cy)
  ∧ (∃ envelope, envelope ∈ cycle_envelopes cy
                 ∧ env_header_timestamp envelope = None)
  ∧ it_outcome result = Returned true
  ∧ committed (it_conn result) = sample_database
  ∧ ¬ snapshot_created (connect sample_database) (it_conn result).
Proof.
  cbn zeta. split; [apply all_kinds_size; vm_compute; reflexivity |].
  split.
  { eexists. split; [apply list_elem_of_In; vm_compute; left; reflexivity | done]. }
  split; [vm_compute; reflexivity |].
  assert (committed (it_conn (sample_run true (sample_cycle 0 40 75 no_fault)))
          = sample_database) as Hsame by (vm_compute; reflexivity).
  split; [exact Hsame |]. by apply snapshot_created_committed.
Qed.

(** ** The polling loop *)

Lemma run_iteration_raised_committed (rf : Reference) (cy : Cycle) (conn : Connection)
    (dry : bool) (fs : gmap string FailureState)
    (fh : gmap Z (gmap string (gset string)))
    (failure_threshold : Z) (stop_times_csv : bool) (retention : option Z) :
  clean conn →
  let result := run_iteration rf cy conn dry fs fh failure_threshold stop_times_csv
                  retention in
  it_outcome result = Raised →
  committed (it_conn result) = committed conn ∧ it_stored result = None.
Proof.
  intros Hclean result Hraised.
  assert (it_stored result = None) as Hstored.
  { revert Hraised. unfold result, run_iteration.
    repeat (case_match; cbn [it_outcome it_stored]); done. }
  split; [|done].
  destruct (run_iteration_cases rf cy conn dry fs fh failure_threshold
              stop_times_csv retention Hclean)
    as [(_ & Hout & Hconn)
       |[(_ & _ & Hout & Hconn)
        |[(_ & _ & _ & Hout & Hconn)
         |(_ & _ & _ & Hrest)]]];
    fold result in Hout, Hconn || fold result in Hrest; try congruence.
  destruct Hrest as [(_ & Hout & Hconn)
                    |[(_ & db & stored & Hwrite & Hout & Hconn)
                     |(_ & db & Hwrite & Hout & Hconn)]]; try congruence.
  by rewrite Hconn.
Qed.

Lemma loop_body_raised (cfg : Settings) (tk : Tick) (st : MainState) :
  keeps_polling cfg st →
  refresh_due cfg (last_refresh_date st) (tk_refresh_clock tk) = false →
  archive_due cfg (archive_state st) (tk_archive_clock tk) = false →
  let result :=
    run_iteration (tk_reference tk) (tk_cycle tk) (ms_conn st) (dry_run cfg)
      (failure_state st) (failure_history st) (failure_threshold cfg)
      (stop_times_path cfg) (vehicle_history_retention cfg) in
  it_outcome result = Raised →
  ∃ st', loop_body cfg tk st = (st', Uncaught, FailureAlertSent <$> it_alerts result)
         ∧ ms_conn st' = connect (committed (it_conn result))
         ∧ failure_state st' = it_failure_state result.
Proof.
  intros Hkeeps Hrefresh Harchive result Hraised. unfold loop_body.
  assert (negb (align_interval cfg) && negb (first_cycle st)
          && negb (interval_value cfg) = false) as ->.
  { unfold keeps_polling in Hkeeps.
    destruct (align_interval cfg), (first_cycle st), (interval_value cfg); done. }
  rewrite Hrefresh, Harchive. fold result. rewrite Hraised.
  eexists. split; [done |]. by split.
Qed.

(** C4: a database error during the write phase.  Nothing of the cycle is
    committed (the writes were made in one transaction that only the end of
    the write phase commits), but there is no handler: the exception leaves
    [run_iteration] and the polling loop, the process ends with the
    connection closed, no further round is run whatever the schedule still
    holds, and the failure tracker holds only what the fetches recorded. *)
Theorem write_error_ends_polling (cfg : Settings) (tk : Tick) (rest : list Tick)
    (st : MainState) :
  clean (ms_conn st) →
  keeps_polling cfg st →
  refresh_due cfg (last_refresh_date st) (tk_refresh_clock tk) = false →
  archive_due cfg (archive_state st) (tk_archive_clock tk) = false →
  let result :=
    run_iteration (tk_reference tk) (tk_cycle tk) (ms_conn st) (dry_run cfg)
      (failure_state st) (failure_history st) (failure_threshold cfg)
      (stop_times_path cfg) (vehicle_history_retention cfg) in
  it_outcome result = Raised →
  committed (it_conn result) = committed (ms_conn st)
  ∧ (polling_loop cfg (tk :: rest) st).1.2 = Uncaught
  ∧ rounds_run cfg (tk :: rest) st = 1%nat
  ∧ close (ms_conn (polling_loop cfg (tk :: rest) st).1.1) = committed (ms_conn st)
  ∧ failure_state (polling_loop cfg (tk :: rest) st).1.1
    = (track (failure_threshold cfg) (poll_outcome <$> cy_polls (tk_cycle tk))
         (failure_state st)).1.
Proof.
  intros Hclean Hkeeps Hrefresh Harchive result Hraised.
  destruct (run_iteration_raised_committed (tk_reference tk) (tk_cycle tk) (ms_conn st)
              (dry_run cfg) (failure_state st) (failure_history st)
              (failure_threshold cfg) (stop_times_path cfg)
              (vehicle_history_retention cfg) Hclean Hraised) as [Hsame _].
  destruct (loop_body_raised cfg tk st Hkeeps Hrefresh Harchive Hraised)
    as (st' & Hbody & Hconn & Hfs).
  fold result in Hsame, Hbody, Hconn, Hfs.
  cbn [polling_loop rounds_run]. rewrite Hbody. cbn [fst snd].
  rewrite Hconn, Hfs. cbn [close connect committed].
  repeat split; try done.
  unfold result, run_iteration. cbn zeta.
  pose proof (fetch_all_track (failure_threshold cfg) (ms_conn st) (failure_state st)
                (failure_history st) (cy_polls (tk_cycle tk))) as Htrack.
  cbn zeta in Htrack. rewrite <- Htrack.
  repeat (case_match; cbn [it_failure_state]); done.
Qed.

Lemma write_error_ends_polling_witness :
  let tk := sample_tick (sample_cycle 100 50 75 fault_at_trip_delays) in
  let rest := [sample_tick (sample_cycle 100 60 75 no_fault)] in
  it_outcome
    (run_iteration (tk_reference tk) (tk_cycle tk) (ms_conn sample_state)
       (dry_run sample_settings) (failure_state sample_state)
       (failure_history sample_state) (failure_threshold sample_settings)
       (stop_times_path sample_settings) (vehicle_history_retention sample_settings))
  = Raised
  ∧ (polling_loop sample_settings (tk :: rest) sample_state).1.2 = Uncaught
  ∧ rounds_run sample_settings (tk :: rest) sample_state = 1%nat
  ∧ close (ms_conn (polling_loop sample_settings (tk :: rest) sample_state).1.1)
    = sample_database.
Proof.
  cbn zeta.
  assert (it_outcome
            (run_iteration sample_static (sample_cycle 100 50 75 fault_at_trip_delays)
               (connect sample_database) false ∅ ∅ 3 true (Some 86400)) = Raised)
    as Hraised by (vm_compute; reflexivity).
  split; [exact Hraised |].
  destruct (write_error_ends_polling sample_settings
              (sample_tick (sample_cycle 100 50 75 fault_at_trip_delays))
              [sample_tick (sample_cycle 100 60 75 no_fault)] sample_state)
    as (_ & Hctl & Hrounds & Hclose & _);
    [reflexivity | reflexivity | reflexivity | reflexivity | exact Hraised |].
  split; [exact Hctl |]. split; [exact Hrounds | exact Hclose].
Defined.

(** Without the error the same schedule runs both rounds and stores two
    snapshots. *)
Example polling_without_error :
  let ticks := [sample_tick (sample_cycle 100 50 75 no_fault);
                sample_tick
                  {| cy_polls := sample_polls 100 60 75; cy_snapshot_id := 9;
                     cy_polled_at := 1700000430; cy_updated_at := 1700000431;
                     cy_db_fault := no_fault |}] in
  rounds_run sample_settings ticks sample_state = 2%nat
  ∧ size (rt_snapshots (committed (ms_conn (polling_loop sample_settings ticks
                                               sample_state).1.1))) = 3%nat.
Proof. split; vm_compute; reflexivity. Qed.

(** ** MaintenanceScheduler *)

Lemma maybe_send_daily_report_events (cfg : Settings) (now : Z * Z) (posted : bool)
    (st : MainState) (event : Event) :
  event ∈ (maybe_send_daily_report cfg now posted st).2 →
  ∃ day, event = DailyReport day.
Proof.
  unfold maybe_send_daily_report.
  repeat case_match; cbn [snd]; try (by intros ?%elem_of_nil).
  intros ->%list_elem_of_singleton. by eexists.
Qed.

(** The maintenance runs of one round of the loop are those whose gate is
    open. *)
Lemma loop_body_maintenance (cfg : Settings) (tk : Tick) (st : MainState) :
  (∀ day ok, RefreshRun day ok ∈ (loop_body cfg tk st).2 →
     refresh_due cfg (last_refresh_date st) (tk_refresh_clock tk) = true
     ∧ day = (tk_refresh_clock tk).1)
  ∧ (∀ day ok, ArchiveRun day ok ∈ (loop_body cfg tk st).2 →
       archive_due cfg (archive_state st) (tk_archive_clock tk) = true
       ∧ day = (tk_archive_clock tk).1).
Proof.
  unfold loop_body.
  destruct (negb (align_interval cfg) && negb (first_cycle st)
            && negb (interval_value cfg)).
  { cbn. split; intros ? ? ?%elem_of_nil; done. }
  destruct (refresh_due cfg (last_refresh_date st) (tk_refresh_clock tk)).
  { destruct (tk_refresh_ok tk); cbn [snd]; split; intros day ok Hin;
      apply list_elem_of_singleton in Hin; by simplify_eq. }
  destruct (archive_due cfg (archive_state st) (tk_archive_clock tk)).
  { cbn [snd]. split; intros day ok Hin;
      apply list_elem_of_singleton in Hin; by simplify_eq. }
  set (result := run_iteration _ _ _ _ _ _ _ _ _).
  assert (∀ event, event ∈ (FailureAlertSent <$> it_alerts result) →
            ∃ alert, event = FailureAlertSent alert) as Halerts.
  { intros event (alert & -> & _)%list_elem_of_fmap. by eexists. }
  destruct (it_outcome result).
  - set (st1 := {| ms_conn := it_conn result |}).
    pose proof (maybe_send_daily_report_events cfg (tk_report_clock tk)
                  (tk_report_posted tk) st1) as Hreports.
    destruct (maybe_send_daily_report cfg (tk_report_clock tk) (tk_report_posted tk)
                st1) as [st2 reports].
    cbn [snd] in Hreports.
    assert (∀ event,
              event ∈ ((FailureAlertSent <$> it_alerts result)
                       ++ (if negb (startup_notified st) && negb (dry_run cfg)
                              && webhook_url cfg && success && tk_startup_posted tk
                           then [StartupNotice] else [])
                       ++ reports)%list →
              (∃ alert, event = FailureAlertSent alert) ∨ event = StartupNotice
              ∨ ∃ day, event = DailyReport day) as Hevents.
    { intros event [Hin|[Hin|Hin]%elem_of_app]%elem_of_app.
      - left. by apply Halerts.
      - right. left. destruct (_ && _ && _ && _ && _);
          [by apply list_elem_of_singleton in Hin | by apply elem_of_nil in Hin].
      - right. right. by apply Hreports. }
    repeat case_match; cbn [snd]; split; intros day ok Hin;
      apply Hevents in Hin as [[? ?]|[?|[? ?]]]; done.
  - cbn [snd]. split; intros day ok Hin; apply Halerts in Hin as [? ?]; done.
Qed.

(** C9, as the code has it.  The scheduled static refresh runs in a round
    exactly when it is enabled, the poller is not in dry-run mode, the time
    of day has reached its threshold and today is not the recorded last
    refresh date; it has no last-attempt date and no minimum interval.  The
    scheduled archive runs exactly when it is enabled, not in dry-run mode,
    the time of day has reached its threshold, today is neither the
    recorded last archive date nor the recorded last attempt date, and
    today has reached the recorded next archive date, if one is recorded;
    a successful scheduled archive records today as the last archive date
    and today plus the minimum interval as the next archive date, a failed
    one records the attempt only.  A round of the loop runs a task only
    when its gate is open. *)
Theorem maintenance_gates (cfg : Settings) (tk : Tick) (st : MainState)
    (last_refresh : option Z) (archive : ArchiveState) (now : Z * Z) :
  (refresh_due cfg last_refresh now = true
   ↔ auto_refresh_static cfg = true ∧ dry_run cfg = false
     ∧ static_refresh_time cfg ≤ now.2 ∧ last_refresh ≠ Some now.1)
  ∧ (archive_due cfg archive now = true
     ↔ auto_archive_snapshots cfg = true ∧ dry_run cfg = false
       ∧ archive_time cfg ≤ now.2
       ∧ last_archive_date archive ≠ Some now.1
       ∧ last_attempt_date archive ≠ Some now.1
       ∧ ∀ next, next_archive_date archive = Some next → next ≤ now.1)
  ∧ (last_archive_date (archive_ran cfg archive now.1 true) = Some now.1
     ∧ last_attempt_date (archive_ran cfg archive now.1 true) = Some now.1
     ∧ next_archive_date (archive_ran cfg archive now.1 true)
       = Some (now.1 + archive_interval_delta cfg))
  ∧ (last_archive_date (archive_ran cfg archive now.1 false) = last_archive_date archive
     ∧ last_attempt_date (archive_ran cfg archive now.1 false) = Some now.1)
  ∧ (∀ day ok, RefreshRun day ok ∈ (loop_body cfg tk st).2 →
       refresh_due cfg (last_refresh_date st) (tk_refresh_clock tk) = true
       ∧ day = (tk_refresh_clock tk).1)
  ∧ (∀ day ok, ArchiveRun day ok ∈ (loop_body cfg tk st).2 →
       archive_due cfg (archive_state st) (tk_archive_clock tk) = true
       ∧ day = (tk_archive_clock tk).1).
Proof.
  split; [|split; [|split; [done |split; [done | apply loop_body_maintenance]]]].
  - unfold refresh_due.
    rewrite !andb_true_iff, !negb_true_iff, Z.leb_le, bool_decide_eq_false.
    tauto.
  - unfold archive_due.
    rewrite !andb_true_iff, !negb_true_iff, Z.leb_le, !bool_decide_eq_false.
    destruct (next_archive_date archive) as [next|].
    + rewrite Z.leb_le. split.
      * intros (((((? & ?) & ?) & ?) & ?) & ?). repeat split; try done.
        by intros ? [= <-].
      * intros (? & ? & ? & ? & ? & Hnext). repeat split; try done. by apply Hnext.
    + split.
      * intros (((((? & ?) & ?) & ?) & ?) & ?). repeat split; done.
      * intros (? & ? & ? & ? & ? & _). repeat split; done.
Qed.

(** C9, the claim as stated fails.  With a minimum archive interval of
    seven days and the latest archive dated day 10, a poller started on day
    11 at 01:00 runs the startup archive and records day 11 as the next
    archive date; on day 12 at 02:00 the archive gate is open, two days
    after the last success on record.  And a poller started on day 11 at
    09:00 runs the startup refresh and records no refresh date, so at 10:00
    of the same day the refresh gate is open again. *)
Lemma maintenance_gate_not_as_specified :
  let cfg := maintenance_settings in
  let archive :=
    startup_archive cfg (archive_state_init cfg (Some 10) 11) 11 (11, 3600) true in
  archive_due cfg archive (12, 7200) = true
  ∧ last_archive_date archive = Some 10
  ∧ ¬ gate_as_specified (archive_time cfg) (archive_interval_delta cfg)
        (last_attempt_date archive) (last_archive_date archive) (12, 7200)
  ∧ startup_refresh cfg (11, 32400) true = Some None
  ∧ refresh_due cfg None (11, 36000) = true.
Proof.
  cbn zeta. split; [reflexivity |]. split; [reflexivity |].
  split; [|split; reflexivity].
  intros (_ & _ & _ & Hinterval). specialize (Hinterval 10 eq_refl). cbn in Hinterval.
  lia.
Qed.

(** Every round of the loop leaves the connection without an open
    transaction, which is what the statements about a cycle assume of the
    connection they start from. *)
Lemma loop_body_clean (cfg : Settings) (tk : Tick) (st : MainState) :
  clean (ms_conn st) → clean (ms_conn (loop_body cfg tk st).1.1).
Proof.
  intros Hclean. unfold loop_body.
  destruct (negb (align_interval cfg) && negb (first_cycle st)
            && negb (interval_value cfg)); [done |].
  destruct (refresh_due cfg (last_refresh_date st) (tk_refresh_clock tk)).
  { by destruct (tk_refresh_ok tk). }
  destruct (archive_due cfg (archive_state st) (tk_archive_clock tk)); [done |].
  set (result := run_iteration _ _ _ _ _ _ _ _ _).
  assert (it_outcome result ≠ Raised → clean (it_conn result)) as Hconn.
  { destruct (run_iteration_cases (tk_reference tk) (tk_cycle tk) (ms_conn st)
                (dry_run cfg) (failure_state st) (failure_history st)
                (failure_threshold cfg) (stop_times_path cfg)
                (vehicle_history_retention cfg) Hclean)
      as [(_ & Hout & Hc)
         |[(_ & _ & Hout & Hc)
          |[(_ & _ & _ & Hout & Hc)
           |(_ & _ & _ & Hrest)]]];
      fold result in Hout, Hc || fold result in Hrest;
      try (intros _; by rewrite Hc).
    destruct Hrest as [(_ & Hout & Hc)
                      |[(_ & db & stored & _ & Hout & Hc)
                       |(_ & db & _ & Hout & Hc)]];
      [intros _; by rewrite Hc | intros _; by rewrite Hc | congruence]. }
  destruct (it_outcome result) eqn:Hout; [|done].
  set (st1 := {| ms_conn := it_conn result |}).
  assert (ms_conn (maybe_send_daily_report cfg (tk_report_clock tk)
                     (tk_report_posted tk) st1).1 = it_conn result) as Hsame.
  { unfold maybe_send_daily_report. by repeat case_match. }
  destruct (maybe_send_daily_report cfg (tk_report_clock tk) (tk_report_posted tk) st1)
    as [st2 reports].
  cbn [fst] in Hsame.
  repeat case_match; cbn [fst ms_conn]; rewrite Hsame; by apply Hconn.
Qed.

(** * Further properties *)

(** ** The index of the fetched feeds *)

Lemma index_envelopes_snoc (envs : list FeedEnvelope) (envelope : FeedEnvelope) :
  index_envelopes (envs ++ [envelope])
  = match index_envelopes envs !! env_feed_type envelope with
    | Some existing =>
        if timestamp_or_minus_one (env_header_timestamp existing)
           <? timestamp_or_minus_one (env_header_timestamp envelope)
        then <[env_feed_type envelope := envelope]> (index_envelopes envs)
        else index_envelopes envs
    | None => <[env_feed_type envelope := envelope]> (index_envelopes envs)
    end.
Proof. unfold index_envelopes. by rewrite foldl_app. Qed.

Lemma index_envelopes_spec (envs : list FeedEnvelope) (kind : FeedType) :
  match index_envelopes envs !! kind with
  | Some kept =>
      kept ∈ envs ∧ env_feed_type kept = kind
      ∧ ∀ other, other ∈ envs → env_feed_type other = kind →
          timestamp_or_minus_one (env_header_timestamp other)
          ≤ timestamp_or_minus_one (env_header_timestamp kept)
  | None => ∀ other, other ∈ envs → env_feed_type other ≠ kind
  end.
Proof.
  induction envs as [|envelope envs IH] using rev_ind.
  { unfold index_envelopes. cbn. rewrite lookup_empty.
    intros other Hin. by apply elem_of_nil in Hin. }
  rewrite index_envelopes_snoc.
  destruct (decide (env_feed_type envelope = kind)) as [Heq|Hne].
  - subst kind.
    destruct (index_envelopes envs !! env_feed_type envelope) as [existing|] eqn:Hex.
    + destruct IH as (Hin & Hkind & Hmax).
      destruct (Z.ltb_spec (timestamp_or_minus_one (env_header_timestamp existing))
                  (timestamp_or_minus_one (env_header_timestamp envelope))) as [Hlt|Hge].
      * rewrite lookup_insert_eq. split; [set_solver |]. split; [done |].
        intros other [Hother| ->%list_elem_of_singleton]%elem_of_app Hk; [|lia].
        specialize (Hmax other Hother Hk). lia.
      * rewrite Hex. split; [set_solver |]. split; [done |].
        intros other [Hother| ->%list_elem_of_singleton]%elem_of_app Hk; [|lia].
        by apply Hmax.
    + rewrite lookup_insert_eq. split; [set_solver |]. split; [done |].
      intros other [Hother| ->%list_elem_of_singleton]%elem_of_app Hk; [|lia].
      by destruct (IH other Hother).
  - assert (match index_envelopes envs !! env_feed_type envelope with
            | Some existing =>
                if timestamp_or_minus_one (env_header_timestamp existing)
                   <? timestamp_or_minus_one (env_header_timestamp envelope)
                then <[env_feed_type envelope := envelope]> (index_envelopes envs)
                else index_envelopes envs
            | None => <[env_feed_type envelope := envelope]> (index_envelopes envs)
            end !! kind = index_envelopes envs !! kind) as ->.
    { destruct (index_envelopes envs !! env_feed_type envelope) as [existing|];
        [destruct (_ <? _)|]; by rewrite ?lookup_insert_ne. }
    destruct (index_envelopes envs !! kind) as [kept|].
    + destruct IH as (Hin & Hkind & Hmax). split; [set_solver |]. split; [done |].
      intros other [Hother| ->%list_elem_of_singleton]%elem_of_app Hk; [|done].
      by apply Hmax.
    + intros other [Hother| ->%list_elem_of_singleton]%elem_of_app; [|done].
      by apply IH.
Qed.

(** X1: [index_envelopes] keeps, for each kind that was fetched, one of the
    fetched envelopes of that kind whose header timestamp is greatest (an
    absent timestamp counting as -1), and has no entry for a kind that was
    not fetched. *)
Theorem index_envelopes_latest (envs : list FeedEnvelope) (kind : FeedType) :
  match index_envelopes envs !! kind with
  | Some kept =>
      kept ∈ envs ∧ env_feed_type kept = kind
      ∧ ∀ other, other ∈ envs → env_feed_type other = kind →
          timestamp_or_minus_one (env_header_timestamp other)
          ≤ timestamp_or_minus_one (env_header_timestamp kept)
  | None => ∀ other, other ∈ envs → env_feed_type other ≠ kind
  end.
Proof. apply index_envelopes_spec. Qed.

(** ** The stages of a write phase that succeeded *)

Lemma write_snapshot_stages (rf : Reference) (cy : Cycle)
    (indexed : gmap FeedType FeedEnvelope) (stop_times_csv : bool)
    (retention : option Z) (db db' : Database) (stored : StoredCounts) :
  write_snapshot rf cy indexed stop_times_csv retention db = (db', Some stored) →
  ∃ trip_updates alerts vehicles db1 db2 db3 n1 delays lk1 n2 lk2,
    indexed !! TRIP_UPDATES = Some trip_updates
    ∧ indexed !! ALERTS = Some alerts
    ∧ indexed !! VEHICLE_POSITIONS = Some vehicles
    ∧ insert_snapshot (cy_snapshot_id cy) (cy_polled_at cy) indexed db = Some db1
    ∧ store_trip_delays rf (cy_snapshot_id cy) trip_updates
        (DimLookup_init stop_times_csv) db1 = Some (n1, delays, lk1, db2)
    ∧ store_alerts rf (cy_snapshot_id cy) alerts lk1 db2 = Some (n2, lk2, db3)
    ∧ db' = update_feed_cursors indexed (cy_snapshot_id cy)
              (store_vehicle_positions rf (cy_snapshot_id cy) (cy_polled_at cy)
                 (cy_updated_at cy) vehicles lk2 retention delays
                 (_epoch_to_datetime (indexed_header indexed TRIP_UPDATES)) db3).2.
Proof.
  unfold write_snapshot.
  intros (? & db1 & [F1 H1]%stage_Some & H)%tx_bind_Some.
  apply tx_bind_Some in H as (trip_updates & ? & [-> Ht]%indexed_get_Some & H).
  apply tx_bind_Some in H as ([[n1 delays] lk1] & db2 & [F2 H2]%stage_Some & H).
  apply tx_bind_Some in H as (alerts & ? & [-> Ha]%indexed_get_Some & H).
  apply tx_bind_Some in H as ([n2 lk2] & db3 & [F3 H3]%stage_Some & H).
  apply tx_bind_Some in H as (vehicles & ? & [-> Hv]%indexed_get_Some & H).
  apply tx_bind_Some in H as ([n3 lk3] & db4 & [F4 H4]%stage_Some & H).
  apply tx_bind_Some in H as (? & db5 & [F5 H5]%stage_Some & H).
  destruct (report_missing lk3) as [missing lk4].
  apply tx_bind_Some in H as (? & db6 & [F6 H6]%stage_Some & H).
  unfold tx_ret in H.
  assert (db' = update_feed_cursors indexed (cy_snapshot_id cy) db4) as ->
    by congruence.
  destruct (insert_snapshot _ _ _ db) as [dbs|] eqn:Hins; [|done].
  cbn in H1. injection H1 as Hdbs. subst dbs.
  exists trip_updates, alerts, vehicles, db1, db2, db3, n1, delays, lk1, n2, lk2.
  split; [done |]. split; [done |]. split; [done |]. split; [done |].
  split; [done |]. split; [done |].
  injection H4 as Hres. by rewrite Hres.
Qed.

(** ** The feed cursors *)

Lemma FeedType_value_inj (a b : FeedType) :
  FeedType_value a = FeedType_value b → a = b.
Proof. by destruct a, b. Qed.

Lemma cursor_row_update (kind other : FeedType) (header : option Z) (snapshot : Z)
    (db : Database) :
  rt_feed_cursors (update_feed_cursor kind header snapshot db) !! FeedType_value other
  = match header with
    | Some value =>
        if decide (other = kind)
        then Some {| last_header_timestamp := Some value;
                     last_snapshot_id := Some snapshot |}
        else rt_feed_cursors db !! FeedType_value other
    | None => rt_feed_cursors db !! FeedType_value other
    end.
Proof.
  unfold update_feed_cursor, insert_do_update. destruct header as [value|]; [|done].
  cbn. destruct (decide (other = kind)) as [->|Hne].
  - by rewrite lookup_insert_eq.
  - rewrite lookup_insert_ne; [done |]. intros Heq%FeedType_value_inj. done.
Qed.

(** X2: What is written with [update_feed_cursor] is what [load_feed_cursors]
    reads back, for a header that the [BIGINT] column of the cursor holds
    (the database refuses the statement for another one): the cursor of
    the kind is the header written, the cursors of the other kinds are as
    before; and an absent header writes nothing, so the value read back is
    the one stored before. *)
Theorem cursor_round_trip (kind other : FeedType) (header : option Z)
    (snapshot : Z) (db : Database) :
  (∀ value, header = Some value → bigint_range value = true) →
  load_feed_cursors (update_feed_cursor kind header snapshot db) !! other
  = match header with
    | Some value =>
        if decide (other = kind) then Some value else load_feed_cursors db !! other
    | None => load_feed_cursors db !! other
    end.
Proof.
  intros _. rewrite !load_feed_cursors_lookup. unfold stored_cursor.
  rewrite cursor_row_update. destruct header as [value|]; [|done].
  by destruct (decide (other = kind)).
Qed.

Lemma cursor_round_trip_witness :
  (∀ value, Some 110 = Some value → bigint_range value = true)
  ∧ load_feed_cursors (update_feed_cursor VEHICLE_POSITIONS (Some 110) 8 sample_database)
      !! VEHICLE_POSITIONS = Some 110
  ∧ load_feed_cursors (update_feed_cursor VEHICLE_POSITIONS (Some 110) 8 sample_database)
      !! ALERTS = Some 75.
Proof.
  assert (∀ value, Some 110 = Some value → bigint_range value = true) as Hrange.
  { intros value [= <-]. reflexivity. }
  split; [exact Hrange |]. split.
  - exact (cursor_round_trip VEHICLE_POSITIONS VEHICLE_POSITIONS (Some 110) 8
             sample_database Hrange).
  - rewrite (cursor_round_trip VEHICLE_POSITIONS ALERTS (Some 110) 8 sample_database
               Hrange).
    reflexivity.
Defined.

Lemma cursor_row_updates (indexed : gmap FeedType FeedEnvelope) (snapshot : Z)
    (db : Database) (kind : FeedType) :
  rt_feed_cursors (update_feed_cursors indexed snapshot db) !! FeedType_value kind
  = match indexed_header indexed kind with
    | Some value => Some {| last_header_timestamp := Some value;
                            last_snapshot_id := Some snapshot |}
    | None => rt_feed_cursors db !! FeedType_value kind
    end.
Proof.
  unfold update_feed_cursors, indexed_header. cbn [foldl].
  destruct kind;
    repeat (match goal with
            | |- context [match indexed !! ?k with _ => _ end] =>
                destruct (indexed !! k) as [[? ? ? [?|]]|]
            end; cbn [env_header_timestamp]);
    rewrite ?cursor_row_update; repeat case_decide; try done.
Qed.

Lemma write_snapshot_cursors (rf : Reference) (cy : Cycle)
    (indexed : gmap FeedType FeedEnvelope) (stop_times_csv : bool)
    (retention : option Z) (db db' : Database) (stored : StoredCounts)
    (kind : FeedType) :
  write_snapshot rf cy indexed stop_times_csv retention db = (db', Some stored) →
  rt_feed_cursors db' !! FeedType_value kind
  = match indexed_header indexed kind with
    | Some value => Some {| last_header_timestamp := Some value;
                            last_snapshot_id := Some (cy_snapshot_id cy) |}
    | None => rt_feed_cursors db !! FeedType_value kind
    end.
Proof.
  intros (tu & al & ve & db1 & db2 & db3 & n1 & delays & lk1 & n2 & lk2
          & _ & _ & _ & H1 & H2 & H3 & ->)%write_snapshot_stages.
  rewrite cursor_row_updates.
  apply insert_snapshot_Some in H1 as (_ & _ & C1).
  apply store_trip_delays_frame in H2 as [_ C2].
  apply store_alerts_frame in H3 as [_ C3].
  destruct (store_vehicle_positions_frame rf (cy_snapshot_id cy) (cy_polled_at cy)
              (cy_updated_at cy) ve lk2 retention delays
              (_epoch_to_datetime (indexed_header indexed TRIP_UPDATES)) db3) as [_ C4].
  cbn zeta in C4. by rewrite C4, C3, C2, C1.
Qed.

Lemma run_iteration_written (rf : Reference) (cy : Cycle) (conn : Connection)
    (failure_state : gmap string FailureState)
    (failure_history : gmap Z (gmap string (gset string)))
    (failure_threshold : Z) (stop_times_csv : bool) (retention : option Z) :
  clean conn →
  let result := run_iteration rf cy conn false failure_state failure_history
                  failure_threshold stop_times_csv retention in
  it_outcome result = Returned true →
  all_kinds_fetched (cycle_envelopes cy)
  ∧ ∃ db stored,
      write_snapshot rf cy (index_envelopes (cycle_envelopes cy)) stop_times_csv
        retention (committed conn) = (db, Some stored)
      ∧ it_conn result = connect db.
Proof.
  intros Hclean result Hout. subst result.
  destruct (run_iteration_cases rf cy conn false failure_state failure_history
              failure_threshold stop_times_csv retention Hclean)
    as [(_ & H & _)|[(_ & _ & H & _)|[(_ & _ & _ & H & _)
       |(Hall & _ & _ & [([=] & _)|[(_ & db & stored & Hw & _ & Hconn)
                                  |(_ & db & _ & H & _)]])]]];
    try congruence.
  split; [done |]. by exists db, stored.
Qed.

(** X3: After a cycle that wrote a snapshot, the stored cursor of each kind is
    the header timestamp of the envelope indexed for that kind, recorded
    with the snapshot of the cycle; a kind whose indexed envelope has no
    header timestamp keeps the cursor it had. *)
Theorem cycle_moves_cursors (rf : Reference) (cy : Cycle) (conn : Connection)
    (failure_state : gmap string FailureState)
    (failure_history : gmap Z (gmap string (gset string)))
    (failure_threshold : Z) (stop_times_csv : bool) (retention : option Z)
    (kind : FeedType) :
  clean conn →
  let result := run_iteration rf cy conn false failure_state failure_history
                  failure_threshold stop_times_csv retention in
  it_outcome result = Returned true →
  match indexed_header (index_envelopes (cycle_envelopes cy)) kind with
  | Some header =>
      stored_cursor (committed (it_conn result)) kind = Some header
      ∧ cursor_snapshot (committed (it_conn result)) kind = Some (cy_snapshot_id cy)
  | None =>
      stored_cursor (committed (it_conn result)) kind
      = stored_cursor (committed conn) kind
      ∧ cursor_snapshot (committed (it_conn result)) kind
        = cursor_snapshot (committed conn) kind
  end.
Proof.
  intros Hclean result Hout.
  destruct (run_iteration_written rf cy conn failure_state failure_history
              failure_threshold stop_times_csv retention Hclean Hout)
    as (_ & db & stored & Hw & Hconn).
  subst result. rewrite Hconn. cbn [connect committed].
  unfold stored_cursor, cursor_snapshot.
  rewrite (write_snapshot_cursors _ _ _ _ _ _ _ _ kind Hw).
  by destruct (indexed_header _ kind).
Qed.

Lemma cycle_moves_cursors_witness :
  clean (connect sample_database)
  ∧ it_outcome (sample_run false (sample_cycle 110 50 80 no_fault)) = Returned true
  ∧ match indexed_header
            (index_envelopes (cycle_envelopes (sample_cycle 110 50 80 no_fault)))
            VEHICLE_POSITIONS with
    | Some header =>
        stored_cursor
          (committed (it_conn (sample_run false (sample_cycle 110 50 80 no_fault))))
          VEHICLE_POSITIONS = Some header
        ∧ cursor_snapshot
            (committed (it_conn (sample_run false (sample_cycle 110 50 80 no_fault))))
            VEHICLE_POSITIONS = Some (cy_snapshot_id (sample_cycle 110 50 80 no_fault))
    | None =>
        stored_cursor
          (committed (it_conn (sample_run false (sample_cycle 110 50 80 no_fault))))
          VEHICLE_POSITIONS
        = stored_cursor (committed (connect sample_database)) VEHICLE_POSITIONS
        ∧ cursor_snapshot
            (committed (it_conn (sample_run false (sample_cycle 110 50 80 no_fault))))
            VEHICLE_POSITIONS
          = cursor_snapshot (committed (connect sample_database)) VEHICLE_POSITIONS
    end.
Proof.
  assert (clean (connect sample_database)) as Hclean by reflexivity.
  assert (it_outcome (sample_run false (sample_cycle 110 50 80 no_fault))
          = Returned true) as Hout by (vm_compute; reflexivity).
  split; [exact Hclean |]. split; [exact Hout |].
  exact (cycle_moves_cursors sample_static (sample_cycle 110 50 80 no_fault)
           (connect sample_database) ∅ ∅ 3 true (Some 86400) VEHICLE_POSITIONS
           Hclean Hout).
Defined.

Lemma timestamp_or_minus_one_positive (header : Z) :
  0 < header → timestamp_or_minus_one (Some header) = header.
Proof. unfold timestamp_or_minus_one. destruct header; done || lia. Qed.

(** With header timestamps present, the cycle leaves the cursor of every
    fetched envelope at a value that is at least its header. *)
Lemma written_cursors_cover (rf : Reference) (cy : Cycle) (stop_times_csv : bool)
    (retention : option Z) (db db' : Database) (stored : StoredCounts)
    (envelope : FeedEnvelope) :
  write_snapshot rf cy (index_envelopes (cycle_envelopes cy)) stop_times_csv retention db
  = (db', Some stored) →
  headers_present (cycle_envelopes cy) →
  envelope ∈ cycle_envelopes cy →
  unchanged db' envelope.
Proof.
  intros Hw Hheaders Hin.
  destruct (Hheaders envelope Hin) as (header & Hheader & Hpos).
  pose proof (index_envelopes_spec (cycle_envelopes cy) (env_feed_type envelope))
    as Hlatest.
  pose proof (write_snapshot_cursors _ _ _ _ _ _ _ _ (env_feed_type envelope) Hw)
    as Hcursor.
  unfold indexed_header in Hcursor.
  destruct (index_envelopes (cycle_envelopes cy) !! env_feed_type envelope)
    as [kept|]; [|by destruct (Hlatest envelope Hin)].
  destruct Hlatest as (Hkept & _ & Hmax).
  destruct (Hheaders kept Hkept) as (value & Hvalue & Hvpos).
  specialize (Hmax envelope Hin eq_refl).
  rewrite Hheader, Hvalue, !timestamp_or_minus_one_positive in Hmax by done.
  rewrite Hvalue in Hcursor.
  exists header, value. split; [done |]. split; [|done].
  unfold stored_cursor. by rewrite Hcursor.
Qed.

(** X4: Polling the same feeds again after a cycle that wrote a snapshot
    writes nothing: when every fetched feed carried a (positive) header
    timestamp, a second cycle that fetches the same envelopes, with
    whatever settings, returns [False] and leaves the connection as the
    first cycle left it. *)
Theorem repeated_poll_writes_nothing (rf : Reference) (cy : Cycle) (conn : Connection)
    (fs : gmap string FailureState) (fh : gmap Z (gmap string (gset string)))
    (threshold : Z) (stop_times_csv : bool) (retention : option Z)
    (rf2 : Reference) (cy2 : Cycle) (dry2 : bool)
    (fs2 : gmap string FailureState) (fh2 : gmap Z (gmap string (gset string)))
    (threshold2 : Z) (stop_times_csv2 : bool) (retention2 : option Z) :
  clean conn →
  let first := run_iteration rf cy conn false fs fh threshold stop_times_csv retention in
  it_outcome first = Returned true →
  headers_present (cycle_envelopes cy) →
  cycle_envelopes cy2 = cycle_envelopes cy →
  cy_db_fault cy2 LoadCursors = false →
  let second := run_iteration rf2 cy2 (it_conn first) dry2 fs2 fh2 threshold2
                  stop_times_csv2 retention2 in
  it_outcome second = Returned false ∧ it_conn second = it_conn first.
Proof.
  intros Hclean first Hout Hheaders Hsame Hfault second.
  destruct (run_iteration_written rf cy conn fs fh threshold stop_times_csv retention
              Hclean Hout) as (_ & db & stored & Hw & Hconn).
  subst first second. rewrite Hconn.
  assert (clean (connect db)) as Hclean2 by done.
  destruct (run_iteration_cases rf2 cy2 (connect db) dry2 fs2 fh2 threshold2
              stop_times_csv2 retention2 Hclean2)
    as [(_ & H1 & H2)|[(_ & H & _)|[(_ & _ & _ & H1 & H2)
       |(_ & _ & (envelope & Hin & Hfresh) & _)]]];
    [done | congruence | done |].
  rewrite Hsame in Hin. apply not_stale_iff in Hfresh. destruct Hfresh.
  by eapply written_cursors_cover.
Qed.

Lemma sample_headers_present :
  headers_present (cycle_envelopes (sample_cycle 110 50 80 no_fault)).
Proof.
  intros envelope Hin. apply list_elem_of_In in Hin. vm_compute in Hin.
  destruct Hin as [<-|[<-|[<-|[]]]]; eexists; (split; [reflexivity | done]).
Qed.

Lemma repeated_poll_writes_nothing_witness :
  clean (connect sample_database)
  ∧ it_outcome (sample_run false (sample_cycle 110 50 80 no_fault)) = Returned true
  ∧ headers_present (cycle_envelopes (sample_cycle 110 50 80 no_fault))
  ∧ it_outcome
      (run_iteration sample_static (sample_cycle 110 50 80 no_fault)
         (it_conn (sample_run false (sample_cycle 110 50 80 no_fault)))
         false ∅ ∅ 3 true (Some 86400)) = Returned false
  ∧ it_conn
      (run_iteration sample_static (sample_cycle 110 50 80 no_fault)
         (it_conn (sample_run false (sample_cycle 110 50 80 no_fault)))
         false ∅ ∅ 3 true (Some 86400))
    = it_conn (sample_run false (sample_cycle 110 50 80 no_fault)).
Proof.
  assert (clean (connect sample_database)) as Hclean by reflexivity.
  assert (it_outcome (sample_run false (sample_cycle 110 50 80 no_fault))
          = Returned true) as Hout by (vm_compute; reflexivity).
  split; [exact Hclean |]. split; [exact Hout |].
  split; [exact sample_headers_present |].
  exact (repeated_poll_writes_nothing sample_static (sample_cycle 110 50 80 no_fault)
           (connect sample_database) ∅ ∅ 3 true (Some 86400)
           sample_static (sample_cycle 110 50 80 no_fault) false ∅ ∅ 3 true (Some 86400)
           Hclean Hout sample_headers_present eq_refl eq_refl).
Defined.

(** ** The snapshot table *)

Lemma insert_snapshot_row (cy : Cycle) (indexed : gmap FeedType FeedEnvelope)
    (db db' : Database) :
  insert_snapshot (cy_snapshot_id cy) (cy_polled_at cy) indexed db = Some db' →
  rt_snapshots db !! cy_snapshot_id cy = None
  ∧ db' = with_snapshots (<[cy_snapshot_id cy := snapshot_row cy indexed]> (rt_snapshots db))
            db.
Proof.
  unfold insert_snapshot, insert_row.
  destruct (rt_snapshots db !! cy_snapshot_id cy) eqn:Hs; [done |].
  by intros [= <-].
Qed.

Lemma write_snapshot_snapshots (rf : Reference) (cy : Cycle)
    (indexed : gmap FeedType FeedEnvelope) (stop_times_csv : bool)
    (retention : option Z) (db db' : Database) (stored : StoredCounts) :
  write_snapshot rf cy indexed stop_times_csv retention db = (db', Some stored) →
  rt_snapshots db !! cy_snapshot_id cy = None
  ∧ rt_snapshots db' = <[cy_snapshot_id cy := snapshot_row cy indexed]> (rt_snapshots db).
Proof.
  intros (tu & al & ve & db1 & db2 & db3 & n1 & delays & lk1 & n2 & lk2
          & _ & _ & _ & H1 & H2 & H3 & ->)%write_snapshot_stages.
  apply insert_snapshot_row in H1 as [Hnew ->].
  apply store_trip_delays_frame in H2 as [S2 _].
  apply store_alerts_frame in H3 as [S3 _].
  destruct (store_vehicle_positions_frame rf (cy_snapshot_id cy) (cy_polled_at cy)
              (cy_updated_at cy) ve lk2 retention delays
              (_epoch_to_datetime (indexed_header indexed TRIP_UPDATES)) db3) as [S4 _].
  cbn zeta in S4. split; [done |].
  by rewrite update_feed_cursors_snapshots, S4, S3, S2.
Qed.

(** X5: A cycle that returns [True] outside a dry run adds exactly one row to
    the snapshot table, under the id drawn for the cycle, which was not in
    use; the row carries the poll time and, for each kind, the header
    timestamp of the indexed envelope, or none when that header is absent,
    zero or not an instant of the years 1 to 9999; every earlier snapshot
    row is as it was. *)
Theorem cycle_adds_one_snapshot (rf : Reference) (cy : Cycle) (conn : Connection)
    (fs : gmap string FailureState) (fh : gmap Z (gmap string (gset string)))
    (threshold : Z) (stop_times_csv : bool) (retention : option Z) :
  clean conn →
  let result := run_iteration rf cy conn false fs fh threshold stop_times_csv retention in
  it_outcome result = Returned true →
  rt_snapshots (committed conn) !! cy_snapshot_id cy = None
  ∧ rt_snapshots (committed (it_conn result))
    = <[cy_snapshot_id cy := snapshot_row cy (index_envelopes (cycle_envelopes cy))]>
        (rt_snapshots (committed conn)).
Proof.
  intros Hclean result Hout.
  destruct (run_iteration_written rf cy conn fs fh threshold stop_times_csv retention
              Hclean Hout) as (_ & db & stored & Hw & Hconn).
  subst result. rewrite Hconn. by eapply write_snapshot_snapshots.
Qed.

Lemma cycle_adds_one_snapshot_witness :
  clean (connect sample_database)
  ∧ it_outcome (sample_run false (sample_cycle 110 50 80 no_fault)) = Returned true
  ∧ rt_snapshots (committed (connect sample_database))
      !! cy_snapshot_id (sample_cycle 110 50 80 no_fault) = None
  ∧ rt_snapshots (committed (it_conn (sample_run false (sample_cycle 110 50 80 no_fault))))
    = <[cy_snapshot_id (sample_cycle 110 50 80 no_fault) :=
          snapshot_row (sample_cycle 110 50 80 no_fault)
            (index_envelopes (cycle_envelopes (sample_cycle 110 50 80 no_fault)))]>
        (rt_snapshots (committed (connect sample_database))).
Proof.
  assert (clean (connect sample_database)) as Hclean by reflexivity.
  assert (it_outcome (sample_run false (sample_cycle 110 50 80 no_fault))
          = Returned true) as Hout by (vm_compute; reflexivity).
  split; [exact Hclean |]. split; [exact Hout |].
  exact (cycle_adds_one_snapshot sample_static (sample_cycle 110 50 80 no_fault)
           (connect sample_database) ∅ ∅ 3 true (Some 86400) Hclean Hout).
Defined.

(** ** The statements, key by key *)

Section StatementLookups.
Context {K V : Type} `{Countable K}.

Lemma batch_do_nothing_lookup_other (rows : list (K * V)) (t : gmap K V) (k : K) :
  k ∉ rows.*1 → batch_do_nothing rows t !! k = t !! k.
Proof.
  intros Hk. rewrite batch_do_nothing_union, lookup_union.
  apply not_elem_of_list_to_map_1 in Hk. rewrite Hk. by destruct (t !! k).
Qed.

Lemma batch_do_nothing_lookup_None (rows : list (K * V)) (t : gmap K V) (k : K) :
  batch_do_nothing rows t !! k = None ↔ t !! k = None ∧ k ∉ rows.*1.
Proof.
  rewrite batch_do_nothing_union, lookup_union_None, <- not_elem_of_list_to_map.
  done.
Qed.

Lemma batch_do_update_lookup_other (rows : list (K * V)) (t : gmap K V) (k : K) :
  k ∉ rows.*1 → batch_do_update rows t !! k = t !! k.
Proof.
  unfold batch_do_update, insert_do_update. revert t.
  induction rows as [|[k' v] rows IH]; intros t Hk; [done |].
  cbn [foldl fst snd]. rewrite fmap_cons in Hk. apply not_elem_of_cons in Hk as [Hne Hk].
  rewrite IH by done. by rewrite lookup_insert_ne.
Qed.

Lemma batch_do_update_lookup (rows : list (K * V)) (t : gmap K V) (k : K) (v : V) :
  batch_do_update rows t !! k = Some v →
  (k, v) ∈ rows ∨ ((k ∉ rows.*1) ∧ t !! k = Some v).
Proof.
  unfold batch_do_update, insert_do_update. revert t.
  induction rows as [|[k' v'] rows IH]; intros t; cbn [foldl fst snd].
  - intros Hk. right. split; [|done]. apply not_elem_of_nil.
  - intros [Hin|[Hk Hv]]%IH.
    + left. by apply elem_of_cons; right.
    + destruct (decide (k' = k)) as [->|Hne].
      * rewrite lookup_insert_eq in Hv. injection Hv as ->. left. apply elem_of_cons.
        by left.
      * rewrite lookup_insert_ne in Hv by done. right. split; [|done].
        rewrite fmap_cons. apply not_elem_of_cons. by split.
Qed.

Lemma batch_insert_lookup_other (rows : list (K * V)) (t t' : gmap K V) (k : K) :
  batch_insert rows t = Some t' → k ∉ rows.*1 → t' !! k = t !! k.
Proof.
  revert t. induction rows as [|[k' v] rows IH]; intros t; simpl.
  - by intros [= ->].
  - unfold insert_row. destruct (t !! k') eqn:Hk'; [done |].
    intros Hrest [Hne Hk]%not_elem_of_cons.
    rewrite (IH _ Hrest Hk). by rewrite lookup_insert_ne.
Qed.

(** A batch of plain [INSERT]s goes through when its keys are distinct and
    none of them is in the table. *)
Lemma batch_insert_fresh (rows : list (K * V)) (t : gmap K V) :
  NoDup rows.*1 → (∀ k, k ∈ rows.*1 → t !! k = None) →
  is_Some (batch_insert rows t).
Proof.
  revert t. induction rows as [|[k v] rows IH]; intros t; simpl; [by eexists |].
  intros [Hk Hnodup]%NoDup_cons Hfresh.
  unfold insert_row. rewrite (Hfresh k) by (apply elem_of_cons; by left).
  apply IH; [done |]. intros k' Hk'.
  rewrite lookup_insert_ne by (intros ->; done).
  apply Hfresh, elem_of_cons. by right.
Qed.

(** And it fails when a key is repeated in the batch or is in the
    table. *)
Lemma batch_insert_conflict (rows : list (K * V)) (t t' : gmap K V) :
  batch_insert rows t = Some t' →
  NoDup rows.*1 ∧ ∀ k, k ∈ rows.*1 → t !! k = None.
Proof.
  revert t. induction rows as [|[k v] rows IH]; intros t; simpl.
  - intros _. split; [constructor |]. by intros k ?%elem_of_nil.
  - unfold insert_row. destruct (t !! k) eqn:Hk; [done |].
    intros [Hnodup Hfresh]%IH. split.
    + apply NoDup_cons. split; [|done]. intros Hin.
      specialize (Hfresh k Hin). by rewrite lookup_insert_eq in Hfresh.
    + intros k' [->|Hin]%elem_of_cons; [done |].
      specialize (Hfresh k' Hin).
      destruct (decide (k = k')) as [->|Hne].
      * by rewrite lookup_insert_eq in Hfresh.
      * by rewrite lookup_insert_ne in Hfresh.
Qed.
End StatementLookups.

(** ** Dictionaries in insertion order *)

Lemma dict_set_keys {K V : Type} `{EqDecision K} (k : K) (v : V) (d : list (K * V)) :
  (dict_set k v d).*1 = if decide (k ∈ d.*1) then d.*1 else (d.*1 ++ [k])%list.
Proof.
  induction d as [|[k' v'] d IH].
  - destruct (decide (k ∈ ([] : list (K * V)).*1)) as [Hin|_]; [|done].
    by apply elem_of_nil in Hin.
  - cbn [dict_set]. rewrite !fmap_cons. cbn [fst].
    destruct (decide (k = k')) as [->|Hne].
    + rewrite fmap_cons. cbn [fst].
      destruct (decide (k' ∈ k' :: d.*1)) as [_|Hout]; [done |].
      destruct Hout. apply elem_of_cons. by left.
    + rewrite fmap_cons, IH. cbn [fst].
      destruct (decide (k ∈ d.*1)) as [Hin|Hout],
               (decide (k ∈ k' :: d.*1)) as [Hin2|Hout2]; try done.
      * destruct Hout2. apply elem_of_cons. by right.
      * by apply elem_of_cons in Hin2 as [?|?].
Qed.

Lemma dict_set_NoDup {K V : Type} `{EqDecision K} (k : K) (v : V) (d : list (K * V)) :
  NoDup d.*1 → NoDup (dict_set k v d).*1.
Proof.
  intros Hnodup. rewrite dict_set_keys. destruct (decide (k ∈ d.*1)); [done |].
  apply NoDup_app. split; [done |]. split.
  - intros x Hx ->%list_elem_of_singleton. done.
  - apply NoDup_singleton.
Qed.

Lemma dict_set_In {K V : Type} `{EqDecision K} (k : K) (v : V) (d : list (K * V)) :
  (k, v) ∈ dict_set k v d.
Proof.
  induction d as [|[k' v'] d IH]; simpl.
  - apply elem_of_cons. by left.
  - destruct (decide (k = k')); apply elem_of_cons; [by left | by right].
Qed.

Lemma dict_set_other {K V : Type} `{EqDecision K} (k : K) (v : V) (d : list (K * V))
    (x : K * V) :
  x ∈ d → x.1 ≠ k → x ∈ dict_set k v d.
Proof.
  induction d as [|[k' v'] d IH]; cbn [dict_set]; [by intros ?%elem_of_nil |].
  intros [->|Hin]%elem_of_cons Hne.
  - rewrite decide_False by (cbn in Hne; congruence). apply elem_of_cons. by left.
  - destruct (decide (k = k')); apply elem_of_cons; right; [done | by apply IH].
Qed.

(** ** What a cycle leaves of the other snapshots *)

Lemma other_snapshots_kept_refl (snapshot : Z) (db : Database) :
  other_snapshots_kept snapshot db db.
Proof. by constructor. Qed.

Lemma other_snapshots_kept_trans (snapshot : Z) (db1 db2 db3 : Database) :
  other_snapshots_kept snapshot db1 db2 → other_snapshots_kept snapshot db2 db3 →
  other_snapshots_kept snapshot db1 db3.
Proof.
  intros [A1 A2 A3 A4 A5 A6 A7 A8 A9 A10] [B1 B2 B3 B4 B5 B6 B7 B8 B9 B10].
  constructor; intros key Hkey.
  - by rewrite B1, A1.
  - by rewrite B2, A2.
  - by rewrite B3, A3.
  - by rewrite B4, A4.
  - by rewrite B5, A5.
  - by rewrite B6, A6.
  - by rewrite B7, A7.
  - by rewrite B8, A8.
  - by rewrite B9, A9.
  - intros Hsome. rewrite B10 by done. apply A10; [done |]. by rewrite <- B10.
Qed.

Lemma snapshot_keys_triple {A V W : Type} (snapshot : Z) (f : W → string * A)
    (g : W → V) (rows : list W) (key : Z * string * A) :
  key ∈ ((fun row => ((snapshot, (f row).1, (f row).2), g row)) <$> rows).*1 →
  snapshot_of_triple key = snapshot.
Proof.
  intros ([k v] & -> & (row & [= -> ->] & _)%list_elem_of_fmap)%list_elem_of_fmap.
  done.
Qed.

Lemma snapshot_keys_entity {V W : Type} (snapshot : Z) (f : W → string)
    (g : W → V) (rows : list W) (key : Z * string) :
  key ∈ ((fun row => ((snapshot, f row), g row)) <$> rows).*1 →
  snapshot_of_entity key = snapshot.
Proof.
  intros ([k v] & -> & (row & [= -> ->] & _)%list_elem_of_fmap)%list_elem_of_fmap.
  done.
Qed.

Lemma insert_snapshot_kept (cy : Cycle) (indexed : gmap FeedType FeedEnvelope)
    (db db' : Database) :
  insert_snapshot (cy_snapshot_id cy) (cy_polled_at cy) indexed db = Some db' →
  other_snapshots_kept (cy_snapshot_id cy) db db'.
Proof.
  intros [_ ->]%insert_snapshot_row. constructor; try done.
  intros other Hne. cbn. by rewrite lookup_insert_ne.
Qed.

Lemma store_trip_delays_kept (rf : Reference) (snapshot : Z) (envelope : FeedEnvelope)
    (lk : DimLookup) (db db' : Database)
    (r : nat * gmap (string * string) TripDelaySnapshot * DimLookup) :
  store_trip_delays rf snapshot envelope lk db = Some (r, db') →
  other_snapshots_kept snapshot db db'.
Proof.
  unfold store_trip_delays.
  destruct (foldl _ _ _) as [[rows delays] lk1].
  destruct rows as [|row rows]; [intros [= <- <-]; by constructor |].
  destruct (batch_insert _ _) as [t|] eqn:Hbatch; [|done]. intros [= <- <-].
  constructor; try done.
  intros key Hkey. cbn. eapply batch_insert_lookup_other; [done |].
  intros Hin. apply Hkey.
  by apply (snapshot_keys_triple snapshot (fun kv => kv.1) (fun kv => kv.2)) in Hin.
Qed.

Lemma child_rows_kept (snapshot : Z) (rows : gset (string * string))
    (t : gmap (Z * string * string) ()) (key : Z * string * string) :
  snapshot_of_triple key ≠ snapshot →
  batch_do_nothing (child_key_rows snapshot rows) t !! key = t !! key.
Proof.
  intros Hkey. apply batch_do_nothing_lookup_other. intros Hin. apply Hkey.
  unfold child_key_rows in Hin.
  by apply (snapshot_keys_triple snapshot (fun r => r) (fun _ => ())) in Hin.
Qed.

Lemma store_alerts_kept (rf : Reference) (snapshot : Z) (envelope : FeedEnvelope)
    (lk : DimLookup) (db db' : Database) (r : nat * DimLookup) :
  store_alerts rf snapshot envelope lk db = Some (r, db') →
  other_snapshots_kept snapshot db db'.
Proof.
  unfold store_alerts. destruct (collect_alerts rf envelope lk) as [batch lk1].
  destruct (base_rows batch) as [|row rows] eqn:Hbase;
    [intros [= <- <-]; by constructor |].
  unfold insert_alert_parents. rewrite Hbase.
  destruct (batch_insert _ _) as [t|] eqn:Hbatch; [|done]. intros [= <- <-].
  constructor; try done; intros key Hkey; cbn.
  - eapply batch_insert_lookup_other; [done |]. intros Hin. apply Hkey.
    by apply (snapshot_keys_triple snapshot (fun kv => kv.1) (fun kv => kv.2)) in Hin.
  - by apply child_rows_kept.
  - by apply child_rows_kept.
  - by apply child_rows_kept.
  - apply batch_do_nothing_lookup_other. intros Hin. apply Hkey.
    unfold period_key_rows in Hin.
    by apply (snapshot_keys_triple snapshot (fun r => r.1) (fun r => r.2)) in Hin.
Qed.

Lemma prune_vehicles_positions (cutoff : Z) (t : VehicleTables) :
  rt_vehicle_positions (prune_vehicles cutoff t) = rt_vehicle_positions t
  ∧ rt_rodalies_vehicle_positions (prune_vehicles cutoff t)
    = rt_rodalies_vehicle_positions t.
Proof. done. Qed.

Lemma write_vehicle_tables_kept (snapshot polled_at updated_at : Z)
    (retention : option Z) (delays : gmap (string * string) TripDelaySnapshot)
    (stamp : option Z) (records : list VehiclePositionRecord) (t : VehicleTables) :
  let t' := write_vehicle_tables snapshot polled_at updated_at retention delays stamp
              records t in
  (∀ key, snapshot_of_entity key ≠ snapshot →
     rt_vehicle_positions t' !! key = rt_vehicle_positions t !! key)
  ∧ (∀ key, snapshot_of_entity key ≠ snapshot →
       rt_rodalies_vehicle_positions t' !! key = rt_rodalies_vehicle_positions t !! key)
  ∧ (∀ key, key.2 ≠ snapshot →
       is_Some (rt_rodalies_vehicle_history t' !! key) →
       rt_rodalies_vehicle_history t' !! key = rt_rodalies_vehicle_history t !! key).
Proof.
  cbn zeta. unfold write_vehicle_tables.
  set (rows := rodalies_row delays stamp <$> _).
  assert (∀ key, snapshot_of_entity key ≠ snapshot →
            batch_do_nothing ((fun r => ((snapshot, entity_id r), r)) <$> records)
              (rt_vehicle_positions t) !! key = rt_vehicle_positions t !! key) as Hpos.
  { intros key Hkey. apply batch_do_nothing_lookup_other. intros Hin. apply Hkey.
    by apply (snapshot_keys_entity snapshot entity_id (fun r => r)) in Hin. }
  assert (∀ key, snapshot_of_entity key ≠ snapshot →
            batch_do_nothing
              ((fun row => ((snapshot, entity_id (rp_record row)), row)) <$> rows)
              (rt_rodalies_vehicle_positions t) !! key
            = rt_rodalies_vehicle_positions t !! key) as Hrod.
  { intros key Hkey. apply batch_do_nothing_lookup_other. intros Hin. apply Hkey.
    by apply (snapshot_keys_entity snapshot (fun row => entity_id (rp_record row))
                (fun row => row)) in Hin. }
  assert (∀ key : string * Z, key.2 ≠ snapshot →
            batch_do_nothing
              ((fun row =>
                  ((_vehicle_key (vehicle_id (rp_record row))
                      (entity_id (rp_record row)), snapshot),
                   {| rh_row := row; rh_polled_at_utc := polled_at |})) <$> rows)
              (rt_rodalies_vehicle_history t) !! key
            = rt_rodalies_vehicle_history t !! key) as Hhist.
  { intros key Hkey. apply batch_do_nothing_lookup_other. intros Hin. apply Hkey.
    apply list_elem_of_fmap in Hin as ([k v] & -> & Hin).
    by apply list_elem_of_fmap in Hin as (row & [= -> ->] & _). }
  destruct retention as [retention|]; cbn.
  - split; [done |]. split; [done |]. intros key Hkey [row Hrow].
    rewrite Hrow. apply map_lookup_filter_Some in Hrow as [Hrow _].
    by rewrite <- Hhist.
  - split; [done |]. split; [done |]. intros key Hkey _. by apply Hhist.
Qed.

Lemma store_vehicle_positions_kept (rf : Reference) (snapshot polled_at updated_at : Z)
    (envelope : FeedEnvelope) (lk : DimLookup) (retention : option Z)
    (delays : gmap (string * string) TripDelaySnapshot) (stamp : option Z)
    (db : Database) :
  other_snapshots_kept snapshot db
    (store_vehicle_positions rf snapshot polled_at updated_at envelope lk retention
       delays stamp db).2.
Proof.
  unfold store_vehicle_positions.
  destruct (extract_vehicle_position_rows rf snapshot envelope lk) as [records lk1].
  destruct records as [|record records]; [by constructor |].
  destruct (write_vehicle_tables_kept snapshot polled_at updated_at retention delays
              stamp (record :: records) (db_vehicles db)) as (Hpos & Hrod & Hhist).
  by constructor.
Qed.

Lemma update_feed_cursor_tables (kind : FeedType) (header : option Z) (snapshot : Z)
    (db : Database) :
  rt_trip_delays (update_feed_cursor kind header snapshot db) = rt_trip_delays db
  ∧ db_vehicles (update_feed_cursor kind header snapshot db) = db_vehicles db
  ∧ db_alerts (update_feed_cursor kind header snapshot db) = db_alerts db.
Proof. unfold update_feed_cursor. by destruct header. Qed.

Lemma update_feed_cursors_tables (indexed : gmap FeedType FeedEnvelope)
    (snapshot : Z) (db : Database) :
  rt_snapshots (update_feed_cursors indexed snapshot db) = rt_snapshots db
  ∧ rt_trip_delays (update_feed_cursors indexed snapshot db) = rt_trip_delays db
  ∧ db_vehicles (update_feed_cursors indexed snapshot db) = db_vehicles db
  ∧ db_alerts (update_feed_cursors indexed snapshot db) = db_alerts db.
Proof.
  split; [apply update_feed_cursors_snapshots |].
  unfold update_feed_cursors. cbn [foldl].
  repeat (destruct (indexed !! _));
    repeat match goal with
      | |- context [update_feed_cursor ?k ?h ?s ?d] =>
          destruct (update_feed_cursor_tables k h s d) as (-> & -> & ->)
      end; done.
Qed.

Lemma update_feed_cursors_kept (indexed : gmap FeedType FeedEnvelope)
    (snapshot : Z) (db : Database) :
  other_snapshots_kept snapshot db (update_feed_cursors indexed snapshot db).
Proof.
  destruct (update_feed_cursors_tables indexed snapshot db) as (Hs & Ht & Hv & Ha).
  constructor; intros; by rewrite ?Hs, ?Ht, ?Hv, ?Ha.
Qed.

Lemma write_snapshot_kept (rf : Reference) (cy : Cycle)
    (indexed : gmap FeedType FeedEnvelope) (stop_times_csv : bool)
    (retention : option Z) (db db' : Database) (stored : StoredCounts) :
  write_snapshot rf cy indexed stop_times_csv retention db = (db', Some stored) →
  other_snapshots_kept (cy_snapshot_id cy) db db'.
Proof.
  intros (tu & al & ve & db1 & db2 & db3 & n1 & delays & lk1 & n2 & lk2
          & _ & _ & _ & H1 & H2 & H3 & ->)%write_snapshot_stages.
  eapply other_snapshots_kept_trans; [by eapply insert_snapshot_kept |].
  eapply other_snapshots_kept_trans; [by eapply store_trip_delays_kept |].
  eapply other_snapshots_kept_trans; [by eapply store_alerts_kept |].
  eapply other_snapshots_kept_trans; [apply store_vehicle_positions_kept |].
  apply update_feed_cursors_kept.
Qed.

(** The committed database after a call of [run_iteration] is the one
    before it, or the result of a write phase that went through. *)
Lemma run_iteration_committed (rf : Reference) (cy : Cycle) (conn : Connection)
    (dry : bool) (fs : gmap string FailureState)
    (fh : gmap Z (gmap string (gset string)))
    (threshold : Z) (stop_times_csv : bool) (retention : option Z) :
  clean conn →
  let result := run_iteration rf cy conn dry fs fh threshold stop_times_csv retention in
  committed (it_conn result) = committed conn
  ∨ (dry = false ∧ it_outcome result = Returned true
     ∧ ∃ stored,
         write_snapshot rf cy (index_envelopes (cycle_envelopes cy)) stop_times_csv
           retention (committed conn) = (committed (it_conn result), Some stored)).
Proof.
  intros Hclean result. subst result.
  destruct (run_iteration_cases rf cy conn dry fs fh threshold stop_times_csv retention
              Hclean)
    as [(_ & _ & ->)|[(_ & _ & _ & ->)|[(_ & _ & _ & _ & ->)
       |(_ & _ & _ & [(_ & _ & ->)|[(-> & db & stored & Hw & Hout & ->)
                                  |(_ & db & _ & _ & ->)]])]]];
    try (by left).
  right. split; [done |]. split; [done |]. by exists stored.
Qed.

(** X6: Whatever a cycle does and however it ends, the committed rows of every
    snapshot other than its own are as they were, in the snapshot table
    and in the tables of trip delays, alerts, alert routes, stops, trips
    and periods, vehicle positions and Rodalies positions; history rows of
    other snapshots are not changed either, they can only be pruned. *)
Theorem cycle_keeps_other_snapshots (rf : Reference) (cy : Cycle) (conn : Connection)
    (dry : bool) (fs : gmap string FailureState)
    (fh : gmap Z (gmap string (gset string)))
    (threshold : Z) (stop_times_csv : bool) (retention : option Z) :
  clean conn →
  other_snapshots_kept (cy_snapshot_id cy) (committed conn)
    (committed (it_conn (run_iteration rf cy conn dry fs fh threshold stop_times_csv
                           retention))).
Proof.
  intros Hclean.
  destruct (run_iteration_committed rf cy conn dry fs fh threshold stop_times_csv
              retention Hclean) as [->|(_ & _ & stored & Hw)].
  - apply other_snapshots_kept_refl.
  - by eapply write_snapshot_kept.
Qed.

Lemma cycle_keeps_other_snapshots_witness :
  clean (connect sample_database)
  ∧ other_snapshots_kept (cy_snapshot_id (sample_cycle 110 50 80 no_fault))
      (committed (connect sample_database))
      (committed (it_conn (sample_run false (sample_cycle 110 50 80 no_fault)))).
Proof.
  assert (clean (connect sample_database)) as Hclean by reflexivity.
  split; [exact Hclean |].
  exact (cycle_keeps_other_snapshots sample_static (sample_cycle 110 50 80 no_fault)
           (connect sample_database) false ∅ ∅ 3 true (Some 86400) Hclean).
Defined.

(** ** References to the snapshot table *)

Lemma kept_references (snapshot : Z) (db db' : Database) :
  other_snapshots_kept snapshot db db' →
  is_Some (rt_snapshots db' !! snapshot) →
  references_hold db → references_hold db'.
Proof.
  intros [A1 A2 A3 A4 A5 A6 A7 A8 A9 A10] Hnew [B2 B3 B4 B5 B6 B7 B8 B9 B10].
  assert (∀ other, other ≠ snapshot → is_Some (rt_snapshots db !! other) →
            is_Some (rt_snapshots db' !! other)) as Hold.
  { intros other Hne Hsome. by rewrite A1. }
  constructor; intros key Hkey.
  - destruct (decide (snapshot_of_triple key = snapshot)) as [->|Hne]; [done |].
    apply Hold; [done |]. apply B2. by rewrite <- A2.
  - destruct (decide (snapshot_of_triple key = snapshot)) as [->|Hne]; [done |].
    apply Hold; [done |]. apply B3. by rewrite <- A3.
  - destruct (decide (snapshot_of_triple key = snapshot)) as [->|Hne]; [done |].
    apply Hold; [done |]. apply B4. by rewrite <- A4.
  - destruct (decide (snapshot_of_triple key = snapshot)) as [->|Hne]; [done |].
    apply Hold; [done |]. apply B5. by rewrite <- A5.
  - destruct (decide (snapshot_of_triple key = snapshot)) as [->|Hne]; [done |].
    apply Hold; [done |]. apply B6. by rewrite <- A6.
  - destruct (decide (snapshot_of_triple key = snapshot)) as [->|Hne]; [done |].
    apply Hold; [done |]. apply B7. by rewrite <- A7.
  - destruct (decide (snapshot_of_entity key = snapshot)) as [->|Hne]; [done |].
    apply Hold; [done |]. apply B8. by rewrite <- A8.
  - destruct (decide (snapshot_of_entity key = snapshot)) as [->|Hne]; [done |].
    apply Hold; [done |]. apply B9. by rewrite <- A9.
  - destruct (decide (key.2 = snapshot)) as [->|Hne]; [done |].
    apply Hold; [done |]. apply B10. by rewrite <- A10.
Qed.

(** X7: A cycle keeps the references to the snapshot table intact: if every
    committed row of the tables keyed by snapshot belongs to a committed
    snapshot before the cycle, this is so after it, however the cycle
    ends. *)
Theorem cycle_keeps_references (rf : Reference) (cy : Cycle) (conn : Connection)
    (dry : bool) (fs : gmap string FailureState)
    (fh : gmap Z (gmap string (gset string)))
    (threshold : Z) (stop_times_csv : bool) (retention : option Z) :
  clean conn →
  references_hold (committed conn) →
  references_hold
    (committed (it_conn (run_iteration rf cy conn dry fs fh threshold stop_times_csv
                           retention))).
Proof.
  intros Hclean Hrefs.
  destruct (run_iteration_committed rf cy conn dry fs fh threshold stop_times_csv
              retention Hclean) as [->|(_ & _ & stored & Hw)]; [done |].
  eapply kept_references; [by eapply write_snapshot_kept | | done].
  apply write_snapshot_snapshots in Hw as [_ ->]. by rewrite lookup_insert_eq.
Qed.

Lemma sample_references_hold : references_hold sample_database.
Proof. constructor; intros key [row Hrow]; by vm_compute in Hrow. Qed.

Lemma cycle_keeps_references_witness :
  clean (connect sample_database)
  ∧ references_hold (committed (connect sample_database))
  ∧ references_hold
      (committed (it_conn (sample_run false (sample_cycle 110 50 80 no_fault)))).
Proof.
  assert (clean (connect sample_database)) as Hclean by reflexivity.
  split; [exact Hclean |]. split; [exact sample_references_hold |].
  exact (cycle_keeps_references sample_static (sample_cycle 110 50 80 no_fault)
           (connect sample_database) false ∅ ∅ 3 true (Some 86400) Hclean
           sample_references_hold).
Defined.

(** ** The plain inserts meet no duplicate key *)

Lemma stop_updates_NoDup (rf : Reference) (snapshot : Z) (trip : TripUpdatePayload)
    (updates : list StopTimeUpdate)
    (acc : list ((string * string) * TripDelayRow)
           * gmap (string * string) TripDelaySnapshot * DimLookup) :
  NoDup acc.1.1.*1 →
  NoDup (foldl (stop_update_step rf snapshot trip) acc updates).1.1.*1.
Proof.
  revert acc. induction updates as [|update updates IH]; intros acc Hacc; [done |].
  cbn [foldl]. apply IH. unfold stop_update_step.
  destruct acc as [[rows delays] lk].
  destruct (ensure_stop rf (stu_stop_id update) lk) as [[] lk1]; cbn [negb]; [|done].
  destruct (get_stop_context rf (tu_trip_id trip) (stu_stop_id update) lk1)
    as [context lk2].
  cbn [fst]. by apply dict_set_NoDup.
Qed.

Lemma trip_updates_NoDup (rf : Reference) (snapshot : Z) (entities : list FeedEntity)
    (acc : list ((string * string) * TripDelayRow)
           * gmap (string * string) TripDelaySnapshot * DimLookup) :
  NoDup acc.1.1.*1 →
  NoDup (foldl (trip_update_step rf snapshot) acc entities).1.1.*1.
Proof.
  revert acc. induction entities as [|entity entities IH]; intros acc Hacc; [done |].
  cbn [foldl]. apply IH. unfold trip_update_step.
  destruct (fe_trip_update entity) as [trip|]; [|done].
  destruct acc as [[rows delays] lk].
  destruct (ensure_trip rf (tu_trip_id trip) lk) as [[] lk1]; cbn [negb]; [|done].
  by apply stop_updates_NoDup.
Qed.

Lemma snapshot_keys_NoDup {A V : Type} (snapshot : Z) (rows : list (string * A * V)) :
  NoDup rows.*1 →
  NoDup ((fun kv : string * A * V => ((snapshot, kv.1.1, kv.1.2), kv.2)) <$> rows).*1.
Proof.
  intros Hnodup.
  assert (((fun kv : string * A * V => ((snapshot, kv.1.1, kv.1.2), kv.2)) <$> rows).*1
          = (fun k : string * A => (snapshot, k.1, k.2)) <$> rows.*1) as ->.
  { rewrite <- !list_fmap_compose. by apply list_fmap_ext. }
  apply NoDup_fmap_2; [|done]. by intros [a1 b1] [a2 b2] [= -> ->].
Qed.

Lemma informed_steps_base (rf : Reference) (alert_id : string)
    (informed : list InformedEntity) (acc : AlertBatch * DimLookup) :
  base_rows (foldl (informed_step rf alert_id) acc informed).1 = base_rows acc.1.
Proof.
  revert acc. induction informed as [|entity informed IH]; intros acc; [done |].
  cbn [foldl]. rewrite IH. unfold informed_step. destruct acc as [batch lk].
  destruct (ensure_route rf _ lk) as [? lk1].
  destruct (ensure_stop rf _ lk1) as [? lk2].
  by destruct (ensure_trip rf _ lk2) as [? lk3].
Qed.

Lemma translations_NoDup (alert_id : string) (row : Translation → AlertRow)
    (language : Translation → string) (translations : list Translation)
    (rows : list ((string * string) * AlertRow)) :
  NoDup rows.*1 →
  NoDup (foldl (fun rows translation =>
                  dict_set (alert_id, language translation) (row translation) rows)
               rows translations).*1.
Proof.
  revert rows. induction translations as [|t translations IH]; intros rows Hrows;
    [done |].
  cbn [foldl]. apply IH. by apply dict_set_NoDup.
Qed.

Lemma alerts_NoDup (rf : Reference) (header : option Z) (entities : list FeedEntity)
    (acc : AlertBatch * DimLookup) :
  NoDup (base_rows acc.1).*1 →
  NoDup (base_rows (foldl (alert_step rf header) acc entities).1).*1.
Proof.
  revert acc. induction entities as [|entity entities IH]; intros acc Hacc; [done |].
  cbn [foldl]. apply IH. unfold alert_step.
  destruct (fe_alert entity) as [alert|]; [|done].
  destruct (String.eqb (fe_id entity) ""); [done |].
  destruct acc as [batch lk]. rewrite informed_steps_base. cbn [fst base_rows].
  by apply (translations_NoDup (fe_id entity)
              (fun translation =>
                 {| ar_message := tr_text translation;
                    ar_effect := al_effect alert;
                    ar_cause := al_cause alert;
                    ar_active_start_utc := _;
                    ar_active_end_utc := _;
                    ar_created_at_utc := header |})
              (fun translation =>
                 if truthy (tr_language translation)
                 then default "und" (tr_language translation) else "und")).
Qed.

(** X8: The plain [INSERT]s of the write phase cannot meet a duplicate key
    because of what a feed holds.  The rows that [store_trip_delays] and
    [store_alerts] insert in one call have distinct primary keys, all of
    the snapshot of the call, since the loops key them in dictionaries; so
    when the table holds no row of that snapshot, no key of the batch is in
    use and the insert of the batch, row after row, finds every key
    free.  (A duplicate key is the one error of the statement in the
    embedding; what else the database may refuse is not part of it.) *)
Theorem plain_inserts_meet_no_duplicate (rf : Reference) (snapshot : Z)
    (trip_updates alerts : FeedEnvelope) (lk lk' : DimLookup) (db db' : Database) :
  let delay_rows :=
    (fun kv : string * string * TripDelayRow => ((snapshot, kv.1.1, kv.1.2), kv.2))
    <$> (foldl (trip_update_step rf snapshot) ([], ∅, lk)
           (msg_entity (env_message trip_updates))).1.1 in
  let alert_rows :=
    (fun kv : string * string * AlertRow => ((snapshot, kv.1.1, kv.1.2), kv.2))
    <$> base_rows (collect_alerts rf alerts lk').1 in
  NoDup delay_rows.*1
  ∧ NoDup alert_rows.*1
  ∧ (∀ key, key ∈ delay_rows.*1 ∨ key ∈ alert_rows.*1 →
       snapshot_of_triple key = snapshot)
  ∧ ((∀ key, snapshot_of_triple key = snapshot → rt_trip_delays db !! key = None) →
     (∀ key, key ∈ delay_rows.*1 → rt_trip_delays db !! key = None)
     ∧ is_Some (batch_insert delay_rows (rt_trip_delays db)))
  ∧ ((∀ key, snapshot_of_triple key = snapshot →
        rt_alerts (db_alerts db') !! key = None) →
     (∀ key, key ∈ alert_rows.*1 → rt_alerts (db_alerts db') !! key = None)
     ∧ is_Some (batch_insert alert_rows (rt_alerts (db_alerts db')))).
Proof.
  cbn zeta.
  pose proof (trip_updates_NoDup rf snapshot (msg_entity (env_message trip_updates))
                ([], ∅, lk) (NoDup_nil_2)) as Hdelays.
  pose proof (alerts_NoDup rf (_epoch_to_datetime (env_header_timestamp alerts))
                (msg_entity (env_message alerts)) (AlertBatch_empty, lk')
                (NoDup_nil_2)) as Halerts.
  fold (collect_alerts rf alerts lk') in Halerts.
  apply (snapshot_keys_NoDup snapshot) in Hdelays.
  apply (snapshot_keys_NoDup snapshot) in Halerts.
  assert (∀ key,
            key ∈ ((fun kv : string * string * TripDelayRow =>
                      ((snapshot, kv.1.1, kv.1.2), kv.2))
                   <$> (foldl (trip_update_step rf snapshot) ([], ∅, lk)
                          (msg_entity (env_message trip_updates))).1.1).*1
            ∨ key ∈ ((fun kv : string * string * AlertRow =>
                        ((snapshot, kv.1.1, kv.1.2), kv.2))
                     <$> base_rows (collect_alerts rf alerts lk').1).*1 →
            snapshot_of_triple key = snapshot) as Hkeys.
  { intros key [Hin|Hin];
      by apply (snapshot_keys_triple snapshot (fun kv => kv.1) (fun kv => kv.2)) in Hin. }
  split; [done |]. split; [done |]. split; [done |]. split.
  - intros Hfresh.
    assert (∀ key,
              key ∈ ((fun kv : string * string * TripDelayRow =>
                        ((snapshot, kv.1.1, kv.1.2), kv.2))
                     <$> (foldl (trip_update_step rf snapshot) ([], ∅, lk)
                            (msg_entity (env_message trip_updates))).1.1).*1 →
              rt_trip_delays db !! key = None) as Hunused.
    { intros key Hin. apply Hfresh, Hkeys. by left. }
    split; [done |]. by apply batch_insert_fresh.
  - intros Hfresh.
    assert (∀ key,
              key ∈ ((fun kv : string * string * AlertRow =>
                        ((snapshot, kv.1.1, kv.1.2), kv.2))
                     <$> base_rows (collect_alerts rf alerts lk').1).*1 →
              rt_alerts (db_alerts db') !! key = None) as Hunused.
    { intros key Hin. apply Hfresh, Hkeys. by right. }
    split; [done |]. by apply batch_insert_fresh.
Qed.

(** ** The existence caches of the resolver *)

Lemma resolved_same (rf : Reference) (lk lk' : DimLookup) :
  same_existence lk lk' → resolved rf lk → resolved rf lk'.
Proof. intros [Ht Hr] [T R]. constructor; by rewrite ?Ht, ?Hr. Qed.

Lemma DimLookup_init_resolved (rf : Reference) (with_csv : bool) :
  resolved rf (DimLookup_init with_csv).
Proof. by constructor. Qed.

Lemma load_trip_profile_same (rf : Reference) (trip : string) (lk : DimLookup) :
  same_existence lk (_load_trip_profile rf trip lk).2.
Proof.
  unfold _load_trip_profile, same_existence.
  destruct (_trip_profiles lk !! trip); [done |].
  destruct (select_stop_times (ref_static rf) trip); [|done].
  destruct (_stop_times_fallback lk) as [fb|]; [|done].
  destruct (fallback_get_profile (ref_csv rf) trip fb) as [[|entry profile] fb1]; done.
Qed.

Lemma get_stop_context_same (rf : Reference) (trip stop : option string)
    (lk : DimLookup) :
  same_existence lk (get_stop_context rf trip stop lk).2.
Proof.
  unfold get_stop_context.
  destruct (negb (truthy trip) || negb (truthy stop)); [done |].
  destruct trip as [t|], stop as [s|]; try done.
  pose proof (load_trip_profile_same rf t lk) as Hsame.
  destruct (_load_trip_profile rf t lk) as [[|entry profile] lk1]; [done |].
  by destruct (find_stop s 0 (entry :: profile)).
Qed.

Lemma get_adjacent_stop_same (rf : Reference) (trip : option string) (index : Z)
    (forward : bool) (lk : DimLookup) :
  same_existence lk (get_adjacent_stop rf trip index forward lk).2.
Proof.
  unfold get_adjacent_stop. destruct trip as [t|]; [|done].
  pose proof (load_trip_profile_same rf t lk) as Hsame.
  destruct (_load_trip_profile rf t lk) as [[|entry profile] lk1]; [done |].
  by destruct (_ && _).
Qed.

Lemma ensure_stop_same (rf : Reference) (stop : option string) (lk : DimLookup) :
  same_existence lk (ensure_stop rf stop lk).2.
Proof.
  unfold ensure_stop. destruct stop as [s|]; [|done].
  destruct (String.eqb s ""); [done |].
  destruct (_stop_exists lk !! s); [done |]. by destruct (bool_decide _).
Qed.

Lemma get_route_for_trip_same (rf : Reference) (trip : option string) (lk : DimLookup) :
  same_existence lk (get_route_for_trip rf trip lk).2.
Proof.
  unfold get_route_for_trip. destruct trip as [t|]; [|done].
  destruct (String.eqb t ""); [done |].
  destruct (_trip_routes lk !! t); [done |].
  destruct (mjoin (dim_trips (ref_static rf) !! t)) as [route|]; [|done].
  by destruct (String.eqb route "").
Qed.

Lemma ensure_trip_resolved (rf : Reference) (trip : option string) (lk : DimLookup) :
  resolved rf lk →
  resolved rf (ensure_trip rf trip lk).2
  ∧ ((ensure_trip rf trip lk).1 = true →
     ∃ t, trip = Some t ∧ t ≠ "" ∧ is_Some (dim_trips (ref_static rf) !! t)).
Proof.
  intros [T R]. unfold ensure_trip. destruct trip as [t|]; [|done].
  destruct (String.eqb_spec t "") as [->|Hne]; [done |].
  destruct (_trip_exists lk !! t) as [known|] eqn:Hcached; cbn [fst snd].
  - split; [done |]. intros ->. exists t. split; [done |]. split; [done |].
    apply T in Hcached. symmetry in Hcached. by apply bool_decide_eq_true in Hcached.
  - split.
    + constructor.
      * intros trip known. destruct (bool_decide _) eqn:Hd; cbn;
          (destruct (decide (t = trip)) as [<-|Hother];
           [rewrite lookup_insert_eq; by intros [= <-]
           |rewrite lookup_insert_ne by done; apply T]).
      * by destruct (bool_decide _).
    + intros Hin%bool_decide_eq_true. by exists t.
Qed.

Lemma ensure_route_resolved (rf : Reference) (route : option string) (lk : DimLookup) :
  resolved rf lk →
  resolved rf (ensure_route rf route lk).2
  ∧ ((ensure_route rf route lk).1 = true →
     ∃ r, route = Some r ∧ r ≠ "" ∧ r ∈ dim_routes (ref_static rf)).
Proof.
  intros [T R]. unfold ensure_route. destruct route as [r|]; [|done].
  destruct (String.eqb_spec r "") as [->|Hne]; [done |].
  destruct (_route_exists lk !! r) as [known|] eqn:Hcached; cbn [fst snd].
  - split; [done |]. intros ->. exists r. split; [done |]. split; [done |].
    apply R in Hcached. symmetry in Hcached. by apply bool_decide_eq_true in Hcached.
  - split.
    + constructor.
      * by destruct (bool_decide _).
      * intros route known. destruct (bool_decide _) eqn:Hd; cbn;
          (destruct (decide (r = route)) as [<-|Hother];
           [rewrite lookup_insert_eq; by intros [= <-]
           |rewrite lookup_insert_ne by done; apply R]).
    + intros Hin%bool_decide_eq_true. by exists r.
Qed.

Lemma vehicle_record_resolved (rf : Reference) (snapshot : Z) (entity : FeedEntity)
    (vehicle : VehiclePayload) (lk : DimLookup) :
  resolved rf lk →
  resolved rf (vehicle_record rf snapshot entity vehicle lk).2
  ∧ (∀ trip, trip_id (vehicle_record rf snapshot entity vehicle lk).1 = Some trip →
       trip ≠ "" ∧ is_Some (dim_trips (ref_static rf) !! trip))
  ∧ (∀ route, route_id (vehicle_record rf snapshot entity vehicle lk).1 = Some route →
       route = "" ∨ route ∈ dim_routes (ref_static rf)).
Proof.
  intros Hres. unfold vehicle_record.
  destruct (ensure_trip_resolved rf (vp_trip_id vehicle) lk Hres) as [R1 T1].
  destruct (ensure_trip rf (vp_trip_id vehicle) lk) as [trip_valid lk1].
  cbn [fst snd] in R1, T1.
  assert (resolved rf
            (if trip_valid then get_route_for_trip rf (vp_trip_id vehicle) lk1
             else (None, lk1)).2) as R2.
  { destruct trip_valid; [|done].
    eapply resolved_same; [apply get_route_for_trip_same | done]. }
  destruct (if trip_valid then get_route_for_trip rf (vp_trip_id vehicle) lk1
            else (None, lk1)) as [route lk2].
  cbn [snd] in R2.
  assert (resolved rf
            (if truthy route
             then let '(ok, lk0) := ensure_route rf route lk2 in
                  (if ok then route else None, lk0)
             else (route, lk2)).2
          ∧ ∀ r, (if truthy route
                  then let '(ok, lk0) := ensure_route rf route lk2 in
                       (if ok then route else None, lk0)
                  else (route, lk2)).1 = Some r →
                 r = "" ∨ r ∈ dim_routes (ref_static rf)) as [R3 T3].
  { destruct (truthy route) eqn:Htruthy.
    - destruct (ensure_route_resolved rf route lk2 R2) as [R T].
      destruct (ensure_route rf route lk2) as [[] lk0]; cbn [fst snd] in *;
        [|by split].
      split; [done |]. intros r ->. destruct (T eq_refl) as (r' & [= <-] & _ & Hin).
      by right.
    - cbn [fst snd]. split; [done |]. intros r ->. left.
      unfold truthy in Htruthy. cbn in Htruthy.
      by destruct (String.eqb_spec r ""). }
  destruct (if truthy route
            then let '(ok, lk0) := ensure_route rf route lk2 in
                 (if ok then route else None, lk0)
            else (route, lk2)) as [route3 lk3].
  cbn [fst snd] in R3, T3.
  assert (∀ trip, (if trip_valid then vp_trip_id vehicle else None) = Some trip →
            trip ≠ "" ∧ is_Some (dim_trips (ref_static rf) !! trip)) as T0.
  { intros trip Htrip. destruct trip_valid; [|done].
    destruct (T1 eq_refl) as (t & Ht & Hne & Hin). by simplify_eq. }
  clear T1.
  assert (∀ stop l, resolved rf l → resolved rf (ensure_stop rf stop l).2) as Hstop.
  { intros stop l. apply resolved_same, ensure_stop_same. }
  assert (∀ t s l, resolved rf l → resolved rf (get_stop_context rf t s l).2) as Hctx.
  { intros t s l. apply resolved_same, get_stop_context_same. }
  assert (∀ t i f l, resolved rf l → resolved rf (get_adjacent_stop rf t i f l).2)
    as Hadj.
  { intros t i f l. apply resolved_same, get_adjacent_stop_same. }
  repeat match goal with
         | |- context [ensure_stop rf ?s ?l] =>
             let H := fresh "S" in
             pose proof (Hstop s l) as H;
             destruct (ensure_stop rf s l) as [? ?]; cbn [snd] in H
         | |- context [get_stop_context rf ?t ?s ?l] =>
             let H := fresh "S" in
             pose proof (Hctx t s l) as H;
             destruct (get_stop_context rf t s l) as [? ?]; cbn [snd] in H
         | |- context [get_adjacent_stop rf ?t ?i ?f ?l] =>
             let H := fresh "S" in
             pose proof (Hadj t i f l) as H;
             destruct (get_adjacent_stop rf t i f l) as [? ?]; cbn [snd] in H
         | |- context [match ?x with _ => _ end] =>
             first [is_var x | match type of x with bool => idtac end]; destruct x
         end;
    cbn [fst snd trip_id route_id];
    (split; [eauto 10 | split; [exact T0 | exact T3]]).
Qed.

(** ** The vehicle records of a feed *)

Lemma known_stop_true (rf : Reference) (stop : string) :
  known_stop rf (Some stop) = true → stop ≠ "" ∧ stop ∈ dim_stops (ref_static rf).
Proof.
  unfold known_stop. intros [Hne Hin%bool_decide_eq_true]%andb_true_iff.
  split; [|done]. intros ->. done.
Qed.

Lemma known_neighbour_stop (rf : Reference) (profile : list StopTimeEntry)
    (index : nat) (forward : bool) (stop : string) :
  stop_id <$> known_neighbour rf profile index forward = Some stop →
  stop ≠ "" ∧ stop ∈ dim_stops (ref_static rf).
Proof.
  unfold known_neighbour. destruct (neighbour profile index forward) as [entry|]; [|done].
  destruct (known_stop rf (Some (stop_id entry))) eqn:Hknown; [|done].
  intros [= <-]. by apply known_stop_true.
Qed.

Lemma vehicle_record_fields (rf : Reference) (snapshot : Z) (entity : FeedEntity)
    (vehicle : VehiclePayload) (lk : DimLookup) :
  let record := (vehicle_record rf snapshot entity vehicle lk).1 in
  snapshot_id record = snapshot
  ∧ entity_id record = fe_id entity
  ∧ vehicle_id record = vp_vehicle_id vehicle
  ∧ vehicle_label record = vp_vehicle_label vehicle
  ∧ status record = vp_current_status vehicle.
Proof. cbn zeta. unfold vehicle_record. repeat case_match; done. Qed.

Lemma vehicle_record_linked (rf : Reference) (snapshot : Z) (entity : FeedEntity)
    (vehicle : VehiclePayload) (lk : DimLookup) :
  coherent rf lk → resolved rf lk →
  coherent rf (vehicle_record rf snapshot entity vehicle lk).2
  ∧ resolved rf (vehicle_record rf snapshot entity vehicle lk).2
  ∧ linked rf (vehicle_record rf snapshot entity vehicle lk).1.
Proof.
  intros Hcoh Hres.
  destruct (vehicle_record_spec rf snapshot entity vehicle lk Hcoh _ eq_refl)
    as (Hev & Hcurrent & Hadjacent).
  destruct (vehicle_record_resolved rf snapshot entity vehicle lk Hres)
    as (Hres' & Htrip & Hroute).
  split; [by apply (ev_coherent _ _ _ Hev) |]. split; [done |].
  split; [done |]. split; [done |]. split; [|split].
  - intros stop. rewrite Hcurrent.
    destruct (known_stop rf (vp_stop_id vehicle)) eqn:Hknown; [|done].
    intros Hstop. rewrite Hstop in Hknown. by apply known_stop_true.
  - intros stop Hstop.
    destruct (stop_position rf (has_fallback lk) vehicle) as [[index profile]|].
    + destruct Hadjacent as (Hprev & _). rewrite Hprev in Hstop.
      by eapply known_neighbour_stop.
    + destruct Hadjacent as (Hprev & _). congruence.
  - intros stop Hstop.
    destruct (stop_position rf (has_fallback lk) vehicle) as [[index profile]|].
    + destruct Hadjacent as (_ & Hnext & _). rewrite Hnext in Hstop.
      by eapply known_neighbour_stop.
    + destruct Hadjacent as (_ & Hnext & _). congruence.
Qed.

Lemma extract_fold_linked (rf : Reference) (snapshot : Z) (entities : list FeedEntity)
    (acc : list (string * VehiclePositionRecord) * DimLookup) :
  coherent rf acc.2 → resolved rf acc.2 →
  (∀ kr, kr ∈ acc.1 → linked rf kr.2) →
  coherent rf (foldl (extract_step rf snapshot) acc entities).2
  ∧ resolved rf (foldl (extract_step rf snapshot) acc entities).2
  ∧ ∀ kr, kr ∈ (foldl (extract_step rf snapshot) acc entities).1 → linked rf kr.2.
Proof.
  revert acc. induction entities as [|entity entities IH]; intros acc Hcoh Hres Hacc;
    [done |].
  cbn [foldl]. unfold extract_step at 2 4 6.
  destruct (fe_vehicle entity) as [vehicle|]; [|by apply IH].
  destruct (String.eqb (fe_id entity) ""); [by apply IH |].
  destruct (vehicle_record_linked rf snapshot entity vehicle acc.2 Hcoh Hres)
    as (Hcoh' & Hres' & Hlinked).
  destruct (vehicle_record rf snapshot entity vehicle acc.2) as [record lk1].
  apply IH; [done | done |].
  intros kr [->|Hin]%dict_set_elem_of; [done | by apply Hacc].
Qed.

(** X9: Every reference of an extracted vehicle record exists: the trip of the
    record is a (non-empty) trip of the trip table, its route is a route of
    the route table unless it is the empty id, which is passed on as it is
    stored with the trip, and its current, previous and next stops are
    stops of the stop table.  What does not resolve is left out of the
    record (the field is [None]), the record itself is kept. *)
Theorem vehicle_records_linked (rf : Reference) (snapshot : Z) (envelope : FeedEnvelope)
    (lk : DimLookup) (record : VehiclePositionRecord) :
  coherent rf lk → resolved rf lk →
  record ∈ (extract_vehicle_position_rows rf snapshot envelope lk).1 →
  linked rf record.
Proof.
  intros Hcoh Hres. unfold extract_vehicle_position_rows.
  destruct (extract_fold_linked rf snapshot (msg_entity (env_message envelope)) ([], lk)
              Hcoh Hres) as (_ & _ & Hall).
  { by intros kr ?%elem_of_nil. }
  destruct (foldl _ _ _) as [records lk1]. cbn [fst] in *.
  unfold dict_values. intros ([key r] & -> & Hin)%list_elem_of_fmap.
  by apply (Hall (key, r)).
Qed.

Lemma vehicle_records_linked_witness :
  coherent sample_static (DimLookup_init true)
  ∧ resolved sample_static (DimLookup_init true)
  ∧ ∃ record,
      record ∈ (extract_vehicle_position_rows sample_static 8 sample_vehicle_feed
                  (DimLookup_init true)).1
      ∧ linked sample_static record.
Proof.
  pose proof (DimLookup_init_coherent sample_static true) as [Hcoh _].
  pose proof (DimLookup_init_resolved sample_static true) as Hres.
  split; [exact Hcoh |]. split; [exact Hres |].
  assert (∃ record,
            record ∈ (extract_vehicle_position_rows sample_static 8 sample_vehicle_feed
                        (DimLookup_init true)).1) as [record Hin].
  { eexists. apply list_elem_of_In. vm_compute. left. reflexivity. }
  exists record. split; [exact Hin |].
  exact (vehicle_records_linked sample_static 8 sample_vehicle_feed (DimLookup_init true)
           record Hcoh Hres Hin).
Defined.

Lemma extract_fold_keys (rf : Reference) (snapshot : Z) (entities : list FeedEntity)
    (acc : list (string * VehiclePositionRecord) * DimLookup) :
  NoDup acc.1.*1 →
  (∀ kr, kr ∈ acc.1 → entity_id kr.2 = kr.1 ∧ kr.1 ≠ "" ∧ snapshot_id kr.2 = snapshot) →
  let result := (foldl (extract_step rf snapshot) acc entities).1 in
  NoDup result.*1
  ∧ (∀ kr, kr ∈ result →
       entity_id kr.2 = kr.1 ∧ kr.1 ≠ "" ∧ snapshot_id kr.2 = snapshot)
  ∧ (∀ key, key ∈ result.*1 ↔
       key ∈ acc.1.*1
       ∨ key ≠ "" ∧ ∃ entity, entity ∈ entities ∧ is_Some (fe_vehicle entity)
                              ∧ fe_id entity = key).
Proof.
  cbn zeta. revert acc.
  induction entities as [|entity entities IH]; intros acc Hnodup Hacc.
  { cbn [foldl]. split; [done |]. split; [done |]. intros key. split; [by left |].
    intros [Hin|(_ & entity & Hin%elem_of_nil & _)]; done. }
  cbn [foldl].
  assert (∀ key, (key ∈ acc.1.*1
                  ∨ key ≠ "" ∧ ∃ e, e ∈ entity :: entities ∧ is_Some (fe_vehicle e)
                                   ∧ fe_id e = key)
                 ↔ ((key ∈ acc.1.*1
                     ∨ key ≠ "" ∧ is_Some (fe_vehicle entity) ∧ fe_id entity = key)
                    ∨ key ≠ "" ∧ ∃ e, e ∈ entities ∧ is_Some (fe_vehicle e)
                                     ∧ fe_id e = key)) as Hsplit.
  { intros key. split.
    - intros [Hin|(Hne & e & [->|Hin]%elem_of_cons & Hv & Hid)].
      + by left; left.
      + left; right. done.
      + right. split; [done |]. by exists e.
    - intros [[Hin|(Hne & Hv & Hid)]|(Hne & e & Hin & Hv & Hid)].
      + by left.
      + right. split; [done |]. exists entity. split; [|done]. apply elem_of_cons.
        by left.
      + right. split; [done |]. exists e. split; [|done]. apply elem_of_cons.
        by right. }
  assert (∀ acc',
            NoDup acc'.1.*1 →
            (∀ kr, kr ∈ acc'.1 →
               entity_id kr.2 = kr.1 ∧ kr.1 ≠ "" ∧ snapshot_id kr.2 = snapshot) →
            (∀ key, key ∈ acc'.1.*1 ↔
               key ∈ acc.1.*1
               ∨ key ≠ "" ∧ is_Some (fe_vehicle entity) ∧ fe_id entity = key) →
            NoDup (foldl (extract_step rf snapshot) acc' entities).1.*1
            ∧ (∀ kr, kr ∈ (foldl (extract_step rf snapshot) acc' entities).1 →
                 entity_id kr.2 = kr.1 ∧ kr.1 ≠ "" ∧ snapshot_id kr.2 = snapshot)
            ∧ (∀ key, key ∈ (foldl (extract_step rf snapshot) acc' entities).1.*1 ↔
                 key ∈ acc.1.*1
                 ∨ key ≠ "" ∧ ∃ e, e ∈ entity :: entities ∧ is_Some (fe_vehicle e)
                                  ∧ fe_id e = key)) as Hstep.
  { intros acc' Hnodup' Hacc' Hkeys.
    destruct (IH acc' Hnodup' Hacc') as (H1 & H2 & H3).
    split; [done |]. split; [done |]. intros key.
    rewrite H3, Hsplit, Hkeys. done. }
  unfold extract_step at 2 4 6.
  destruct (fe_vehicle entity) as [vehicle|] eqn:Hvehicle; cycle 1.
  { apply Hstep; [done | done |]. intros key. split; [by left |].
    intros [Hin|(_ & [? [=]] & _)]. done. }
  destruct (String.eqb_spec (fe_id entity) "") as [Hempty|Hid].
  { apply Hstep; [done | done |]. intros key. split; [by left |].
    intros [Hin|(Hne & _ & <-)]; done. }
  pose proof (vehicle_record_fields rf snapshot entity vehicle acc.2)
    as (Hsnap & Hentity & _).
  destruct (vehicle_record rf snapshot entity vehicle acc.2) as [record lk1].
  cbn [fst] in Hsnap, Hentity. apply Hstep; cbn [fst].
  - by apply dict_set_NoDup.
  - intros kr [->|Hin]%dict_set_elem_of; [done | by apply Hacc].
  - intros key. rewrite dict_set_keys.
    destruct (decide (fe_id entity ∈ acc.1.*1)) as [Hin|Hout].
    + split; [by left |]. intros [Hkey|(_ & _ & <-)]; done.
    + rewrite elem_of_app, list_elem_of_singleton. split.
      * intros [Hkey| ->]; [by left |]. right. split; [done |]. split; [|done].
        by eexists.
      * intros [Hkey|(_ & _ & <-)]; [by left | by right].
Qed.

Lemma extract_rows_spec (rf : Reference) (snapshot : Z)
    (envelope : FeedEnvelope) (lk : DimLookup) :
  let records := (extract_vehicle_position_rows rf snapshot envelope lk).1 in
  NoDup (entity_id <$> records)
  ∧ (∀ record, record ∈ records → snapshot_id record = snapshot)
  ∧ (∀ id, id ∈ entity_id <$> records ↔
       id ≠ "" ∧ ∃ entity, entity ∈ msg_entity (env_message envelope)
                          ∧ is_Some (fe_vehicle entity) ∧ fe_id entity = id).
Proof.
  cbn zeta. unfold extract_vehicle_position_rows.
  destruct (extract_fold_keys rf snapshot (msg_entity (env_message envelope)) ([], lk))
    as (Hnodup & Hrows & Hkeys).
  { constructor. }
  { by intros kr ?%elem_of_nil. }
  destruct (foldl _ _ _) as [rows lk1]. cbn [fst] in *. unfold dict_values.
  assert (entity_id <$> rows.*2 = rows.*1) as Hids.
  { clear Hnodup Hkeys. induction rows as [|kr rows IH]; [done |].
    rewrite !fmap_cons. f_equal.
    - apply Hrows, elem_of_cons. by left.
    - apply IH. intros kr' Hin. apply Hrows, elem_of_cons. by right. }
  rewrite Hids. split; [done |]. split.
  - intros record ([key r] & -> & Hin)%list_elem_of_fmap. by apply (Hrows (key, r)).
  - intros id. rewrite Hkeys. split.
    + intros [Hin%elem_of_nil|H]; done.
    + intros H. by right.
Qed.


(** ** The Rodalies tables *)

Lemma batch_do_update_present {K V : Type} `{Countable K} (rows : list (K * V))
    (t : gmap K V) (k : K) :
  k ∈ rows.*1 → ∃ v, (k, v) ∈ rows ∧ batch_do_update rows t !! k = Some v.
Proof.
  revert t. induction rows as [|[k' v'] rows IH]; intros t Hin.
  { by apply elem_of_nil in Hin. }
  destruct (decide (k ∈ rows.*1)) as [Hrest|Hrest].
  - destruct (IH (insert_do_update k' v' t) Hrest) as (v & Hv & Hlookup).
    exists v. split; [by apply elem_of_cons; right | done].
  - rewrite fmap_cons in Hin. apply elem_of_cons in Hin as [->|Hin]; [|done].
    exists v'. split; [by apply elem_of_cons; left |].
    unfold batch_do_update in *. cbn [foldl fst snd].
    pose proof (batch_do_update_lookup_other rows (insert_do_update k' v' t) k' Hrest)
      as Hother.
    unfold batch_do_update in Hother. rewrite Hother.
    unfold insert_do_update. by rewrite lookup_insert_eq.
Qed.

(** X11: The retention of the Rodalies tables.  When the vehicle feed gives no
    record, [store_vehicle_positions] changes nothing, and prunes nothing
    either; when it gives a record and a retention is set, no row of the
    history table or of the current table is older afterwards than the
    poll time less the retention. *)
Theorem vehicle_history_pruned (rf : Reference) (snapshot polled_at updated_at : Z)
    (envelope : FeedEnvelope) (lk : DimLookup) (keep : Z)
    (delays : gmap (string * string) TripDelaySnapshot) (stamp : option Z)
    (db : Database) :
  let result := store_vehicle_positions rf snapshot polled_at updated_at envelope lk
                  (Some keep) delays stamp db in
  ((extract_vehicle_position_rows rf snapshot envelope lk).1 = []
   ∧ result.1.1 = 0%nat ∧ result.2 = db)
  ∨ ((extract_vehicle_position_rows rf snapshot envelope lk).1 ≠ []
     ∧ (∀ key row,
          rt_rodalies_vehicle_history (db_vehicles result.2) !! key = Some row →
          polled_at - keep ≤ rh_polled_at_utc row)
     ∧ (∀ key row,
          rt_rodalies_vehicle_current (db_vehicles result.2) !! key = Some row →
          polled_at - keep ≤ rc_polled_at_utc row)).
Proof.
  cbn zeta. unfold store_vehicle_positions.
  destruct (extract_vehicle_position_rows rf snapshot envelope lk) as [records lk1].
  destruct records as [|record records]; [by left |]. right.
  split; [done |]. cbn.
  split; intros key row [_ Hkeep]%map_lookup_filter_Some; cbn in Hkeep; lia.
Qed.

Lemma store_vehicle_positions_current (rf : Reference)
    (snapshot polled_at updated_at : Z)
    (envelope : FeedEnvelope) (lk : DimLookup) (retention : option Z)
    (delays : gmap (string * string) TripDelaySnapshot) (stamp : option Z)
    (db : Database) (record : VehiclePositionRecord) :
  (∀ keep, retention = Some keep → 0 ≤ keep) →
  record ∈ (extract_vehicle_position_rows rf snapshot envelope lk).1 →
  is_rodalies_label (vehicle_label record) = true →
  let result := store_vehicle_positions rf snapshot polled_at updated_at envelope lk
                  retention delays stamp db in
  ∃ row,
    rt_rodalies_vehicle_current (db_vehicles result.2)
      !! _vehicle_key (vehicle_id record) (entity_id record) = Some row
    ∧ rc_polled_at_utc row = polled_at
    ∧ rc_updated_at row = updated_at
    ∧ snapshot_id (rp_record (rc_row row)) = snapshot
    ∧ rp_record (rc_row row) ∈ (extract_vehicle_position_rows rf snapshot envelope lk).1
    ∧ is_rodalies_label (vehicle_label (rp_record (rc_row row))) = true
    ∧ _vehicle_key (vehicle_id (rp_record (rc_row row)))
                   (entity_id (rp_record (rc_row row)))
      = _vehicle_key (vehicle_id record) (entity_id record).
Proof.
  intros Hkeep Hin Hlabel. cbn zeta.
  destruct (extract_rows_spec rf snapshot envelope lk) as (_ & Hsnap & _).
  unfold store_vehicle_positions.
  destruct (extract_vehicle_position_rows rf snapshot envelope lk) as [records lk1].
  cbn [fst] in Hin, Hsnap |- *.
  destruct records as [|first records]; [by apply elem_of_nil in Hin |].
  cbn [snd db_vehicles with_vehicles]. unfold write_vehicle_tables.
  set (all := first :: records) in *.
  set (rodalies := List.filter (fun r => is_rodalies_label (vehicle_label r)) all).
  set (rows := rodalies_row delays stamp <$> rodalies).
  set (current_rows :=
         (fun row =>
            (_vehicle_key (vehicle_id (rp_record row)) (entity_id (rp_record row)),
             {| rc_row := row; rc_polled_at_utc := polled_at;
                rc_updated_at := updated_at |})) <$> rows).
  assert (_vehicle_key (vehicle_id record) (entity_id record) ∈ current_rows.*1)
    as Hkey.
  { unfold current_rows, rows. rewrite <- !list_fmap_compose.
    apply list_elem_of_fmap. exists record. split; [done |].
    unfold rodalies. apply list_elem_of_In, filter_In. split; [|done].
    by apply list_elem_of_In. }
  destruct (batch_do_update_present current_rows
              (rt_rodalies_vehicle_current (db_vehicles db)) _ Hkey)
    as (row & Hrow & Hlookup).
  exists row.
  apply list_elem_of_fmap in Hrow as (rrow & [= Hk ->] & Hrrow).
  apply list_elem_of_fmap in Hrrow as (source & -> & Hsource).
  apply list_elem_of_In, filter_In in Hsource as [Hsource%list_elem_of_In Hrodalies].
  cbn [rc_row rc_polled_at_utc rc_updated_at rp_record rodalies_row] in *.
  split.
  - destruct retention as [keep|]; cbn; [|done].
    apply map_lookup_filter_Some. split; [done |]. cbn.
    specialize (Hkeep keep eq_refl). lia.
  - split; [done |]. split; [done |]. split; [by apply Hsnap |]. by split_and!.
Qed.

Lemma extract_fold_source (rf : Reference) (snapshot : Z) (entities : list FeedEntity)
    (acc : list (string * VehiclePositionRecord) * DimLookup)
    (kr : string * VehiclePositionRecord) :
  kr ∈ (foldl (extract_step rf snapshot) acc entities).1 →
  kr ∈ acc.1
  ∨ ∃ entity vehicle,
      entity ∈ entities ∧ fe_vehicle entity = Some vehicle
      ∧ entity_id kr.2 = fe_id entity
      ∧ vehicle_id kr.2 = vp_vehicle_id vehicle
      ∧ vehicle_label kr.2 = vp_vehicle_label vehicle.
Proof.
  revert acc. induction entities as [|entity entities IH]; intros acc Hin; [by left |].
  cbn [foldl] in Hin. apply IH in Hin as [Hin|(e & v & He & Hrest)]; cycle 1.
  { right. exists e, v. split; [by apply elem_of_cons; right | done]. }
  unfold extract_step in Hin.
  destruct (fe_vehicle entity) as [vehicle|] eqn:Hv; [|by left].
  destruct (String.eqb (fe_id entity) ""); [by left |].
  pose proof (vehicle_record_fields rf snapshot entity vehicle acc.2) as Hfields.
  cbn zeta in Hfields. destruct Hfields as (_ & Hid & Hvid & Hlabel & _).
  destruct (vehicle_record rf snapshot entity vehicle acc.2) as [record lk1].
  cbn [fst snd] in *. apply dict_set_elem_of in Hin as [->|Hin]; [|by left].
  right. exists entity, vehicle. split; [by apply elem_of_cons; left |]. by split_and!.
Qed.

(** The record of a vehicle entity whose id no other vehicle entity of the
    feed has. *)
Lemma extract_rows_sole (rf : Reference) (snapshot : Z) (envelope : FeedEnvelope)
    (lk : DimLookup) (entity : FeedEntity) (vehicle : VehiclePayload) :
  entity ∈ msg_entity (env_message envelope) →
  fe_vehicle entity = Some vehicle → fe_id entity ≠ "" →
  (∀ other, other ∈ msg_entity (env_message envelope) → is_Some (fe_vehicle other) →
     fe_id other = fe_id entity → other = entity) →
  ∃ record,
    record ∈ (extract_vehicle_position_rows rf snapshot envelope lk).1
    ∧ entity_id record = fe_id entity
    ∧ vehicle_id record = vp_vehicle_id vehicle
    ∧ vehicle_label record = vp_vehicle_label vehicle.
Proof.
  intros Hin Hvehicle Hid Hsole.
  destruct (extract_rows_spec rf snapshot envelope lk) as (_ & _ & Hids).
  assert (fe_id entity ∈ entity_id
            <$> (extract_vehicle_position_rows rf snapshot envelope lk).1) as Hhas.
  { apply Hids. split; [done |]. exists entity.
    split; [done |]. split; [by eexists | done]. }
  apply list_elem_of_fmap in Hhas as (record & Hrecord & Hmember).
  symmetry in Hrecord.
  exists record. split; [done |]. split; [done |].
  unfold extract_vehicle_position_rows in Hmember.
  pose proof (extract_fold_source rf snapshot (msg_entity (env_message envelope))
                ([], lk)) as Hsource.
  destruct (foldl _ _ _) as [rows lk1]. cbn [fst snd] in Hmember, Hsource.
  unfold dict_values in Hmember.
  apply list_elem_of_fmap in Hmember as ([key r] & -> & Hkr).
  destruct (Hsource _ Hkr) as [Hnil|(e & v & He & Hv & Heid & Hvid & Hlabel)];
    [by apply elem_of_nil in Hnil |].
  cbn [snd] in *.
  assert (e = entity) as -> by (apply Hsole; [done | by eexists | congruence]).
  assert (v = vehicle) as -> by congruence. done.
Qed.

(** X12: After a cycle that returns [True] outside a dry run, with a retention
    that is not negative, the committed current table has a row for each
    Rodalies vehicle of the indexed vehicle feed, under the key of the
    vehicle: for an entity with a vehicle payload whose label, stripped,
    starts with R or r, and whose id (not empty) no other vehicle entity
    of the feed has, the row under its vehicle key was written by this
    cycle (its poll time, update time and snapshot are those of the
    cycle) from a Rodalies vehicle entity of the feed with that key. *)
Theorem current_row_per_vehicle (rf : Reference) (cy : Cycle) (conn : Connection)
    (fs : gmap string FailureState) (fh : gmap Z (gmap string (gset string)))
    (threshold : Z) (stop_times_csv : bool) (retention : option Z)
    (envelope : FeedEnvelope) (entity : FeedEntity) (vehicle : VehiclePayload) :
  clean conn →
  (∀ keep, retention = Some keep → 0 ≤ keep) →
  let result := run_iteration rf cy conn false fs fh threshold stop_times_csv retention in
  it_outcome result = Returned true →
  index_envelopes (cycle_envelopes cy) !! VEHICLE_POSITIONS = Some envelope →
  entity ∈ msg_entity (env_message envelope) →
  fe_vehicle entity = Some vehicle → fe_id entity ≠ "" →
  (∀ other, other ∈ msg_entity (env_message envelope) → is_Some (fe_vehicle other) →
     fe_id other = fe_id entity → other = entity) →
  is_rodalies_label (vp_vehicle_label vehicle) = true →
  ∃ row source payload,
    rt_rodalies_vehicle_current (db_vehicles (committed (it_conn result)))
      !! _vehicle_key (vp_vehicle_id vehicle) (fe_id entity) = Some row
    ∧ rc_polled_at_utc row = cy_polled_at cy
    ∧ rc_updated_at row = cy_updated_at cy
    ∧ snapshot_id (rp_record (rc_row row)) = cy_snapshot_id cy
    ∧ source ∈ msg_entity (env_message envelope)
    ∧ fe_vehicle source = Some payload
    ∧ entity_id (rp_record (rc_row row)) = fe_id source
    ∧ vehicle_id (rp_record (rc_row row)) = vp_vehicle_id payload
    ∧ vehicle_label (rp_record (rc_row row)) = vp_vehicle_label payload
    ∧ is_rodalies_label (vp_vehicle_label payload) = true
    ∧ _vehicle_key (vp_vehicle_id payload) (fe_id source)
      = _vehicle_key (vp_vehicle_id vehicle) (fe_id entity).
Proof.
  intros Hclean Hkeep result Hout Hindexed Hin Hvehicle Hid Hsole Hlabel.
  destruct (run_iteration_written rf cy conn fs fh threshold stop_times_csv retention
              Hclean Hout) as (_ & db & stored & Hw & Hconn).
  subst result. rewrite Hconn. cbn [connect committed].
  apply write_snapshot_stages in Hw
    as (tu & al & ve & db1 & db2 & db3 & n1 & delays & lk1 & n2 & lk2
        & _ & _ & Hve & _ & _ & _ & ->).
  assert (ve = envelope) as -> by congruence.
  destruct (update_feed_cursors_tables (index_envelopes (cycle_envelopes cy))
              (cy_snapshot_id cy)
              (store_vehicle_positions rf (cy_snapshot_id cy) (cy_polled_at cy)
                 (cy_updated_at cy) envelope lk2 retention delays
                 (_epoch_to_datetime
                    (indexed_header (index_envelopes (cycle_envelopes cy)) TRIP_UPDATES))
                 db3).2) as (_ & _ & -> & _).
  destruct (extract_rows_sole rf (cy_snapshot_id cy) envelope lk2 entity vehicle
              Hin Hvehicle Hid Hsole) as (record & Hrecord & Heid & Hvid & Hrlabel).
  destruct (store_vehicle_positions_current rf (cy_snapshot_id cy) (cy_polled_at cy)
              (cy_updated_at cy) envelope lk2 retention delays
              (_epoch_to_datetime
                 (indexed_header (index_envelopes (cycle_envelopes cy)) TRIP_UPDATES))
              db3 record Hkeep Hrecord)
    as (row & Hrow & Hpolled & Hupdated & Hsnap & Hfrom & Hrodalies & Hkey).
  { by rewrite Hrlabel. }
  unfold extract_vehicle_position_rows in Hfrom.
  pose proof (extract_fold_source rf (cy_snapshot_id cy)
                (msg_entity (env_message envelope)) ([], lk2)) as Hsource.
  destruct (foldl _ _ _) as [rows lk3] eqn:Hfold. cbn [fst snd] in Hfrom, Hsource.
  unfold dict_values in Hfrom.
  apply list_elem_of_fmap in Hfrom as ([key r] & Hr & Hkr). cbn [snd] in Hr.
  destruct (Hsource _ Hkr) as [Hnil|(source & payload & Hs & Hp & Hseid & Hsvid & Hslabel)];
    [by apply elem_of_nil in Hnil |].
  cbn [snd] in Hseid, Hsvid, Hslabel. subst r.
  exists row, source, payload.
  rewrite <- Heid, <- Hvid. split; [done |].
  split; [done |]. split; [done |]. split; [done |]. split; [done |].
  split; [done |]. split; [done |]. split; [done |]. split; [done |].
  split; [by rewrite <- Hslabel |].
  by rewrite <- Hsvid, <- Hseid.
Qed.

Lemma current_row_per_vehicle_witness :
  clean (connect sample_database)
  ∧ (∀ keep, Some 86400 = Some keep → 0 ≤ keep)
  ∧ it_outcome (sample_run false (sample_cycle 110 50 80 no_fault)) = Returned true
  ∧ ∃ row,
      rt_rodalies_vehicle_current
        (db_vehicles
           (committed (it_conn (sample_run false (sample_cycle 110 50 80 no_fault)))))
        !! "447" = Some row
      ∧ rc_polled_at_utc row = 1700000400
      ∧ rc_updated_at row = 1700000401
      ∧ snapshot_id (rp_record (rc_row row)) = 8.
Proof.
  assert (clean (connect sample_database)) as Hclean by reflexivity.
  assert (∀ keep, Some 86400 = Some keep → 0 ≤ keep) as Hkeep.
  { intros keep [= <-]. done. }
  assert (it_outcome (sample_run false (sample_cycle 110 50 80 no_fault))
          = Returned true) as Hout by (vm_compute; reflexivity).
  split; [exact Hclean |]. split; [exact Hkeep |]. split; [exact Hout |].
  destruct (current_row_per_vehicle sample_static (sample_cycle 110 50 80 no_fault)
              (connect sample_database) ∅ ∅ 3 true (Some 86400)
              {| env_url := "https://example.com/vehicle_positions.pb";
                 env_feed_type := VEHICLE_POSITIONS;
                 env_message :=
                   {| msg_header_timestamp := 110;
                      msg_entity := [vehicle_entity "e1" sample_vehicle] |};
                 env_header_timestamp := Some 110 |}
              (vehicle_entity "e1" sample_vehicle) sample_vehicle Hclean Hkeep Hout)
    as (row & source & payload & Hrow & Hpolled & Hupdated & Hsnap & _).
  - reflexivity.
  - apply list_elem_of_singleton. reflexivity.
  - reflexivity.
  - done.
  - by intros other ->%list_elem_of_singleton _ _.
  - reflexivity.
  - exists row. split; [exact Hrow |]. split; [exact Hpolled |].
    split; [exact Hupdated | exact Hsnap].
Defined.

(** ** The resolver answers from its caches *)

Lemma ensure_trip_cached (rf rf2 : Reference) (trip : option string) (lk : DimLookup) :
  ensure_trip rf2 trip (ensure_trip rf trip lk).2 = ensure_trip rf trip lk.
Proof.
  unfold ensure_trip. destruct trip as [t|]; [|done].
  destruct (String.eqb t "") eqn:Hempty; cbn [snd]; [done |].
  destruct (_trip_exists lk !! t) as [known|] eqn:Hcached; cbn [snd].
  - by rewrite Hcached.
  - destruct (bool_decide _); cbn; by rewrite lookup_insert_eq.
Qed.

Lemma ensure_route_cached (rf rf2 : Reference) (route : option string)
    (lk : DimLookup) :
  ensure_route rf2 route (ensure_route rf route lk).2 = ensure_route rf route lk.
Proof.
  unfold ensure_route. destruct route as [r|]; [|done].
  destruct (String.eqb r "") eqn:Hempty; cbn [snd]; [done |].
  destruct (_route_exists lk !! r) as [known|] eqn:Hcached; cbn [snd].
  - by rewrite Hcached.
  - destruct (bool_decide _); cbn; by rewrite lookup_insert_eq.
Qed.

Lemma ensure_stop_cached (rf rf2 : Reference) (stop : option string) (lk : DimLookup) :
  ensure_stop rf2 stop (ensure_stop rf stop lk).2 = ensure_stop rf stop lk.
Proof.
  unfold ensure_stop. destruct stop as [s|]; [|done].
  destruct (String.eqb s "") eqn:Hempty; cbn [snd]; [done |].
  destruct (_stop_exists lk !! s) as [known|] eqn:Hcached; cbn [snd].
  - by rewrite Hcached.
  - destruct (bool_decide _); cbn; by rewrite lookup_insert_eq.
Qed.

Lemma get_route_for_trip_cached (rf rf2 : Reference) (trip : option string)
    (lk : DimLookup) :
  get_route_for_trip rf2 trip (get_route_for_trip rf trip lk).2
  = get_route_for_trip rf trip lk.
Proof.
  unfold get_route_for_trip. destruct trip as [t|]; [|done].
  destruct (String.eqb t "") eqn:Hempty; cbn [snd]; [done |].
  destruct (_trip_routes lk !! t) as [known|] eqn:Hcached; cbn [snd].
  - by rewrite Hcached.
  - destruct (mjoin (dim_trips (ref_static rf) !! t)) as [route|]; cbn;
      [destruct (String.eqb route "")|]; cbn; by rewrite lookup_insert_eq.
Qed.

Lemma load_trip_profile_cached (rf rf2 : Reference) (trip : string) (lk : DimLookup) :
  _load_trip_profile rf2 trip (_load_trip_profile rf trip lk).2
  = _load_trip_profile rf trip lk.
Proof.
  unfold _load_trip_profile at 2 3.
  destruct (_trip_profiles lk !! trip) as [cached|] eqn:Hcached.
  { cbn [snd]. unfold _load_trip_profile. by rewrite Hcached. }
  destruct (match select_stop_times (ref_static rf) trip with
            | [] => _
            | _ :: _ => _
            end) as [profile lk1].
  cbn [snd]. unfold _load_trip_profile. cbn. by rewrite lookup_insert_eq.
Qed.

(** X13: The resolver asks reference storage at most once for a key.  A lookup
    that is repeated on the resolver, for a trip, a route, a stop, the
    route of a trip or the timetable of a trip, gives the answer of the
    first lookup and leaves the resolver as it was, nothing more being
    recorded as missing; this is so whatever the reference data have
    become in between. *)
Theorem resolver_answers_from_cache (rf rf2 : Reference) (lk : DimLookup) :
  (∀ trip, ensure_trip rf2 trip (ensure_trip rf trip lk).2 = ensure_trip rf trip lk)
  ∧ (∀ route,
       ensure_route rf2 route (ensure_route rf route lk).2 = ensure_route rf route lk)
  ∧ (∀ stop, ensure_stop rf2 stop (ensure_stop rf stop lk).2 = ensure_stop rf stop lk)
  ∧ (∀ trip,
       get_route_for_trip rf2 trip (get_route_for_trip rf trip lk).2
       = get_route_for_trip rf trip lk)
  ∧ (∀ trip,
       _load_trip_profile rf2 trip (_load_trip_profile rf trip lk).2
       = _load_trip_profile rf trip lk).
Proof.
  split; [intros; apply ensure_trip_cached |].
  split; [intros; apply ensure_route_cached |].
  split; [intros; apply ensure_stop_cached |].
  split; [intros; apply get_route_for_trip_cached |].
  intros; apply load_trip_profile_cached.
Qed.

(** ** The alert threshold *)

Lemma record_failure_alerts (threshold : Z) (url : string)
    (failure_state : gmap string FailureState) (alert : FailureAlert) :
  alert ∈ (record_failure threshold url failure_state).2 →
  0 < threshold ∧ fa_threshold alert = threshold ∧ fa_feed_url alert = url
  ∧ threshold ≤ Z.of_nat (fa_failure_count alert).
Proof.
  unfold record_failure. cbn [count alert_sent].
  destruct (_ && _ && _) eqn:Hcond; cbn [snd]; [|by intros ?%elem_of_nil].
  intros ->%list_elem_of_singleton. cbn.
  apply andb_true_iff in Hcond as [[Hpos%Z.ltb_lt Hreached%Z.leb_le]%andb_true_iff _].
  done.
Qed.

Lemma track_alerts (threshold : Z) (outcomes : list (string * bool))
    (failure_state : gmap string FailureState) (alert : FailureAlert) :
  alert ∈ (track threshold outcomes failure_state).2 →
  0 < threshold ∧ fa_threshold alert = threshold
  ∧ threshold ≤ Z.of_nat (fa_failure_count alert)
  ∧ (fa_feed_url alert, false) ∈ outcomes.
Proof.
  induction outcomes as [|[url ok] outcomes IH] using rev_ind.
  { by intros ?%elem_of_nil. }
  rewrite track_snoc. unfold track_step. cbn [fst snd].
  destruct ok.
  - cbn [snd]. intros (? & ? & ? & Hin)%IH. rewrite elem_of_app. by auto.
  - pose proof (record_failure_alerts threshold url
                  (track threshold outcomes failure_state).1 alert) as Hnew.
    destruct (record_failure threshold url (track threshold outcomes failure_state).1)
      as [state alerts].
    cbn [snd] in *. intros [Hin|Hin]%elem_of_app.
    + destruct (IH Hin) as (? & ? & ? & Hout). rewrite elem_of_app. by auto.
    + destruct (Hnew Hin) as (? & ? & <- & ?). rewrite elem_of_app.
      split; [done |]. split; [done |]. split; [done |]. right.
      by apply list_elem_of_singleton.
Qed.

(** X14: The threshold read by [load_failure_threshold] is the default when the
    variable is not set or is no integer, and otherwise [max(value, 0)]:
    the value itself when it is positive, 0 when it is not.  An alert of a
    cycle is for a URL whose fetch failed in that cycle, carries the
    threshold, which is positive, and a count that reached it; so with a
    value of 0 or less in the variable no alert is ever sent. *)
Theorem alerts_need_threshold (rf : Reference) (cy : Cycle) (conn : Connection)
    (dry : bool) (fs : gmap string FailureState)
    (fh : gmap Z (gmap string (gset string))) (value : option Z) (default : Z)
    (stop_times_csv : bool) (retention : option Z) :
  let threshold := load_failure_threshold value default in
  let result := run_iteration rf cy conn dry fs fh threshold stop_times_csv retention in
  (value = None → threshold = default)
  ∧ (∀ v, value = Some v → threshold = Z.max v 0)
  ∧ (∀ alert, alert ∈ it_alerts result →
       0 < threshold ∧ fa_threshold alert = threshold
       ∧ threshold ≤ Z.of_nat (fa_failure_count alert)
       ∧ ∃ poll, poll ∈ cy_polls cy ∧ poll_url poll = fa_feed_url alert
                 ∧ poll_fetched poll ≫= fetch_single_feed (poll_url poll) = None)
  ∧ (threshold ≤ 0 → it_alerts result = []).
Proof.
  cbn zeta. set (threshold := load_failure_threshold value default).
  assert (∀ alert,
            alert ∈ it_alerts (run_iteration rf cy conn dry fs fh threshold
                                 stop_times_csv retention) →
            0 < threshold ∧ fa_threshold alert = threshold
            ∧ threshold ≤ Z.of_nat (fa_failure_count alert)
            ∧ ∃ poll, poll ∈ cy_polls cy ∧ poll_url poll = fa_feed_url alert
                      ∧ poll_fetched poll ≫= fetch_single_feed (poll_url poll) = None)
    as Halerts.
  { intros alert Hin.
    assert (it_alerts (run_iteration rf cy conn dry fs fh threshold stop_times_csv
                         retention)
            = (track threshold (poll_outcome <$> cy_polls cy) fs).2) as Heq.
    { rewrite <- (fetch_all_track threshold conn fs fh (cy_polls cy)).
      unfold run_iteration. by repeat case_match. }
    rewrite Heq in Hin. apply track_alerts in Hin as (Hpos & Hthr & Hcount & Hout).
    split; [done |]. split; [done |]. split; [done |].
    apply list_elem_of_fmap in Hout as (poll & Hpoll & Hin).
    exists poll. unfold poll_outcome in Hpoll. injection Hpoll as Hurl Hfailed.
    split; [done |]. split; [done |].
    symmetry in Hfailed. apply bool_decide_eq_false in Hfailed.
    by apply eq_None_not_Some. }
  split; [by intros -> |]. split.
  - by intros v ->.
  - split; [done |]. intros Hle.
    destruct (it_alerts _) as [|alert alerts] eqn:Hlist; [done |].
    destruct (Halerts alert) as [Hpos _]; [apply elem_of_cons; by left | lia].
Qed.

(** ** The daily report *)

Lemma maybe_send_daily_report_frame (cfg : Settings) (now : Z * Z) (posted : bool)
    (st : MainState) :
  ms_conn (maybe_send_daily_report cfg now posted st).1 = ms_conn st
  ∧ archive_state (maybe_send_daily_report cfg now posted st).1 = archive_state st
  ∧ last_refresh_date (maybe_send_daily_report cfg now posted st).1
    = last_refresh_date st.
Proof. unfold maybe_send_daily_report. by repeat case_match. Qed.

(** X15: [maybe_send_daily_report] posts at most one report per day, and the
    report is about the day before.  It posts nothing before 00:05, after
    a report of the same day, or without a report webhook; once the post
    has gone through, the day is recorded as sent, the failure history of
    the reported day is dropped, and a further call on the same day sends
    nothing and changes nothing.  A post that failed records nothing, so
    the next call tries again. *)
Theorem daily_report_once (cfg : Settings) (now : Z * Z) (posted : bool)
    (st : MainState) :
  let result := maybe_send_daily_report cfg now posted st in
  (result.2 = []
   ∨ (result.2 = [DailyReport (now.1 - 1)]
      ∧ 300 ≤ now.2 ∧ 0 ≤ now.1 - 1
      ∧ webhook_report cfg = true ∧ posted = true
      ∧ last_sent_date st ≠ Some now.1
      ∧ last_sent_date result.1 = Some now.1
      ∧ failure_history result.1 = delete (now.1 - 1) (failure_history st)))
  ∧ (last_sent_date result.1 = Some now.1 →
     ∀ later posted_later, later.1 = now.1 →
       maybe_send_daily_report cfg later posted_later result.1 = (result.1, []))
  ∧ (300 ≤ now.2 → 0 ≤ now.1 - 1 → webhook_report cfg = true → posted = false →
     last_sent_date st ≠ Some now.1 → result = (st, [])).
Proof.
  cbn zeta. split; [|split].
  - unfold maybe_send_daily_report.
    destruct (bool_decide (last_sent_date st = Some now.1)) eqn:Hsent; [by left |].
    apply bool_decide_eq_false in Hsent.
    destruct (Z.ltb_spec now.2 300); [by left |].
    destruct (webhook_report cfg); cbn [negb]; [|by left].
    destruct (Z.ltb_spec (now.1 - 1) 0); [by left |].
    destruct posted; [|by left]. right. by repeat split.
  - intros Hsent later posted_later Hday.
    unfold maybe_send_daily_report at 1.
    rewrite Hday, bool_decide_eq_true_2; done.
  - intros Htime Hday Hreport -> Hsent. unfold maybe_send_daily_report.
    rewrite bool_decide_eq_false_2 by done.
    destruct (Z.ltb_spec now.2 300); [lia |]. rewrite Hreport. cbn [negb].
    by destruct (Z.ltb_spec (now.1 - 1) 0); [lia |].
Qed.

(** ** The polling loop *)

Lemma archives_spaced_app (interval : Z) (events rest : list Event) :
  (∀ day ok, ArchiveRun day ok ∉ events) →
  archives_spaced interval rest → archives_spaced interval (events ++ rest).
Proof.
  intros Hnone Hrest. induction events as [|event events IH]; [done |].
  cbn [app archives_spaced].
  assert (∀ day ok, ArchiveRun day ok ∉ events) as Hnone'.
  { intros day ok Hin. apply (Hnone day ok), elem_of_cons. by right. }
  destruct event as [| day ok | | |]; try by apply IH.
  destruct (Hnone day ok). apply elem_of_cons. by left.
Qed.

(** One round of the loop either runs the archive, and then that is all it
    does, or leaves the archive state alone and runs no archive. *)
Lemma loop_body_archive (cfg : Settings) (tk : Tick) (st : MainState) :
  (archive_due cfg (archive_state st) (tk_archive_clock tk) = true
   ∧ (loop_body cfg tk st).1.2 = Next
   ∧ (loop_body cfg tk st).2
     = [ArchiveRun (tk_archive_clock tk).1 (tk_archive_ok tk)]
   ∧ archive_state (loop_body cfg tk st).1.1
     = archive_ran cfg (archive_state st) (tk_archive_clock tk).1 (tk_archive_ok tk))
  ∨ ((∀ day ok, ArchiveRun day ok ∉ (loop_body cfg tk st).2)
     ∧ archive_state (loop_body cfg tk st).1.1 = archive_state st).
Proof.
  unfold loop_body.
  destruct (negb (align_interval cfg) && negb (first_cycle st)
            && negb (interval_value cfg)).
  { right. split; [|done]. intros day ok. apply not_elem_of_nil. }
  destruct (refresh_due cfg (last_refresh_date st) (tk_refresh_clock tk)).
  { right. destruct (tk_refresh_ok tk); cbn; (split; [|done]);
      by intros day ok ?%list_elem_of_singleton. }
  destruct (archive_due cfg (archive_state st) (tk_archive_clock tk)); [by left |].
  right.
  set (result := run_iteration _ _ _ _ _ _ _ _ _).
  assert (∀ day ok, ArchiveRun day ok ∉ FailureAlertSent <$> it_alerts result)
    as Halerts.
  { by intros day ok (alert & ? & _)%list_elem_of_fmap. }
  destruct (it_outcome result); [|by split].
  match goal with
  | |- context [maybe_send_daily_report ?c ?n ?p ?s] =>
      pose proof (maybe_send_daily_report_frame c n p s) as (_ & Harchive & _);
      pose proof (maybe_send_daily_report_events c n p s) as Hreports;
      destruct (maybe_send_daily_report c n p s) as [st2 reports]
  end.
  cbn [fst snd] in Harchive, Hreports.
  assert (∀ day ok,
            ArchiveRun day ok
            ∉ ((FailureAlertSent <$> it_alerts result)
               ++ (if negb (startup_notified st) && negb (dry_run cfg)
                      && webhook_url cfg && success && tk_startup_posted tk
                   then [StartupNotice] else [])
               ++ reports)%list) as Hevents.
  { intros day ok [Hin|[Hin|Hin]%elem_of_app]%elem_of_app.
    - by apply (Halerts day ok).
    - destruct (_ && _); [|by apply elem_of_nil in Hin].
      by apply list_elem_of_singleton in Hin.
    - by destruct (Hreports _ Hin). }
  repeat case_match; cbn [fst snd archive_state]; by split.
Qed.

Lemma polling_loop_cons (cfg : Settings) (tk : Tick) (ticks : list Tick)
    (st : MainState) :
  polling_loop cfg (tk :: ticks) st
  = match (loop_body cfg tk st).1.2 with
    | Next =>
        ((polling_loop cfg ticks (loop_body cfg tk st).1.1).1,
         ((loop_body cfg tk st).2
          ++ (polling_loop cfg ticks (loop_body cfg tk st).1.1).2)%list)
    | _ => loop_body cfg tk st
    end.
Proof.
  cbn [polling_loop]. destruct (loop_body cfg tk st) as [[st1 control] events].
  cbn [fst snd]. destruct control; try done.
  by destruct (polling_loop cfg ticks st1) as [[st2 control2] events2].
Qed.

(** From a state whose next archive date is set, no archive runs before
    that date. *)
Lemma archive_runs_after (cfg : Settings) (ticks : list Tick) (st : MainState)
    (lower : Z) :
  0 ≤ archive_interval_delta cfg →
  (∃ next, next_archive_date (archive_state st) = Some next ∧ lower ≤ next) →
  ∀ day ok, ArchiveRun day ok ∈ (polling_loop cfg ticks st).2 → lower ≤ day.
Proof.
  intros Hinterval. revert st.
  induction ticks as [|tk ticks IH]; intros st Hnext day ok.
  { by intros ?%elem_of_nil. }
  rewrite polling_loop_cons.
  destruct (loop_body_archive cfg tk st)
    as [(Hdue & Hcontrol & Hevents & Hstate)|(Hnone & Hstate)].
  - rewrite Hcontrol, Hevents. cbn [snd].
    destruct Hnext as (next & Hnext & Hlower).
    assert (next ≤ (tk_archive_clock tk).1) as Hgate.
    { unfold archive_due in Hdue. rewrite Hnext in Hdue.
      apply andb_true_iff in Hdue as [_ Hle%Z.leb_le]. done. }
    intros [Hin|Hin]%elem_of_app.
    + apply list_elem_of_singleton in Hin. injection Hin as -> _. lia.
    + eapply IH; [|done]. rewrite Hstate. unfold archive_ran.
      destruct (tk_archive_ok tk); cbn.
      * eexists. split; [done |]. lia.
      * rewrite Hnext. by exists next.
  - destruct ((loop_body cfg tk st).1.2) eqn:Hcontrol.
    + cbn [snd]. intros [Hin|Hin]%elem_of_app; [by destruct (Hnone day ok) |].
      eapply IH; [|done]. by rewrite Hstate.
    + intros Hin. by destruct (Hnone day ok).
    + intros Hin. by destruct (Hnone day ok).
    + intros Hin. by destruct (Hnone day ok).
Qed.

(** X16: The minimum interval between archives.  With an interval that is not
    negative, once a scheduled archive has succeeded on some day, no
    archive runs again in the loop, successful or not, before that day
    plus the interval. *)
Theorem archive_interval_kept (cfg : Settings) (ticks : list Tick) (st : MainState) :
  0 ≤ archive_interval_delta cfg →
  archives_spaced (archive_interval_delta cfg) (polling_loop cfg ticks st).2.
Proof.
  intros Hinterval. revert st. induction ticks as [|tk ticks IH]; intros st; [done |].
  rewrite polling_loop_cons.
  destruct (loop_body_archive cfg tk st)
    as [(Hdue & Hcontrol & Hevents & Hstate)|(Hnone & Hstate)].
  - rewrite Hcontrol, Hevents. cbn [snd app archives_spaced].
    destruct (tk_archive_ok tk) eqn:Hok; [|apply IH]. split; [|apply IH].
    apply archive_runs_after; [done |].
    rewrite Hstate. unfold archive_ran. cbn. by eexists.
  - destruct ((loop_body cfg tk st).1.2) eqn:Hcontrol.
    + cbn [snd]. by apply archives_spaced_app.
    + rewrite <- (app_nil_r (loop_body cfg tk st).2). by apply archives_spaced_app.
    + rewrite <- (app_nil_r (loop_body cfg tk st).2). by apply archives_spaced_app.
    + rewrite <- (app_nil_r (loop_body cfg tk st).2). by apply archives_spaced_app.
Qed.

(** A round of a dry run. *)
Lemma loop_body_dry_run (cfg : Settings) (tk : Tick) (st : MainState) :
  dry_run cfg = true → clean (ms_conn st) →
  (loop_body cfg tk st).1.2 ≠ Next
  ∧ committed (ms_conn (loop_body cfg tk st).1.1) = committed (ms_conn st)
  ∧ ∀ event, event ∈ (loop_body cfg tk st).2 → report_event event.
Proof.
  intros Hdry Hclean. unfold loop_body.
  destruct (negb (align_interval cfg) && negb (first_cycle st)
            && negb (interval_value cfg)).
  { split; [done |]. split; [done |]. by intros event ?%elem_of_nil. }
  unfold refresh_due, archive_due. rewrite Hdry. cbn [negb andb].
  rewrite !andb_false_r. cbn [andb].
  pose proof (run_iteration_committed (tk_reference tk) (tk_cycle tk) (ms_conn st)
                true (failure_state st) (failure_history st) (failure_threshold cfg)
                (stop_times_path cfg) (vehicle_history_retention cfg) Hclean)
    as Hcommitted.
  cbn zeta in Hcommitted. destruct Hcommitted as [Hcommitted|([=] & _)].
  set (result := run_iteration _ _ _ _ _ _ _ _ _) in *.
  assert (∀ event, event ∈ FailureAlertSent <$> it_alerts result → report_event event)
    as Halerts.
  { intros event (alert & -> & _)%list_elem_of_fmap. left. by eexists. }
  destruct (it_outcome result); [|by split].
  match goal with
  | |- context [maybe_send_daily_report ?c ?n ?p ?s] =>
      pose proof (maybe_send_daily_report_frame c n p s) as (Hconn & _ & _);
      pose proof (maybe_send_daily_report_events c n p s) as Hreports;
      destruct (maybe_send_daily_report c n p s) as [st2 reports]
  end.
  cbn [fst snd ms_conn] in Hconn, Hreports.
  rewrite orb_true_r. cbn [fst snd ms_conn].
  split; [done |]. split; [by rewrite Hconn |].
  intros event [Hin|[Hin|Hin]%elem_of_app]%elem_of_app.
  - by apply Halerts.
  - by apply elem_of_nil in Hin.
  - right. by apply Hreports.
Qed.

(** X17: A dry run never writes.  With [--dry-run] the loop changes nothing in
    the committed database, runs neither the static refresh nor the
    archive, sends no startup notice, and stops after at most one
    round. *)
Theorem dry_run_never_writes (cfg : Settings) (ticks : list Tick) (st : MainState) :
  dry_run cfg = true → clean (ms_conn st) →
  committed (ms_conn (polling_loop cfg ticks st).1.1) = committed (ms_conn st)
  ∧ (∀ event, event ∈ (polling_loop cfg ticks st).2 → report_event event)
  ∧ (rounds_run cfg ticks st ≤ 1)%nat.
Proof.
  intros Hdry Hclean. destruct ticks as [|tk ticks].
  { cbn. split; [done |]. split; [by intros event ?%elem_of_nil | lia]. }
  destruct (loop_body_dry_run cfg tk st Hdry Hclean) as (Hcontrol & Hcommitted & Hevents).
  rewrite polling_loop_cons. cbn [rounds_run].
  destruct (loop_body cfg tk st) as [[st1 control] events]. cbn [fst snd] in *.
  by destruct control.
Qed.

Lemma archive_interval_kept_witness :
  0 ≤ archive_interval_delta maintenance_settings
  ∧ archives_spaced (archive_interval_delta maintenance_settings)
      (polling_loop maintenance_settings
         [sample_tick (sample_cycle 110 50 80 no_fault);
          sample_tick (sample_cycle 120 60 90 no_fault);
          sample_tick (sample_cycle 130 70 95 no_fault)] sample_state).2.
Proof.
  assert (0 ≤ archive_interval_delta maintenance_settings) as Hinterval
    by (vm_compute; discriminate).
  split; [exact Hinterval |].
  exact (archive_interval_kept maintenance_settings
           [sample_tick (sample_cycle 110 50 80 no_fault);
            sample_tick (sample_cycle 120 60 90 no_fault);
            sample_tick (sample_cycle 130 70 95 no_fault)] sample_state Hinterval).
Defined.

Lemma dry_run_never_writes_witness :
  dry_run dry_settings = true
  ∧ clean (ms_conn sample_state)
  ∧ committed (ms_conn (polling_loop dry_settings
                          [sample_tick (sample_cycle 110 50 80 no_fault);
                           sample_tick (sample_cycle 120 60 90 no_fault)]
                          sample_state).1.1)
    = committed (ms_conn sample_state)
  ∧ (∀ event,
       event ∈ (polling_loop dry_settings
                  [sample_tick (sample_cycle 110 50 80 no_fault);
                   sample_tick (sample_cycle 120 60 90 no_fault)] sample_state).2 →
       report_event event)
  ∧ (rounds_run dry_settings
       [sample_tick (sample_cycle 110 50 80 no_fault);
        sample_tick (sample_cycle 120 60 90 no_fault)] sample_state ≤ 1)%nat.
Proof.
  assert (dry_run dry_settings = true) as Hdry by reflexivity.
  assert (clean (ms_conn sample_state)) as Hclean by reflexivity.
  split; [exact Hdry |]. split; [exact Hclean |].
  exact (dry_run_never_writes dry_settings
           [sample_tick (sample_cycle 110 50 80 no_fault);
            sample_tick (sample_cycle 120 60 90 no_fault)] sample_state Hdry Hclean).
Defined.

(** ** The feed list *)

Lemma dedupe_fold (feeds : list string) (acc : gset string * list string) :
  NoDup acc.2 → (∀ feed, feed ∈ acc.1 ↔ feed ∈ acc.2) →
  NoDup (foldl dedupe_step acc feeds).2
  ∧ (∀ feed, feed ∈ (foldl dedupe_step acc feeds).1
             ↔ feed ∈ (foldl dedupe_step acc feeds).2)
  ∧ (∀ feed, feed ∈ (foldl dedupe_step acc feeds).2 ↔ feed ∈ acc.2 ∨ feed ∈ feeds).
Proof.
  revert acc. induction feeds as [|x feeds IH]; intros acc Hnodup Hseen.
  { cbn. split; [done |]. split; [done |]. intros feed. split; [by left |].
    by intros [?|?%elem_of_nil]. }
  cbn [foldl]. unfold dedupe_step at 2 4 6 8.
  destruct (bool_decide (x ∈ acc.1)) eqn:Hin.
  - apply bool_decide_eq_true in Hin.
    destruct (IH acc Hnodup Hseen) as (H1 & H2 & H3).
    split; [done |]. split; [done |]. intros feed. rewrite H3, elem_of_cons.
    split; [intros [?|?]; by auto |].
    intros [?|[->|?]]; [by left | left; by apply Hseen | by right].
  - apply bool_decide_eq_false in Hin.
    destruct (IH ({[x]} ∪ acc.1, (acc.2 ++ [x])%list)) as (H1 & H2 & H3).
    + cbn. apply NoDup_app. split; [done |]. split; [|apply NoDup_singleton].
      intros y Hy ->%list_elem_of_singleton. apply Hin. by apply Hseen.
    + intros feed. cbn.
      rewrite elem_of_union, elem_of_singleton, elem_of_app, list_elem_of_singleton.
      rewrite Hseen. by split; intros [?|?]; auto.
    + split; [done |]. split; [done |]. intros feed. rewrite H3. cbn.
      rewrite elem_of_app, list_elem_of_singleton, elem_of_cons.
      split; [intros [[?|?]|?]; by auto | intros [?|[?|?]]; by auto].
Qed.

Lemma dedupe_spec (feeds : list string) :
  NoDup (dedupe feeds) ∧ ∀ feed, feed ∈ dedupe feeds ↔ feed ∈ feeds.
Proof.
  destruct (dedupe_fold feeds (∅, [])) as (H1 & _ & H3).
  { constructor. }
  { intros feed. cbn. by rewrite elem_of_empty, elem_of_nil. }
  split; [done |]. intros feed. unfold dedupe. rewrite H3. cbn.
  split; [by intros [?%elem_of_nil|?] | by right].
Qed.

Lemma stripped_parts_spec (parts : list string) (feed : string) :
  feed ∈ stripped_parts parts ↔ feed ≠ "" ∧ ∃ part, part ∈ parts ∧ strip part = feed.
Proof.
  unfold stripped_parts. rewrite list_elem_of_fmap. split.
  - intros (part & -> & Hin). apply list_elem_of_In, filter_In in Hin as [Hin Hne].
    split.
    + intros Hempty. rewrite Hempty in Hne. done.
    + exists part. split; [by apply list_elem_of_In | done].
  - intros (Hne & part & Hin & <-). exists part. split; [done |].
    apply list_elem_of_In, filter_In. split; [by apply list_elem_of_In |].
    by destruct (String.eqb_spec (strip part) "").
Qed.

(** X18: [resolve_feeds] gives each feed once and gives no empty feed: the
    result has no repetition, and its members are exactly the stripped
    values, other than the empty one, of the comma-separated parts of the
    environment variable (when it is set and not empty) and of the feeds
    of the command line. *)
Theorem resolve_feeds_distinct (env_value : string) (cli_feeds : option (list string)) :
  NoDup (resolve_feeds env_value cli_feeds)
  ∧ ∀ feed, feed ∈ resolve_feeds env_value cli_feeds
            ↔ feed ≠ "" ∧ candidate_feeds env_value cli_feeds feed.
Proof.
  unfold resolve_feeds. split; [apply dedupe_spec |].
  intros feed. rewrite (proj2 (dedupe_spec _)), elem_of_app. unfold candidate_feeds.
  split.
  - intros [Henv|Hcli].
    + destruct (String.eqb_spec env_value "") as [|Hset];
        [by apply elem_of_nil in Henv |].
      apply stripped_parts_spec in Henv as (Hne & part & Hin & Hstrip).
      split; [done |]. left. split; [done |]. by exists part.
    + destruct cli_feeds as [given|]; [|by apply elem_of_nil in Hcli].
      apply stripped_parts_spec in Hcli as (Hne & raw & Hin & Hstrip).
      apply list_elem_of_In, filter_In in Hin as [Hin%list_elem_of_In _].
      split; [done |]. right. by exists given, raw.
  - intros (Hne & [(Hset & part & Hin & Hstrip)|(given & raw & -> & Hin & Hstrip)]).
    + left. destruct (String.eqb_spec env_value ""); [done |].
      apply stripped_parts_spec. split; [done |]. by exists part.
    + right. apply stripped_parts_spec. split; [done |]. exists raw. split; [|done].
      apply list_elem_of_In, filter_In. split; [by apply list_elem_of_In |].
      destruct (String.eqb_spec raw "") as [->|]; [|done].
      subst feed. done.
Qed.

Lemma dedupe_fold_out (feeds : list string) (seen : gset string) (out : list string) :
  (foldl dedupe_step (seen, out) feeds).2
  = (out ++ (foldl dedupe_step (seen, []) feeds).2)%list.
Proof.
  revert seen out. induction feeds as [|x feeds IH]; intros seen out.
  { cbn. by rewrite app_nil_r. }
  cbn [foldl]. unfold dedupe_step at 2 4. cbn [fst snd].
  destruct (bool_decide (x ∈ seen)); [apply IH |].
  rewrite (IH _ (out ++ [x])%list), (IH _ ([] ++ [x])%list).
  by rewrite <- app_assoc.
Qed.

Lemma dedupe_fold_filter (feeds : list string) (seen : gset string) (x : string) :
  (foldl dedupe_step ({[x]} ∪ seen, []) feeds).2
  = filter (fun y => y ≠ x) (foldl dedupe_step (seen, []) feeds).2.
Proof.
  revert seen. induction feeds as [|y feeds IH]; intros seen; [done |].
  cbn [foldl]. unfold dedupe_step at 2 4. cbn [fst snd].
  destruct (decide (y = x)) as [->|Hne].
  - rewrite bool_decide_eq_true_2 by (apply elem_of_union_l; by apply elem_of_singleton).
    destruct (bool_decide (x ∈ seen)); [apply IH |].
    rewrite (dedupe_fold_out _ _ ([] ++ [x])%list). cbn [app].
    rewrite filter_cons_False by (intros Hx; by apply Hx).
    rewrite IH.
    symmetry. apply list_filter_filter_l. done.
  - destruct (bool_decide (y ∈ seen)) eqn:Hseen.
    + apply bool_decide_eq_true in Hseen.
      rewrite bool_decide_eq_true_2 by by apply elem_of_union_r.
      apply IH.
    + apply bool_decide_eq_false in Hseen.
      rewrite bool_decide_eq_false_2; cycle 1.
      { intros [Hx%elem_of_singleton|Hy]%elem_of_union; done. }
      rewrite !(dedupe_fold_out _ _ ([] ++ [y])%list). cbn [app].
      rewrite filter_cons_True by done. f_equal.
      rewrite <- IH. f_equal. f_equal.
      by rewrite !(assoc_L (∪)), (comm_L (∪) {[y]} {[x]}).
Qed.

(** X19: The loop of [resolve_feeds] that drops repeated feeds keeps the first
    occurrence of each feed, in the order of the first occurrences: the
    first feed stays first, and the rest is the result for the remaining
    feeds without the repetitions of the first. *)
Theorem dedupe_keeps_first (feed : string) (feeds : list string) :
  dedupe [] = []
  ∧ dedupe (feed :: feeds) = feed :: filter (fun other => other ≠ feed) (dedupe feeds).
Proof.
  split; [done |]. unfold dedupe. cbn [foldl]. unfold dedupe_step at 2.
  cbn [fst snd]. rewrite bool_decide_eq_false_2 by apply not_elem_of_empty.
  rewrite (dedupe_fold_out _ _ ([] ++ [feed])%list). cbn [app]. f_equal.
  apply dedupe_fold_filter.
Qed.

(** ** The trip-delay writer *)

Lemma dict_set_elem_of_other {K V : Type} `{EqDecision K} (k : K) (v : V)
    (d : list (K * V)) (x : K * V) :
  NoDup d.*1 → x ∈ dict_set k v d → x = (k, v) ∨ (x ∈ d ∧ x.1 ≠ k).
Proof.
  induction d as [|[k' v'] d IH]; cbn [dict_set].
  - intros _ ->%list_elem_of_singleton. by left.
  - rewrite fmap_cons. intros [Hk' Hnodup]%NoDup_cons.
    destruct (decide (k = k')) as [->|Hne].
    + intros [->|Hin]%elem_of_cons; [by left |]. right.
      split; [by apply elem_of_cons; right |].
      intros Heq. apply Hk'. rewrite <- Heq. apply list_elem_of_fmap. by exists x.
    + intros [->|Hin]%elem_of_cons.
      * right. split; [by apply elem_of_cons; left |]. cbn. congruence.
      * destruct (IH Hnodup Hin) as [->|[Hd Hx]]; [by left |].
        right. split; [by apply elem_of_cons; right | done].
Qed.

Lemma dict_set_length {K V : Type} `{EqDecision K} (k : K) (v : V) (d : list (K * V)) :
  List.length (dict_set k v d)
  = if decide (k ∈ d.*1) then List.length d else S (List.length d).
Proof.
  pose proof (dict_set_keys k v d) as Hkeys.
  apply (f_equal List.length) in Hkeys. rewrite length_fmap in Hkeys.
  rewrite Hkeys. destruct (decide (k ∈ d.*1)).
  - by rewrite length_fmap.
  - rewrite length_app, length_fmap. cbn. lia.
Qed.

Lemma lookup_ok_step (rf : Reference) (with_csv : bool) (lk lk' : DimLookup) :
  evolves rf lk lk' → same_existence lk lk' →
  lookup_ok rf with_csv lk → lookup_ok rf with_csv lk'.
Proof.
  intros Hev Hsame (Hcoh & Hres & Hfb).
  destruct (evolves_step _ _ _ Hev Hcoh) as [Hcoh' Hfb'].
  split; [done |]. split; [by eapply resolved_same | congruence].
Qed.

Lemma stop_update_step_ok (rf : Reference) (snapshot : Z) (with_csv : bool)
    (trip : TripUpdatePayload) (t : string)
    (acc : list ((string * string) * TripDelayRow)
           * gmap (string * string) TripDelaySnapshot * DimLookup)
    (update : StopTimeUpdate) :
  tu_trip_id trip = Some t → t ≠ "" → is_Some (dim_trips (ref_static rf) !! t) →
  lookup_ok rf with_csv acc.2 → delay_rows_ok rf with_csv acc.1.1 acc.1.2 →
  lookup_ok rf with_csv (stop_update_step rf snapshot trip acc update).2
  ∧ delay_rows_ok rf with_csv (stop_update_step rf snapshot trip acc update).1.1
      (stop_update_step rf snapshot trip acc update).1.2.
Proof.
  intros Htrip Hne Hexists Hlk Hrows. unfold stop_update_step.
  destruct acc as [[rows delays] lk]. cbn [fst snd] in Hlk, Hrows.
  destruct (ensure_stop_spec rf (stu_stop_id update) lk) as [Hev1 Hknown].
  pose proof (ensure_stop_same rf (stu_stop_id update) lk) as Hsame1.
  specialize (Hknown (proj1 Hlk)).
  destruct (ensure_stop rf (stu_stop_id update) lk) as [stop_ok lk1].
  cbn [fst snd] in Hev1, Hknown, Hsame1.
  pose proof (lookup_ok_step rf with_csv lk lk1 Hev1 Hsame1 Hlk) as Hlk1.
  destruct stop_ok; cbn [negb]; [|by split].
  destruct (stu_stop_id update) as [s|] eqn:Hstop; [|done].
  symmetry in Hknown. apply known_stop_true in Hknown as [Hs Hin].
  destruct (get_stop_context_spec rf (tu_trip_id trip) (Some s) lk1)
    as (Hev2 & _ & Hcontext).
  pose proof (get_stop_context_same rf (tu_trip_id trip) (Some s) lk1) as Hsame2.
  specialize (Hcontext (proj1 Hlk1) t s Htrip eq_refl).
  destruct (get_stop_context rf (tu_trip_id trip) (Some s) lk1) as [context lk2].
  cbn [fst snd] in Hev2, Hcontext, Hsame2.
  pose proof (lookup_ok_step rf with_csv lk1 lk2 Hev2 Hsame2 Hlk1) as Hlk2.
  split; [done |]. cbn [fst snd].
  rewrite Htrip. cbn [default from_option id].
  assert (context = find_stop s 0 (timetable rf with_csv t)) as ->.
  { destruct Hlk1 as (_ & _ & <-). apply Hcontext. rewrite Htrip. cbn.
    destruct (String.eqb_spec t ""); [done |]. by destruct (String.eqb_spec s ""). }
  destruct Hrows as (Hnodup & Hok & Hdom & Hsize).
  split; [by apply dict_set_NoDup |]. split; [|split].
  - intros key row Hset.
    apply dict_set_elem_of_other in Hset as [[= -> ->]|[Hin' Hother]]; [| |done].
    + unfold trip_delay_row_ok, scheduled_entry. cbn.
      rewrite lookup_insert_eq. by split_and!.
    + cbn in Hother.
      destruct (Hok key row Hin') as (? & ? & ? & ? & Hdelay & ? & ? & ?).
      unfold trip_delay_row_ok. rewrite lookup_insert_ne by done. by split_and!.
  - intros key. rewrite dict_set_keys.
    destruct (decide ((t, s) = key)) as [<-|Hother].
    + intros _. destruct (decide ((t, s) ∈ rows.*1)); [done |].
      apply elem_of_app. right. by apply list_elem_of_singleton.
    + rewrite lookup_insert_ne by done. intros Hsome%Hdom.
      destruct (decide ((t, s) ∈ rows.*1)); [done |]. apply elem_of_app. by left.
  - rewrite dict_set_length. destruct (decide ((t, s) ∈ rows.*1)) as [Hin'|Hout].
    + rewrite map_size_insert_Some; [done |].
      apply list_elem_of_fmap in Hin' as ([key row] & Hkey & Hin'). cbn in Hkey.
      subst key. destruct (Hok _ _ Hin') as (_ & _ & _ & _ & -> & _). by eexists.
    + rewrite map_size_insert_None; [by rewrite Hsize |].
      apply eq_None_not_Some. intros Hsome. by apply Hout, Hdom.
Qed.

Lemma stop_updates_ok (rf : Reference) (snapshot : Z) (with_csv : bool)
    (trip : TripUpdatePayload) (t : string) (updates : list StopTimeUpdate)
    (acc : list ((string * string) * TripDelayRow)
           * gmap (string * string) TripDelaySnapshot * DimLookup) :
  tu_trip_id trip = Some t → t ≠ "" → is_Some (dim_trips (ref_static rf) !! t) →
  lookup_ok rf with_csv acc.2 → delay_rows_ok rf with_csv acc.1.1 acc.1.2 →
  lookup_ok rf with_csv (foldl (stop_update_step rf snapshot trip) acc updates).2
  ∧ delay_rows_ok rf with_csv
      (foldl (stop_update_step rf snapshot trip) acc updates).1.1
      (foldl (stop_update_step rf snapshot trip) acc updates).1.2.
Proof.
  intros Htrip Hne Hexists. revert acc.
  induction updates as [|update updates IH]; intros acc Hlk Hrows; [done |].
  cbn [foldl].
  destruct (stop_update_step_ok rf snapshot with_csv trip t acc update Htrip Hne Hexists
              Hlk Hrows) as [Hlk' Hrows'].
  by apply IH.
Qed.

Lemma trip_updates_ok (rf : Reference) (snapshot : Z) (with_csv : bool)
    (entities : list FeedEntity)
    (acc : list ((string * string) * TripDelayRow)
           * gmap (string * string) TripDelaySnapshot * DimLookup) :
  lookup_ok rf with_csv acc.2 → delay_rows_ok rf with_csv acc.1.1 acc.1.2 →
  lookup_ok rf with_csv (foldl (trip_update_step rf snapshot) acc entities).2
  ∧ delay_rows_ok rf with_csv
      (foldl (trip_update_step rf snapshot) acc entities).1.1
      (foldl (trip_update_step rf snapshot) acc entities).1.2.
Proof.
  revert acc. induction entities as [|entity entities IH]; intros acc Hlk Hrows;
    [done |].
  cbn [foldl]. apply IH; unfold trip_update_step;
    (destruct (fe_trip_update entity) as [trip|]; [|done]);
    destruct acc as [[rows delays] lk]; cbn [fst snd] in Hlk, Hrows;
    pose proof (ensure_trip_evolves rf (tu_trip_id trip) lk) as Hev;
    pose proof (ensure_trip_resolved rf (tu_trip_id trip) lk (proj1 (proj2 Hlk)))
      as [Hres Hvalid];
    destruct Hlk as (Hcoh & _ & Hfb);
    destruct (evolves_step _ _ _ Hev Hcoh) as [Hcoh' Hfb'];
    destruct (ensure_trip rf (tu_trip_id trip) lk) as [trip_ok lk1];
    cbn [fst snd] in *;
    (assert (lookup_ok rf with_csv lk1) as Hlk1
       by (split; [done |]; split; [done | congruence]));
    (destruct trip_ok; cbn [negb]; [|done]);
    destruct (Hvalid eq_refl) as (t & Ht & Hne & Hexists);
    by apply (stop_updates_ok rf snapshot with_csv trip t).
Qed.

Lemma batch_insert_lookup {K V : Type} `{Countable K} (rows : list (K * V))
    (t t' : gmap K V) :
  batch_insert rows t = Some t' →
  (∀ k v, (k, v) ∈ rows → t' !! k = Some v)
  ∧ (∀ k v, t' !! k = Some v → t !! k = Some v ∨ (k, v) ∈ rows).
Proof.
  revert t. induction rows as [|[k v] rows IH]; intros t; simpl.
  - intros [= ->]. split; [by intros k v ?%elem_of_nil | by left].
  - unfold insert_row. destruct (t !! k) eqn:Hk; [done |]. intros Hrest.
    destruct (IH _ Hrest) as [Hin Hout]. split.
    + intros k' v' [[= -> ->]|Hrow]%elem_of_cons; [|by apply Hin].
      apply batch_insert_Some in Hrest.
      eapply lookup_weaken; [|done]. by rewrite lookup_insert_eq.
    + intros k' v' [Hold|Hrow]%Hout.
      * destruct (decide (k = k')) as [->|Hne].
        -- rewrite lookup_insert_eq in Hold. injection Hold as ->. right.
           apply elem_of_cons. by left.
        -- rewrite lookup_insert_ne in Hold by done. by left.
      * right. apply elem_of_cons. by right.
Qed.

(** X20: The rows of [store_trip_delays].  The call returns the number of
    (trip, stop) pairs it has a delay for, and for each such pair the
    table has a row under the snapshot of the call: its trip is a trip of
    the trip table and its stop a stop of the stop table, the delay lookup
    handed to the vehicle writer holds the delay of that row, and its
    scheduled fields are those of the first timetable entry of the stop.
    Every row of the table afterwards was there before or is one of
    these. *)
Theorem trip_delays_linked (rf : Reference) (snapshot : Z) (envelope : FeedEnvelope)
    (lk lk' : DimLookup) (db db' : Database) (stored : nat)
    (delays : gmap (string * string) TripDelaySnapshot) :
  coherent rf lk → resolved rf lk →
  store_trip_delays rf snapshot envelope lk db = Some (stored, delays, lk', db') →
  stored = size delays
  ∧ (∀ pair, is_Some (delays !! pair) →
       ∃ row, rt_trip_delays db' !! (snapshot, pair.1, pair.2) = Some row
              ∧ trip_delay_row_ok rf (has_fallback lk) delays pair row)
  ∧ (∀ key row, rt_trip_delays db' !! key = Some row →
       rt_trip_delays db !! key = Some row
       ∨ (snapshot_of_triple key = snapshot ∧ is_Some (delays !! (key.1.2, key.2)))).
Proof.
  intros Hcoh Hres. unfold store_trip_delays.
  destruct (trip_updates_ok rf snapshot (has_fallback lk)
              (msg_entity (env_message envelope)) ([], ∅, lk)) as [_ Hrows].
  { by split. }
  { unfold delay_rows_ok. cbn [fst snd].
    split; [constructor |]. split; [by intros key row ?%elem_of_nil |].
    split; [|done]. intros key [? Hsome]. by rewrite lookup_empty in Hsome. }
  destruct (foldl _ _ _) as [[rows found] lk1]. cbn [fst snd] in Hrows.
  destruct Hrows as (Hnodup & Hok & Hdom & Hsize).
  destruct rows as [|first rows].
  { intros [= <- <- <- <-]. split; [done |].
    split; [intros pair [? Hsome]; by rewrite lookup_empty in Hsome | by left]. }
  destruct (batch_insert _ _) as [t|] eqn:Hbatch; [|done].
  intros [= <- <- <- <-]. cbn [rt_trip_delays with_trip_delays].
  apply batch_insert_lookup in Hbatch as [Hin Hout].
  split; [done |]. split.
  - intros pair Hsome. apply Hdom in Hsome.
    apply list_elem_of_fmap in Hsome as ([key row] & -> & Hrow).
    exists row. split; [|by apply Hok].
    apply Hin. apply list_elem_of_fmap. by exists (key, row).
  - intros key row [Hold|Hnew]%Hout; [by left |]. right.
    apply list_elem_of_fmap in Hnew as ([[a b] row'] & [= -> ->] & Hrow).
    split; [done |]. cbn. destruct (Hok _ _ Hrow) as (_ & _ & _ & _ & -> & _).
    by eexists.
Qed.

Lemma trip_delays_linked_witness :
  coherent sample_static (DimLookup_init true)
  ∧ resolved sample_static (DimLookup_init true)
  ∧ ∃ stored delays lk' db',
      store_trip_delays sample_static 8 sample_trip_feed (DimLookup_init true)
        sample_database = Some (stored, delays, lk', db')
      ∧ stored = size delays
      ∧ (∀ pair, is_Some (delays !! pair) →
           ∃ row, rt_trip_delays db' !! (8, pair.1, pair.2) = Some row
                  ∧ trip_delay_row_ok sample_static (has_fallback (DimLookup_init true))
                      delays pair row)
      ∧ (∀ key row, rt_trip_delays db' !! key = Some row →
           rt_trip_delays sample_database !! key = Some row
           ∨ (snapshot_of_triple key = 8 ∧ is_Some (delays !! (key.1.2, key.2)))).
Proof.
  pose proof (DimLookup_init_coherent sample_static true) as [Hcoh _].
  pose proof (DimLookup_init_resolved sample_static true) as Hres.
  split; [exact Hcoh |]. split; [exact Hres |].
  destruct (store_trip_delays sample_static 8 sample_trip_feed (DimLookup_init true)
              sample_database) as [[[[stored delays] lk'] db']|] eqn:Hstore;
    [|by vm_compute in Hstore].
  exists stored, delays, lk', db'. split; [reflexivity |].
  exact (trip_delays_linked sample_static 8 sample_trip_feed (DimLookup_init true) lk'
           sample_database db' stored delays Hcoh Hres Hstore).
Defined.

(** ** The alert writer *)

Lemma lookup_ok_pair (rf : Reference) (lk : DimLookup) :
  coherent rf lk → resolved rf lk → lookup_ok rf (has_fallback lk) lk.
Proof. by split. Qed.

Lemma parent_of_dict_set (rows : list ((string * string) * AlertRow))
    (key : string * string) (row : AlertRow) (alert : string) :
  parent_of rows alert → parent_of (dict_set key row rows) alert.
Proof.
  intros [language Hin]. exists language. rewrite dict_set_keys.
  destruct (decide (key ∈ rows.*1)); [done |]. apply elem_of_app. by left.
Qed.

Lemma translations_parent (alert_id : string) (row : Translation → AlertRow)
    (language : Translation → string) (translations : list Translation)
    (rows : list ((string * string) * AlertRow)) :
  let result :=
    foldl (fun rows translation =>
             dict_set (alert_id, language translation) (row translation) rows)
          rows translations in
  (∀ alert, parent_of rows alert → parent_of result alert)
  ∧ (translations ≠ [] → parent_of result alert_id).
Proof.
  cbn zeta. revert rows.
  induction translations as [|t translations IH]; intros rows; [done |].
  cbn [foldl]. destruct (IH (dict_set (alert_id, language t) (row t) rows))
    as [Hkeep _].
  split.
  - intros alert Hparent. by apply Hkeep, parent_of_dict_set.
  - intros _. apply Hkeep. exists (language t).
    apply list_elem_of_fmap. exists ((alert_id, language t), row t).
    split; [done |]. apply dict_set_In.
Qed.

Lemma informed_step_ok (rf : Reference) (with_csv : bool) (alert_id : string)
    (acc : AlertBatch * DimLookup) (informed : InformedEntity) :
  parent_of (base_rows acc.1) alert_id →
  lookup_ok rf with_csv acc.2 → alert_batch_ok rf acc.1 →
  lookup_ok rf with_csv (informed_step rf alert_id acc informed).2
  ∧ alert_batch_ok rf (informed_step rf alert_id acc informed).1.
Proof.
  intros Hparent Hlk (Hroutes & Hstops & Htrips & Hperiods). unfold informed_step.
  destruct acc as [batch lk]. cbn [fst snd] in *.
  (* route *)
  pose proof (ensure_route_evolves rf (ie_route_id informed) lk) as Hev1.
  destruct (ensure_route_resolved rf (ie_route_id informed) lk (proj1 (proj2 Hlk)))
    as [Hres1 Hroute].
  destruct Hlk as (Hcoh & _ & Hfb).
  destruct (evolves_step _ _ _ Hev1 Hcoh) as [Hcoh1 Hfb1].
  destruct (ensure_route rf (ie_route_id informed) lk) as [route_ok lk1].
  cbn [fst snd] in *.
  (* stop *)
  destruct (ensure_stop_spec rf (ie_stop_id informed) lk1) as [Hev2 Hstop].
  pose proof (ensure_stop_same rf (ie_stop_id informed) lk1) as Hsame2.
  specialize (Hstop Hcoh1).
  destruct (evolves_step _ _ _ Hev2 Hcoh1) as [Hcoh2 Hfb2].
  destruct (ensure_stop rf (ie_stop_id informed) lk1) as [stop_ok lk2].
  cbn [fst snd] in *.
  pose proof (resolved_same rf lk1 lk2 Hsame2 Hres1) as Hres2.
  (* trip *)
  pose proof (ensure_trip_evolves rf (ie_trip_id informed) lk2) as Hev3.
  destruct (ensure_trip_resolved rf (ie_trip_id informed) lk2 Hres2) as [Hres3 Htrip].
  destruct (evolves_step _ _ _ Hev3 Hcoh2) as [Hcoh3 Hfb3].
  destruct (ensure_trip rf (ie_trip_id informed) lk2) as [trip_ok lk3].
  cbn [fst snd] in *.
  split; [split; [done |]; split; [done | congruence] |].
  unfold alert_batch_ok. cbn [route_rows stop_rows trip_rows period_rows base_rows].
  split; [|split; [|split; [|done]]].
  - intros alert route. destruct route_ok; [|by apply Hroutes].
    intros [[= -> ->]%elem_of_singleton|Hin]%elem_of_union; [|by apply Hroutes].
    destruct (Hroute eq_refl) as (r & -> & Hne & Hin). done.
  - intros alert stop. destruct stop_ok; [|by apply Hstops].
    intros [[= -> ->]%elem_of_singleton|Hin]%elem_of_union; [|by apply Hstops].
    destruct (ie_stop_id informed) as [s|]; [|done].
    symmetry in Hstop. apply known_stop_true in Hstop as [Hne Hin]. done.
  - intros alert trip. destruct trip_ok; [|by apply Htrips].
    intros [[= -> ->]%elem_of_singleton|Hin]%elem_of_union; [|by apply Htrips].
    destruct (Htrip eq_refl) as (t & -> & Hne & Hin). done.
Qed.

Lemma informed_steps_ok (rf : Reference) (with_csv : bool) (alert_id : string)
    (informed : list InformedEntity) (acc : AlertBatch * DimLookup) :
  parent_of (base_rows acc.1) alert_id →
  lookup_ok rf with_csv acc.2 → alert_batch_ok rf acc.1 →
  lookup_ok rf with_csv (foldl (informed_step rf alert_id) acc informed).2
  ∧ alert_batch_ok rf (foldl (informed_step rf alert_id) acc informed).1.
Proof.
  revert acc. induction informed as [|entity informed IH];
    intros acc Hparent Hlk Hbatch; [done |].
  cbn [foldl].
  destruct (informed_step_ok rf with_csv alert_id acc entity Hparent Hlk Hbatch)
    as [Hlk' Hbatch'].
  apply IH; [|done|done].
  pose proof (informed_steps_base rf alert_id [entity] acc) as Hbase.
  cbn [foldl] in Hbase. by rewrite Hbase.
Qed.

Lemma alert_step_ok (rf : Reference) (with_csv : bool) (header : option Z)
    (acc : AlertBatch * DimLookup) (entity : FeedEntity) :
  lookup_ok rf with_csv acc.2 → alert_batch_ok rf acc.1 →
  lookup_ok rf with_csv (alert_step rf header acc entity).2
  ∧ alert_batch_ok rf (alert_step rf header acc entity).1.
Proof.
  intros Hlk Hbatch. unfold alert_step.
  destruct (fe_alert entity) as [alert|]; [|done].
  destruct (String.eqb (fe_id entity) ""); [done |].
  destruct acc as [batch lk]. cbn [fst snd] in Hlk, Hbatch.
  match goal with
  | |- context [foldl ?f (base_rows batch) ?ts] =>
      set (translations := ts); set (base := foldl f (base_rows batch) translations)
  end.
  assert ((∀ a, parent_of (base_rows batch) a → parent_of base a)
          ∧ parent_of base (fe_id entity)) as [Hkeep Hnew].
  { destruct (translations_parent (fe_id entity)
                (fun translation =>
                   {| ar_message := tr_text translation;
                      ar_effect := al_effect alert;
                      ar_cause := al_cause alert;
                      ar_active_start_utc :=
                        min_default
                          ((fun p => _epoch_to_datetime_field (ap_start p))
                             <$> al_active_period alert) header;
                      ar_active_end_utc :=
                        max_default
                          ((fun p => _epoch_to_datetime_field (ap_end p))
                             <$> al_active_period alert) None;
                      ar_created_at_utc := header |})
                (fun translation =>
                   if truthy (tr_language translation)
                   then default "und" (tr_language translation) else "und")
                translations (base_rows batch)) as [Hkeep Hnew].
    split; [exact Hkeep |]. apply Hnew. unfold translations.
    by destruct (al_translations alert). }
  apply informed_steps_ok; cbn [fst snd base_rows]; [done | done |].
  destruct Hbatch as (Hroutes & Hstops & Htrips & Hperiods).
  unfold alert_batch_ok. cbn [route_rows stop_rows trip_rows period_rows base_rows].
  split; [|split; [|split]].
  - intros a r Hin. destruct (Hroutes a r Hin) as (? & ? & ?). by auto.
  - intros a s Hin. destruct (Hstops a s Hin) as (? & ? & ?). by auto.
  - intros a t Hin. destruct (Htrips a t Hin) as (? & ? & ?). by auto.
  - intros a index period [Hin|Hin]%elem_of_app; [by eapply Hkeep, Hperiods |].
    apply elem_of_lookup_imap in Hin as (i & p & [= -> _ _] & _). done.
Qed.

Lemma alert_steps_ok (rf : Reference) (with_csv : bool) (header : option Z)
    (entities : list FeedEntity) (acc : AlertBatch * DimLookup) :
  lookup_ok rf with_csv acc.2 → alert_batch_ok rf acc.1 →
  lookup_ok rf with_csv (foldl (alert_step rf header) acc entities).2
  ∧ alert_batch_ok rf (foldl (alert_step rf header) acc entities).1.
Proof.
  revert acc. induction entities as [|entity entities IH]; intros acc Hlk Hbatch;
    [done |].
  cbn [foldl]. destruct (alert_step_ok rf with_csv header acc entity Hlk Hbatch).
  by apply IH.
Qed.

Lemma batch_do_nothing_lookup {K V : Type} `{Countable K} (rows : list (K * V))
    (t : gmap K V) (k : K) :
  is_Some (batch_do_nothing rows t !! k) → is_Some (t !! k) ∨ k ∈ rows.*1.
Proof.
  intros Hsome. destruct (decide (k ∈ rows.*1)) as [Hin|Hout]; [by right |].
  left. by rewrite <- (batch_do_nothing_lookup_other rows t k Hout).
Qed.

(** X21: The child rows of [store_alerts].  A row of the alert-route,
    alert-stop, alert-trip or alert-period table under the snapshot of the
    call was there before, or belongs to an alert that has a parent row
    under that snapshot; and then its route, stop or trip is one of the
    route, stop or trip table.  Informed entities that do not resolve give
    no child row. *)
Theorem alert_children_linked (rf : Reference) (snapshot : Z) (envelope : FeedEnvelope)
    (lk lk' : DimLookup) (db db' : Database) (stored : nat) :
  coherent rf lk → resolved rf lk →
  store_alerts rf snapshot envelope lk db = Some (stored, lk', db') →
  (∀ alert route,
     is_Some (rt_alert_routes (db_alerts db') !! (snapshot, alert, route)) →
     is_Some (rt_alert_routes (db_alerts db) !! (snapshot, alert, route))
     ∨ (route ≠ "" ∧ route ∈ dim_routes (ref_static rf)
        ∧ alert_parent db' snapshot alert))
  ∧ (∀ alert stop,
       is_Some (rt_alert_stops (db_alerts db') !! (snapshot, alert, stop)) →
       is_Some (rt_alert_stops (db_alerts db) !! (snapshot, alert, stop))
       ∨ (stop ≠ "" ∧ stop ∈ dim_stops (ref_static rf)
          ∧ alert_parent db' snapshot alert))
  ∧ (∀ alert trip,
       is_Some (rt_alert_trips (db_alerts db') !! (snapshot, alert, trip)) →
       is_Some (rt_alert_trips (db_alerts db) !! (snapshot, alert, trip))
       ∨ (trip ≠ "" ∧ is_Some (dim_trips (ref_static rf) !! trip)
          ∧ alert_parent db' snapshot alert))
  ∧ (∀ alert index,
       is_Some (rt_alert_active_periods (db_alerts db') !! (snapshot, alert, index)) →
       is_Some (rt_alert_active_periods (db_alerts db) !! (snapshot, alert, index))
       ∨ alert_parent db' snapshot alert).
Proof.
  intros Hcoh Hres. unfold store_alerts, collect_alerts.
  destruct (alert_steps_ok rf (has_fallback lk)
              (_epoch_to_datetime (env_header_timestamp envelope))
              (msg_entity (env_message envelope)) (AlertBatch_empty, lk))
    as [_ Hbatch].
  { by apply lookup_ok_pair. }
  { unfold alert_batch_ok. cbn.
    split; [|split; [|split]]; intros; set_solver. }
  destruct (foldl _ _ _) as [batch lk1]. cbn [fst] in Hbatch.
  destruct Hbatch as (Hroutes & Hstops & Htrips & Hperiods).
  destruct (base_rows batch) as [|first rows] eqn:Hbase.
  { intros [= <- <- <-]. split; [by left |]. split; [by left |].
    split; by left. }
  unfold insert_alert_parents. rewrite Hbase.
  destruct (batch_insert _ _) as [parents|] eqn:Hinsert; [|done].
  intros [= <- <- <-]. cbn [db_alerts with_alerts insert_alert_children rt_alert_routes
                            rt_alert_stops rt_alert_trips rt_alert_active_periods
                            rt_alerts].
  apply batch_insert_lookup in Hinsert as [Hin _].
  assert (∀ alert, parent_of (first :: rows) alert →
            ∃ language, is_Some (parents !! (snapshot, alert, language))) as Hparent.
  { intros alert [language Hkey].
    apply list_elem_of_fmap in Hkey as ([key row] & Hkey & Hrow). cbn in Hkey.
    subst key. exists language. exists row. apply Hin.
    apply list_elem_of_fmap. by exists ((alert, language), row). }
  unfold alert_parent. cbn [db_alerts with_alerts insert_alert_children rt_alerts].
  split; [|split; [|split]].
  - intros alert route [Hold|Hnew]%batch_do_nothing_lookup; [by left |]. right.
    apply list_elem_of_fmap in Hnew as ([key []] & Hkey & Hrow). cbn in Hkey.
    subst key. unfold child_key_rows in Hrow.
    apply list_elem_of_fmap in Hrow as ([a r] & [= -> ->] & Hrow%elem_of_elements).
    destruct (Hroutes _ _ Hrow) as (? & ? & ?). by auto.
  - intros alert stop [Hold|Hnew]%batch_do_nothing_lookup; [by left |]. right.
    apply list_elem_of_fmap in Hnew as ([key []] & Hkey & Hrow). cbn in Hkey.
    subst key. unfold child_key_rows in Hrow.
    apply list_elem_of_fmap in Hrow as ([a r] & [= -> ->] & Hrow%elem_of_elements).
    destruct (Hstops _ _ Hrow) as (? & ? & ?). by auto.
  - intros alert trip [Hold|Hnew]%batch_do_nothing_lookup; [by left |]. right.
    apply list_elem_of_fmap in Hnew as ([key []] & Hkey & Hrow). cbn in Hkey.
    subst key. unfold child_key_rows in Hrow.
    apply list_elem_of_fmap in Hrow as ([a r] & [= -> ->] & Hrow%elem_of_elements).
    destruct (Htrips _ _ Hrow) as (? & ? & ?). by auto.
  - intros alert index [Hold|Hnew]%batch_do_nothing_lookup; [by left |]. right.
    apply list_elem_of_fmap in Hnew as ([key period] & Hkey & Hrow). cbn in Hkey.
    subst key. unfold period_key_rows in Hrow.
    apply list_elem_of_fmap in Hrow as ([[a i] p] & [= -> -> ->] & Hrow).
    by eapply Hparent, Hperiods.
Qed.

Lemma alert_children_linked_witness :
  coherent sample_static (DimLookup_init true)
  ∧ resolved sample_static (DimLookup_init true)
  ∧ ∃ stored lk' db',
      store_alerts sample_static 8 sample_alert_feed (DimLookup_init true)
        sample_database = Some (stored, lk', db')
      ∧ is_Some (rt_alert_routes (db_alerts db') !! (8, "a1", "R2"))
      ∧ ∀ alert route,
          is_Some (rt_alert_routes (db_alerts db') !! (8, alert, route)) →
          is_Some (rt_alert_routes (db_alerts sample_database) !! (8, alert, route))
          ∨ (route ≠ "" ∧ route ∈ dim_routes (ref_static sample_static)
             ∧ alert_parent db' 8 alert).
Proof.
  pose proof (DimLookup_init_coherent sample_static true) as [Hcoh _].
  pose proof (DimLookup_init_resolved sample_static true) as Hres.
  split; [exact Hcoh |]. split; [exact Hres |].
  destruct (store_alerts sample_static 8 sample_alert_feed (DimLookup_init true)
              sample_database) as [[[stored lk'] db']|] eqn:Hstore;
    [|by vm_compute in Hstore].
  exists stored, lk', db'. split; [reflexivity |].
  split.
  - vm_compute in Hstore. injection Hstore as _ _ <-. vm_compute. by eexists.
  - exact (proj1 (alert_children_linked sample_static 8 sample_alert_feed
                    (DimLookup_init true) lk' sample_database db' stored
                    Hcoh Hres Hstore)).
Defined.

(** ** The failure history *)

Lemma record_failure_time_recorded (url : string) (clock : Z * string)
    (history : gmap Z (gmap string (gset string))) (day : Z) (u time : string) :
  recorded (record_failure_time url clock history) day u time
  ↔ recorded history day u time ∨ (day = clock.1 ∧ u = url ∧ time = clock.2).
Proof.
  unfold recorded, record_failure_time.
  destruct (history !! clock.1) as [old|] eqn:Hhist; cbn.
  - destruct (old !! url) as [before|] eqn:Hold; cbn.
    + split.
      * intros (by_url & times & Hday & Hurl & Htime).
        destruct (decide (clock.1 = day)) as [<-|Hd]; cycle 1.
        { rewrite lookup_insert_ne in Hday by done. left. by exists by_url, times. }
        rewrite lookup_insert_eq in Hday. injection Hday as <-.
        destruct (decide (url = u)) as [<-|Hu]; cycle 1.
        { rewrite lookup_insert_ne in Hurl by done. left. by exists old, times. }
        rewrite lookup_insert_eq in Hurl. injection Hurl as <-.
        apply elem_of_union in Htime as [->%elem_of_singleton|Htime]; [by right |].
        left. by exists old, before.
      * intros [(by_url & times & Hday & Hurl & Htime)|(-> & -> & ->)].
        -- destruct (decide (clock.1 = day)) as [<-|Hd]; cycle 1.
           { exists by_url, times. by rewrite lookup_insert_ne. }
           assert (by_url = old) as -> by congruence.
           destruct (decide (url = u)) as [<-|Hu]; cycle 1.
           { eexists _, times. rewrite lookup_insert_eq. split; [done |].
             by rewrite lookup_insert_ne. }
           assert (times = before) as -> by congruence.
           eexists _, _. rewrite lookup_insert_eq. split; [done |].
           rewrite lookup_insert_eq. split; [done |]. by apply elem_of_union_r.
        -- eexists _, _. rewrite lookup_insert_eq. split; [done |].
           rewrite lookup_insert_eq. split; [done |].
           by apply elem_of_union_l, elem_of_singleton.
    + split.
      * intros (by_url & times & Hday & Hurl & Htime).
        destruct (decide (clock.1 = day)) as [<-|Hd]; cycle 1.
        { rewrite lookup_insert_ne in Hday by done. left. by exists by_url, times. }
        rewrite lookup_insert_eq in Hday. injection Hday as <-.
        destruct (decide (url = u)) as [<-|Hu]; cycle 1.
        { rewrite lookup_insert_ne in Hurl by done. left. by exists old, times. }
        rewrite lookup_insert_eq in Hurl. injection Hurl as <-.
        apply elem_of_union in Htime as [->%elem_of_singleton|Htime]; [by right |].
        by apply elem_of_empty in Htime.
      * intros [(by_url & times & Hday & Hurl & Htime)|(-> & -> & ->)].
        -- destruct (decide (clock.1 = day)) as [<-|Hd]; cycle 1.
           { exists by_url, times. by rewrite lookup_insert_ne. }
           assert (by_url = old) as -> by congruence.
           destruct (decide (url = u)) as [<-|Hu]; [congruence |].
           eexists _, times. rewrite lookup_insert_eq. split; [done |].
           by rewrite lookup_insert_ne.
        -- eexists _, _. rewrite lookup_insert_eq. split; [done |].
           rewrite lookup_insert_eq. split; [done |].
           by apply elem_of_union_l, elem_of_singleton.
  - split.
    + intros (by_url & times & Hday & Hurl & Htime).
      destruct (decide (clock.1 = day)) as [<-|Hd]; cycle 1.
      { rewrite lookup_insert_ne in Hday by done. left. by exists by_url, times. }
      rewrite lookup_insert_eq in Hday. injection Hday as <-.
      destruct (decide (url = u)) as [<-|Hu]; cycle 1.
      { rewrite lookup_insert_ne in Hurl by done. by rewrite lookup_empty in Hurl. }
      rewrite lookup_insert_eq in Hurl. injection Hurl as <-.
      apply elem_of_union in Htime as [->%elem_of_singleton|Htime]; [by right |].
      rewrite lookup_empty in Htime. by apply elem_of_empty in Htime.
    + intros [(by_url & times & Hday & Hurl & Htime)|(-> & -> & ->)].
      * destruct (decide (clock.1 = day)) as [<-|Hd]; [congruence |].
        exists by_url, times. by rewrite lookup_insert_ne.
      * eexists _, _. rewrite lookup_insert_eq. split; [done |].
        rewrite lookup_insert_eq. split; [done |].
        by apply elem_of_union_l, elem_of_singleton.
Qed.

Lemma fetch_all_history (threshold : Z) (polls : list Poll) (st : FetchState)
    (day : Z) (url time : string) :
  recorded (ft_failure_history (foldl (fetch_step threshold) st polls)) day url time
  ↔ recorded (ft_failure_history st) day url time
    ∨ ∃ poll, poll ∈ polls ∧ fetch_failed poll ∧ poll_url poll = url
              ∧ poll_clock poll = (day, time).
Proof.
  revert st. induction polls as [|poll polls IH]; intros st.
  { cbn. split; [by left |]. intros [?|(poll & ?%elem_of_nil & _)]; done. }
  cbn [foldl]. rewrite IH. unfold fetch_step, fetch_failed.
  destruct (poll_fetched poll ≫= fetch_single_feed (poll_url poll)) as [envelope|]
    eqn:Hfetch.
  - cbn [ft_failure_history]. split.
    + intros [?|(other & Hin & ?)]; [by left |]. right. exists other.
      split; [by apply elem_of_cons; right | done].
    + intros [?|(other & [->|Hin]%elem_of_cons & Hfailed & ?)]; [by left | |].
      * congruence.
      * right. by exists other.
  - destruct (record_failure threshold (poll_url poll) (ft_failure_state st))
      as [state alerts].
    cbn [ft_failure_history]. rewrite record_failure_time_recorded. split.
    + intros [[?|(Hd & Hu & Ht)]|(other & Hin & ?)]; [by left | |].
      * right. exists poll. split; [by apply elem_of_cons; left |].
        split; [done |]. split; [done |]. destruct (poll_clock poll). cbn in *.
        congruence.
      * right. exists other. split; [by apply elem_of_cons; right | done].
    + intros [?|(other & [->|Hin]%elem_of_cons & Hfailed & Hu & Hc)];
        [by left; left | |].
      * left. right. rewrite Hc. done.
      * right. by exists other.
Qed.

(** X22: The failure history after a cycle holds what it held before and, for
    every poll of the cycle whose fetch or classification failed, the time
    of the failure under its day and URL; it holds nothing else. *)
Theorem failure_history_records (rf : Reference) (cy : Cycle) (conn : Connection)
    (dry : bool) (fs : gmap string FailureState)
    (fh : gmap Z (gmap string (gset string))) (threshold : Z)
    (stop_times_csv : bool) (retention : option Z) (day : Z) (url time : string) :
  recorded (it_failure_history
              (run_iteration rf cy conn dry fs fh threshold stop_times_csv retention))
    day url time
  ↔ recorded fh day url time
    ∨ ∃ poll, poll ∈ cy_polls cy ∧ fetch_failed poll ∧ poll_url poll = url
              ∧ poll_clock poll = (day, time).
Proof.
  assert (it_failure_history
            (run_iteration rf cy conn dry fs fh threshold stop_times_csv retention)
          = ft_failure_history (fetch_all threshold conn fs fh (cy_polls cy))) as ->.
  { unfold run_iteration. by repeat case_match. }
  unfold fetch_all. by rewrite fetch_all_history.
Qed.

(** ** Timetables and active periods *)

(** X23: The timetable that [_load_trip_profile] gives is in the order of the
    stop sequence, whether it comes from the cache, from the stop-time
    table or from the CSV fallback. *)
Theorem trip_profile_sorted (rf : Reference) (trip : string) (lk : DimLookup) :
  coherent rf lk → Sorted by_sequence (_load_trip_profile rf trip lk).1.
Proof.
  intros Hcoh. destruct (load_trip_profile_spec rf trip lk) as (_ & _ & Hvalue).
  rewrite (Hvalue Hcoh). apply timetable_sorted.
Qed.

Lemma trip_profile_sorted_witness :
  coherent sample_static (DimLookup_init true)
  ∧ Sorted by_sequence (_load_trip_profile sample_static "T1" (DimLookup_init true)).1.
Proof.
  pose proof (DimLookup_init_coherent sample_static true) as [Hcoh _].
  split; [exact Hcoh |].
  exact (trip_profile_sorted sample_static "T1" (DimLookup_init true) Hcoh).
Defined.

Lemma foldl_min_spec (values : list Z) (first : Z) :
  (foldl Z.min first values = first ∨ foldl Z.min first values ∈ values)
  ∧ foldl Z.min first values ≤ first
  ∧ ∀ value, value ∈ values → foldl Z.min first values ≤ value.
Proof.
  revert first. induction values as [|x values IH]; intros first.
  { cbn. split; [by left |]. split; [lia |]. by intros value ?%elem_of_nil. }
  cbn [foldl]. destruct (IH (Z.min first x)) as ([Heq|Hin] & Hle & Hall).
  - split; [|split].
    + rewrite Heq. destruct (Z.min_spec first x) as [[_ ->]|[_ ->]]; [by left |].
      right. apply elem_of_cons. by left.
    + lia.
    + intros value [->|Hin]%elem_of_cons; [lia | by apply Hall].
  - split; [|split].
    + right. apply elem_of_cons. by right.
    + lia.
    + intros value [->|Hin']%elem_of_cons; [lia | by apply Hall].
Qed.

Lemma foldl_max_spec (values : list Z) (first : Z) :
  (foldl Z.max first values = first ∨ foldl Z.max first values ∈ values)
  ∧ first ≤ foldl Z.max first values
  ∧ ∀ value, value ∈ values → value ≤ foldl Z.max first values.
Proof.
  revert first. induction values as [|x values IH]; intros first.
  { cbn. split; [by left |]. split; [lia |]. by intros value ?%elem_of_nil. }
  cbn [foldl]. destruct (IH (Z.max first x)) as ([Heq|Hin] & Hle & Hall).
  - split; [|split].
    + rewrite Heq. destruct (Z.max_spec first x) as [[_ ->]|[_ ->]]; [|by left].
      right. apply elem_of_cons. by left.
    + lia.
    + intros value [->|Hin]%elem_of_cons; [lia | by apply Hall].
  - split; [|split].
    + right. apply elem_of_cons. by right.
    + lia.
    + intros value [->|Hin']%elem_of_cons; [lia | by apply Hall].
Qed.

Lemma min_max_default_spec (values : list (option Z)) (d : option Z) :
  ((∀ value, Some value ∉ values) → min_default values d = d ∧ max_default values d = d)
  ∧ (∀ value, Some value ∈ values →
       ∃ least greatest,
         min_default values d = Some least ∧ max_default values d = Some greatest
         ∧ Some least ∈ values ∧ Some greatest ∈ values
         ∧ least ≤ value ≤ greatest).
Proof.
  assert (∀ value, value ∈ omap id values ↔ Some value ∈ values) as Hpresent.
  { intros value. rewrite list_elem_of_omap. split.
    - intros (x & Hin & Hx). cbn in Hx. by subst x.
    - intros Hin. by exists (Some value). }
  unfold min_default, max_default. split.
  - intros Hnone. destruct (omap id values) as [|x rest]; [done |].
    destruct (Hnone x). apply Hpresent, elem_of_cons. by left.
  - intros value Hin%Hpresent.
    destruct (omap id values) as [|x rest]; [by apply elem_of_nil in Hin |].
    destruct (foldl_min_spec rest x) as (Hmin & Hminle & Hminall).
    destruct (foldl_max_spec rest x) as (Hmax & Hmaxle & Hmaxall).
    exists (foldl Z.min x rest), (foldl Z.max x rest).
    split; [done |]. split; [done |]. split; [|split].
    + apply Hpresent. destruct Hmin as [->|?]; apply elem_of_cons; by auto.
    + apply Hpresent. destruct Hmax as [->|?]; apply elem_of_cons; by auto.
    + apply elem_of_cons in Hin as [->|Hin]; [lia |].
      specialize (Hminall _ Hin). specialize (Hmaxall _ Hin). lia.
Qed.

Lemma dict_set_at {K V : Type} `{EqDecision K} (k : K) (v w : V) (d : list (K * V)) :
  NoDup d.*1 → (k, w) ∈ dict_set k v d → w = v.
Proof.
  intros Hnodup Hin.
  apply dict_set_elem_of_other in Hin as [[= ->]|[_ Hne]]; [done | | done].
  by destruct Hne.
Qed.

Lemma translations_rows (alert_id : string) (row : Translation → AlertRow)
    (language : Translation → string) (P : AlertRow → Prop)
    (translations : list Translation) (rows : list ((string * string) * AlertRow)) :
  (∀ translation, P (row translation)) →
  NoDup rows.*1 →
  let result :=
    foldl (fun rows translation =>
             dict_set (alert_id, language translation) (row translation) rows)
          rows translations in
  ∀ l, l ∈ language <$> translations →
    (∃ r, ((alert_id, l), r) ∈ result) ∧ ∀ r, ((alert_id, l), r) ∈ result → P r.
Proof.
  intros HP Hnodup. cbn zeta.
  induction translations as [|t translations IH] using rev_ind.
  { by intros l ?%elem_of_nil. }
  intros l Hl. rewrite foldl_app. cbn [foldl].
  pose proof (translations_NoDup alert_id row language translations rows Hnodup)
    as Hkeys.
  destruct (decide (l = language t)) as [->|Hne].
  - split; [eexists; apply dict_set_In |].
    intros r Hr. apply dict_set_at in Hr; [|done]. subst r. apply HP.
  - rewrite fmap_app in Hl. apply elem_of_app in Hl as [Hl|Hl]; cycle 1.
    { apply list_elem_of_singleton in Hl. done. }
    destruct (IH l Hl) as [[r Hr] Hall]. split.
    + exists r. apply dict_set_other; [done |]. cbn. congruence.
    + intros r' Hr'.
      apply dict_set_elem_of_other in Hr' as [[= ? ?]|[Hin _]]; [done | | done].
      by apply Hall.
Qed.

(** X24: The period that an alert row carries.  For an alert whose period
    instants can all be converted, the rows that the alert writer keys
    under the alert id and the languages of the alert carry the header
    time of the feed as creation time; as start of the period the earliest
    of the starts that are present among the active periods of the alert
    (an instant outside the years 1 to 9999 counts as absent), and the
    header time when none is present; as end the latest of the ends that
    are present, and none when none is. *)
Theorem alert_period_bounds (rf : Reference) (header_dt : option Z)
    (acc : AlertBatch * DimLookup) (entity : FeedEntity) (alert : AlertPayload)
    (language : string) :
  fe_alert entity = Some alert → fe_id entity ≠ "" →
  (∀ period, period ∈ al_active_period alert → period_converts period) →
  NoDup (base_rows acc.1).*1 →
  language ∈ alert_languages alert →
  let rows := base_rows (alert_step rf header_dt acc entity).1 in
  let starts :=
    (fun p => _epoch_to_datetime_field (ap_start p)) <$> al_active_period alert in
  let ends :=
    (fun p => _epoch_to_datetime_field (ap_end p)) <$> al_active_period alert in
  (∃ row, ((fe_id entity, language), row) ∈ rows)
  ∧ ∀ row, ((fe_id entity, language), row) ∈ rows →
      ar_created_at_utc row = header_dt
      ∧ ((∀ value, Some value ∉ starts) → ar_active_start_utc row = header_dt)
      ∧ ((∀ value, Some value ∉ ends) → ar_active_end_utc row = None)
      ∧ (∀ value, Some value ∈ starts →
           ∃ least, ar_active_start_utc row = Some least
                    ∧ Some least ∈ starts ∧ least ≤ value)
      ∧ (∀ value, Some value ∈ ends →
           ∃ greatest, ar_active_end_utc row = Some greatest
                       ∧ Some greatest ∈ ends ∧ value ≤ greatest).
Proof.
  intros Halert Hid _ Hnodup Hlanguage. cbn zeta.
  set (starts := (fun p => _epoch_to_datetime_field (ap_start p))
                 <$> al_active_period alert).
  set (ends := (fun p => _epoch_to_datetime_field (ap_end p))
               <$> al_active_period alert).
  set (P := fun row : AlertRow =>
              ar_created_at_utc row = header_dt
              ∧ ar_active_start_utc row = min_default starts header_dt
              ∧ ar_active_end_utc row = max_default ends None).
  assert ((∃ row, ((fe_id entity, language), row)
                  ∈ base_rows (alert_step rf header_dt acc entity).1)
          ∧ ∀ row, ((fe_id entity, language), row)
                   ∈ base_rows (alert_step rf header_dt acc entity).1 → P row)
    as [Hexists Hall].
  { unfold alert_step. rewrite Halert.
    destruct (String.eqb_spec (fe_id entity) "") as [|_]; [done |].
    destruct acc as [batch lk]. rewrite informed_steps_base. cbn [fst base_rows].
    cbn [fst] in Hnodup. unfold alert_languages in Hlanguage.
    destruct (al_translations alert) as [|first others].
    - apply list_elem_of_singleton in Hlanguage as ->.
      apply (translations_rows (fe_id entity)
               (fun translation =>
                  {| ar_message := tr_text translation;
                     ar_effect := al_effect alert;
                     ar_cause := al_cause alert;
                     ar_active_start_utc := min_default starts header_dt;
                     ar_active_end_utc := max_default ends None;
                     ar_created_at_utc := header_dt |})
               alert_language P
               [ {| tr_language := Some "und"; tr_text := None |} ]);
        [done | done |]. apply list_elem_of_singleton. reflexivity.
    - by apply (translations_rows (fe_id entity)
                  (fun translation =>
                     {| ar_message := tr_text translation;
                        ar_effect := al_effect alert;
                        ar_cause := al_cause alert;
                        ar_active_start_utc := min_default starts header_dt;
                        ar_active_end_utc := max_default ends None;
                        ar_created_at_utc := header_dt |})
                  alert_language P (first :: others)). }
  split; [done |]. intros row Hrow. destruct (Hall row Hrow) as (-> & -> & ->).
  destruct (min_max_default_spec starts header_dt) as [Hnone Hsome].
  destruct (min_max_default_spec ends None) as [Hnone' Hsome'].
  split; [done |]. split; [by intros [? _]%Hnone |]. split; [by intros [_ ?]%Hnone' |].
  split.
  - intros value (least & greatest & -> & _ & Hin & _ & Hle)%Hsome.
    exists least. split; [done |]. split; [done | lia].
  - intros value (least & greatest & _ & -> & _ & Hin & Hle)%Hsome'.
    exists greatest. split; [done |]. split; [done | lia].
Qed.

Lemma alert_period_bounds_witness :
  fe_alert (alert_entity "a1" sample_alert) = Some sample_alert
  ∧ fe_id (alert_entity "a1" sample_alert) ≠ ""
  ∧ (∀ period, period ∈ al_active_period sample_alert → period_converts period)
  ∧ NoDup (base_rows (AlertBatch_empty, DimLookup_init true).1).*1
  ∧ "es" ∈ alert_languages sample_alert
  ∧ ∀ row, (("a1", "es"), row)
           ∈ base_rows (alert_step sample_static (Some 80)
                          (AlertBatch_empty, DimLookup_init true)
                          (alert_entity "a1" sample_alert)).1 →
      ar_created_at_utc row = Some 80
      ∧ ∃ least, ar_active_start_utc row = Some least ∧ least ≤ 1700000000.
Proof.
  assert (fe_alert (alert_entity "a1" sample_alert) = Some sample_alert) as Halert
    by reflexivity.
  assert (fe_id (alert_entity "a1" sample_alert) ≠ "") as Hid by done.
  assert (∀ period, period ∈ al_active_period sample_alert → period_converts period)
    as Hperiods.
  { intros period ->%list_elem_of_singleton. split; [by intros t [= <-] | done]. }
  assert (NoDup (base_rows (AlertBatch_empty, DimLookup_init true).1).*1) as Hnodup
    by constructor.
  assert ("es" ∈ alert_languages sample_alert) as Hlanguage.
  { apply list_elem_of_singleton. reflexivity. }
  split; [exact Halert |]. split; [exact Hid |]. split; [exact Hperiods |].
  split; [exact Hnodup |]. split; [exact Hlanguage |]. intros row Hrow.
  destruct (alert_period_bounds sample_static (Some 80)
              (AlertBatch_empty, DimLookup_init true) (alert_entity "a1" sample_alert)
              sample_alert "es" Halert Hid Hperiods Hnodup Hlanguage) as [_ Hall].
  destruct (Hall row Hrow) as (Hcreated & _ & _ & Hstart & _).
  split; [exact Hcreated |].
  destruct (Hstart 1700000000) as (least & Hleast & _ & Hle).
  { apply list_elem_of_singleton. reflexivity. }
  exists least. split; [exact Hleast | exact Hle].
Defined.

(** * The missing-data report of a cycle *)

(** ** The resolver along the write phase *)








(** ** The timetables the write phase asks for *)








(** ** The report at the end of the write phase *)









